(* ===== verification/_CoqProject ===== *)
-Q . S2P
Prelude.v
Strconv.v
Utf8.v
Strings.v
Level.v
Float.v
GoTime.v
Buffer.v
Entry.v
Values.v
Field.v
Encoder.v
Json.v
Escape.v
JsonTree.v
Base64.v
JsonEncoder.v
JsonSpec.v
JsonProofs.v
JsonTheorems.v
Memory.v
Console.v
Sampler.v
Testing.v
WriteSyncer.v
Concurrent.v
ConcurrentTheorems.v
LazyRace.v
Guarded.v
Stacktrace.v
MockClock.v
Effects.v
Core.v
CoreProofs.v
Frameless.v
JsonCore.v
Encoders.v
Observer.v
CoreTheorems.v
Logger.v
LoggerTheorems.v
LastWords.v
LadIO.v
Sugar.v
SugarTheorems.v
Sinks.v
LockedSink.v
Config.v
ConfigTheorems.v
TestLogger.v
Global.v
SharedState.v
Ladkit.v
Grpc.v
Http.v
Slog.v
Readme.v
