(* ===== verification/Prelude.v ===== *)
(** * A verification of the lad logging library

    lad is a structured, levelled logging library.  This development models it
    function by function and proves what its users rely on: what is logged is
    written, once, whole, as valid JSON, to the destinations whose level it
    reaches, and nothing a program logs takes the program down.

    ** How the program is put together

    A [Logger] (logger.go, options.go) or the loosely typed [SugaredLogger]
    (sugar.go) turns a call into an [Entry] with fields (ladcore/entry.go,
    ladcore/field.go, field.go, array.go), annotated with its caller and stack
    trace (internal/stacktrace), and offers it to a [Core].  Cores (ladcore/core.go,
    tee.go, hook.go, increase_level.go, lazy_with.go, sampler.go,
    ladtest/observer) decide by level, register themselves with a [CheckedEntry],
    and on [Write] encode the entry with an [Encoder]
    (ladcore/json_encoder.go, console_encoder.go, memory_encoder.go) and give the
    bytes to a [WriteSyncer] (ladcore/write_syncer.go,
    buffered_write_syncer.go).  config.go, sink.go, writer.go, encoder.go and
    ladkit build such a pipeline; global.go, ladio, ladgrpc, exp/zapslog and
    http_handler.go connect it to other programs.

    ** The language and its library

    [Prelude]: strings as lists of bytes, machine integers as [Z] with their
    wrap-around written out, the hint database [lad], shared lemmas.
    [Strconv], [Utf8], [Strings], [Float], [GoTime], [Base64], [Json]: what the
    code uses of strconv, unicode/utf8, strings, float64 arithmetic and its
    printing, time, encoding/base64, and an RFC 8259 parser that knows nothing of
    the encoder.  bufio is in [WriteSyncer], the log package in [Global].

    Tables and code outside the sources are classes, assumed only where a
    theorem needs them: [UnicodeTables], [TimeFormat] (Time.Format),
    [GoRuntime] (panic texts), [GoCompare] (interface equality), [Fmt],
    [Sprint], [FprintElem], [Quoting], [QuotingByte] (fmt), [MultiErr]
    (go.uber.org/multierr), [Frames] (the runtime's symbol table), [UrlLib]
    (net/url), [StdLog] (the header of a standard log line), [SlogRuntime],
    [JsonLib] (encoding/json).  Their laws are the documented behaviour of that
    code, and each has an example instance that the witnesses use.

    ** Encoding

    [Level], [Buffer], [Entry], [Values], [Field], [Encoder] hold the data and
    the constructors.  A marshaler, being code that sees an encoder only through
    its interface, is a tree of calls ([objm], [arrm]); an encoder interprets it.
    [JsonEncoder] is json_encoder.go method by method, with the pools of encoders
    and buffers.  [JsonSpec] says which tree of members an entry denotes,
    [JsonProofs] that the encoder prints this tree, [JsonTree] and [Escape] that
    a printed tree is read back by the parser, rune by rune.  [JsonTheorems] puts
    them together for every encoder reachable by [With], and shows that the
    state of the pools never shows in the output.  [Memory] and [Console] do the
    same for the other two encoders, against the same specification.  [Field]
    shows that no field [Any] makes can fail a type assertion or panic.

    ** Delivering

    [WriteSyncer]: devices that may fail or take too little at any call, the
    multi-writer, and the buffered syncer with its flush loop.  Over any device,
    sequences of writes, syncs, ticks and stops neither reorder nor split
    messages; until the device fails, every message is delivered by the next
    flush, and from then on every write, sync and stop says so.  [Concurrent] is the buffered
    syncer used by any number of goroutines: the critical sections in small
    steps, the mutex, the flush loop, its ticks and the channels that end it, with
    schedules as lists of events.  [ConcurrentTheorems] shows that every schedule
    amounts to a sequence of the operations of [WriteSyncer], that the messages of
    all goroutines arrive whole, and that no schedule deadlocks.  [LazyRace] does
    the same for the lazy core and its sync.Once.  [Guarded] is the general case:
    the class of objects behind a sync.RWMutex, whose critical sections are lists
    of small steps, and goroutines that call them; every schedule is explained by
    a sequence of whole calls, those of the goroutines and no others, with the
    results they returned and in an order that respects real time ([explains]),
    and every run ends with all calls returned.  Its instances are the locked sink in [LockedSink], where
    goroutines that log through JSON cores never tear or mix lines, and in
    [SharedState] the logs of an observer, the global loggers and the registry
    of encoders; a section run to its end is in each case the operation of the
    sequential model.  [Sampler]: the counters stay
    in their array, a burst is thinned as documented, and under every
    interleaving of the atomic operations of concurrent calls (module [Race], a
    step relation) exactly one opens a window.  [MockClock] and [Testing] are the
    test doubles, and the scaling of test timeouts.

    ** Logging

    [Effects] is a monad over the shared heap: atomic levels, devices, counters,
    observed logs, lazy cores, calls of user hooks, pending times, the call
    stack.  A call can return, panic, exit, end its goroutine or hang.  [Core] has the cores as
    one inductive type with their mutual recursion tied by the height of a core,
    for which [CoreProofs] proves the equations of the source.  What a core needs
    of its encoder is the class [EncoderLaws]; the theorems of [CoreTheorems] are
    proved against it, and [JsonCore] and [Encoders] discharge it.  [Logger],
    [LoggerTheorems], [Sugar], [SugarTheorems], [LadIO] model the front ends, with
    callers computed from the call stack; [Frameless] shows what is independent
    of it.  A call at a terminal level returns only when a hook the user set
    returned.  [LastWords] follows a fatal call through the logger, the core and the
    buffered syncer: what is in the buffer reaches the device before the program
    ends.  [Observer] is the test core with its queries; its map of the fields is
    compared with the object the JSON encoder prints, for entries whose reflected
    values can be encoded.

    ** Building and connecting

    [Encoders] and [Sinks] are the two registries, [Config] and [ConfigTheorems]
    the builder: all or nothing is opened, and the production preset logs JSON.
    [Global] has the global loggers and the bridge from the log package,
    [Ladkit] the shortcut for consoles and files, [Grpc], [Http] and [Slog] the
    adapters.  [TestLogger] is the logger that writes to the log of a test.

    [Readme] is the program that makes the tables of the README from the output
    of the benchmarks: the lines of the output are read back as they were printed,
    and the table has every measured library once, in order, whatever the order
    of the map they are kept in.

    ** Bounds

    Fuel stands for loops that are not structural.  It is a length of the input
    where every round consumes a byte ([runes], [escape], [jparse], TrimSpace,
    ParseDuration, the line splitter, decimal digits), the length of the call stack where the
    stack capture doubles its buffer, the height of a core for core operations,
    and the exact number of digits where [Float] looks for the shortest decimal.
    The theorems about these functions hold without a bound on their input.
    The loop of bufio.Writer may not end over a writer that makes no progress:
    it gets two rounds per byte, running out is a hang, and the theorems about
    buffered syncers include that they return.  [MockClock.Add] takes its fuel
    as an argument, and its theorem says how much is enough.

    ** What is not modelled

    Memory ordering: the concurrent models interleave atomic steps.  They cover
    the sampler's counters, the buffered and the locked syncer, the lazy core,
    observed logs, the global loggers and the encoder registry; elsewhere (the
    sink registry, the mock clock, atomic levels) what a mutex or an atomic
    protects is one step.  The lock of [Guarded] admits waiting goroutines in any
    order, which includes the orders of sync.RWMutex.  Of sync.Pool only that it hands
    out something put back or something new.  The capacity of buffers.  Decoding
    of configurations from JSON or YAML, and the default reflected encoder, which
    are encoding/json; the rotation of files by lumberjack; the system's ticker;
    running go test and text/template in the README generator, and its main.

    The result of a sync.Once in a lazy core is not stored but computed again
    from the fields; the theorems about lazy cores show that this is the core the
    first use made.  A caller skip so negative that it reaches into the logger's
    own frames counts as zero, and a stack has one frame per program counter, as
    when nothing is inlined.  The stack pool hands out a stack with room for 64,
    and [Stacktrace] shows that its size does not matter.  Sink
    factories that users register return a sink or an error, depending on the URL
    alone; they do not panic or return a nil sink without an error.  The lines of
    go test that the README theorem starts from have whole nanoseconds; the
    generator itself is modelled for any line, decimals included.

    The benchmarks are test code.  The remaining files hold documentation or imports
    that pin tools. *)
From Stdlib Require Export ZArith Lia Strings.String Strings.Byte.
From stdpp Require Export base list numbers gmap strings.

Open Scope Z_scope.

(** ** Automation shared by the development *)

(** Lemmas that close the recurring side conditions (ranges of machine
    integers, lengths, last bytes). *)
Create HintDb lad discriminated.

(** Unconditional simplifications, for [autorewrite with lad_simpl]. *)
Create Rewrite HintDb lad_simpl.

(** Break the booleans and options a definition branches on. *)
Ltac split_match :=
  repeat match goal with
  | |- context [match ?x with _ => _ end] => destruct x eqn:?
  end.

(** Concatenations to the right, with the known bytes in front. *)
Ltac app_norm := repeat (progress (rewrite <- ?app_assoc; cbn [app])).

(** Turn the boolean comparisons of the context into propositions. *)
Ltac zbool :=
  repeat match goal with
  | H : context [Z.ltb ?a ?b] |- _ => destruct (Z.ltb_spec a b)
  | H : context [Z.leb ?a ?b] |- _ => destruct (Z.leb_spec a b)
  | H : context [Z.eqb ?a ?b] |- _ => destruct (Z.eqb_spec a b)
  | |- context [Z.ltb ?a ?b] => destruct (Z.ltb_spec a b)
  | |- context [Z.leb ?a ?b] => destruct (Z.leb_spec a b)
  | |- context [Z.eqb ?a ?b] => destruct (Z.eqb_spec a b)
  end.

(** ** Bytes and Go strings *)

Abbreviation byte := Byte.byte.
Abbreviation gostring := (list byte).

(** A Go string literal as the bytes of its source text. *)
Definition go (s : string) : gostring := list_byte_of_string s.
Arguments go s%_string.

#[export] Instance byte_eq_decision : EqDecision byte := Byte.byte_eq_dec.

#[export] Program Instance byte_countable : Countable byte :=
  inj_countable Byte.to_N Byte.of_N _.
Next Obligation. intros b. apply Byte.of_to_N. Qed.

(** The value of a byte, and Go's conversion [byte(z)]. *)
Definition bz (b : byte) : Z := Z.of_N (Byte.to_N b).
Definition zb (z : Z) : byte :=
  match Byte.of_N (Z.to_N (z mod 256)) with Some b => b | None => Byte.x00 end.

Definition beq (a b : byte) : bool := bool_decide (a = b).
Definition streq (a b : gostring) : bool := bool_decide (a = b).

(** The string is not the empty one. *)
Definition nonempty (s : gostring) : bool := negb (streq s []).

Lemma bz_range b : 0 <= bz b < 256.
Proof. unfold bz. pose proof (Byte.to_N_bounded b). lia. Qed.

Lemma zb_bz b : zb (bz b) = b.
Proof. destruct b; reflexivity. Qed.

Lemma bz_zb z : bz (zb z) = z mod 256.
Proof.
  unfold bz, zb.
  pose proof (Z.mod_pos_bound z 256 eq_refl) as Hm.
  destruct (Byte.of_N (Z.to_N (z mod 256))) as [b|] eqn:E.
  - apply Byte.to_of_N in E. rewrite E. lia.
  - apply Byte.of_N_None_iff in E. lia.
Qed.

Lemma bz_zb_small z : 0 <= z < 256 -> bz (zb z) = z.
Proof. intros. rewrite bz_zb. apply Z.mod_small. lia. Qed.

Lemma bz_inj a b : bz a = bz b -> a = b.
Proof. intros H. rewrite <- (zb_bz a), <- (zb_bz b). by rewrite H. Qed.

Lemma beq_true a b : beq a b = true <-> a = b.
Proof. apply bool_decide_eq_true. Qed.

Lemma beq_refl a : beq a a = true.
Proof. by apply beq_true. Qed.

Lemma beq_false a b : beq a b = false <-> a <> b.
Proof. apply bool_decide_eq_false. Qed.

Lemma streq_true a b : streq a b = true <-> a = b.
Proof. apply bool_decide_eq_true. Qed.

Lemma streq_refl a : streq a a = true.
Proof. by apply streq_true. Qed.

#[export] Hint Resolve bz_range : lad.
#[export] Hint Rewrite zb_bz beq_refl streq_refl : lad_simpl.

(** A fact about one byte is decided by running through the 256 bytes. *)
Ltac byte_cases b := destruct b; try reflexivity; try discriminate; try congruence.

(** ** Machine integers

    A [w]-bit integer is the integer it denotes; every conversion and every
    arithmetic operation of the code that can overflow goes through one of
    these two wrap-around functions. *)
Definition wrapU (w : Z) (z : Z) : Z := z mod 2 ^ w.
Definition wrapS (w : Z) (z : Z) : Z := (z + 2 ^ (w - 1)) mod 2 ^ w - 2 ^ (w - 1).

Abbreviation int8 := (wrapS 8).
Abbreviation int16 := (wrapS 16).
Abbreviation int32 := (wrapS 32).
Abbreviation int64 := (wrapS 64).
Abbreviation uint8 := (wrapU 8).
Abbreviation uint16 := (wrapU 16).
Abbreviation uint32 := (wrapU 32).
Abbreviation uint64 := (wrapU 64).

Definition inU (w z : Z) : Prop := 0 <= z < 2 ^ w.
Definition inS (w z : Z) : Prop := - 2 ^ (w - 1) <= z < 2 ^ (w - 1).

Lemma wrapU_range w z : 0 <= w -> inU w (wrapU w z).
Proof. intros Hw. apply Z.mod_pos_bound. lia. Qed.

Lemma wrapU_id w z : inU w z -> wrapU w z = z.
Proof. intros H. apply Z.mod_small. exact H. Qed.

Lemma pow2_half w : 0 < w -> 2 ^ w = 2 * 2 ^ (w - 1).
Proof. intros Hw. rewrite <- Z.pow_succ_r by lia. f_equal. lia. Qed.

Lemma wrapS_range w z : 0 < w -> inS w (wrapS w z).
Proof.
  intros Hw. unfold inS, wrapS.
  pose proof (Z.mod_pos_bound (z + 2 ^ (w - 1)) (2 ^ w) ltac:(lia)).
  rewrite (pow2_half w) in * by lia. lia.
Qed.

Lemma wrapS_id w z : 0 < w -> inS w z -> wrapS w z = z.
Proof.
  intros Hw Hz. unfold inS, wrapS in *. rewrite Z.mod_small; [lia|].
  rewrite (pow2_half w) by lia. lia.
Qed.

(** Reinterpreting the same bits as signed and back loses nothing: this is
    what carrying an unsigned value in an [int64] relies on. *)
Lemma wrapU_wrapS w v z : 0 < v <= w -> wrapU v (wrapS w z) = wrapU v z.
Proof.
  intros Hv. unfold wrapU, wrapS.
  rewrite Zminus_mod, Z.mod_mod_divide.
  - rewrite <- Zminus_mod. f_equal. lia.
  - exists (2 ^ (w - v)). rewrite <- Z.pow_add_r by lia. f_equal. lia.
Qed.

Lemma wrapS_wrapS w v z : 0 < v <= w -> wrapS v (wrapS w z) = wrapS v z.
Proof.
  intros Hv. unfold wrapS at 1 3. f_equal.
  change ((wrapS w z + 2 ^ (v - 1)) mod 2 ^ v) with
    (wrapU v (wrapS w z + 2 ^ (v - 1))).
  unfold wrapU. rewrite Zplus_mod.
  change (wrapS w z mod 2 ^ v) with (wrapU v (wrapS w z)).
  rewrite wrapU_wrapS by lia. unfold wrapU. by rewrite <- Zplus_mod.
Qed.

#[export] Hint Resolve wrapU_range wrapS_range : lad.

(** ** Lists *)

Section Lists.
Context {A : Type}.
Implicit Types (l : list A) (P : A -> bool).

Lemma last_app_cons l x l' : last (l ++ x :: l') = last (x :: l').
Proof.
  revert x. induction l as [|y l IH]; intros x; [done|].
  cbn [app]. rewrite <- (IH x). destruct (l ++ x :: l') eqn:E; [|done].
  destruct l; discriminate.
Qed.

Lemma last_app_nonempty l l' : l' <> [] -> last (l ++ l') = last l'.
Proof. destruct l'; [done|]. intros _. apply last_app_cons. Qed.

Lemma take_drop_split l i j :
  (i <= j)%nat -> take j l = take i l ++ take (j - i) (drop i l).
Proof.
  intros H. rewrite <- (take_drop i (take j l)).
  rewrite take_take, skipn_firstn_comm. by rewrite Nat.min_l by lia.
Qed.
Lemma Forall_mp (P Q : A -> Prop) l :
  Forall (fun x => P x -> Q x) l -> Forall P l -> Forall Q l.
Proof. induction 1; intros H1; inv H1; constructor; auto. Qed.

Lemma forallb_ext_in (f g : A -> bool) l :
  (forall x, In x l -> f x = g x) -> forallb f l = forallb g l.
Proof.
  induction l as [|x l IH]; intros H; [done|]. cbn. rewrite H, IH; [done| |by left].
  intros y Hy. apply H. by right.
Qed.
End Lists.

Lemma sum_insert {A} (f : A -> nat) l i x y :
  l !! i = Some x -> (list_sum (map f (<[i := y]> l)) + f x = list_sum (map f l) + f y)%nat.
Proof.
  unfold list_sum. revert i. induction l as [|z l IH]; intros [|i] Hi; [done|done|by simplify_eq/=; lia|].
  specialize (IH i Hi). change (<[S i := y]> (z :: l)) with (z :: <[i := y]> l). rewrite !map_cons.
  cbn [fold_right] in *. lia.
Qed.

Lemma concat_map_concat {A} (l : list (list (list A))) : concat (map (@concat A) l) = concat (concat l).
Proof. induction l as [|x l IH]; [done|]. cbn. by rewrite concat_app, IH. Qed.

Lemma some_exists {A} (o : option A) : match o with Some _ => true | None => false end = true -> exists x, o = Some x.
Proof. destruct o; [eauto|done]. Qed.

(** A step of a list is a step of one of its elements; it ends when the
    elements' steps do. *)
Definition insert_step {A} (R : A -> A -> Prop) (l' l : list A) : Prop :=
  exists i x y, l !! i = Some x /\ R y x /\ l' = <[i := y]> l.

Lemma insert_step_Acc {A} (R : A -> A -> Prop) l : Forall (Acc R) l -> Acc (insert_step R) l.
Proof.
  induction 1 as [|x l Hx _ IH].
  - constructor. by intros l' (i & x & y & Hi & _).
  - revert l IH. induction Hx as [x _ IHx]. intros l Hl. induction Hl as [l Hl IHl].
    constructor. intros l' (i & z & y & Hi & HR & ->). destruct i as [|i]; cbn in *.
    + simplify_eq. apply IHx; [done|]. by constructor.
    + apply IHl. by exists i, z, y.
Qed.

#[export] Hint Rewrite @last_snoc : lad_simpl.

(** ** Results of Go calls

    A call returns a value or panics with one; the state it acted on is
    returned beside the outcome, because a Go panic does not undo writes. *)
Inductive outcome (A : Type) : Type :=
| Ret (a : A)
| Panic (v : gostring).
Arguments Ret {A} a.
Arguments Panic {A} v.

Definition returned {A} (o : outcome A) : bool :=
  match o with Ret _ => true | Panic _ => false end.
