(* ===== verification/Strconv.v ===== *)
(** * Strconv

    The decimal formatters of Go's [strconv] that [buffer/buffer.go] and
    [ladcore] call ([AppendInt], [AppendUint], [AppendBool], base 10), and
    their reading back. *)
From S2P Require Import Prelude.
Open Scope Z_scope.

(** ** Formatting *)

Definition digit (d : Z) : byte := zb (48 + d).
Definition is_digit (b : byte) : bool := (48 <=? bz b) && (bz b <=? 57).
Definition digit_val (b : byte) : Z := bz b - 48.

(** Least significant digit first, pushed onto [acc]. *)
Fixpoint digits (fuel : nat) (z : Z) (acc : gostring) : gostring :=
  match fuel with
  | O => acc
  | S f =>
      let acc' := digit (z mod 10) :: acc in
      if z <? 10 then acc' else digits f (z / 10) acc'
  end.

(** [strconv.AppendUint(nil, z, 10)]; dividing by 10 removes at least one
    bit, so [log2 z + 1] rounds are enough. *)
Definition FormatUint (z : Z) : gostring := digits (S (Z.to_nat (Z.log2 z))) z [].

(** [strconv.AppendInt(nil, z, 10)] *)
Definition FormatInt (z : Z) : gostring :=
  if z <? 0 then Byte.x2d :: FormatUint (- z) else FormatUint z.

(** [strconv.AppendBool(nil, b)] *)
Definition FormatBool (b : bool) : gostring := if b then go "true" else go "false".

(** ** Reading back *)

Definition step_digit (a : Z) (b : byte) : Z := 10 * a + digit_val b.
Definition ParseUint (s : gostring) : Z := fold_left step_digit s 0.
Definition ParseInt (s : gostring) : Z :=
  match s with
  | b :: r => if beq b Byte.x2d then - ParseUint r else ParseUint s
  | [] => 0
  end.

(** ** [strconv.Atoi] *)

Inductive num_error : Type := ErrSyntax | ErrRange.

(** The loop of [ParseUint] for 64 bits. *)
Fixpoint parse_uint64 (s : gostring) (n : Z) : Z + num_error :=
  match s with
  | [] => inl n
  | c :: s =>
      if is_digit c
      then if 2 ^ 64 / 10 + 1 <=? n then inr ErrRange
           else let n1 := step_digit n c in
                if 2 ^ 64 - 1 <? n1 then inr ErrRange else parse_uint64 s n1
      else inr ErrSyntax
  end.

Definition Atoi (s : gostring) : Z + num_error :=
  let '(neg, ds) := match s with
                    | c :: r => if beq c Byte.x2b then (false, r) else if beq c Byte.x2d then (true, r) else (false, s)
                    | [] => (false, s)
                    end in
  match ds with
  | [] => inr ErrSyntax
  | _ => match parse_uint64 ds 0 with
         | inr e => inr e
         | inl un =>
             if negb neg && (2 ^ 63 <=? un) then inr ErrRange
             else if neg && (2 ^ 63 <? un) then inr ErrRange
             else inl (if neg then - un else un)
         end
  end.

(** ** Facts *)

Lemma bz_digit d : 0 <= d < 10 -> bz (digit d) = 48 + d.
Proof. intros. unfold digit. apply bz_zb_small. lia. Qed.

Lemma digit_is_digit d : 0 <= d < 10 -> is_digit (digit d) = true.
Proof. intros H. unfold is_digit. rewrite bz_digit by lia. lia. Qed.

Lemma digits_fold fuel z acc a :
  0 <= z < 2 ^ Z.of_nat fuel -> a = 0 ->
  fold_left step_digit (digits fuel z acc) a = fold_left step_digit acc z.
Proof.
  revert z acc. induction fuel as [|f IH]; intros z acc Hz ->.
  - cbn. f_equal. lia.
  - cbn [digits]. pose proof (Z.mod_pos_bound z 10 eq_refl).
    destruct (Z.ltb_spec z 10).
    + cbn. f_equal. unfold step_digit, digit_val.
      rewrite bz_digit, Z.mod_small by lia. lia.
    + rewrite IH; [|split|done].
      * cbn. f_equal. unfold step_digit, digit_val. rewrite bz_digit by lia.
        pose proof (Z_div_mod_eq_full z 10). lia.
      * apply Z.div_pos; lia.
      * apply Z.div_lt_upper_bound; [lia|].
        rewrite Nat2Z.inj_succ, Z.pow_succ_r in Hz by lia. lia.
Qed.

Lemma fuel_enough z : 0 <= z -> z < 2 ^ Z.of_nat (S (Z.to_nat (Z.log2 z))).
Proof.
  intros Hz. rewrite Nat2Z.inj_succ, Z2Nat.id by apply Z.log2_nonneg.
  destruct (Z.eq_dec z 0) as [->|]; [done|]. apply Z.log2_spec. lia.
Qed.

Lemma ParseUint_FormatUint z : 0 <= z -> ParseUint (FormatUint z) = z.
Proof.
  intros Hz. unfold ParseUint, FormatUint.
  by rewrite digits_fold by (auto using fuel_enough).
Qed.

Lemma digits_app fuel z acc : digits fuel z acc = digits fuel z [] ++ acc.
Proof.
  revert z acc. induction fuel as [|f IH]; intros z acc; [done|].
  cbn [digits]. destruct (z <? 10); [done|].
  rewrite IH, (IH _ [digit _]), <- app_assoc. done.
Qed.

Lemma digits_all_digit fuel z : 0 <= z -> forallb is_digit (digits fuel z []) = true.
Proof.
  revert z. induction fuel as [|f IH]; intros z Hz; [done|].
  cbn [digits]. pose proof (Z.mod_pos_bound z 10 eq_refl).
  destruct (Z.ltb_spec z 10).
  - cbn. rewrite digit_is_digit by lia. done.
  - rewrite digits_app, forallb_app, IH by (apply Z.div_pos; lia).
    cbn. rewrite digit_is_digit by lia. done.
Qed.

Lemma FormatUint_digits z : 0 <= z -> forallb is_digit (FormatUint z) = true.
Proof. apply digits_all_digit. Qed.

(** The most significant digit of a positive number is not zero. *)
Lemma digits_head fuel z :
  0 < z < 2 ^ Z.of_nat fuel ->
  exists d r, digits fuel z [] = digit d :: r /\ 0 < d < 10.
Proof.
  revert z. induction fuel as [|f IH]; intros z Hz; [cbn in Hz; lia|].
  cbn [digits]. destruct (Z.ltb_spec z 10).
  - exists z, []. rewrite Z.mod_small by lia. split; [done|lia].
  - destruct (IH (z / 10)) as (d & r & E & Hd).
    + split; [apply Z.div_str_pos; lia|].
      apply Z.div_lt_upper_bound; [lia|].
      rewrite Nat2Z.inj_succ, Z.pow_succ_r in Hz by lia. lia.
    + rewrite digits_app, E. exists d. eexists. split; [done|lia].
Qed.

Lemma FormatUint_head z :
  0 < z -> exists d r, FormatUint z = digit d :: r /\ 0 < d < 10.
Proof. intros Hz. apply digits_head. split; [lia|]. apply fuel_enough. lia. Qed.

Lemma FormatUint_nonempty z : FormatUint z <> [].
Proof.
  unfold FormatUint. cbn [digits]. destruct (z <? 10); [done|].
  rewrite digits_app. by destruct (digits _ _ _).
Qed.

Lemma ParseInt_FormatInt z : ParseInt (FormatInt z) = z.
Proof.
  unfold FormatInt. destruct (Z.ltb_spec z 0).
  - cbn [ParseInt]. rewrite beq_refl, ParseUint_FormatUint by lia. lia.
  - destruct (decide (z = 0)) as [->|]; [done|].
    destruct (FormatUint_head z) as (d & r & E & Hd); [lia|].
    unfold ParseInt. rewrite E.
    assert (beq (digit d) Byte.x2d = false) as ->.
    { apply beq_false. intros C%(f_equal bz). rewrite bz_digit in C by lia.
      change (bz Byte.x2d) with 45 in C. lia. }
    rewrite <- E. apply ParseUint_FormatUint. lia.
Qed.

Lemma fold_digits_lower ds a :
  forallb is_digit ds = true -> 0 <= a ->
  a * 10 ^ Z.of_nat (length ds) <= fold_left step_digit ds a.
Proof.
  revert a. induction ds as [|d ds IH]; intros a H Ha; cbn [fold_left length]; [lia|].
  cbn in H. apply andb_prop in H as [Hd H]. unfold is_digit in Hd.
  etrans; [|apply IH; [done|unfold step_digit, digit_val; lia]].
  rewrite Nat2Z.inj_succ, Z.pow_succ_r by lia. unfold step_digit, digit_val.
  assert (0 <= 10 ^ Z.of_nat (length ds)) by (apply Z.pow_nonneg; lia). nia.
Qed.

(** A positive number is at least the power of ten its length announces. *)
Lemma FormatUint_length_lower z :
  0 < z -> 10 ^ (Z.of_nat (length (FormatUint z)) - 1) <= z.
Proof.
  intros Hz. destruct (FormatUint_head z Hz) as (d & r & E & Hd).
  pose proof (FormatUint_digits z ltac:(lia)) as Hall.
  pose proof (ParseUint_FormatUint z ltac:(lia)) as Hp.
  rewrite E in *. cbn [forallb] in Hall. apply andb_prop in Hall as [_ Hr].
  unfold ParseUint in Hp. cbn [fold_left] in Hp. rewrite <- Hp.
  etrans; [|apply fold_digits_lower; [done|]].
  - unfold step_digit at 1, digit_val. rewrite bz_digit by lia. cbn [length].
    replace (Z.of_nat (S (length r)) - 1) with (Z.of_nat (length r)) by lia.
    assert (0 <= 10 ^ Z.of_nat (length r)) by (apply Z.pow_nonneg; lia). nia.
  - unfold step_digit, digit_val. rewrite bz_digit by lia. lia.
Qed.

Lemma is_digit_range b : is_digit b = true -> 0 <= digit_val b < 10.
Proof. unfold is_digit, digit_val. lia. Qed.

Lemma fold_digits_grow ds a : forallb is_digit ds = true -> 0 <= a -> a <= fold_left step_digit ds a.
Proof.
  revert a. induction ds as [|d ds IH]; intros a Hd Ha; [cbn; lia|].
  cbn [forallb] in Hd. apply andb_prop in Hd as [Hd Hds]. pose proof (is_digit_range _ Hd).
  cbn [fold_left]. etrans; [|apply IH; [done|unfold step_digit; lia]]. unfold step_digit. lia.
Qed.

Lemma parse_uint64_digits ds a :
  forallb is_digit ds = true -> 0 <= a -> fold_left step_digit ds a < 2 ^ 64 ->
  parse_uint64 ds a = inl (fold_left step_digit ds a).
Proof.
  revert a. induction ds as [|d ds IH]; intros a Hd Ha Hlt; [done|].
  cbn [forallb] in Hd. apply andb_prop in Hd as [Hd Hds]. pose proof (is_digit_range _ Hd).
  cbn [parse_uint64 fold_left] in *. rewrite Hd.
  assert (step_digit a d = 10 * a + digit_val d) as Hs by done.
  pose proof (fold_digits_grow ds (step_digit a d) Hds) as Hg. change (2 ^ 64 / 10) with 1844674407370955161.
  rewrite (proj2 (Z.leb_gt _ _)) by lia. rewrite (proj2 (Z.ltb_ge _ _)) by lia. apply IH; [done|lia|done].
Qed.

Lemma FormatUint_first z : 0 <= z -> exists d r, FormatUint z = d :: r /\ is_digit d = true.
Proof.
  intros Hz. pose proof (FormatUint_digits z Hz) as Hd. destruct (FormatUint z) as [|d r] eqn:E.
  - by destruct (FormatUint_nonempty z).
  - exists d, r. cbn [forallb] in Hd. by apply andb_prop in Hd as [-> _].
Qed.

Lemma digit_neq d b : is_digit d = true -> is_digit b = false -> beq d b = false.
Proof. intros Hd Hb. apply beq_false. intros ->. congruence. Qed.

Lemma Atoi_FormatUint z : 0 <= z < 2 ^ 63 -> Atoi (FormatUint z) = inl z.
Proof.
  intros Hz. destruct (FormatUint_first z) as (d & r & E & Hd); [lia|].
  unfold Atoi. rewrite E, !(digit_neq d) by done. rewrite <- E.
  rewrite parse_uint64_digits; [|apply FormatUint_digits; lia|lia|].
  all: change (fold_left step_digit (FormatUint z) 0) with (ParseUint (FormatUint z));
    rewrite ParseUint_FormatUint by lia.
  - cbn [negb andb]. by rewrite (proj2 (Z.leb_gt _ _)) by lia.
  - lia.
Qed.
