(* ===== verification/Utf8.v ===== *)
(** * Utf8

    Go's [unicode/utf8] as the JSON escaper uses it: [DecodeRune] with its
    table of first bytes and accepted second bytes, [EncodeRune], the runes a
    Go string ranges over, and [bytes.ToLower]. *)
From S2P Require Import Prelude.
Open Scope Z_scope.

Definition RuneError : Z := 0xFFFD.
Definition RuneSelf : Z := 0x80.
Definition MaxRune : Z := 0x10FFFF.

Definition surrogate (r : Z) : bool := (0xD800 <=? r) && (r <=? 0xDFFF).

(** [utf8.ValidRune] *)
Definition ValidRune (r : Z) : bool :=
  (0 <=? r) && (r <=? MaxRune) && negb (surrogate r).

(** Length of the sequence a first byte announces and the range its second
    byte must lie in; [None] for a byte that starts no sequence. *)
Definition first_info (b : Z) : option (nat * Z * Z) :=
  if b <? 0x80 then Some (1%nat, 0, 0)
  else if b <? 0xC2 then None
  else if b <? 0xE0 then Some (2%nat, 0x80, 0xBF)
  else if b =? 0xE0 then Some (3%nat, 0xA0, 0xBF)
  else if b =? 0xED then Some (3%nat, 0x80, 0x9F)
  else if b <? 0xF0 then Some (3%nat, 0x80, 0xBF)
  else if b =? 0xF0 then Some (4%nat, 0x90, 0xBF)
  else if b <? 0xF4 then Some (4%nat, 0x80, 0xBF)
  else if b =? 0xF4 then Some (4%nat, 0x80, 0x8F)
  else None.

Definition in_range (lo hi b : Z) : bool := (lo <=? b) && (b <=? hi).
Definition cont (b : Z) : bool := in_range 0x80 0xBF b.

(** [utf8.DecodeRune]: the first rune and the bytes it takes; an invalid or
    truncated sequence is [(RuneError, 1)], the empty string [(RuneError, 0)]. *)
Definition DecodeRune (s : gostring) : Z * nat :=
  match s with
  | [] => (RuneError, 0%nat)
  | p0 :: t =>
      match first_info (bz p0) with
      | None => (RuneError, 1%nat)
      | Some (1%nat, _, _) => (bz p0, 1%nat)
      | Some (2%nat, lo, hi) =>
          match t with
          | b1 :: _ =>
              if in_range lo hi (bz b1)
              then ((bz p0 - 0xC0) * 64 + (bz b1 - 0x80), 2%nat)
              else (RuneError, 1%nat)
          | _ => (RuneError, 1%nat)
          end
      | Some (3%nat, lo, hi) =>
          match t with
          | b1 :: b2 :: _ =>
              if in_range lo hi (bz b1) && cont (bz b2)
              then ((bz p0 - 0xE0) * 4096 + (bz b1 - 0x80) * 64 + (bz b2 - 0x80), 3%nat)
              else (RuneError, 1%nat)
          | _ => (RuneError, 1%nat)
          end
      | Some (_, lo, hi) =>
          match t with
          | b1 :: b2 :: b3 :: _ =>
              if in_range lo hi (bz b1) && cont (bz b2) && cont (bz b3)
              then ((bz p0 - 0xF0) * 262144 + (bz b1 - 0x80) * 4096
                    + (bz b2 - 0x80) * 64 + (bz b3 - 0x80), 4%nat)
              else (RuneError, 1%nat)
          | _ => (RuneError, 1%nat)
          end
      end
  end.

(** [utf8.EncodeRune], [utf8.AppendRune] *)
Definition EncodeRune (r0 : Z) : gostring :=
  let r := if ValidRune r0 then r0 else RuneError in
  if r <? 0x80 then [zb r]
  else if r <? 0x800 then [zb (0xC0 + r / 64); zb (0x80 + r mod 64)]
  else if r <? 0x10000 then
    [zb (0xE0 + r / 4096); zb (0x80 + r / 64 mod 64); zb (0x80 + r mod 64)]
  else
    [zb (0xF0 + r / 262144); zb (0x80 + r / 4096 mod 64);
     zb (0x80 + r / 64 mod 64); zb (0x80 + r mod 64)].

(** The runes [for _, r := range s] visits. *)
Fixpoint runes_fuel (fuel : nat) (s : gostring) : list Z :=
  match fuel, s with
  | S f, _ :: _ => let '(r, n) := DecodeRune s in r :: runes_fuel f (drop n s)
  | _, _ => []
  end.
Definition runes (s : gostring) : list Z := runes_fuel (length s) s.

Definition utf8_encode (rs : list Z) : gostring := concat (map EncodeRune rs).

(** [string([]rune(s))]: what a string becomes when every invalid byte is
    replaced by U+FFFD. *)
Definition sanitize (s : gostring) : gostring := utf8_encode (runes s).

Definition valid_utf8 (s : gostring) : Prop := sanitize s = s.

(** ** Lower case *)

(** [unicode.ToLower] outside ASCII is a table of the standard library. *)
Class UnicodeTables := { unicode_lower : Z -> Z }.

(** Tables to evaluate examples with. *)
Definition exampleUnicode : UnicodeTables := {| unicode_lower r := r |}.

Definition lower_ascii (r : Z) : Z := if in_range 65 90 r then r + 32 else r.

Definition rune_ToLower `{UnicodeTables} (r : Z) : Z :=
  if r <? 0x80 then lower_ascii r else unicode_lower r.

Definition is_ascii (s : gostring) : bool := forallb (fun b => bz b <? 0x80) s.

(** [bytes.ToLower], [strings.ToLower]: byte by byte when the text is ASCII,
    rune by rune otherwise. *)
Definition ToLower `{UnicodeTables} (s : gostring) : gostring :=
  if is_ascii s then map (fun b => zb (lower_ascii (bz b))) s
  else utf8_encode (map rune_ToLower (runes s)).

(** ** Facts *)

(** Decide a goal about quotients and remainders by constants. *)
Ltac div_lia := Z.to_euclidean_division_equations; lia.

Ltac byte_value :=
  apply bz_inj; rewrite bz_zb_small; div_lia.

Ltac unfold_ranges :=
  unfold ValidRune, surrogate, MaxRune, RuneError, cont, in_range in *.

(** A decoded rune that is not the error report is a valid rune, and the
    bytes it took are exactly its encoding. *)
Lemma DecodeRune_encode s r n :
  DecodeRune s = (r, n) -> s <> [] -> (r <> RuneError \/ n <> 1%nat) ->
  ValidRune r = true /\ s = EncodeRune r ++ drop n s.
Proof.
  destruct s as [|p0 t]; [done|]. intros E _ Hok. cbn [DecodeRune] in E.
  pose proof (bz_range p0) as Hp0.
  unfold first_info in E.
  repeat match type of E with
  | context [if ?c then Some _ else _] => destruct c eqn:?
  | context [if ?c then None else _] => destruct c eqn:?
  end; simplify_eq; try (unfold RuneError in *; lia);
  repeat match type of E with
  | context [match ?l with [] => _ | _ => _ end] =>
      destruct l as [|? ?]; simplify_eq; try (unfold RuneError in *; lia)
  | context [if ?c then _ else _] => destruct c eqn:?; simplify_eq
  end; try (unfold RuneError in *; lia);
  repeat match goal with b : byte |- _ => unless (0 <= bz b < 256) by assumption;
    pose proof (bz_range b) end.
  all: match goal with |- ValidRune ?r = true /\ _ =>
         assert (ValidRune r = true) as Hv by (unfold_ranges; lia);
         split; [exact Hv|]; unfold EncodeRune; rewrite Hv; clear Hv end.
  all: unfold_ranges.
  all: repeat match goal with |- context [Z.ltb ?a ?b] => destruct (Z.ltb_spec a b) end;
       try lia.
  all: cbn [app drop]; repeat f_equal; byte_value.
Qed.

(** Encoding then decoding a valid rune gives it back, whatever follows. *)
Lemma DecodeRune_EncodeRune r rest :
  ValidRune r = true ->
  DecodeRune (EncodeRune r ++ rest) = (r, length (EncodeRune r)).
Proof.
  intros Hv. unfold EncodeRune. rewrite Hv. unfold_ranges.
  repeat match goal with |- context [if Z.ltb r ?b then _ else _] => destruct (Z.ltb_spec r b) end.
  all: cbn [app DecodeRune length].
  all: repeat match goal with |- context [bz (zb ?z)] =>
         rewrite (bz_zb_small z) by div_lia end.
  all: unfold first_info, cont, in_range.
  all: repeat match goal with
  | |- context [if ?a <? ?b then _ else _] => destruct (Z.ltb_spec a b); try div_lia
  | |- context [if ?a =? ?b then _ else _] => destruct (Z.eqb_spec a b); try div_lia
  end.
  all: repeat match goal with
  | |- context [if ?c then (_, 1%nat) else _] => idtac
  | |- context [if ?c then _ else (_, 1%nat)] =>
         replace c with true by (symmetry; div_lia)
  end.
  all: f_equal; div_lia.
Qed.

Lemma DecodeRune_size s r n :
  DecodeRune s = (r, n) -> s <> [] -> (1 <= n <= length s)%nat.
Proof.
  destruct s as [|p0 t]; [done|]. cbn [DecodeRune]. intros E _.
  destruct (first_info (bz p0)) as [[[[|[|[|[|]]]] ?] ?]|]; simplify_eq; cbn [length];
  repeat match type of E with
  | context [match ?l with [] => _ | _ => _ end] => destruct l as [|? ?]; simplify_eq
  | context [if ?c then _ else _] => destruct c; simplify_eq
  end; cbn [length]; lia.
Qed.

(** Induction over a string rune by rune. *)
Lemma rune_ind (P : gostring -> Prop) :
  P [] ->
  (forall s r n, s <> [] -> DecodeRune s = (r, n) -> P (drop n s) -> P s) ->
  forall s, P s.
Proof.
  intros H0 Hs s. induction s as [s IH] using (induction_ltof1 _ (@length byte)).
  unfold ltof in IH. destruct s as [|b t]; [done|].
  destruct (DecodeRune (b :: t)) as [r n] eqn:E.
  apply (Hs _ r n); [done|done|]. apply IH.
  pose proof (DecodeRune_size _ _ _ E ltac:(done)).
  rewrite length_drop. lia.
Qed.

Lemma runes_fuel_enough f s : (length s <= f)%nat -> runes_fuel f s = runes s.
Proof.
  unfold runes. revert f. induction s as [s IH] using (induction_ltof1 _ (@length byte)).
  unfold ltof in IH. intros f Hf. destruct s as [|b t]; [by destruct f|].
  destruct f as [|f]; [cbn in Hf; lia|]. cbn [runes_fuel length].
  destruct (DecodeRune (b :: t)) as [r n] eqn:E. f_equal.
  pose proof (DecodeRune_size _ _ _ E ltac:(done)) as Hn.
  assert (length (drop n (b :: t)) <= length t)%nat as Hl
    by (rewrite length_drop; cbn [length] in *; lia).
  rewrite (IH (drop n (b :: t))); [|cbn [length]; lia|cbn [length] in Hf; lia].
  symmetry. apply IH; [cbn [length]; lia|done].
Qed.

Lemma runes_unfold s :
  s <> [] ->
  runes s = fst (DecodeRune s) :: runes (drop (snd (DecodeRune s)) s).
Proof.
  destruct s as [|b t]; [done|]. intros _.
  destruct (DecodeRune (b :: t)) as [r n] eqn:E. cbn [fst snd].
  pose proof (DecodeRune_size _ _ _ E ltac:(done)) as Hn.
  unfold runes at 1. cbn [runes_fuel length]. rewrite E. f_equal.
  apply runes_fuel_enough. rewrite length_drop. cbn [length] in *. lia.
Qed.

Lemma DecodeRune_ascii b t : bz b < 0x80 -> DecodeRune (b :: t) = (bz b, 1%nat).
Proof.
  intros H. cbn [DecodeRune]. unfold first_info.
  by rewrite (proj2 (Z.ltb_lt _ _) H).
Qed.

Lemma runes_ascii b t : bz b < 0x80 -> runes (b :: t) = bz b :: runes t.
Proof. intros H. by rewrite runes_unfold, DecodeRune_ascii by done. Qed.

Lemma EncodeRune_nonempty r : EncodeRune r <> [].
Proof. unfold EncodeRune. by repeat case_match. Qed.

Lemma runes_EncodeRune r t :
  ValidRune r = true -> runes (EncodeRune r ++ t) = r :: runes t.
Proof.
  intros H. rewrite runes_unfold.
  - rewrite DecodeRune_EncodeRune by done. cbn [fst snd]. by rewrite drop_app_length.
  - intros [C _]%app_nil. by apply (EncodeRune_nonempty r).
Qed.

Lemma runes_utf8_encode rs :
  forallb ValidRune rs = true -> runes (utf8_encode rs) = rs.
Proof.
  induction rs as [|r rs IH]; intros H; [done|].
  cbn in H. apply andb_prop in H as [H1 H2].
  unfold utf8_encode. cbn [map concat]. rewrite runes_EncodeRune by done.
  f_equal. by apply IH.
Qed.

(** Every rune a string ranges over is valid (the error rune included). *)
Lemma runes_valid s : forallb ValidRune (runes s) = true.
Proof.
  induction s as [|s r n Hs E IH] using rune_ind; [done|].
  rewrite runes_unfold, E by done. cbn [fst snd forallb]. rewrite IH, andb_true_r.
  destruct (decide (r = RuneError)) as [->|]; [done|].
  by apply (DecodeRune_encode s r n); auto.
Qed.

Lemma runes_sanitize s : runes (sanitize s) = runes s.
Proof. apply runes_utf8_encode, runes_valid. Qed.

Lemma sanitize_valid s : valid_utf8 (sanitize s).
Proof. unfold valid_utf8, sanitize at 1. by rewrite runes_sanitize. Qed.

Lemma EncodeRune_ascii b : bz b < 0x80 -> EncodeRune (bz b) = [b].
Proof.
  intros H. pose proof (bz_range b). unfold EncodeRune.
  assert (ValidRune (bz b) = true) as -> by (unfold_ranges; lia).
  rewrite (proj2 (Z.ltb_lt _ _) H). by rewrite zb_bz.
Qed.

Lemma is_ascii_valid s : is_ascii s = true -> valid_utf8 s.
Proof.
  unfold valid_utf8, sanitize, utf8_encode. induction s as [|b t IH]; [done|].
  intros [H1 H2]%andb_prop. apply Z.ltb_lt in H1.
  rewrite runes_ascii by done. cbn [map concat].
  rewrite EncodeRune_ascii by done. cbn [app]. f_equal. by apply IH.
Qed.
