(* ===== verification/Strings.v ===== *)
(** * Strings

    What the sources use of the packages [strings] and [bytes]. *)
From S2P Require Import Prelude Utf8.
Open Scope Z_scope.

(** ** Searching and cutting *)

(** [strings.HasPrefix], the prefix first *)
Fixpoint has_prefix (p s : gostring) : bool :=
  match p, s with
  | [], _ => true
  | b :: p, c :: s => beq b c && has_prefix p s
  | _ :: _, [] => false
  end.

(** [strings.Contains] *)
Fixpoint contains (s sub : gostring) : bool :=
  has_prefix sub s || match s with [] => false | _ :: s => contains s sub end.

(** [strings.TrimSuffix(s, suffix)] *)
Definition TrimSuffix (s suffix : gostring) : gostring :=
  if has_prefix (rev suffix) (rev s) then take (length s - length suffix) s else s.

(** [strings.Split(s, sep)] for a separator of one byte: the pieces between
    separators, at least one. *)
Fixpoint Split (sep : byte) (s : gostring) : list gostring :=
  match s with
  | [] => [[]]
  | b :: s =>
      if beq b sep then [] :: Split sep s
      else match Split sep s with
           | l :: ls => (b :: l) :: ls
           | [] => [[b]]
           end
  end.

(** [strings.Join] *)
Fixpoint strings_Join (ls : list gostring) (sep : gostring) : gostring :=
  match ls with
  | [] => []
  | [l] => l
  | l :: ls => l ++ sep ++ strings_Join ls sep
  end.

(** [strings.ReplaceAll(s, b, "")] for one byte [b] *)
Definition remove_byte (b : byte) (s : gostring) : gostring := filter (fun c => c <> b) s.

(** [strings.TrimRight(s, "\n")], [bytes.TrimRight] *)
Fixpoint trim_newlines (s : gostring) : gostring :=
  match s with
  | [] => []
  | b :: s =>
      match trim_newlines s with
      | [] => if beq b Byte.x0a then [] else [b]
      | t => b :: t
      end
  end.

(** ** [bytes.TrimSpace] *)

(** [unicode.IsSpace] *)
Definition IsSpace (r : Z) : bool :=
  in_range 9 13 r || (r =? 32) || (r =? 0x85) || (r =? 0xA0) || (r =? 0x1680) || in_range 0x2000 0x200A r
  || (r =? 0x2028) || (r =? 0x2029) || (r =? 0x202F) || (r =? 0x205F) || (r =? 0x3000).

(** A byte that starts a rune. *)
Definition RuneStart (b : byte) : bool := negb (cont (bz b)).

(** The bytes of the last rune: back over at most three continuation bytes to
    one that starts a rune.  [rev_s] is the string from its end. *)
Fixpoint last_start (n : nat) (rev_s : gostring) : nat :=
  match n, rev_s with
  | S n, b :: rest => if RuneStart b then 1 else S (last_start n rest)
  | _, _ => 0
  end.

(** [utf8.DecodeLastRune] *)
Definition DecodeLastRune (s : gostring) : Z * nat :=
  match rev s with
  | [] => (RuneError, 0%nat)
  | b :: rest =>
      if bz b <? RuneSelf then (bz b, 1%nat)
      else
        let n := Nat.min (length s) (S (last_start 3 rest)) in
        let '(r, size) := DecodeRune (drop (length s - n) s) in
        if Nat.eqb size n then (r, size) else (RuneError, 1%nat)
  end.

(** The loops of [TrimFunc], for [unicode.IsSpace]; [fuel] is the length. *)
Fixpoint trim_left (fuel : nat) (s : gostring) : gostring :=
  match fuel, s with
  | S f, _ :: _ => let '(r, n) := DecodeRune s in if IsSpace r then trim_left f (drop n s) else s
  | _, _ => s
  end.

Fixpoint trim_right (fuel : nat) (s : gostring) : gostring :=
  match fuel, s with
  | S f, _ :: _ =>
      let '(r, n) := DecodeLastRune s in if IsSpace r then trim_right f (take (length s - n) s) else s
  | _, _ => s
  end.

Definition TrimSpace (s : gostring) : gostring :=
  let s := trim_left (length s) s in trim_right (length s) s.

(** ** Facts *)

Definition without (b : byte) (s : gostring) : Prop := Forall (fun c => c <> b) s.

Lemma Split_piece b l rest : without b l -> Split b (l ++ b :: rest) = l :: Split b rest.
Proof.
  induction 1 as [|c l Hc _ IH]; cbn [app Split]; [by rewrite beq_refl|]. rewrite IH.
  by rewrite (proj2 (beq_false _ _) Hc).
Qed.

Lemma Split_last b l : without b l -> Split b l = [l].
Proof.
  induction 1 as [|c l Hc _ IH]; cbn [Split]; [done|]. rewrite IH. by rewrite (proj2 (beq_false _ _) Hc).
Qed.

Lemma Split_nonempty b s : Split b s <> [].
Proof. destruct s as [|c s]; cbn; [done|]. destruct (beq c b); [done|]. by destruct (Split b s). Qed.

Lemma trim_newlines_line l b : b <> Byte.x0a -> trim_newlines ((l ++ [b]) ++ [Byte.x0a]) = l ++ [b].
Proof.
  intros Hb. induction l as [|c l IH]; cbn [app trim_newlines].
  - cbn. by rewrite (proj2 (beq_false _ _) Hb).
  - rewrite IH. by destruct l.
Qed.

Lemma has_prefix_app p s : has_prefix p (p ++ s) = true.
Proof. induction p as [|b p IH]; [done|]. cbn. by rewrite beq_refl, IH. Qed.

Lemma TrimSuffix_app s suffix : TrimSuffix (s ++ suffix) suffix = s.
Proof.
  unfold TrimSuffix. by rewrite rev_app_distr, has_prefix_app, length_app, Nat.add_sub, take_app_length.
Qed.

(** A byte that is a rune of its own, and no space. *)
Definition visible (b : byte) : bool := (bz b <? RuneSelf) && negb (IsSpace (bz b)).

Lemma trim_left_spaces k s f : trim_left (k + f) (repeat Byte.x20 k ++ s) = trim_left f s.
Proof.
  induction k as [|k IH]; [done|]. cbn [repeat app trim_left Nat.add]. by rewrite DecodeRune_ascii.
Qed.

Lemma trim_left_stop f b s : visible b = true -> trim_left f (b :: s) = b :: s.
Proof.
  intros [Hb Hs]%andb_prop. destruct f; [done|]. cbn [trim_left]. rewrite DecodeRune_ascii by (unfold RuneSelf in *; lia).
  by apply negb_true_iff in Hs as ->.
Qed.

Lemma trim_right_stop f s b : visible b = true -> trim_right f (s ++ [b]) = s ++ [b].
Proof.
  intros [Hb Hs]%andb_prop. destruct f; [done|].
  assert (DecodeLastRune (s ++ [b]) = (bz b, 1%nat)) as E
    by (unfold DecodeLastRune; rewrite rev_app_distr; cbn [rev app]; by rewrite Hb).
  destruct (s ++ [b]) eqn:Es; [done|]. cbn [trim_right]. rewrite E. by apply negb_true_iff in Hs as ->.
Qed.

Lemma TrimSpace_padded k a s b : visible a = true -> visible b = true ->
  TrimSpace (repeat Byte.x20 k ++ a :: s ++ [b]) = a :: s ++ [b].
Proof.
  intros Ha Hb. unfold TrimSpace. rewrite length_app, repeat_length, trim_left_spaces, trim_left_stop by done.
  by apply (trim_right_stop _ (a :: s)).
Qed.
