(* ===== verification/Level.v ===== *)
(** * Level

    [ladcore/level.go], [ladcore/level_strings.go], [internal/color] and the
    [AtomicLevel] of [level.go]: levels, their text forms, enablers, and the
    dynamic level shared by a tree of loggers. *)
From S2P Require Import Prelude Strconv Utf8.
Open Scope Z_scope.

(** ** Levels *)

(** [Level] is an [int8]. *)
Definition DebugLevel : Z := -1.
Definition InfoLevel : Z := 0.
Definition WarnLevel : Z := 1.
Definition ErrorLevel : Z := 2.
Definition DPanicLevel : Z := 3.
Definition PanicLevel : Z := 4.
Definition FatalLevel : Z := 5.
Definition _minLevel : Z := DebugLevel.
Definition _maxLevel : Z := FatalLevel.
Definition InvalidLevel : Z := _maxLevel + 1.

Definition supported (l : Z) : Prop := _minLevel <= l <= _maxLevel.

(** [l.Enabled(lvl)] *)
Definition Level_Enabled (l lvl : Z) : bool := l <=? lvl.

Definition Level_String (l : Z) : gostring :=
  if l =? DebugLevel then go "debug"
  else if l =? InfoLevel then go "info"
  else if l =? WarnLevel then go "warn"
  else if l =? ErrorLevel then go "error"
  else if l =? DPanicLevel then go "dpanic"
  else if l =? PanicLevel then go "panic"
  else if l =? FatalLevel then go "fatal"
  else go "Level(" ++ FormatInt l ++ go ")".

Definition CapitalString (l : Z) : gostring :=
  if l =? DebugLevel then go "DEBUG"
  else if l =? InfoLevel then go "INFO"
  else if l =? WarnLevel then go "WARN"
  else if l =? ErrorLevel then go "ERROR"
  else if l =? DPanicLevel then go "DPANIC"
  else if l =? PanicLevel then go "PANIC"
  else if l =? FatalLevel then go "FATAL"
  else go "LEVEL(" ++ FormatInt l ++ go ")".

Definition Level_MarshalText (l : Z) : gostring := Level_String l.

(** [unmarshalText] on a [*Level]: the level stored, or false and nothing. *)
Definition unmarshalText (text : gostring) : option Z :=
  if streq text (go "debug") then Some DebugLevel
  else if streq text (go "info") || streq text [] then Some InfoLevel
  else if streq text (go "warn") || streq text (go "warning") then Some WarnLevel
  else if streq text (go "error") then Some ErrorLevel
  else if streq text (go "dpanic") then Some DPanicLevel
  else if streq text (go "panic") then Some PanicLevel
  else if streq text (go "fatal") then Some FatalLevel
  else None.

Inductive level_error : Type :=
| errUnmarshalNilLevel
| errUnrecognizedLevel (text : gostring).

Section Text.
Context `{UnicodeTables}.

(** [UnmarshalText] on a receiver that is nil or holds a level:
    the level it holds afterwards, and the error. *)
Definition Level_UnmarshalText (recv : option Z) (text : gostring)
  : option Z * option level_error :=
  match recv with
  | None => (None, Some errUnmarshalNilLevel)
  | Some l =>
      match unmarshalText text with
      | Some l' => (Some l', None)
      | None =>
          match unmarshalText (ToLower text) with
          | Some l' => (Some l', None)
          | None => (Some l, Some (errUnrecognizedLevel text))
          end
      end
  end.

Definition ParseLevel (text : gostring) : Z * option level_error :=
  let '(l, err) := Level_UnmarshalText (Some 0) text in
  (match l with Some l => l | None => 0 end, err).

(** [Set] of [flag.Value] *)
Definition Level_Set (recv : option Z) (s : gostring) := Level_UnmarshalText recv s.
End Text.

(** ** Colors *)

Module Color.
Definition Black : Z := 30.
Definition Red : Z := 31.
Definition Green : Z := 32.
Definition Yellow : Z := 33.
Definition Blue : Z := 34.
Definition Magenta : Z := 35.
Definition Cyan : Z := 36.
Definition White : Z := 37.

Definition Add (c : Z) (s : gostring) : gostring :=
  Byte.x1b :: go "[" ++ FormatUint (uint8 c) ++ go "m" ++ s ++ Byte.x1b :: go "[0m".
End Color.

Definition _levelToColor : gmap Z Z :=
  list_to_map
    [(DebugLevel, Color.Magenta); (InfoLevel, Color.Blue); (WarnLevel, Color.Yellow);
     (ErrorLevel, Color.Red); (DPanicLevel, Color.Red); (PanicLevel, Color.Red);
     (FatalLevel, Color.Red)].

Definition _unknownLevelColor : Z := Color.Red.

(** The maps [init] fills, one entry per level of [_levelToColor]. *)
Definition _levelToLowercaseColorString : gmap Z gostring :=
  map_imap (fun level color => Some (Color.Add color (Level_String level))) _levelToColor.
Definition _levelToCapitalColorString : gmap Z gostring :=
  map_imap (fun level color => Some (Color.Add color (CapitalString level))) _levelToColor.

(** ** Enablers *)

(** The [int32] cells atomic levels point to. *)
Abbreviation cells := (gmap nat Z).
Definition load (h : cells) (a : nat) : Z := match h !! a with Some v => v | None => 0 end.

(** A [LevelEnabler]: a static level, a [LevelEnablerFunc], an [AtomicLevel],
    or another type with a [Level] method. *)
Inductive LevelEnabler : Type :=
| ELevel (l : Z)
| EFunc (f : Z -> bool)
| EAtomic (a : nat)
| ELeveled (f : Z -> bool) (l : Z).

Definition AtomicLevel_Level (h : cells) (a : nat) : Z := int8 (load h a).

Definition Enabled (h : cells) (e : LevelEnabler) (lvl : Z) : bool :=
  match e with
  | ELevel l => Level_Enabled l lvl
  | EFunc f => f lvl
  | EAtomic a => Level_Enabled (AtomicLevel_Level h a) lvl
  | ELeveled f _ => f lvl
  end.

(** The [for] loop of [LevelOf]. *)
Fixpoint first_enabled (enabled : Z -> bool) (lvl : Z) (n : nat) : Z :=
  match n with
  | O => InvalidLevel
  | S n' => if enabled lvl then lvl else first_enabled enabled (lvl + 1) n'
  end.

Definition level_count : nat := Z.to_nat (_maxLevel - _minLevel + 1).

Definition scan_levels (enabled : Z -> bool) : Z := first_enabled enabled _minLevel level_count.

Definition LevelOf (h : cells) (e : LevelEnabler) : Z :=
  match e with
  | EAtomic a => AtomicLevel_Level h a
  | ELeveled _ l => l
  | _ => scan_levels (Enabled h e)
  end.

(** ** Atomic levels *)

Module AtomicLevel.
(** An [AtomicLevel] is a pointer; its zero value is nil. *)
Abbreviation t := (option nat).

Definition SetLevel (h : cells) (a : nat) (l : Z) : cells := <[a := int32 l]> h.

Definition New (h : cells) : nat * cells :=
  let a := fresh (dom h) in (a, <[a := int32 InfoLevel]> h).

Definition NewAt (h : cells) (l : Z) : nat * cells :=
  let '(a, h') := New h in (a, SetLevel h' a l).

Definition Parse `{UnicodeTables} (h : cells) (text : gostring)
  : nat * cells * option level_error :=
  let '(a, h') := New h in
  match ParseLevel text with
  | (_, Some err) => (a, h', Some err)
  | (l, None) => (a, SetLevel h' a l, None)
  end.

Definition Enabled_ (h : cells) (a : nat) (l : Z) : bool :=
  Level_Enabled (AtomicLevel_Level h a) l.

Definition String_ (h : cells) (a : nat) : gostring := Level_String (AtomicLevel_Level h a).

Definition MarshalText (h : cells) (a : nat) : gostring :=
  Level_MarshalText (AtomicLevel_Level h a).

(** A nil pointer is allocated first; the cell keeps its value on error. *)
Definition UnmarshalText `{UnicodeTables} (h : cells) (lvl : t) (text : gostring)
  : t * cells * option level_error :=
  let '(a, h') := match lvl with
                  | Some a => (a, h)
                  | None => let a := fresh (dom h) in (a, <[a := 0]> h)
                  end in
  match Level_UnmarshalText (Some 0) text with
  | (_, Some err) => (Some a, h', Some err)
  | (Some l, None) => (Some a, SetLevel h' a l, None)
  | (None, None) => (Some a, h', None)
  end.
End AtomicLevel.

(** ** Facts *)

Lemma supported_cases l :
  supported l ->
  l = DebugLevel \/ l = InfoLevel \/ l = WarnLevel \/ l = ErrorLevel \/
  l = DPanicLevel \/ l = PanicLevel \/ l = FatalLevel.
Proof.
  unfold supported, _minLevel, _maxLevel, DebugLevel, InfoLevel, WarnLevel, ErrorLevel,
    DPanicLevel, PanicLevel, FatalLevel. lia.
Qed.

(** Run through the seven levels. *)
Ltac level_cases H := destruct (supported_cases _ H) as [->|[->|[->|[->|[->|[->| ->]]]]]].

Lemma unmarshalText_supported text l : unmarshalText text = Some l -> supported l.
Proof.
  unfold unmarshalText, supported. intros H. by repeat case_match; simplify_eq.
Qed.

(** Marshaling a level and parsing the text back gives the level, both in
    lower case ([MarshalText], [String]) and in capitals ([CapitalString]). *)
Theorem level_text_roundtrip `{UnicodeTables} l (Hl : supported l) :
  ParseLevel (Level_MarshalText l) = (l, None) /\ ParseLevel (CapitalString l) = (l, None).
Proof. by level_cases Hl. Qed.

Lemma level_text_roundtrip_witness :
  @ParseLevel exampleUnicode (Level_MarshalText DPanicLevel) = (DPanicLevel, None) /\
  @ParseLevel exampleUnicode (CapitalString DPanicLevel) = (DPanicLevel, None).
Proof. apply (@level_text_roundtrip exampleUnicode DPanicLevel). unfold supported. done. Defined.

Lemma scan_first_enabled enabled n lvl :
  match first_enabled enabled lvl n with
  | r => (lvl <= r < lvl + Z.of_nat n /\ enabled r = true /\
           forall k, lvl <= k < r -> enabled k = false) \/
         (r = InvalidLevel /\ forall k, lvl <= k < lvl + Z.of_nat n -> enabled k = false)
  end.
Proof.
  revert lvl. induction n as [|n IH]; intros lvl; cbn [first_enabled].
  - right. split; [done|]. lia.
  - destruct (enabled lvl) eqn:E.
    + left. split; [lia|]. split; [done|]. lia.
    + destruct (IH (lvl + 1)) as [(Hr & He & Hk)|(Hr & Hk)].
      * left. split; [lia|]. split; [done|]. intros k Hk'.
        destruct (decide (k = lvl)) as [->|]; [done|]. apply Hk. lia.
      * right. split; [done|]. intros k Hk'.
        destruct (decide (k = lvl)) as [->|]; [done|]. apply Hk. lia.
Qed.

Lemma scan_levels_least enabled :
  let r := scan_levels enabled in
  (supported r /\ enabled r = true /\ forall k, supported k -> k < r -> enabled k = false) \/
  (r = InvalidLevel /\ forall k, supported k -> enabled k = false).
Proof.
  cbn. unfold scan_levels, supported.
  destruct (scan_first_enabled enabled level_count _minLevel) as [(Hr & He & Hk)|(Hr & Hk)];
    change (Z.of_nat level_count) with 7 in *;
    unfold _minLevel, _maxLevel, DebugLevel, FatalLevel in *.
  - left. split; [lia|]. split; [done|]. intros k Hk1 Hk2. apply Hk. lia.
  - right. split; [done|]. intros k Hk1. apply Hk. lia.
Qed.

(** [LevelOf] reports the least supported level an enabler admits, and
    [InvalidLevel] exactly when it admits none of them. *)
Theorem level_of_least h f :
  let r := LevelOf h (EFunc f) in
  (supported r /\ f r = true /\ forall k, supported k -> k < r -> f k = false) \/
  (r = InvalidLevel /\ forall k, supported k -> f k = false).
Proof. apply scan_levels_least. Qed.

Lemma Level_UnmarshalText_cases `{UnicodeTables} l text :
  (exists l', Level_UnmarshalText (Some l) text = (Some l', None) /\ supported l') \/
  Level_UnmarshalText (Some l) text = (Some l, Some (errUnrecognizedLevel text)).
Proof.
  unfold Level_UnmarshalText.
  destruct (unmarshalText text) eqn:E; [left; eauto using unmarshalText_supported|].
  destruct (unmarshalText (ToLower text)) eqn:E2; [left; eauto using unmarshalText_supported|auto].
Qed.

Lemma load_SetLevel h a l : supported l -> AtomicLevel_Level (AtomicLevel.SetLevel h a l) a = l.
Proof.
  intros Hl. unfold AtomicLevel_Level, load, AtomicLevel.SetLevel. rewrite lookup_insert_eq.
  by level_cases Hl.
Qed.

(** Unmarshaling text into an [AtomicLevel] either sets it to a supported
    level, which [Level], [Enabled] and [MarshalText] then agree on, and
    touches no other level; or it reports the text and leaves every level as
    it was. *)
Theorem atomic_level_unmarshal `{UnicodeTables} h a text :
  match AtomicLevel.UnmarshalText h (Some a) text with
  | (a', h', None) =>
      exists l, a' = Some a /\ supported l /\ AtomicLevel_Level h' a = l /\
        (forall k, AtomicLevel.Enabled_ h' a k = (l <=? k)) /\
        ParseLevel (AtomicLevel.MarshalText h' a) = (l, None) /\
        forall b, b <> a -> load h' b = load h b
  | (a', h', Some err) => a' = Some a /\ h' = h /\ err = errUnrecognizedLevel text
  end.
Proof.
  unfold AtomicLevel.UnmarshalText.
  destruct (Level_UnmarshalText_cases 0 text) as [(l & -> & Hl)| ->]; [|done].
  pose proof (load_SetLevel h a l Hl) as Hload. exists l.
  unfold AtomicLevel.Enabled_, AtomicLevel.MarshalText. rewrite Hload.
  split_and!; try done.
  - by level_cases Hl.
  - intros b Hb. unfold load, AtomicLevel.SetLevel. by rewrite lookup_insert_ne.
Qed.
