(* ===== verification/Float.v ===== *)
(** * Float

    IEEE 754 values as the bits Go's [math.Float64bits] and
    [math.Float32bits] give, and [strconv.AppendFloat(dst, f, 'f', -1, n)]:
    the shortest decimal that reads back as [f], without exponent. *)
From S2P Require Import Prelude Strconv.
Open Scope Z_scope.

(** ** Decoding *)

(** A float as NaN, an infinity, or [(-1)^neg * m * 2^e]. *)
Inductive fval : Type :=
| FNaN
| FInf (neg : bool)
| FFin (neg : bool) (m e : Z).

(** Mantissa and exponent widths of the two formats, and the exponent of the
    subnormals. *)
Record ffmt := { mantbits : Z; expbits : Z }.
Definition float64info : ffmt := {| mantbits := 52; expbits := 11 |}.
Definition float32info : ffmt := {| mantbits := 23; expbits := 8 |}.
Definition minexp (f : ffmt) : Z := 2 - 2 ^ (expbits f - 1) - mantbits f.

Definition decode (f : ffmt) (bits : Z) : fval :=
  let m := bits mod 2 ^ mantbits f in
  let e := bits / 2 ^ mantbits f mod 2 ^ expbits f in
  let neg := negb (bits / 2 ^ (mantbits f + expbits f) mod 2 =? 0) in
  if e =? 2 ^ expbits f - 1 then (if m =? 0 then FInf neg else FNaN)
  else if e =? 0 then FFin neg m (minexp f)
  else FFin neg (m + 2 ^ mantbits f) (minexp f + e - 1).

Definition float64 (bits : Z) : fval := decode float64info bits.
Definition float32 (bits : Z) : fval := decode float32info bits.

(** [f >= 0], false on NaN and true on both zeros *)
Definition fval_ge0 (f : fval) : bool :=
  match f with
  | FNaN => false
  | FInf neg => negb neg
  | FFin neg m _ => negb neg || (m =? 0)
  end.

(** ** [float64] arithmetic

    Exact rational results rounded to the nearest float, ties to even. *)

(** Round to the nearest multiple of [w], ties to even. *)
Definition round_half_even (x w : Z) : Z :=
  let q := x / w in
  let r := 2 * (x mod w) in
  if r <? w then q else if w <? r then q + 1 else if Z.even q then q else q + 1.

(** [x * 2^e] as a fraction. *)
Definition up (e : Z) : Z := 2 ^ Z.max 0 e.

(** The exponent of the last place of the float next to [p/q]. *)
Definition ulp_exp (p q : Z) : Z :=
  let l := Z.log2 p - Z.log2 q in
  Z.max (minexp float64info) ((if q * up l <=? p * up (- l) then l else l - 1) - 52).

(** The float nearest to [p/q], for [p >= 0] and [q > 0], with a sign. *)
Definition round64 (neg : bool) (p q : Z) : fval :=
  if p =? 0 then FFin neg 0 (minexp float64info)
  else
    let e := ulp_exp p q in
    let m := round_half_even (p * up (- e)) (q * up e) in
    let '(m, e) := if m =? 2 ^ 53 then (2 ^ 52, e + 1) else (m, e) in
    if 971 <? e then FInf neg else FFin neg m e.

(** [float64(n)] of an integer *)
Definition of_int (n : Z) : fval := round64 (n <? 0) (Z.abs n) 1.

Definition fmul (x y : fval) : fval :=
  match x, y with
  | FNaN, _ | _, FNaN => FNaN
  | FInf s, FInf t => FInf (xorb s t)
  | FInf s, FFin t m _ | FFin t m _, FInf s => if m =? 0 then FNaN else FInf (xorb s t)
  | FFin s m e, FFin t n f => round64 (xorb s t) (m * n * up (e + f)) (up (- (e + f)))
  end.

Definition fdiv (x y : fval) : fval :=
  match x, y with
  | FNaN, _ | _, FNaN | FInf _, FInf _ => FNaN
  | FInf s, FFin t _ _ => FInf (xorb s t)
  | FFin s _ _, FInf t => FFin (xorb s t) 0 (minexp float64info)
  | FFin s m e, FFin t n f =>
      if n =? 0 then (if m =? 0 then FNaN else FInf (xorb s t))
      else round64 (xorb s t) (m * up (e - f)) (n * up (f - e))
  end.

Definition signed (neg : bool) (m : Z) : Z := if neg then - m else m.

Definition fsub (x y : fval) : fval :=
  match x, y with
  | FNaN, _ | _, FNaN => FNaN
  | FInf s, FInf t => if Bool.eqb s t then FNaN else FInf s
  | FInf s, FFin _ _ _ => FInf s
  | FFin _ _ _, FInf t => FInf (negb t)
  | FFin s m e, FFin t n f =>
      let g := Z.min e f in
      let d := signed s (m * up (e - g)) - signed t (n * up (f - g)) in
      if d =? 0 then FFin (s && negb t) 0 (minexp float64info)
      else round64 (d <? 0) (Z.abs d * up g) (up (- g))
  end.

(** The integer part of a finite float, towards zero. *)
Definition trunc (neg : bool) (m e : Z) : Z := signed neg (m * up e / up (- e)).

(** The bits of a finite float. *)
Definition encode64 (x : fval) : Z :=
  match x with
  | FFin neg m e =>
      (if neg then 2 ^ 63 else 0) +
      (if m <? 2 ^ 52 then m else (e - minexp float64info + 1) * 2 ^ 52 + (m - 2 ^ 52))
  | FInf neg => (if neg then 2 ^ 63 else 0) + 0x7FF0000000000000
  | FNaN => 0x7FF8000000000001
  end.

(** The bits of [float64(n)], and of [x / float64(c)]. *)
Definition float64_of_int (n : Z) : Z := encode64 (of_int n).
Definition float64_div_int (x c : Z) : Z := encode64 (fdiv (float64 x) (of_int c)).

Example float64_of_int_1 : float64_of_int 1 = 0x3FF0000000000000.
Proof. vm_compute. reflexivity. Qed.
Example float64_of_int_big : float64_of_int (-9223372036854775807) = 0xC3E0000000000000.
Proof. vm_compute. reflexivity. Qed.

(** ** Shortest digits

    With [a = 4m * s] and [lo], [hi] the halfway points to the neighbours in
    the same unit [10^-k], every power of ten below is an integer. *)
Record interval := { iv_mid : Z; iv_lo : Z; iv_hi : Z; iv_incl : bool; iv_k : Z }.

Definition rounding_interval (f : ffmt) (m e : Z) : interval :=
  let s := if e <? 2 then 5 ^ (2 - e) else 2 ^ (e - 2) in
  let below := if (2 ^ mantbits f <? m) || (e =? minexp f) then 4 * m - 2 else 4 * m - 1 in
  {| iv_mid := 4 * m * s; iv_lo := below * s; iv_hi := (4 * m + 2) * s;
     iv_incl := Z.even m; iv_k := Z.max 0 (2 - e) |}.

(** Whether a decimal reads back as the float. *)
Definition inside (v : interval) (x : Z) : bool :=
  if iv_incl v then (iv_lo v <=? x) && (x <=? iv_hi v)
  else (iv_lo v <? x) && (x <? iv_hi v).

(** Try [n] digits, then one more: down, up, or to nearest when both read
    back; all the digits at the latest. *)
Fixpoint shortest (v : interval) (total : Z) (fuel : nat) (n : Z) : Z * Z :=
  match fuel with
  | O => (iv_mid v, total)
  | S fuel' =>
      let w := 10 ^ (total - n) in
      let dn := iv_mid v / w in
      let okdown := inside v (dn * w) in
      let okup := inside v ((dn + 1) * w) in
      if iv_mid v mod w =? 0 then (dn, n)
      else if okdown && okup then (round_half_even (iv_mid v) w, n)
      else if okdown then (dn, n)
      else if okup then (dn + 1, n)
      else shortest v total fuel' (n + 1)
  end.

Fixpoint strip_zeros (rds : gostring) : gostring :=
  match rds with
  | Byte.x30 :: t => strip_zeros t
  | _ => rds
  end.

(** The digits of the shortest decimal and the position of its point. *)
Definition decimal (f : ffmt) (m e : Z) : gostring * Z :=
  let v := rounding_interval f m e in
  let total := Z.of_nat (length (FormatUint (iv_mid v))) in
  let '(d, n) := shortest v total (Z.to_nat total) 1 in
  let ds := FormatUint d in
  (rev (strip_zeros (rev ds)), total - iv_k v + (Z.of_nat (length ds) - n)).

(** ** Printing: the [%f] verb without exponent *)

Definition zeros (n : Z) : gostring := repeat Byte.x30 (Z.to_nat n).

Definition fmtF (ds : gostring) (dp : Z) : gostring :=
  let nd := Z.of_nat (length ds) in
  let ipart :=
    if 0 <? dp then take (Z.to_nat dp) ds ++ zeros (dp - nd) else [Byte.x30] in
  let fpart :=
    if dp <? nd then Byte.x2e :: zeros (- dp) ++ drop (Z.to_nat dp) ds else [] in
  ipart ++ fpart.

Definition format_of (bitSize : Z) : ffmt :=
  if bitSize =? 32 then float32info else float64info.

Definition FormatFloat (f : fval) (bitSize : Z) : gostring :=
  match f with
  | FNaN => go "NaN"
  | FInf neg => if neg then go "-Inf" else go "+Inf"
  | FFin neg m e =>
      let '(ds, dp) := if m =? 0 then ([], 0) else decimal (format_of bitSize) m e in
      (if neg then [Byte.x2d] else []) ++ fmtF ds dp
  end.

Example format_pi : FormatFloat (float64 0x400921FB54442D18) 64 = go "3.141592653589793".
Proof. vm_compute. reflexivity. Qed.
Example format_tenth32 : FormatFloat (float32 0x3DCCCCCD) 32 = go "0.1".
Proof. vm_compute. reflexivity. Qed.
Example format_1e21 : FormatFloat (float64 0x444B1AE4D6E2EF50) 64 = go "1000000000000000000000".
Proof. vm_compute. reflexivity. Qed.
Example format_half : FormatFloat (float64 0xBFE0000000000000) 64 = go "-0.5".
Proof. vm_compute. reflexivity. Qed.
Example format_min : FormatFloat (float32 1) 32 = go "0.000000000000000000000000000000000000000000001".
Proof. vm_compute. reflexivity. Qed.
Example format_100 : FormatFloat (float64 0x4059000000000000) 64 = go "100".
Proof. vm_compute. reflexivity. Qed.
Example format_epoch :
  FormatFloat (float64 (float64_div_int (float64_of_int 1136214245123456789) 1000000000)) 64
  = go "1136214245.1234567".
Proof. vm_compute. reflexivity. Qed.
Example format_negzero : FormatFloat (float64 0x8000000000000000) 64 = go "-0".
Proof. vm_compute. reflexivity. Qed.
Example format_2pow53m : FormatFloat (float64 0x433FFFFFFFFFFFFF) 64 = go "9007199254740991".
Proof. vm_compute. reflexivity. Qed.

(** ** Rounding *)

Lemma up_pos e : 0 < up e.
Proof. unfold up. lia. Qed.
#[export] Hint Resolve up_pos : lad.

Lemma round_half_even_near x w : 0 < w -> 2 * Z.abs (w * round_half_even x w - x) <= w.
Proof.
  intros Hw. pose proof (Z.mod_pos_bound x w Hw). pose proof (Z_div_mod_eq_full x w).
  unfold round_half_even. repeat case_match; nia.
Qed.

Lemma round_half_even_exact k w : 0 < w -> round_half_even (k * w) w = k.
Proof.
  intros Hw. unfold round_half_even. rewrite Z.mod_mul, Z.div_mul by lia.
  by rewrite (proj2 (Z.ltb_lt (2 * 0) w)) by lia.
Qed.

(** The integers up to [2^53] are floats, and no operation that yields one
    rounds it. *)
Definition is_int (x : fval) (n : Z) : Prop :=
  exists neg m e, x = FFin neg m e /\ 0 <= m /\ signed neg m * up e = n * up (- e).

Lemma log2_ratio n q : 0 < n -> 0 < q ->
  let l := Z.log2 (n * q) - Z.log2 q in
  (if q * up l <=? n * q * up (- l) then l else l - 1) = Z.log2 n.
Proof.
  intros Hn Hq. cbv zeta. pose proof (Z.log2_mul_below n q Hn Hq). pose proof (Z.log2_mul_above n q). 
  pose proof (Z.log2_nonneg n). pose proof (Z.log2_spec n Hn) as [Hlo Hhi].
  set (l := Z.log2 (n * q) - Z.log2 q). assert (l = Z.log2 n \/ l = Z.log2 n + 1) as Hl by (unfold l; lia).
  unfold up. rewrite Z.max_r, Z.max_l by lia. change (2 ^ 0) with 1.
  rewrite <- Z.add_1_r in Hhi. destruct Hl as [-> | ->]; case_match eqn:Hle; try lia.
  - apply Z.leb_gt in Hle. pose proof (Z.mul_le_mono_nonneg_r _ _ q (Z.lt_le_incl _ _ Hq) Hlo). lia.
  - apply Z.leb_le in Hle. pose proof (Zmult_lt_compat_r _ _ q Hq Hhi). lia.
Qed.

Lemma round64_int neg n q : 0 <= n <= 2 ^ 53 -> 0 < q ->
  exists m e, round64 neg (n * q) q = FFin neg m e /\ m * up e = n * up (- e).
Proof.
  intros Hn Hq. unfold round64. destruct (Z.eqb_spec (n * q) 0) as [E|E].
  { exists 0, (minexp float64info). split; [done|]. assert (n = 0) as -> by nia. lia. }
  assert (0 < n) as Hn0 by nia. unfold ulp_exp. rewrite log2_ratio by lia.
  pose proof (Z.log2_nonneg n) as H0. pose proof (Z.log2_spec n Hn0) as [Hlo Hhi].
  assert (Z.log2 n <= 53) as H53 by (rewrite <- (Z.log2_pow2 53) by lia; apply Z.log2_le_mono; lia).
  change (minexp float64info) with (-1074). rewrite Z.max_r by lia.
  destruct (Z.eq_dec (Z.log2 n) 53) as [E53|E53].
  - rewrite E53 in *. assert (n = 2 ^ 53) as -> by lia. change (up (- (53 - 52))) with 1.
    replace (2 ^ 53 * q * 1) with (2 ^ 52 * (q * up (53 - 52))) by (change (up (53 - 52)) with 2; lia).
    rewrite round_half_even_exact by (pose proof (up_pos (53 - 52)); nia). cbn. by exists (2 ^ 52), 1.
  - set (e := Z.log2 n - 52). assert (up e = 1) as Ee by (unfold up; rewrite Z.max_l; [done|unfold e; lia]).
    rewrite Ee, Z.mul_1_r. replace (n * q * up (- e)) with (n * up (- e) * q) by lia.
    rewrite round_half_even_exact by done.
    assert (n * up (- e) < 2 ^ 53) as Hlt.
    { unfold up. rewrite Z.max_r by (unfold e; lia).
      replace (2 ^ 53) with (2 ^ Z.succ (Z.log2 n) * 2 ^ (- e)).
      - apply Z.mul_lt_mono_pos_r; [apply Z.pow_pos_nonneg; unfold e; lia|done].
      - rewrite <- Z.pow_add_r by (unfold e; lia). f_equal. unfold e. lia. }
    rewrite (proj2 (Z.eqb_neq _ _)) by lia. rewrite (proj2 (Z.ltb_ge _ _)) by (unfold e; lia).
    exists (n * up (- e)), e. split; [done|]. rewrite Ee. lia.
Qed.

(** A positive integer is a positive float, however large. *)
Lemma of_int_pos n : 0 < n < 2 ^ 64 -> exists m e, of_int n = FFin false m e /\ 0 < m.
Proof.
  intros Hn. unfold of_int, round64. rewrite Z.abs_eq, (proj2 (Z.ltb_ge n 0)), (proj2 (Z.eqb_neq n 0)) by lia.
  assert (ulp_exp n 1 = Z.log2 n - 52) as ->.
  { unfold ulp_exp. pose proof (log2_ratio n 1) as Hl. rewrite Z.mul_1_r in Hl. rewrite Hl by lia.
    pose proof (Z.log2_nonneg n). change (minexp float64info) with (-1074). lia. }
  set (e := Z.log2 n - 52). set (m := round_half_even _ _).
  assert (0 < m) as Hm.
  { pose proof (up_pos e). pose proof (up_pos (- e)).
    pose proof (round_half_even_near (n * up (- e)) (1 * up e) ltac:(lia)) as Hnear. fold m in Hnear.
    assert (up e <= n * up (- e)) as Hle; [|nia]. unfold up. pose proof (Z.log2_spec n) as [Hlo _]; [lia|].
    destruct (Z.le_ge_cases e 0).
    - rewrite Z.max_l by lia. change (2 ^ 0) with 1. lia.
    - rewrite (Z.max_r 0 e), (Z.max_l 0 (- e)) by lia. etrans; [apply (Z.pow_le_mono_r 2 e (Z.log2 n)); unfold e; lia|lia]. }
  assert (Z.log2 n < 64) by (apply Z.log2_lt_pow2; lia).
  destruct (m =? 2 ^ 53); rewrite (proj2 (Z.ltb_ge _ _)) by (unfold e; lia); eauto.
  eexists _, _. split; [done|lia].
Qed.

Lemma is_int_round neg n q s : 0 <= n <= 2 ^ 53 -> 0 < q -> signed neg n = s -> is_int (round64 neg (n * q) q) s.
Proof.
  intros Hn Hq <-. destruct (round64_int neg n q Hn Hq) as (m & e & -> & Hv). exists neg, m, e.
  pose proof (up_pos e). pose proof (up_pos (- e)). split; [done|]. split; [nia|]. destruct neg; cbn; lia.
Qed.

Lemma of_int_exact n : Z.abs n <= 2 ^ 53 -> is_int (of_int n) n.
Proof.
  intros Hn. unfold of_int. rewrite <- (Z.mul_1_r (Z.abs n)). apply is_int_round; [lia|lia|].
  destruct (Z.ltb_spec n 0); cbn; lia.
Qed.

Lemma trunc_int neg m e n : is_int (FFin neg m e) n -> trunc neg m e = n.
Proof.
  intros (? & ? & ? & [= <- <- <-] & _ & Hv). pose proof (up_pos (- e)). unfold trunc. destruct neg; cbn in *.
  - replace (m * up e) with (- n * up (- e)) by lia. rewrite Z.div_mul by lia. lia.
  - rewrite Hv, Z.div_mul by lia. done.
Qed.

Lemma up_add e f : up e * up f * up (- (e + f)) = up (e + f) * up (- e) * up (- f).
Proof. unfold up. rewrite <- !Z.pow_add_r by lia. f_equal. lia. Qed.

Lemma fmul_int x y a b : is_int x a -> is_int y b -> Z.abs (a * b) <= 2 ^ 53 -> is_int (fmul x y) (a * b).
Proof.
  intros (s & m & e & -> & Hm & Hx) (t & n & f & -> & Hn & Hy) Hab. cbn [fmul].
  assert (signed (xorb s t) (m * n) * up (e + f) = a * b * up (- (e + f))) as Hp.
  { apply (Z.mul_reg_r _ _ (up (- e) * up (- f))); [pose proof (up_pos (- e)); pose proof (up_pos (- f)); nia|].
    transitivity (signed s m * signed t n * (up (e + f) * up (- e) * up (- f))); [destruct s, t; cbn; lia|].
    rewrite <- up_add. transitivity ((signed s m * up e) * (signed t n * up f) * up (- (e + f))); [lia|].
    rewrite Hx, Hy. lia. }
  pose proof (up_pos (e + f)) as Hu. pose proof (up_pos (- (e + f))) as Hu'. assert (0 <= m * n) as Hmn by nia.
  assert (m * n * up (e + f) = Z.abs (a * b) * up (- (e + f))) as ->.
  { rewrite <- (Z.abs_eq (up (- (e + f)))), <- Z.abs_mul, <- Hp, Z.abs_mul, (Z.abs_eq (up (e + f))) by lia.
    destruct (xorb s t); cbn [signed]; rewrite ?Z.abs_opp, Z.abs_eq by done; done. }
  apply is_int_round; [lia|done|]. destruct (xorb s t); cbn in *; nia.
Qed.

Lemma up_diff e g : e <= g -> up g * up (- e) = up (g - e) * (up e * up (- g)).
Proof. intros H. unfold up. rewrite <- !Z.pow_add_r by lia. f_equal. lia. Qed.

Lemma same_value m e k g n : m * up e = n * up (- e) -> k * up g = n * up (- g) -> e <= g -> m = k * up (g - e).
Proof.
  intros Hm Hk Hle. pose proof (up_pos e). pose proof (up_pos (- g)).
  apply (Z.mul_reg_r _ _ (up e * up (- g))); [nia|].
  transitivity (m * up e * up (- g)); [lia|]. rewrite Hm.
  transitivity (k * (up (g - e) * (up e * up (- g)))); [|lia]. rewrite <- up_diff by done.
  transitivity (k * up g * up (- e)); [|lia]. rewrite Hk. lia.
Qed.

Lemma signed_mul neg m k : signed neg (m * k) = signed neg m * k.
Proof. destruct neg; cbn; lia. Qed.

Lemma fsub_int x y a : is_int x a -> is_int y a -> 0 < a -> fsub x y = FFin false 0 (minexp float64info).
Proof.
  intros (s & m & e & -> & Hm & Hx) (t & n & f & -> & Hn & Hy) Ha. cbn [fsub]. rewrite !signed_mul.
  assert (signed s m * up (e - Z.min e f) = signed t n * up (f - Z.min e f)) as ->.
  { destruct (Z.le_ge_cases e f) as [Hle|Hle]; [rewrite Z.min_l by done|rewrite Z.min_r by done].
    - rewrite (same_value _ e _ f _ Hx Hy Hle), Z.sub_diag. change (up 0) with 1. lia.
    - rewrite (same_value _ f _ e _ Hy Hx Hle), Z.sub_diag. change (up 0) with 1. lia. }
  rewrite Z.sub_diag. assert (s = false) as ->; [|done].
  destruct s; [|done]. pose proof (up_pos e). pose proof (up_pos (- e)). cbn in Hx. nia.
Qed.

Lemma fdiv_self n : 0 < n < 2 ^ 64 -> is_int (fdiv (of_int n) (of_int n)) 1.
Proof.
  intros Hn. destruct (of_int_pos n Hn) as (m & e & -> & Hm). cbn [fdiv].
  rewrite (proj2 (Z.eqb_neq m 0)), Z.sub_diag by lia. change (up 0) with 1. cbn [xorb].
  rewrite <- (Z.mul_1_l (m * 1)) at 1. apply is_int_round; [lia|lia|done].
Qed.

(** ** The digits are those of a positive number *)

Lemma shortest_pos v total fuel n :
  0 < iv_mid v -> 10 ^ (total - 1) <= iv_mid v -> 1 <= n -> 1 <= total ->
  n + Z.of_nat fuel <= total + 1 ->
  0 < fst (shortest v total fuel n).
Proof.
  intros Hm Ht. revert n. induction fuel as [|f IH]; intros n Hn Ht1 Hf; [done|].
  cbn [shortest].
  assert (10 ^ (total - n) <= iv_mid v) as Hw.
  { etrans; [|exact Ht]. apply Z.pow_le_mono_r; lia. }
  assert (0 < 10 ^ (total - n)) as Hw0 by (apply Z.pow_pos_nonneg; lia).
  assert (0 < iv_mid v / 10 ^ (total - n)) as Hd by (apply Z.div_str_pos; lia).
  unfold round_half_even.
  repeat match goal with |- context [if ?c then _ else _] => destruct c end;
    cbn [fst]; try lia. apply IH; lia.
Qed.

Lemma strip_zeros_spec rds : exists zs, rds = zs ++ strip_zeros rds.
Proof.
  induction rds as [|b t [zs IH]]; [by exists []|].
  destruct b; try (by exists []). exists (Byte.x30 :: zs). cbn. by f_equal.
Qed.

Lemma strip_zeros_keeps rds d :
  d <> Byte.x30 -> exists t, strip_zeros (rds ++ [d]) = t ++ [d].
Proof.
  intros Hd. induction rds as [|b t [u IH]].
  - exists []. cbn. by destruct d.
  - destruct b; cbn [app strip_zeros]; eauto; by eexists (_ :: t).
Qed.

(** The digit string of a positive number starts with a nonzero digit. *)
Definition mantissa_digits (ds : gostring) : Prop :=
  exists d r, ds = digit d :: r /\ 0 < d < 10 /\ forallb is_digit r = true.

Lemma strip_trailing_digits z :
  0 < z -> mantissa_digits (rev (strip_zeros (rev (FormatUint z)))).
Proof.
  intros Hz. destruct (FormatUint_head z Hz) as (d & r & E & Hd).
  pose proof (FormatUint_digits z ltac:(lia)) as Hall. rewrite E in *.
  cbn [rev]. destruct (strip_zeros_keeps (rev r) (digit d)) as [t Et].
  { intros C%(f_equal bz). rewrite bz_digit in C by lia. change (bz Byte.x30) with 48 in C. lia. }
  destruct (strip_zeros_spec (rev r ++ [digit d])) as [zs Ez]. rewrite Et in *.
  rewrite rev_app_distr. cbn [rev app]. exists d, (rev t). split; [done|]. split; [done|].
  rewrite app_assoc in Ez. apply app_inj_tail in Ez as [Ez _].
  apply (f_equal (@rev _)) in Ez. rewrite rev_involutive, rev_app_distr in Ez.
  cbn in Hall. apply andb_prop in Hall as [_ Hall]. rewrite Ez, forallb_app in Hall.
  by apply andb_prop in Hall as [? ?].
Qed.

Lemma rounding_interval_pos f m e : 0 < m -> 0 < iv_mid (rounding_interval f m e).
Proof.
  intros Hm. unfold rounding_interval. cbn.
  destruct (Z.ltb_spec e 2).
  - assert (0 < 5 ^ (2 - e)) by (apply Z.pow_pos_nonneg; lia). nia.
  - assert (0 < 2 ^ (e - 2)) by (apply Z.pow_pos_nonneg; lia). nia.
Qed.

Lemma decimal_digits f m e : 0 < m -> mantissa_digits (fst (decimal f m e)).
Proof.
  intros Hm. unfold decimal.
  set (v := rounding_interval f m e). set (total := Z.of_nat (length _)).
  pose proof (rounding_interval_pos f m e Hm) as Hv. fold v in Hv.
  assert (1 <= total) as Ht.
  { unfold total. destruct (FormatUint (iv_mid v)) eqn:E; [|cbn; lia].
    by apply FormatUint_nonempty in E. }
  pose proof (shortest_pos v total (Z.to_nat total) 1 Hv
    (FormatUint_length_lower _ Hv) ltac:(lia) Ht ltac:(lia)) as Hd.
  destruct (shortest _ _ _ _) as [d n]. cbn [fst] in *.
  by apply strip_trailing_digits.
Qed.
