(* ===== verification/GoTime.v ===== *)
(** * GoTime

    [time.Time] and [time.Duration] as the library uses them.  A time is its
    instant, in nanoseconds since the Unix epoch, and its location; the
    layouts of [Time.Format] are a table of the standard library and stay a
    parameter. *)
From S2P Require Import Prelude Strconv Float.
Open Scope Z_scope.

(** A [*time.Location], by name; [time.Unix] gives the local one. *)
Definition Location := gostring.
Definition Local : Location := go "Local".
Definition UTC : Location := go "UTC".

Record gotime := mkTime { t_nanos : Z; t_loc : Location }.

#[export] Instance gotime_eq_decision : EqDecision gotime.
Proof. solve_decision. Defined.

Definition Nanosecond : Z := 1.
Definition Microsecond : Z := 1000.
Definition Millisecond : Z := 1000000.
Definition Second : Z := 1000000000.

(** Seconds from the zero time, January 1 of year 1, to the epoch. *)
Definition zeroUnix : Z := -62135596800.
Definition zeroTime : gotime := mkTime (zeroUnix * Second) UTC.

(** [t.IsZero()] looks at the instant only. *)
Definition IsZero (t : gotime) : bool := t_nanos t =? zeroUnix * Second.

(** [t.UnixNano()]: the instant in an [int64], wrapping outside its range. *)
Definition UnixNano (t : gotime) : Z := int64 (t_nanos t).

(** [time.Unix(0, n)] and [t.In(loc)] *)
Definition Unix0 (n : Z) : gotime := mkTime n Local.
Definition In_loc (t : gotime) (l : Location) : gotime := mkTime (t_nanos t) l.

Definition Before (t u : gotime) : bool := t_nanos t <? t_nanos u.
Definition After (t u : gotime) : bool := t_nanos u <? t_nanos t.

(** [t.Format(layout)], [t.AppendFormat(nil, layout)] *)
Class TimeFormat := { time_Format : gotime -> gostring -> gostring }.

(** [timeToMillis] of [time.go]; division truncates *)
Definition timeToMillis (t : gotime) : Z := Z.quot (UnixNano t) Millisecond.

(** ** [Duration.String] *)

(** The digits after the point, trailing zeros dropped, and what is left. *)
Definition pad_digits (prec : nat) (v : Z) : gostring :=
  let ds := FormatUint v in zeros (Z.of_nat prec - Z.of_nat (length ds)) ++ ds.

Definition fmtFrac (v : Z) (prec : nat) : gostring * Z :=
  let p := 10 ^ Z.of_nat prec in
  let ds := rev (strip_zeros (rev (pad_digits prec (v mod p)))) in
  (match ds with [] => [] | _ => Byte.x2e :: ds end, v / p).

Definition Duration_String (d : Z) : gostring :=
  let neg := d <? 0 in
  let u := Z.abs d in
  let body :=
    if u <? Second then
      if u =? 0 then go "0s"
      else
        let '(prec, unit) :=
          if u <? Microsecond then (0%nat, go "ns")
          else if u <? Millisecond then (3%nat, [Byte.xc2; Byte.xb5; Byte.x73])
          else (6%nat, go "ms") in
        let '(fr, v) := fmtFrac u prec in
        FormatUint v ++ fr ++ unit
    else
      let '(fr, v) := fmtFrac u 9 in
      let secs := FormatUint (v mod 60) ++ fr ++ go "s" in
      let mins := v / 60 in
      if 0 <? mins then
        let hours := mins / 60 in
        let ms := FormatUint (mins mod 60) ++ go "m" ++ secs in
        if 0 <? hours then FormatUint hours ++ go "h" ++ ms else ms
      else secs in
  if neg then Byte.x2d :: body else body.

Example duration_1h : Duration_String (3661500000000) = go "1h1m1.5s".
Proof. vm_compute. reflexivity. Qed.
Example duration_ms : Duration_String (-1500000) = go "-1.5ms".
Proof. vm_compute. reflexivity. Qed.
Example duration_min : Duration_String (-9223372036854775808) = go "-2562047h47m16.854775808s".
Proof. vm_compute. reflexivity. Qed.

(** ** [time.ParseDuration] *)

Inductive duration_error : Type :=
| InvalidDuration (orig : gostring)
| MissingUnit (orig : gostring)
| UnknownUnit (u orig : gostring).

Definition Minute : Z := 60 * Second.
Definition Hour : Z := 60 * Minute.

Definition unitMap (u : gostring) : option Z :=
  if streq u (go "ns") then Some Nanosecond
  else if streq u (go "us") || streq u [Byte.xc2; Byte.xb5; Byte.x73] || streq u [Byte.xce; Byte.xbc; Byte.x73]
       then Some Microsecond
  else if streq u (go "ms") then Some Millisecond
  else if streq u (go "s") then Some Second
  else if streq u (go "m") then Some Minute
  else if streq u (go "h") then Some Hour
  else None.

(** The digits a text begins with, their value and the rest; [None] when the
    value passes [2^63]. *)
Fixpoint leadingInt (s : gostring) (x : Z) : option (Z * gostring) :=
  match s with
  | c :: t =>
      if is_digit c
      then if 2 ^ 63 / 10 <? x then None
           else let x := step_digit x c in if 2 ^ 63 <? x then None else leadingInt t x
      else Some (x, s)
  | [] => Some (x, s)
  end.

(** The digits after the point, their value, [10] to their number, and the
    rest.  Digits that no longer fit are dropped; [overflow] says that one
    was.  The powers of ten are exact floats. *)
Fixpoint leadingFraction (s : gostring) (overflow : bool) (x scale : Z) : Z * Z * gostring :=
  match s with
  | c :: t =>
      if is_digit c
      then if overflow then leadingFraction t true x scale
           else if (2 ^ 63 - 1) / 10 <? x then leadingFraction t true x scale
           else let y := step_digit x c in
                if 2 ^ 63 <? y then leadingFraction t true x scale else leadingFraction t false y (scale * 10)
      else (x, scale, s)
  | [] => (x, scale, s)
  end.

(** [uint64(float64(f) * (float64(unit) / scale))] *)
Definition fraction (f unit scale : Z) : Z :=
  match fmul (of_int f) (fdiv (of_int unit) (of_int scale)) with
  | FFin neg m e => trunc neg m e
  | _ => 0
  end.

Definition is_num (c : byte) : bool := is_digit c || beq c Byte.x2e.

(** The bytes up to the next digit or point. *)
Fixpoint unit_len (s : gostring) : nat :=
  match s with c :: s => if is_num c then 0 else S (unit_len s) | [] => 0 end.

(** A point and the digits after it, whether there are any, and the rest. *)
Definition parse_fraction (t : gostring) : Z * Z * bool * gostring :=
  match t with
  | p :: r =>
      if beq p Byte.x2e
      then let '(f, scale, u) := leadingFraction r false 0 1 in
           (f, scale, negb (Nat.eqb (length u) (length r)), u)
      else (0, 1, false, t)
  | [] => (0, 1, false, t)
  end.

(** One number with its unit: its nanoseconds and the rest. *)
Definition parse_part (orig s : gostring) : (Z * gostring) + duration_error :=
  match s with
  | [] => inr (InvalidDuration orig)
  | c :: _ =>
      if is_num c
      then match leadingInt s 0 with
           | None => inr (InvalidDuration orig)
           | Some (v, t) =>
               let pre := negb (Nat.eqb (length t) (length s)) in
               let '(f, scale, post, t) := parse_fraction t in
               if negb pre && negb post then inr (InvalidDuration orig)
               else
                 let i := unit_len t in
                 if Nat.eqb i 0 then inr (MissingUnit orig)
                 else match unitMap (take i t) with
                      | None => inr (UnknownUnit (take i t) orig)
                      | Some unit =>
                          if 2 ^ 63 / unit <? v then inr (InvalidDuration orig)
                          else
                            let v := v * unit in
                            let v := if 0 <? f then v + fraction f unit scale else v in
                            if (0 <? f) && (2 ^ 63 <? v) then inr (InvalidDuration orig)
                            else inl (v, drop i t)
                      end
           end
      else inr (InvalidDuration orig)
  end.

(** The loop over the numbers.  Every round consumes a byte, so the length of
    the text is enough fuel. *)
Fixpoint parse_parts (fuel : nat) (orig s : gostring) (d : Z) : Z + duration_error :=
  match s, fuel with
  | [], _ => inl d
  | _, O => inr (InvalidDuration orig)
  | _, S fuel =>
      match parse_part orig s with
      | inr err => inr err
      | inl (v, s) => let d := d + v in if 2 ^ 63 <? d then inr (InvalidDuration orig) else parse_parts fuel orig s d
      end
  end.

Definition ParseDuration (orig : gostring) : Z + duration_error :=
  let '(neg, s) := match orig with
                   | c :: r => if beq c Byte.x2d then (true, r) else if beq c Byte.x2b then (false, r) else (false, orig)
                   | [] => (false, orig)
                   end in
  if streq s (go "0") then inl 0
  else if streq s [] then inr (InvalidDuration orig)
  else match parse_parts (length s) orig s 0 with
       | inr err => inr err
       | inl d =>
           if neg then inl (wrapS 64 (- wrapS 64 d))
           else if 2 ^ 63 - 1 <? d then inr (InvalidDuration orig) else inl d
       end.

Example parse_1h : ParseDuration (go "1h1m1.5s") = inl 3661500000000.
Proof. vm_compute. reflexivity. Qed.
Example parse_ns : ParseDuration (go "0.3914ns") = inl 0.
Proof. vm_compute. reflexivity. Qed.
Example parse_min : ParseDuration (go "-2562047h47m16.854775808s") = inl (-9223372036854775808).
Proof. vm_compute. reflexivity. Qed.
Example parse_bad : ParseDuration (go "5 ns") = inr (UnknownUnit (go " ns") (go "5 ns")).
Proof. vm_compute. reflexivity. Qed.

(** ** Facts *)

Lemma UnixNano_id t : inS 64 (t_nanos t) -> UnixNano t = t_nanos t.
Proof. apply wrapS_id. lia. Qed.

(** Milliseconds towards the epoch, for times [UnixNano] can hold. *)
Lemma timeToMillis_bound t : inS 64 (t_nanos t) ->
  Z.abs (t_nanos t - timeToMillis t * Millisecond) < Millisecond /\
  Z.abs (timeToMillis t * Millisecond) <= Z.abs (t_nanos t).
Proof.
  intros Ht. unfold timeToMillis. rewrite UnixNano_id by done. unfold Millisecond.
  pose proof (Z.quot_rem' (t_nanos t) 1000000). pose proof (Z.rem_bound_abs (t_nanos t) 1000000 ltac:(lia)).
  pose proof (Z.rem_sign_nz (t_nanos t) 1000000 ltac:(lia)). destruct (Z.eq_dec (Z.rem (t_nanos t) 1000000) 0); lia.
Qed.

Lemma leadingInt_digits ds c rest a :
  forallb is_digit ds = true -> is_digit c = false -> 0 <= a -> fold_left step_digit ds a <= 2 ^ 63 ->
  leadingInt (ds ++ c :: rest) a = Some (fold_left step_digit ds a, c :: rest).
Proof.
  revert a. induction ds as [|d ds IH]; intros a Hd Hc Ha Hle; cbn [app leadingInt]; [by rewrite Hc|].
  cbn [forallb] in Hd. apply andb_prop in Hd as [Hd Hds]. pose proof (is_digit_range _ Hd).
  cbn [fold_left] in *. rewrite Hd. assert (step_digit a d = 10 * a + digit_val d) as Hs by done.
  pose proof (fold_digits_grow ds (step_digit a d) Hds) as Hg. change (2 ^ 63 / 10) with 922337203685477580.
  rewrite (proj2 (Z.ltb_ge _ _)) by lia. rewrite (proj2 (Z.ltb_ge _ _)) by lia. apply IH; [done|done|lia|done].
Qed.

(** A whole number of nanoseconds is read as it was printed. *)
Lemma ParseDuration_ns n : 0 <= n < 2 ^ 63 -> ParseDuration (FormatUint n ++ go "ns") = inl n.
Proof.
  intros Hn. destruct (FormatUint_first n) as (d & r & E & Hd); [lia|].
  pose proof (FormatUint_digits n) as Hds. unfold ParseDuration.
  assert (fold_left step_digit (FormatUint n) 0 = n) as Hv by (apply ParseUint_FormatUint; lia).
  set (s := FormatUint n ++ go "ns"). assert (s = d :: r ++ go "ns") as Es by (unfold s; by rewrite E).
  rewrite Es, !(digit_neq d) by done. rewrite <- Es.
  assert (2 < length s)%nat as Hlen by (rewrite Es; cbn; rewrite length_app; cbn; lia).
  assert (streq s (go "0") = false) as -> by (apply bool_decide_eq_false; intros E0; rewrite E0 in Hlen; cbn in Hlen; lia).
  assert (streq s [] = false) as -> by (apply bool_decide_eq_false; by rewrite Es).
  assert (parse_part s s = inl (n, [])) as Hp.
  { unfold parse_part. rewrite Es at 1. unfold is_num. rewrite Hd. cbn [orb]. unfold s at 1.
    change (go "ns") with (Byte.x6e :: go "s"). rewrite leadingInt_digits; [|auto with lia|done|lia|lia].
    rewrite Hv. cbn [length]. rewrite (proj2 (Nat.eqb_neq _ _)) by (change (S (length (go "s"))) with 2%nat; lia).
    change (parse_fraction (Byte.x6e :: go "s")) with (0, 1, false, Byte.x6e :: go "s"). cbn [negb andb]. cbv iota.
    change (unit_len (Byte.x6e :: go "s")) with 2%nat. cbn [Nat.eqb].
    change (unitMap (take 2 (Byte.x6e :: go "s"))) with (Some 1). cbv iota.
    rewrite (proj2 (Z.ltb_ge _ _)) by (rewrite Z.div_1_r; lia). cbn [Z.ltb Z.compare andb]. by rewrite Z.mul_1_r. }
  destruct (length s) as [|f] eqn:El; [lia|]. rewrite Es. cbn [parse_parts]. rewrite <- Es, Hp.
  rewrite (proj2 (Z.ltb_ge _ _)) by lia. destruct f; cbn [parse_parts]; by rewrite (proj2 (Z.ltb_ge _ _)) by lia.
Qed.

(** Every round of [parse_parts] consumes a byte. *)
Lemma leadingInt_length s x v t : leadingInt s x = Some (v, t) -> (length t <= length s)%nat.
Proof.
  revert x. induction s as [|c s IH]; intros x; cbn [leadingInt]; [by intros [= _ <-]|].
  repeat case_match; try done; [intros ?%IH; cbn; lia|by intros [= _ <-]].
Qed.

Lemma leadingFraction_length s o x scale : (length (leadingFraction s o x scale).2 <= length s)%nat.
Proof.
  revert o x scale. induction s as [|c s IH]; intros o x scale; cbn [leadingFraction]; [done|].
  repeat case_match; cbn [snd length]; first [lia | etrans; [apply IH|lia]].
Qed.

Lemma parse_part_consumes orig s v t : parse_part orig s = inl (v, t) -> (length t < length s)%nat.
Proof.
  unfold parse_part. destruct s as [|c s]; [done|]. destruct (is_num c); [|done].
  destruct (leadingInt (c :: s) 0) as [[v0 t0]|] eqn:Ei; [|done]. apply leadingInt_length in Ei.
  destruct (parse_fraction t0) as [[[f scale] post] t1] eqn:Ef. unfold parse_fraction in Ef.
  assert (length t1 <= length t0)%nat as Ht.
  { destruct t0 as [|p r]; [by simplify_eq|]. destruct (beq p Byte.x2e); [|by simplify_eq].
    pose proof (leadingFraction_length r false 0 1) as Hf. destruct (leadingFraction r false 0 1) as [[? ?] ?].
    simplify_eq/=. lia. }
  destruct (negb _ && negb _); [done|]. destruct (Nat.eqb_spec (unit_len t1) 0); [done|].
  destruct (unitMap _); [|done]. repeat case_match; try done; intros [= _ <-]; rewrite length_drop;
    destruct t1; cbn in *; lia.
Qed.
