(* ===== verification/Buffer.v ===== *)
(** * Buffer

    [buffer/buffer.go], [buffer/pool.go] and [internal/pool]: the byte buffer
    the encoders append to, and the pool it is recycled through. *)
From S2P Require Import Prelude Strconv Float GoTime.
Open Scope Z_scope.

(** ** Pools

    [sync.Pool.Get] may return any value put before or a fresh one; the
    choice is an argument, and a result about every choice is a result about
    every schedule. *)
Module Pool.
Section Pool.
Context {T : Type}.

Record t := mk { New : T; free : list T }.

Definition Get (p : t) (choice : option nat) : T * t :=
  match choice with
  | Some i =>
      match free p !! i with
      | Some x => (x, mk (New p) (delete i (free p)))
      | None => (New p, p)
      end
  | None => (New p, p)
  end.

Definition Put (p : t) (x : T) : t := mk (New p) (x :: free p).

(** What is true of [New] and of every value put is true of every value
    got. *)
Definition all (P : T -> Prop) (p : t) : Prop := P (New p) /\ Forall P (free p).

Lemma Get_all P p c x p' : all P p -> Get p c = (x, p') -> P x /\ all P p'.
Proof.
  intros [Hn Hf] H. unfold Get in H. repeat case_match; simplify_eq; try done.
  split; [by eapply Forall_lookup_1|]. split; [done|]. cbn. by apply Forall_delete.
Qed.

Lemma Put_all P p x : all P p -> P x -> all P (Put p x).
Proof. intros [Hn Hf] Hx. split; [done|]. by constructor. Qed.
End Pool.
Arguments t : clear implicits.
End Pool.

(** ** The buffer *)

(** A [Buffer] is its bytes; the pool it belongs to is the one it was got
    from. *)
Record Buffer := mkBuffer { bs : gostring }.

Section Operations.
Context `{TimeFormat}.
Implicit Type b : Buffer.

Definition AppendByte b (v : byte) : Buffer := mkBuffer (bs b ++ [v]).
Definition AppendBytes b (v : gostring) : Buffer := mkBuffer (bs b ++ v).
Definition AppendString b (s : gostring) : Buffer := mkBuffer (bs b ++ s).
Definition AppendInt b (i : Z) : Buffer := mkBuffer (bs b ++ FormatInt i).
Definition AppendTime b (t : gotime) (layout : gostring) : Buffer :=
  mkBuffer (bs b ++ time_Format t layout).
Definition AppendUint b (i : Z) : Buffer := mkBuffer (bs b ++ FormatUint i).
Definition AppendBool b (v : bool) : Buffer := mkBuffer (bs b ++ FormatBool v).
Definition AppendFloat b (f : fval) (bitSize : Z) : Buffer :=
  mkBuffer (bs b ++ FormatFloat f bitSize).
Definition Len b : nat := length (bs b).
Definition Bytes b : gostring := bs b.
Definition String_ b : gostring := bs b.
Definition Reset b : Buffer := mkBuffer [].

(** [Write] never fails. *)
Definition Write b (p : gostring) : Buffer * Z := (mkBuffer (bs b ++ p), Z.of_nat (length p)).
Definition WriteByte b (v : byte) : Buffer := AppendByte b v.
Definition WriteString b (s : gostring) : Buffer * Z :=
  (AppendString b s, Z.of_nat (length s)).

(** Drops one final newline. *)
Definition TrimNewline b : Buffer :=
  let i := Z.of_nat (length (bs b)) - 1 in
  if 0 <=? i then
    match bs b !! Z.to_nat i with
    | Some c => if beq c Byte.x0a then mkBuffer (take (Z.to_nat i) (bs b)) else b
    | None => b
    end
  else b.
End Operations.

(** ** The buffer pool *)

Definition NewPool : Pool.t Buffer := Pool.mk (mkBuffer []) [].

(** [Pool.Get] resets what it hands out. *)
Definition GetBuffer (p : Pool.t Buffer) (choice : option nat) : Buffer * Pool.t Buffer :=
  let '(b, p') := Pool.Get p choice in (Reset b, p').

Definition Free (p : Pool.t Buffer) (b : Buffer) : Pool.t Buffer := Pool.Put p b.

(** Whatever was left in a recycled buffer, the one handed out is empty. *)
Lemma GetBuffer_empty p c : fst (GetBuffer p c) = mkBuffer [].
Proof. unfold GetBuffer. by destruct (Pool.Get p c). Qed.

Lemma TrimNewline_snoc s c :
  TrimNewline (mkBuffer (s ++ [c])) = mkBuffer (if beq c Byte.x0a then s else s ++ [c]).
Proof.
  unfold TrimNewline. cbn [bs]. rewrite length_app. cbn [length].
  replace (Z.of_nat (length s + 1) - 1) with (Z.of_nat (length s)) by lia.
  rewrite (proj2 (Z.leb_le _ _)) by lia. rewrite Nat2Z.id, list_lookup_middle by done.
  by rewrite take_app_length; destruct (beq c Byte.x0a).
Qed.
