(* ===== verification/Entry.v ===== *)
(** * Entry

    [Entry] and [EntryCaller] of [ladcore/entry.go]. *)
From S2P Require Import Prelude Strconv Float GoTime Buffer.
Open Scope Z_scope.

Record EntryCaller := mkCaller {
  Defined : bool;
  PC : Z;
  File : gostring;
  Line : Z;
  Function_ : gostring;
}.

Definition noCaller : EntryCaller := mkCaller false 0 [] 0 [].

Definition NewEntryCaller (pc : Z) (file : gostring) (line : Z) (ok : bool) : EntryCaller :=
  if negb ok then noCaller else mkCaller true pc file line [].

(** [strings.LastIndexByte] *)
Fixpoint LastIndexByte (s : gostring) (c : byte) : option nat :=
  match s with
  | [] => None
  | b :: t =>
      match LastIndexByte t c with
      | Some i => Some (S i)
      | None => if beq b c then Some 0%nat else None
      end
  end.

Definition file_line (file : gostring) (line : Z) : gostring :=
  String_ (AppendInt (AppendByte (AppendString (mkBuffer []) file) Byte.x3a) line).

Definition FullPath (ec : EntryCaller) : gostring :=
  if negb (Defined ec) then go "undefined" else file_line (File ec) (Line ec).

Definition Caller_String (ec : EntryCaller) : gostring := FullPath ec.

Definition TrimmedPath (ec : EntryCaller) : gostring :=
  if negb (Defined ec) then go "undefined"
  else
    match LastIndexByte (File ec) Byte.x2f with
    | None => FullPath ec
    | Some idx =>
        match LastIndexByte (take idx (File ec)) Byte.x2f with
        | None => FullPath ec
        | Some idx => file_line (drop (idx + 1) (File ec)) (Line ec)
        end
    end.

Record Entry := mkEntry {
  e_Level : Z;
  e_Time : gotime;
  e_LoggerName : gostring;
  e_Message : gostring;
  e_Caller : EntryCaller;
  e_Stack : gostring;
}.

(** The zero [Entry]. *)
Definition zeroEntry : Entry := mkEntry 0 zeroTime [] [] noCaller [].

(** ** Facts *)

Lemma LastIndexByte_None s c : LastIndexByte s c = None <-> Forall (fun b => b <> c) s.
Proof.
  induction s as [|b t IH]; [done|]. cbn [LastIndexByte]. rewrite Forall_cons.
  destruct (LastIndexByte t c) as [j|].
  - split; [done|]. intros [_ Hf]. by apply IH in Hf.
  - destruct (beq b c) eqn:Eb.
    + apply beq_true in Eb. split; [done|]. by intros [? _].
    + apply beq_false in Eb. split; [|done]. intros _. split; [done|]. by apply IH.
Qed.

Lemma LastIndexByte_app a c b :
  Forall (fun x => x <> c) b -> LastIndexByte (a ++ c :: b) c = Some (length a).
Proof.
  intros Hb. induction a as [|x a IH]; cbn [app LastIndexByte length].
  - rewrite (proj2 (LastIndexByte_None b c) Hb). by rewrite beq_refl.
  - by rewrite IH.
Qed.

(** On a defined caller whose path has a directory [dir] inside another
    one, [TrimmedPath] keeps exactly the last directory, the file name and the
    line; [FullPath] keeps everything. *)
Theorem trimmed_path_leaf ec pre dir name
    (Hd : Defined ec = true) (Hf : File ec = pre ++ Byte.x2f :: dir ++ Byte.x2f :: name)
    (Hdir : Forall (fun b => b <> Byte.x2f) dir) (Hname : Forall (fun b => b <> Byte.x2f) name) :
  TrimmedPath ec = dir ++ Byte.x2f :: name ++ Byte.x3a :: FormatInt (Line ec) /\
  FullPath ec = File ec ++ Byte.x3a :: FormatInt (Line ec).
Proof.
  assert (File ec = (pre ++ Byte.x2f :: dir) ++ Byte.x2f :: name) as Hf'
    by (by rewrite Hf, <- app_assoc).
  unfold TrimmedPath, FullPath, file_line, String_, AppendInt, AppendByte, AppendString.
  rewrite Hd, Hf'. cbn [negb bs app]. split; [|by rewrite <- !app_assoc].
  rewrite LastIndexByte_app, take_app_length, LastIndexByte_app by done.
  rewrite <- drop_drop, <- (app_assoc pre), drop_app_length.
  cbn [drop app]. rewrite drop_0. by rewrite <- !app_assoc.
Qed.

Lemma trimmed_path_leaf_witness :
  TrimmedPath (mkCaller true 1 (go "/src/lad/logger.go") 42 []) = go "lad/logger.go:42".
Proof.
  destruct (trimmed_path_leaf (mkCaller true 1 (go "/src/lad/logger.go") 42 [])
              (go "/src") (go "lad") (go "logger.go")) as [E _];
    [reflexivity|reflexivity|repeat (constructor; [done|]); constructor..|].
  rewrite E. reflexivity.
Defined.
