(* ===== verification/Values.v ===== *)
(** * Values

    The Go values that flow through the library: errors, [interface{}]
    values, fields, and marshalers.  Code that talks to an [ObjectEncoder] or
    an [ArrayEncoder] only through its methods is a tree of calls ([objm],
    [arrm]); an encoder is an interpreter of such trees. *)
From S2P Require Import Prelude Strconv Utf8 Float GoTime.
Open Scope Z_scope.
Set Warnings "-register-all".

(** ** Errors *)

(** An [error]: what [Error()] returns or panics with, what [Errors()] does
    when the type has that method (it returns errors, which may be nil, or
    panics), what ["%+v"] prints when it is a [fmt.Formatter] (fmt recovers its
    panics), and whether it is a nil pointer. *)
Inductive goerror : Type :=
| GoError (msg : outcome gostring) (group : option (outcome (list (option goerror))))
    (verbose : option gostring) (nilptr : bool).

Definition err_msg (e : goerror) : outcome gostring := let 'GoError m _ _ _ := e in m.
Definition err_nilptr (e : goerror) : bool := let 'GoError _ _ _ n := e in n.

(** [errors.New(s)], and [fmt.Errorf] without wrapping *)
Definition newError (s : gostring) : goerror := GoError (Ret s) None None false.

(** A nilable error, Go's [error]. *)
Abbreviation error := (option goerror).

(** [multierr.Append] of go.uber.org/multierr: appending nil changes nothing,
    and two errors make one. *)
Class MultiErr := {
  multierr_Append : error -> error -> error;
  Append_nil_l e : multierr_Append None e = e;
  Append_nil_r e : multierr_Append e None = e;
  Append_some a b : is_Some (multierr_Append (Some a) (Some b));
}.

(** A [fmt.Stringer]. *)
Record stringer := Stringer_ { str_String : outcome gostring; str_nilptr : bool }.

(** ** Basic types *)

(** The types [lad.Any] and the field constructors know. *)
Inductive kind : Type :=
| KBool | KComplex128 | KComplex64 | KFloat64 | KFloat32
| KInt | KInt64 | KInt32 | KInt16 | KInt8 | KString
| KUint | KUint64 | KUint32 | KUint16 | KUint8 | KUintptr
| KTime | KDuration.

(** Floats are their bits, complex numbers the bits of their parts. *)
Definition kval (k : kind) : Type :=
  match k with
  | KBool => bool
  | KComplex128 | KComplex64 => (Z * Z)%type
  | KString => gostring
  | KTime => gotime
  | _ => Z
  end.

(** The arguments of the [Append] methods of a [PrimitiveArrayEncoder], and of
    the [Add] methods of the same name. *)
Inductive prim : Type :=
| PBool (v : bool)
| PByteString (v : gostring)
| PComplex128 (v : Z * Z)
| PComplex64 (v : Z * Z)
| PFloat64 (v : Z)
| PFloat32 (v : Z)
| PInt (v : Z)
| PInt64 (v : Z)
| PInt32 (v : Z)
| PInt16 (v : Z)
| PInt8 (v : Z)
| PString (v : gostring)
| PUint (v : Z)
| PUint64 (v : Z)
| PUint32 (v : Z)
| PUint16 (v : Z)
| PUint8 (v : Z)
| PUintptr (v : Z).

(** [ladcore.FieldType] *)
Inductive FieldType : Type :=
| UnknownType | ArrayMarshalerType | ObjectMarshalerType | BinaryType | BoolType
| ByteStringType | Complex128Type | Complex64Type | DurationType | Float64Type
| Float32Type | Int64Type | Int32Type | Int16Type | Int8Type | StringType
| TimeType | TimeFullType | Uint64Type | Uint32Type | Uint16Type | Uint8Type
| UintptrType | ReflectType | NamespaceType | StringerType | ErrorType
| SkipType | InlineMarshalerType.

(** ** Interface values, marshalers and fields *)

Inductive goval : Type :=
| VNil
| VScalar (k : kind) (v : kval k)
| VPtr (k : kind) (p : option (kval k))
| VSlice (k : kind) (vs : list (kval k))
| VLocation (l : Location)
| VErrors (es : list (option goerror))
| VFields (fs : list field)
| VField (f : field)
| VUser (d : dynval)

(** A value of any other type: the interfaces it implements and a name for
    the rest of it. *)
with dynval : Type :=
| Dyn (obj : option objm) (arr : option arrm) (err : option goerror)
    (str : option stringer) (id : nat)

(** [MarshalLogObject]: the calls made and the error returned.  [Add] methods
    without result answer nil. *)
with objm : Type :=
| ORet (e : option goerror)
| OPanic (v : gostring)
| OCall (op : objop) (k : option goerror -> objm)

with objop : Type :=
| AddArray (key : gostring) (a : arrm)
| AddObject (key : gostring) (o : objm)
| AddBinary (key : gostring) (v : gostring)
| AddPrim (key : gostring) (p : prim)
| AddDuration (key : gostring) (d : Z)
| AddTime (key : gostring) (t : gotime)
| AddReflected (key : gostring) (v : goval)
| OpenNamespace (key : gostring)

(** [MarshalLogArray] *)
with arrm : Type :=
| ARet (e : option goerror)
| APanic (v : gostring)
| ACall (op : arrop) (k : option goerror -> arrm)

with arrop : Type :=
| AppendArray (a : arrm)
| AppendObject (o : objm)
| AppendPrim (p : prim)
| AppendDuration (d : Z)
| AppendTime (t : gotime)
| AppendReflected (v : goval)

(** [ladcore.Field] *)
with field : Type :=
| mkField (Key : gostring) (Type_ : FieldType) (Integer : Z) (String : gostring)
    (Interface : goval).

Definition f_Key (f : field) := let 'mkField k _ _ _ _ := f in k.
Definition f_Type (f : field) := let 'mkField _ t _ _ _ := f in t.
Definition f_Integer (f : field) := let 'mkField _ _ i _ _ := f in i.
Definition f_String (f : field) := let 'mkField _ _ _ s _ := f in s.
Definition f_Interface (f : field) := let 'mkField _ _ _ _ v := f in v.

Scheme objm_mut := Induction for objm Sort Prop
  with objop_mut := Induction for objop Sort Prop
  with arrm_mut := Induction for arrm Sort Prop
  with arrop_mut := Induction for arrop Sort Prop.
Combined Scheme marshaler_ind from objm_mut, objop_mut, arrm_mut, arrop_mut.

(** ** Programs *)

(** Run [p], then [k] on its error; a panic stops everything. *)
Fixpoint obind (p : objm) (k : option goerror -> objm) : objm :=
  match p with
  | ORet e => k e
  | OPanic v => OPanic v
  | OCall op k' => OCall op (fun e => obind (k' e) k)
  end.

Fixpoint abind (p : arrm) (k : option goerror -> arrm) : arrm :=
  match p with
  | ARet e => k e
  | APanic v => APanic v
  | ACall op k' => ACall op (fun e => abind (k' e) k)
  end.

Definition ocall (op : objop) : objm := OCall op ORet.
Definition acall (op : arrop) : arrm := ACall op ARet.

(** Call and ignore the (absent) result. *)
Definition othen (op : objop) (p : objm) : objm := OCall op (fun _ => p).
Definition athen (op : arrop) (p : arrm) : arrm := ACall op (fun _ => p).

(** Type assertions. *)
Definition as_ObjectMarshaler (v : goval) : option objm :=
  match v with VUser (Dyn o _ _ _ _) => o | _ => None end.
Definition as_ArrayMarshaler (v : goval) : option arrm :=
  match v with VUser (Dyn _ a _ _ _) => a | _ => None end.
Definition as_error (v : goval) : option goerror :=
  match v with VUser (Dyn _ _ e _ _) => e | _ => None end.
Definition as_bytes (v : goval) : option gostring :=
  match v with VSlice KUint8 vs => Some (map zb vs) | _ => None end.
Definition as_string (v : goval) : option gostring :=
  match v with VScalar KString s => Some s | _ => None end.

(** A value that is only an [ObjectMarshaler] or only an [ArrayMarshaler]. *)
Definition of_objm (o : objm) : goval := VUser (Dyn (Some o) None None None 0).
Definition of_arrm (a : arrm) : goval := VUser (Dyn None (Some a) None None 0).
Definition of_error (e : goerror) : goval := VUser (Dyn None None (Some e) None 0).

(** The texts of run-time panics and of ["%v"] on a field, which the Go
    runtime and [fmt] compose. *)
Class GoRuntime := {
  conversion_panic : goval -> gostring;
  sprint_field : field -> gostring;
}.

(** A runtime to evaluate examples with. *)
Definition exampleRuntime : GoRuntime :=
  {| conversion_panic _ := go "interface conversion"; sprint_field _ := go "{}" |}.
