(* ===== verification/Field.v ===== *)
(** * Field

    [ladcore/field.go], [ladcore/error.go], and the field constructors of
    [field.go], [array.go], [error.go] and [exp/zapfield]: how a value is
    packed into a [Field], and the encoder calls [AddTo] makes to unpack it. *)
From S2P Require Import Prelude Strconv Utf8 Float GoTime Values.
Open Scope Z_scope.

Definition AddString (key s : gostring) : objop := AddPrim key (PString s).

Section Field.
Context `{GoRuntime}.

(** ** Errors and stringers *)

(** [errArray]: nil errors are skipped, and the first failing element ends the
    array.  [elem] is the [MarshalLogObject] of [errArrayElem]. *)
Section ErrArray.
Variable elem : goerror -> objm.

Fixpoint core_errArray (es : list (option goerror)) : arrm :=
  match es with
  | [] => ARet None
  | None :: r => core_errArray r
  | Some e :: r =>
      ACall (AppendObject (elem e))
        (fun err => match err with Some _ => ARet err | None => core_errArray r end)
  end.
End ErrArray.

(** [encodeError].  A panic of [Error()] or [Errors()] is recovered: a nil
    pointer is logged as [<nil>], anything else becomes the returned error. *)
Fixpoint encodeError (key : gostring) (err : goerror) : objm :=
  let 'GoError msg group verbose nilptr := err in
  let recovered rerr :=
    if nilptr then othen (AddString key (go "<nil>")) (ORet None)
    else ORet (Some (newError (go "PANIC=" ++ rerr))) in
  match msg with
  | Panic v => recovered v
  | Ret basic =>
      othen (AddString key basic)
        match group with
        | Some (Panic v) => recovered v
        | Some (Ret errs) =>
            ocall (AddArray (key ++ go "Causes")
              (core_errArray (fun e => encodeError (go "error") e) errs))
        | None =>
            match verbose with
            | Some v =>
                if streq v basic then ORet None
                else othen (AddString (key ++ go "Verbose") v) (ORet None)
            | None => ORet None
            end
        end
  end.

(** Which values are [fmt.Stringer]s; a nil [*time.Duration] is one whose
    [String] method panics. *)
Definition as_Stringer (v : goval) : option stringer :=
  match v with
  | VUser (Dyn _ _ _ s _) => s
  | VScalar KDuration d => Some (Stringer_ (Ret (Duration_String d)) false)
  | VPtr KDuration (Some d) => Some (Stringer_ (Ret (Duration_String d)) false)
  | VPtr KDuration None => Some (Stringer_ (Panic (conversion_panic v)) true)
  | VLocation l => Some (Stringer_ (Ret l) false)
  | _ => None
  end.

(** Whether [reflect.ValueOf(v)] is a nil pointer. *)
Definition is_nil_pointer (v : goval) : bool :=
  match v with
  | VPtr _ None => true
  | VUser (Dyn _ _ _ (Some s) _) => str_nilptr s
  | _ => false
  end.

Definition encodeStringer (key : gostring) (v : goval) : objm :=
  let recovered msg :=
    if is_nil_pointer v then othen (AddString key (go "<nil>")) (ORet None)
    else ORet (Some (newError (go "PANIC=" ++ msg))) in
  match as_Stringer v with
  | None => recovered (conversion_panic v)
  | Some s =>
      match str_String s with
      | Ret text => othen (AddString key text) (ORet None)
      | Panic msg => recovered msg
      end
  end.

(** ** [AddTo] *)

(** The tail of [AddTo]: an error is logged under [<key>Error]. *)
Definition add_error (key : gostring) (err : error) : objm :=
  match err with
  | None => ORet None
  | Some e =>
      match err_msg e with
      | Ret text => othen (AddString (key ++ go "Error") text) (ORet None)
      | Panic v => OPanic v
      end
  end.

Definition AddTo (f : field) : objm :=
  let '(mkField Key Type_ Integer Str Interface) := f in
  let cast {A} (o : option A) (k : A -> objm) : objm :=
    match o with Some a => k a | None => OPanic (conversion_panic Interface) end in
  let add p := othen (AddPrim Key p) (ORet None) in
  match Type_ with
  | ArrayMarshalerType =>
      cast (as_ArrayMarshaler Interface) (fun a => OCall (AddArray Key a) (add_error Key))
  | ObjectMarshalerType =>
      cast (as_ObjectMarshaler Interface) (fun o => OCall (AddObject Key o) (add_error Key))
  | InlineMarshalerType =>
      cast (as_ObjectMarshaler Interface) (fun o => obind o (add_error Key))
  | BinaryType => cast (as_bytes Interface) (fun v => othen (AddBinary Key v) (ORet None))
  | BoolType => add (PBool (Integer =? 1))
  | ByteStringType => cast (as_bytes Interface) (fun v => add (PByteString v))
  | Complex128Type =>
      match Interface with
      | VScalar KComplex128 c => add (PComplex128 c)
      | _ => OPanic (conversion_panic Interface)
      end
  | Complex64Type =>
      match Interface with
      | VScalar KComplex64 c => add (PComplex64 c)
      | _ => OPanic (conversion_panic Interface)
      end
  | DurationType => othen (AddDuration Key Integer) (ORet None)
  | Float64Type => add (PFloat64 (uint64 Integer))
  | Float32Type => add (PFloat32 (uint32 Integer))
  | Int64Type => add (PInt64 Integer)
  | Int32Type => add (PInt32 (int32 Integer))
  | Int16Type => add (PInt16 (int16 Integer))
  | Int8Type => add (PInt8 (int8 Integer))
  | StringType => add (PString Str)
  | TimeType =>
      match Interface with
      | VNil => othen (AddTime Key (Unix0 Integer)) (ORet None)
      | VLocation l => othen (AddTime Key (In_loc (Unix0 Integer) l)) (ORet None)
      | _ => OPanic (conversion_panic Interface)
      end
  | TimeFullType =>
      match Interface with
      | VScalar KTime t => othen (AddTime Key t) (ORet None)
      | _ => OPanic (conversion_panic Interface)
      end
  | Uint64Type => add (PUint64 (uint64 Integer))
  | Uint32Type => add (PUint32 (uint32 Integer))
  | Uint16Type => add (PUint16 (uint16 Integer))
  | Uint8Type => add (PUint8 (uint8 Integer))
  | UintptrType => add (PUintptr (uint64 Integer))
  | ReflectType => OCall (AddReflected Key Interface) (add_error Key)
  | NamespaceType => othen (OpenNamespace Key) (ORet None)
  | StringerType => obind (encodeStringer Key Interface) (add_error Key)
  | ErrorType => cast (as_error Interface) (fun e => obind (encodeError Key e) (add_error Key))
  | SkipType => ORet None
  | UnknownType => OPanic (go "unknown field type: " ++ sprint_field f)
  end.

(** [addFields], and [dictObject.MarshalLogObject] *)
Fixpoint addFields (fs : list field) : objm :=
  match fs with
  | [] => ORet None
  | f :: fs' => obind (AddTo f) (fun _ => addFields fs')
  end.
End Field.

(** ** Comparison *)

(** Comparison of interface values: [==], which panics on two values of one
    type that cannot be compared, and [reflect.DeepEqual]. *)
Class GoCompare := {
  iface_eq : goval -> goval -> outcome bool;
  DeepEqual : goval -> goval -> bool;
  iface_eq_nil : iface_eq VNil VNil = Ret true;
}.

#[export] Instance FieldType_eq_decision : EqDecision FieldType.
Proof. solve_decision. Defined.

(** [bytes.Equal(f.Interface.([]byte), other.Interface.([]byte))] *)
Definition bytes_equal `{GoRuntime} (v w : goval) : outcome bool :=
  match as_bytes v, as_bytes w with
  | Some a, Some b => Ret (streq a b)
  | None, _ => Panic (conversion_panic v)
  | _, None => Panic (conversion_panic w)
  end.

(** [f == other]: the components in order, up to the first that differs. *)
Definition field_eq `{GoCompare} (f other : field) : outcome bool :=
  if streq (f_Key f) (f_Key other) && bool_decide (f_Type f = f_Type other)
     && (f_Integer f =? f_Integer other) && streq (f_String f) (f_String other)
  then iface_eq (f_Interface f) (f_Interface other) else Ret false.

Definition Equals `{GoRuntime} `{GoCompare} (f other : field) : outcome bool :=
  if negb (bool_decide (f_Type f = f_Type other)) then Ret false
  else if negb (streq (f_Key f) (f_Key other)) then Ret false
  else match f_Type f with
       | BinaryType | ByteStringType => bytes_equal (f_Interface f) (f_Interface other)
       | ArrayMarshalerType | ObjectMarshalerType | ErrorType | ReflectType =>
           Ret (DeepEqual (f_Interface f) (f_Interface other))
       | _ => field_eq f other
       end.

(** ** Constructors *)

Definition Field_ (key : gostring) (ty : FieldType) (i : Z) (s : gostring) (v : goval) : field :=
  mkField key ty i s v.

Definition Skip : field := Field_ [] SkipType 0 [] VNil.
Definition Reflect (key : gostring) (v : goval) : field := Field_ key ReflectType 0 [] v.
Definition nilField (key : gostring) : field := Reflect key VNil.

Definition Binary (key v : gostring) : field := Field_ key BinaryType 0 [] (VSlice KUint8 (map bz v)).
Definition Bool (key : gostring) (v : bool) : field :=
  Field_ key BoolType (if v then 1 else 0) [] VNil.
Definition ByteString (key v : gostring) : field :=
  Field_ key ByteStringType 0 [] (VSlice KUint8 (map bz v)).
Definition Complex128 (key : gostring) (v : Z * Z) : field :=
  Field_ key Complex128Type 0 [] (VScalar KComplex128 v).
Definition Complex64 (key : gostring) (v : Z * Z) : field :=
  Field_ key Complex64Type 0 [] (VScalar KComplex64 v).
Definition Float64 (key : gostring) (bits : Z) : field := Field_ key Float64Type (int64 bits) [] VNil.
Definition Float32 (key : gostring) (bits : Z) : field := Field_ key Float32Type (int64 bits) [] VNil.
Definition Int64 (key : gostring) (v : Z) : field := Field_ key Int64Type v [] VNil.
Definition Int (key : gostring) (v : Z) : field := Int64 key (int64 v).
Definition Int32 (key : gostring) (v : Z) : field := Field_ key Int32Type (int64 v) [] VNil.
Definition Int16 (key : gostring) (v : Z) : field := Field_ key Int16Type (int64 v) [] VNil.
Definition Int8 (key : gostring) (v : Z) : field := Field_ key Int8Type (int64 v) [] VNil.
Definition String_f (key v : gostring) : field := Field_ key StringType 0 v VNil.
Definition Uint64 (key : gostring) (v : Z) : field := Field_ key Uint64Type (int64 v) [] VNil.
Definition Uint (key : gostring) (v : Z) : field := Uint64 key (uint64 v).
Definition Uint32 (key : gostring) (v : Z) : field := Field_ key Uint32Type (int64 v) [] VNil.
Definition Uint16 (key : gostring) (v : Z) : field := Field_ key Uint16Type (int64 v) [] VNil.
Definition Uint8 (key : gostring) (v : Z) : field := Field_ key Uint8Type (int64 v) [] VNil.
Definition Uintptr (key : gostring) (v : Z) : field := Field_ key UintptrType (int64 v) [] VNil.
Definition Namespace (key : gostring) : field := Field_ key NamespaceType 0 [] VNil.
Definition Stringer (key : gostring) (v : goval) : field := Field_ key StringerType 0 [] v.
Definition Duration (key : gostring) (d : Z) : field := Field_ key DurationType (int64 d) [] VNil.

Definition _minTimeInt64 : gotime := Unix0 (- 2 ^ 63).
Definition _maxTimeInt64 : gotime := Unix0 (2 ^ 63 - 1).

(** A time outside the range of [UnixNano] is carried as it is. *)
Definition Time (key : gostring) (v : gotime) : field :=
  if Before v _minTimeInt64 || After v _maxTimeInt64
  then Field_ key TimeFullType 0 [] (VScalar KTime v)
  else Field_ key TimeType (UnixNano v) [] (VLocation (t_loc v)).

Definition Object (key : gostring) (v : goval) : field := Field_ key ObjectMarshalerType 0 [] v.
Definition Array (key : gostring) (v : goval) : field := Field_ key ArrayMarshalerType 0 [] v.
Definition Inline (v : goval) : field := Field_ [] InlineMarshalerType 0 [] v.

Definition NamedError (key : gostring) (err : error) : field :=
  match err with
  | None => Skip
  | Some e => Field_ key ErrorType 0 [] (of_error e)
  end.
Definition Error (err : error) : field := NamedError (go "error") err.

Definition dictObject `{GoRuntime} (fs : list field) : objm := addFields fs.
Definition dictField `{GoRuntime} (key : gostring) (fs : list field) : field :=
  Object key (of_objm (dictObject fs)).
Definition Dict `{GoRuntime} (key : gostring) (val : list field) : field := dictField key val.
Definition DictObject `{GoRuntime} (val : list field) : objm := dictObject val.

(** The pointer constructors: [nil] is logged explicitly. *)
Definition ptr {A} (mk : gostring -> A -> field) (key : gostring) (p : option A) : field :=
  match p with None => nilField key | Some v => mk key v end.

Definition Boolp := ptr Bool.
Definition Complex128p := ptr Complex128.
Definition Complex64p := ptr Complex64.
Definition Float64p := ptr Float64.
Definition Float32p := ptr Float32.
Definition Intp := ptr Int.
Definition Int64p := ptr Int64.
Definition Int32p := ptr Int32.
Definition Int16p := ptr Int16.
Definition Int8p := ptr Int8.
Definition Stringp := ptr String_f.
Definition Uintp := ptr Uint.
Definition Uint64p := ptr Uint64.
Definition Uint32p := ptr Uint32.
Definition Uint16p := ptr Uint16.
Definition Uint8p := ptr Uint8.
Definition Uintptrp := ptr Uintptr.
Definition Timep := ptr Time.
Definition Durationp := ptr Duration.

(** *** Slices: [array.go] *)

(** The loops [for i := range xs { arr.Append(xs\[i\]) }; return nil]. *)
Fixpoint each {A} (f : A -> arrop) (xs : list A) : arrm :=
  match xs with
  | [] => ARet None
  | x :: r => athen (f x) (each f r)
  end.

Definition bools := each (fun b => AppendPrim (PBool b)).
Definition byteStringsArray := each (fun s => AppendPrim (PByteString s)).
Definition complex128s := each (fun c => AppendPrim (PComplex128 c)).
Definition complex64s := each (fun c => AppendPrim (PComplex64 c)).
Definition durations := each AppendDuration.
Definition float64s := each (fun v => AppendPrim (PFloat64 v)).
Definition float32s := each (fun v => AppendPrim (PFloat32 v)).
Definition ints := each (fun v => AppendPrim (PInt v)).
Definition int64s := each (fun v => AppendPrim (PInt64 v)).
Definition int32s := each (fun v => AppendPrim (PInt32 v)).
Definition int16s := each (fun v => AppendPrim (PInt16 v)).
Definition int8s := each (fun v => AppendPrim (PInt8 v)).
Definition stringArray := each (fun s => AppendPrim (PString s)).
Definition times := each AppendTime.
Definition uints := each (fun v => AppendPrim (PUint v)).
Definition uint64s := each (fun v => AppendPrim (PUint64 v)).
Definition uint32s := each (fun v => AppendPrim (PUint32 v)).
Definition uint16s := each (fun v => AppendPrim (PUint16 v)).
Definition uint8s := each (fun v => AppendPrim (PUint8 v)).
Definition uintptrs := each (fun v => AppendPrim (PUintptr v)).

(** [objects]: the first failing element ends the array. *)
Fixpoint objects (os : list objm) : arrm :=
  match os with
  | [] => ARet None
  | o :: r =>
      ACall (AppendObject o)
        (fun err => match err with Some _ => ARet err | None => objects r end)
  end.

(** [objectValues]: the method is that of the pointer to each element. *)
Fixpoint objectValues {T} (MarshalLogObject : T -> objm) (os : list T) : arrm :=
  match os with
  | [] => ARet None
  | v :: r =>
      ACall (AppendObject (MarshalLogObject v))
        (fun err => match err with Some _ => ARet err | None => objectValues MarshalLogObject r end)
  end.

Lemma objectValues_objects {T} (m : T -> objm) os : objectValues m os = objects (map m os).
Proof. induction os as [|v os IH]; [done|]. cbn. by rewrite IH. Qed.

(** [stringers]: a panic of [String()] is not recovered here. *)
Fixpoint stringers (ss : list stringer) : arrm :=
  match ss with
  | [] => ARet None
  | s :: r =>
      match str_String s with
      | Ret text => athen (AppendPrim (PString text)) (stringers r)
      | Panic v => APanic v
      end
  end.

(** [errArray] of [error.go]: each error as an object with an [error] field;
    nil errors are skipped. *)
Definition errArrayElem `{GoRuntime} (e : goerror) : objm := obind (AddTo (Error (Some e))) (fun _ => ORet None).

Fixpoint errArray `{GoRuntime} (es : list (option goerror)) : arrm :=
  match es with
  | [] => ARet None
  | None :: r => errArray r
  | Some e :: r =>
      ACall (AppendObject (errArrayElem e))
        (fun err => match err with Some _ => ARet err | None => errArray r end)
  end.

Definition arr (key : gostring) (a : arrm) : field := Array key (of_arrm a).

Definition Bools key vs := arr key (bools vs).
Definition ByteStrings key vs := arr key (byteStringsArray vs).
Definition Complex128s key vs := arr key (complex128s vs).
Definition Complex64s key vs := arr key (complex64s vs).
Definition Durations key vs := arr key (durations vs).
Definition Float64s key vs := arr key (float64s vs).
Definition Float32s key vs := arr key (float32s vs).
Definition Ints key vs := arr key (ints vs).
Definition Int64s key vs := arr key (int64s vs).
Definition Int32s key vs := arr key (int32s vs).
Definition Int16s key vs := arr key (int16s vs).
Definition Int8s key vs := arr key (int8s vs).
Definition Objects key os := arr key (objects os).
Definition ObjectValues {T} (MarshalLogObject : T -> objm) key values := arr key (objectValues MarshalLogObject values).
Definition Strings key vs := arr key (stringArray vs).
Definition Stringers key ss := arr key (stringers ss).
Definition Times key vs := arr key (times vs).
Definition Uints key vs := arr key (uints vs).
Definition Uint64s key vs := arr key (uint64s vs).
Definition Uint32s key vs := arr key (uint32s vs).
Definition Uint16s key vs := arr key (uint16s vs).
Definition Uint8s key vs := arr key (uint8s vs).
Definition Uintptrs key vs := arr key (uintptrs vs).
Definition Errors `{GoRuntime} key es := arr key (errArray es).

(** *** [exp/zapfield]: [~string] keys and values are converted *)

Definition Str (k v : gostring) : field := String_f k v.
Definition Strs (k : gostring) (v : list gostring) : field := arr k (stringArray v).

(** *** [Any]: the type switch of [field.go] *)

Definition any_scalar (key : gostring) (k : kind) : kval k -> field :=
  match k with
  | KBool => Bool key
  | KComplex128 => Complex128 key
  | KComplex64 => Complex64 key
  | KFloat64 => Float64 key
  | KFloat32 => Float32 key
  | KInt => Int key
  | KInt64 => Int64 key
  | KInt32 => Int32 key
  | KInt16 => Int16 key
  | KInt8 => Int8 key
  | KString => String_f key
  | KUint => Uint key
  | KUint64 => Uint64 key
  | KUint32 => Uint32 key
  | KUint16 => Uint16 key
  | KUint8 => Uint8 key
  | KUintptr => Uintptr key
  | KTime => Time key
  | KDuration => Duration key
  end.

Definition any_pointer (key : gostring) (k : kind) : option (kval k) -> field :=
  match k with
  | KBool => Boolp key
  | KComplex128 => Complex128p key
  | KComplex64 => Complex64p key
  | KFloat64 => Float64p key
  | KFloat32 => Float32p key
  | KInt => Intp key
  | KInt64 => Int64p key
  | KInt32 => Int32p key
  | KInt16 => Int16p key
  | KInt8 => Int8p key
  | KString => Stringp key
  | KUint => Uintp key
  | KUint64 => Uint64p key
  | KUint32 => Uint32p key
  | KUint16 => Uint16p key
  | KUint8 => Uint8p key
  | KUintptr => Uintptrp key
  | KTime => Timep key
  | KDuration => Durationp key
  end.

(** A [\[\]byte] is a binary blob. *)
Definition any_slice (key : gostring) (k : kind) : list (kval k) -> field :=
  match k with
  | KBool => Bools key
  | KComplex128 => Complex128s key
  | KComplex64 => Complex64s key
  | KFloat64 => Float64s key
  | KFloat32 => Float32s key
  | KInt => Ints key
  | KInt64 => Int64s key
  | KInt32 => Int32s key
  | KInt16 => Int16s key
  | KInt8 => Int8s key
  | KString => Strings key
  | KUint => Uints key
  | KUint64 => Uint64s key
  | KUint32 => Uint32s key
  | KUint16 => Uint16s key
  | KUint8 => fun vs => Binary key (map zb vs)
  | KUintptr => Uintptrs key
  | KTime => Times key
  | KDuration => Durations key
  end.

Definition Any `{GoRuntime} (key : gostring) (v : goval) : field :=
  match v with
  | VUser (Dyn (Some _) _ _ _ _) => Object key v
  | VUser (Dyn None (Some _) _ _ _) => Array key v
  | VFields fs => dictField key fs
  | VScalar k x => any_scalar key k x
  | VPtr k p => any_pointer key k p
  | VSlice k vs => any_slice key k vs
  | VUser (Dyn None None (Some _) _ _) => Field_ key ErrorType 0 [] v
  | VErrors es => Errors key es
  | VUser (Dyn None None None (Some _) _) | VLocation _ => Stringer key v
  | _ => Reflect key v
  end.

(** ** Packing and unpacking agree *)

(** The values a Go variable of the kind can hold. *)
Definition in_kind (k : kind) : kval k -> Prop :=
  match k with
  | KInt | KInt64 | KDuration => inS 64
  | KInt32 => inS 32
  | KInt16 => inS 16
  | KInt8 => inS 8
  | KFloat64 | KUint | KUint64 | KUintptr => inU 64
  | KFloat32 | KUint32 => inU 32
  | KUint16 => inU 16
  | KUint8 => inU 8
  | _ => fun _ => True
  end.

(** The encoder call each kind is meant to make. *)
Definition scalar_op (key : gostring) (k : kind) : kval k -> objop :=
  match k with
  | KBool => fun v => AddPrim key (PBool v)
  | KComplex128 => fun v => AddPrim key (PComplex128 v)
  | KComplex64 => fun v => AddPrim key (PComplex64 v)
  | KFloat64 => fun v => AddPrim key (PFloat64 v)
  | KFloat32 => fun v => AddPrim key (PFloat32 v)
  | KInt | KInt64 => fun v => AddPrim key (PInt64 v)
  | KInt32 => fun v => AddPrim key (PInt32 v)
  | KInt16 => fun v => AddPrim key (PInt16 v)
  | KInt8 => fun v => AddPrim key (PInt8 v)
  | KString => fun v => AddPrim key (PString v)
  | KUint | KUint64 => fun v => AddPrim key (PUint64 v)
  | KUint32 => fun v => AddPrim key (PUint32 v)
  | KUint16 => fun v => AddPrim key (PUint16 v)
  | KUint8 => fun v => AddPrim key (PUint8 v)
  | KUintptr => fun v => AddPrim key (PUintptr v)
  | KTime => AddTime key
  | KDuration => AddDuration key
  end.

Lemma time_field_roundtrip `{GoRuntime} key t :
  AddTo (Time key t) = othen (AddTime key t) (ORet None).
Proof.
  destruct t as [n l]. unfold Time, Before, After, _minTimeInt64, _maxTimeInt64. cbn [t_nanos Unix0].
  destruct (Z.ltb_spec n (- 2 ^ 63)), (Z.ltb_spec (2 ^ 63 - 1) n); cbn [orb]; try done.
  cbn [AddTo Field_ t_loc]. unfold UnixNano, In_loc. cbn [t_nanos Unix0].
  rewrite wrapS_id; [done|lia|]. unfold inS. lia.
Qed.

Lemma scalar_roundtrip `{GoRuntime} key k v :
  in_kind k v -> AddTo (any_scalar key k v) = othen (scalar_op key k v) (ORet None).
Proof.
  destruct k; cbn [any_scalar in_kind scalar_op kval]; intros Hv;
    unfold Int, Uint; cbn [AddTo Field_ Bool Complex128 Complex64 Float64 Float32 Int64 Int32
      Int16 Int8 String_f Uint64 Uint32 Uint16 Uint8 Uintptr Duration];
    try apply time_field_roundtrip; try done;
    try (by destruct v);
    unfold inS, inU in Hv; rewrite ?wrapU_wrapS, ?wrapS_wrapS by lia;
    rewrite ?(wrapU_id _ v) by (unfold inU; lia); rewrite ?(wrapS_id _ v) by (unfold inS; lia);
    rewrite ?(wrapU_id _ v) by (unfold inU; lia); done.
Qed.

(** Whatever [Any] packs into a [Field], [AddTo] unpacks: for every kind
    of scalar and every value of that kind, adding [Any(key, v)] to an encoder
    makes exactly one call, the one for that kind, with [v] itself.  Unsigned
    values and floats survive their trip through the [int64], and times
    outside the range of [UnixNano] survive too. *)
Theorem any_addto_scalar `{GoRuntime} key k (v : kval k) (Hv : in_kind k v) :
  AddTo (Any key (VScalar k v)) = othen (scalar_op key k v) (ORet None).
Proof. by apply scalar_roundtrip. Qed.

Lemma any_addto_scalar_witness :
  @AddTo exampleRuntime (@Any exampleRuntime (go "n") (VScalar KUint64 (2 ^ 64 - 1))) =
  othen (AddPrim (go "n") (PUint64 (2 ^ 64 - 1))) (ORet None).
Proof.
  apply (@any_addto_scalar exampleRuntime (go "n") KUint64 (2 ^ 64 - 1)). cbn. unfold inU. lia.
Defined.

(** ** Errors never take the program down *)

(** The error has a message, rather than panicking when asked for one. *)
Definition readable (e : error) : Prop :=
  match e with Some x => returned (err_msg x) | None => True end.

(** The calls never panic and the error returned is readable, as long as the
    encoder answers with readable errors. *)
Fixpoint safe_obj (p : objm) : Prop :=
  match p with
  | ORet e => readable e
  | OPanic _ => False
  | OCall op k => safe_objop op /\ forall e, readable e -> safe_obj (k e)
  end
with safe_objop (op : objop) : Prop :=
  match op with
  | AddArray _ a => safe_arr a
  | AddObject _ o => safe_obj o
  | _ => True
  end
with safe_arr (p : arrm) : Prop :=
  match p with
  | ARet e => readable e
  | APanic _ => False
  | ACall op k => safe_arrop op /\ forall e, readable e -> safe_arr (k e)
  end
with safe_arrop (op : arrop) : Prop :=
  match op with
  | AppendArray a => safe_arr a
  | AppendObject o => safe_obj o
  | _ => True
  end.

(** Induction on an error and the errors it groups. *)
Lemma goerror_nested_ind (P : goerror -> Prop)
    (IH : forall m g v n, match g with Some (Ret es) => Forall (from_option P True) es | _ => True end -> P (GoError m g v n)) e :
  P e.
Proof.
  revert e. fix rec 1. intros [m g v n]. apply IH. destruct g as [[es|p]|]; cbn; [|exact I..].
  induction es as [|[x|] es IHes]; constructor; try exact IHes; [exact (rec x)|exact I].
Qed.

Lemma safe_obind p k :
  safe_obj p -> (forall e, readable e -> safe_obj (k e)) -> safe_obj (obind p k).
Proof.
  revert p. fix rec 1. intros [e|v|op k'] Hp Hk; cbn in *; [by apply Hk|done|].
  destruct Hp as [? Hp]. split; [done|]. intros e He. apply rec; auto.
Qed.

Lemma safe_add_error key e : readable e -> safe_obj (add_error key e).
Proof. destruct e as [[[t|v] g w n]|]; cbn; intros He; done. Qed.

Lemma safe_encodeError key e : safe_obj (encodeError key e).
Proof.
  revert key. induction e as [m g v n IH] using goerror_nested_ind. intros key.
  destruct m as [basic|p]; cbn; [|destruct n; cbn; eauto]. split; [done|]. intros _ _.
  destruct g as [[es|p]|]; cbn; [|destruct n; cbn; eauto|].
  - split; [|done]. induction IH as [|[x|] es Hx _ IHes]; cbn; [done| |done].
    split; [apply Hx|]. by intros [err|] He.
  - destruct v as [v|]; [destruct (streq v basic)|]; cbn; eauto.
Qed.

Lemma safe_NamedError `{GoRuntime} key err : safe_obj (AddTo (NamedError key err)).
Proof.
  destruct err as [e|]; cbn; [|done].
  apply safe_obind; [apply safe_encodeError|apply safe_add_error].
Qed.

Lemma safe_each {A} (f : A -> arrop) xs :
  (forall x, safe_arrop (f x)) -> safe_arr (each f xs).
Proof. intros Hf. induction xs; cbn; auto. Qed.

Lemma safe_arr_field `{GoRuntime} key a : safe_arr a -> safe_obj (AddTo (arr key a)).
Proof. intros Ha. cbn. split; [done|]. apply safe_add_error. Qed.

Lemma safe_Stringer `{GoRuntime} key v : safe_obj (AddTo (Stringer key v)).
Proof.
  cbn [AddTo Stringer Field_]. apply safe_obind; [|apply safe_add_error]. unfold encodeStringer.
  repeat case_match; cbn; eauto.
Qed.

Lemma safe_scalar `{GoRuntime} key k v : safe_obj (AddTo (any_scalar key k v)).
Proof.
  destruct k; try (cbn; by auto). cbn [any_scalar]. rewrite time_field_roundtrip. cbn. auto.
Qed.

Lemma safe_pointer `{GoRuntime} key k p : safe_obj (AddTo (any_pointer key k p)).
Proof.
  destruct p as [v|]; [|destruct k; (split; [done|apply safe_add_error])].
  assert (any_pointer key k (Some v) = any_scalar key k v) as -> by by destruct k.
  apply safe_scalar.
Qed.

Lemma safe_slice `{GoRuntime} key k vs : safe_obj (AddTo (any_slice key k vs)).
Proof.
  destruct k; try (by apply safe_arr_field, safe_each). cbn. auto.
Qed.

Lemma safe_errArray `{GoRuntime} es : safe_arr (errArray es).
Proof.
  induction es as [|[e|] es IH]; cbn [errArray safe_arr safe_arrop]; [done| |done]. split.
  - apply safe_obind; [exact (safe_NamedError (go "error") (Some e))|done].
  - by intros [err|] He.
Qed.

Lemma safe_addFields `{GoRuntime} fs : Forall (fun f => safe_obj (AddTo f)) fs -> safe_obj (addFields fs).
Proof. induction 1; cbn; [done|]. by apply safe_obind. Qed.

(** The code of the program's own behind a value does not panic: its marshalers,
    and the fields a [\[\]Field] carries. *)
Definition safe_value `{GoRuntime} (v : goval) : Prop :=
  match v with
  | VUser (Dyn o a _ _ _) => from_option safe_obj True o /\ from_option safe_arr True a
  | VFields fs => Forall (fun f => safe_obj (AddTo f)) fs
  | _ => True
  end.

(** C28.  Fields are well typed: whatever value is given to [Any], the field it
    makes has behind its interface what its type tag promises, so that no type
    assertion of [AddTo] fails and adding it to an encoder never panics.  This
    holds for a panicking [Error], [Errors] or [String] method, a nil pointer behind an
    interface and an error group with nil or panicking members, at any depth of
    nesting; only a marshaler's own panic is passed on. *)
Theorem any_field_never_panics `{GoRuntime} key v (Hv : safe_value v) : safe_obj (AddTo (Any key v)).
Proof.
  destruct v as [| | | | | |fs| |[[o|] [a|] [e|] [x|] r]]; cbn [Any];
    eauto using safe_scalar, safe_pointer, safe_slice, safe_Stringer.
  all: try (cbn; split; [by apply Hv || done|apply safe_add_error]).
  - by apply safe_arr_field, safe_errArray.
  - cbn. split; [by apply safe_addFields|apply safe_add_error].
  - apply safe_obind; [apply safe_encodeError|apply safe_add_error].
  - apply safe_obind; [apply safe_encodeError|apply safe_add_error].
Qed.

Lemma any_field_never_panics_witness :
  let v := VFields [@Any exampleRuntime (go "wait") (VPtr KDuration None)] in
  safe_obj (@AddTo exampleRuntime (@Any exampleRuntime (go "limits") v)).
Proof.
  apply (@any_field_never_panics exampleRuntime).
  constructor; [|constructor]. cbn. split; [done|]. by intros [[[t|x] g w n]|].
Defined.
