(* ===== verification/Encoder.v ===== *)
(** * Encoder

    [ladcore/encoder.go]: the functions that turn levels, times, durations,
    callers and names into primitive values, the texts that select them, and
    the encoder configuration. *)
From S2P Require Import Prelude Strconv Utf8 Level Float GoTime Buffer Entry Values.
Open Scope Z_scope.

(** ** Primitive encoders

    A primitive encoder only calls [Append] methods, none of which returns
    anything: it is the list of its calls.  [CTimeLayout] is the call of
    [encodeTimeLayout], which an encoder with [AppendTimeLayout] and one
    without it answer differently. *)
Inductive pcall : Type :=
| CPrim (p : prim)
| CTimeLayout (t : gotime) (layout : gostring).

Definition LevelEncoder := Z -> list pcall.
Definition TimeEncoder := gotime -> list pcall.
Definition DurationEncoder := Z -> list pcall.
Definition CallerEncoder := EntryCaller -> list pcall.
Definition NameEncoder := gostring -> list pcall.

Definition CString (s : gostring) : list pcall := [CPrim (PString s)].

(** *** Levels *)

Definition LowercaseLevelEncoder : LevelEncoder := fun l => CString (Level_String l).

Definition LowercaseColorLevelEncoder : LevelEncoder := fun l =>
  CString match _levelToLowercaseColorString !! l with
          | Some s => s
          | None => Color.Add _unknownLevelColor (Level_String l)
          end.

Definition CapitalLevelEncoder : LevelEncoder := fun l => CString (CapitalString l).

Definition CapitalColorLevelEncoder : LevelEncoder := fun l =>
  CString match _levelToCapitalColorString !! l with
          | Some s => s
          | None => Color.Add _unknownLevelColor (CapitalString l)
          end.

Definition LevelEncoder_UnmarshalText (text : gostring) : LevelEncoder :=
  if streq text (go "capital") then CapitalLevelEncoder
  else if streq text (go "capitalColor") then CapitalColorLevelEncoder
  else if streq text (go "color") then LowercaseColorLevelEncoder
  else LowercaseLevelEncoder.

(** *** Times *)

Definition EpochTimeEncoder : TimeEncoder := fun t =>
  let nanos := UnixNano t in
  let sec := float64_div_int (float64_of_int nanos) Second in
  [CPrim (PFloat64 sec)].

Definition EpochMillisTimeEncoder : TimeEncoder := fun t =>
  let nanos := UnixNano t in
  let millis := float64_div_int (float64_of_int nanos) Millisecond in
  [CPrim (PFloat64 millis)].

Definition EpochNanosTimeEncoder : TimeEncoder := fun t => [CPrim (PInt64 (UnixNano t))].

Definition encodeTimeLayout (t : gotime) (layout : gostring) : list pcall :=
  [CTimeLayout t layout].

Definition ISO8601TimeEncoder : TimeEncoder := fun t =>
  encodeTimeLayout t (go "2006-01-02T15:04:05.000Z0700").
Definition RFC3339TimeEncoder : TimeEncoder := fun t =>
  encodeTimeLayout t (go "2006-01-02T15:04:05Z07:00").
Definition RFC3339NanoTimeEncoder : TimeEncoder := fun t =>
  encodeTimeLayout t (go "2006-01-02T15:04:05.999999999Z07:00").
Definition TimeEncoderOfLayout (layout : gostring) : TimeEncoder := fun t =>
  encodeTimeLayout t layout.

Definition TimeEncoder_UnmarshalText (text : gostring) : TimeEncoder :=
  if streq text (go "rfc3339nano") || streq text (go "RFC3339Nano") then RFC3339NanoTimeEncoder
  else if streq text (go "rfc3339") || streq text (go "RFC3339") then RFC3339TimeEncoder
  else if streq text (go "iso8601") || streq text (go "ISO8601") then ISO8601TimeEncoder
  else if streq text (go "millis") then EpochMillisTimeEncoder
  else if streq text (go "nanos") then EpochNanosTimeEncoder
  else EpochTimeEncoder.

(** [UnmarshalYAML], given what [unmarshal] makes of the document as a struct
    with a [layout] field and as a string. *)
Definition TimeEncoder_UnmarshalYAML (as_struct : gostring + goerror)
    (as_str : gostring + goerror) (old : TimeEncoder) : TimeEncoder * error :=
  match as_struct with
  | inl layout => (TimeEncoderOfLayout layout, None)
  | inr _ =>
      match as_str with
      | inr err => (old, Some err)
      | inl s => (TimeEncoder_UnmarshalText s, None)
      end
  end.

(** [UnmarshalJSON]: the same with [json.Unmarshal] of the data, into either. *)
Definition TimeEncoder_UnmarshalJSON (json_struct json_string : gostring -> gostring + goerror) (data : gostring)
    (old : TimeEncoder) : TimeEncoder * error :=
  TimeEncoder_UnmarshalYAML (json_struct data) (json_string data) old.

(** *** Durations *)

Definition SecondsDurationEncoder : DurationEncoder := fun d =>
  [CPrim (PFloat64 (float64_div_int (float64_of_int d) Second))].
Definition NanosDurationEncoder : DurationEncoder := fun d => [CPrim (PInt64 d)].
Definition MillisDurationEncoder : DurationEncoder := fun d =>
  [CPrim (PInt64 (Z.quot d 1000000))].
Definition StringDurationEncoder : DurationEncoder := fun d => CString (Duration_String d).

Definition DurationEncoder_UnmarshalText (text : gostring) : DurationEncoder :=
  if streq text (go "string") then StringDurationEncoder
  else if streq text (go "nanos") then NanosDurationEncoder
  else if streq text (go "ms") then MillisDurationEncoder
  else SecondsDurationEncoder.

(** *** Callers and names *)

Definition FullCallerEncoder : CallerEncoder := fun c => CString (Caller_String c).
Definition ShortCallerEncoder : CallerEncoder := fun c => CString (TrimmedPath c).

Definition CallerEncoder_UnmarshalText (text : gostring) : CallerEncoder :=
  if streq text (go "full") then FullCallerEncoder else ShortCallerEncoder.

Definition FullNameEncoder : NameEncoder := fun name => CString name.

Definition NameEncoder_UnmarshalText (text : gostring) : NameEncoder :=
  if streq text (go "full") then FullNameEncoder else FullNameEncoder.

(** ** Configuration *)

Definition DefaultLineEnding : gostring := [Byte.x0a].
Definition OmitKey : gostring := [].

(** A [ReflectedEncoder] writes bytes to the buffer it was made for and
    returns an error. *)
Definition ReflectedEncoder := goval -> gostring * error.

Record EncoderConfig := mkConfig {
  MessageKey : gostring;
  LevelKey : gostring;
  TimeKey : gostring;
  NameKey : gostring;
  CallerKey : gostring;
  FunctionKey : gostring;
  StacktraceKey : gostring;
  SkipLineEnding : bool;
  LineEnding : gostring;
  EncodeLevel : option LevelEncoder;
  EncodeTime : option TimeEncoder;
  EncodeDuration : option DurationEncoder;
  EncodeCaller : option CallerEncoder;
  EncodeName : option NameEncoder;
  NewReflectedEncoder : option ReflectedEncoder;
  ConsoleSeparator : gostring;
}.

(** ** One call each

    The contract of the encoder types: exactly one call. *)
Definition one_call (cs : list pcall) : Prop := length cs = 1%nat.

Lemma level_encoders_one_call text l : one_call (LevelEncoder_UnmarshalText text l).
Proof. unfold LevelEncoder_UnmarshalText. by repeat case_match. Qed.

Lemma time_encoders_one_call text t : one_call (TimeEncoder_UnmarshalText text t).
Proof. unfold TimeEncoder_UnmarshalText. by repeat case_match. Qed.

Lemma duration_encoders_one_call text d : one_call (DurationEncoder_UnmarshalText text d).
Proof. unfold DurationEncoder_UnmarshalText. by repeat case_match. Qed.

Lemma caller_encoders_one_call text c : one_call (CallerEncoder_UnmarshalText text c).
Proof. unfold CallerEncoder_UnmarshalText. by repeat case_match. Qed.

Lemma name_encoders_one_call text n : one_call (NameEncoder_UnmarshalText text n).
Proof. unfold NameEncoder_UnmarshalText. by repeat case_match. Qed.
