(* ===== verification/Json.v ===== *)
(** * Json

    The JSON texts of RFC 8259, independently of the code under
    verification: values, a parser, and the trees whose rendering the JSON
    encoder is proved to produce.  A string value is the list of its runes. *)
From S2P Require Import Prelude Strconv Utf8 Float.
Open Scope Z_scope.
Set Warnings "-register-all".

(** ** Values and the parser *)

Inductive jval : Type :=
| JNull
| JBool (b : bool)
| JNum (lit : gostring)
| JStr (rs : list Z)
| JArr (vs : list jval)
| JObj (ms : list (list Z * jval)).

Definition is_ws (b : byte) : bool :=
  match b with Byte.x20 | Byte.x09 | Byte.x0a | Byte.x0d => true | _ => false end.

Fixpoint skip_ws (s : gostring) : gostring :=
  match s with
  | b :: t => if is_ws b then skip_ws t else s
  | [] => []
  end.

Definition hex_val (b : byte) : option Z :=
  let z := bz b in
  if in_range 48 57 z then Some (z - 48)
  else if in_range 97 102 z then Some (z - 87)
  else if in_range 65 70 z then Some (z - 55)
  else None.

Definition hex4 (s : gostring) : option (Z * gostring) :=
  match s with
  | a :: b :: c :: d :: t =>
      match hex_val a, hex_val b, hex_val c, hex_val d with
      | Some a, Some b, Some c, Some d => Some (((a * 16 + b) * 16 + c) * 16 + d, t)
      | _, _, _, _ => None
      end
  | _ => None
  end.

Definition is_high (r : Z) : bool := in_range 0xD800 0xDBFF r.
Definition is_low (r : Z) : bool := in_range 0xDC00 0xDFFF r.

(** The rune a [\u] escape stands for, joining a surrogate pair; a lone
    surrogate reads as U+FFFD. *)
Definition unicode_escape (s : gostring) : option (Z * gostring) :=
  match hex4 s with
  | Some (r, t) =>
      if is_high r then
        match t with
        | Byte.x5c :: Byte.x75 :: t' =>
            match hex4 t' with
            | Some (r2, t'') =>
                if is_low r2
                then Some (0x10000 + (r - 0xD800) * 1024 + (r2 - 0xDC00), t'')
                else Some (RuneError, t)
            | None => None
            end
        | _ => Some (RuneError, t)
        end
      else if is_low r then Some (RuneError, t)
      else Some (r, t)
  | None => None
  end.

Definition simple_escape (b : byte) : option Z :=
  match b with
  | Byte.x22 => Some 0x22 | Byte.x5c => Some 0x5c | Byte.x2f => Some 0x2f
  | Byte.x62 => Some 8 | Byte.x66 => Some 12 | Byte.x6e => Some 10
  | Byte.x72 => Some 13 | Byte.x74 => Some 9
  | _ => None
  end.

Definition push (r : Z) (o : option (list Z * gostring)) : option (list Z * gostring) :=
  match o with Some (rs, t) => Some (r :: rs, t) | None => None end.

(** The body of a string up to and including its closing quote; unescaped
    control characters and ill-formed UTF-8 are rejected. *)
Fixpoint parse_str (fuel : nat) (s : gostring) : option (list Z * gostring) :=
  match fuel with
  | O => None
  | S f =>
      match s with
      | [] => None
      | Byte.x22 :: t => Some ([], t)
      | Byte.x5c :: Byte.x75 :: t =>
          match unicode_escape t with
          | Some (r, t') => push r (parse_str f t')
          | None => None
          end
      | Byte.x5c :: e :: t =>
          match simple_escape e with
          | Some r => push r (parse_str f t)
          | None => None
          end
      | b :: _ =>
          if bz b <? 0x20 then None
          else
            let '(r, n) := DecodeRune s in
            if (r =? RuneError) && Nat.eqb n 1 then None
            else push r (parse_str f (drop n s))
      end
  end.

Fixpoint scan_digits (s : gostring) : gostring * gostring :=
  match s with
  | b :: t => if is_digit b then let '(ds, r) := scan_digits t in (b :: ds, r) else ([], s)
  | [] => ([], [])
  end.

Definition scan_frac (s : gostring) : option (gostring * gostring) :=
  match s with
  | Byte.x2e :: t =>
      match scan_digits t with
      | ([], _) => None
      | (ds, r) => Some (Byte.x2e :: ds, r)
      end
  | _ => Some ([], s)
  end.

Definition scan_exp (s : gostring) : option (gostring * gostring) :=
  match s with
  | ((Byte.x65 | Byte.x45) as e) :: t =>
      let '(sg, t') :=
        match t with
        | ((Byte.x2b | Byte.x2d) as c) :: t' => ([c], t')
        | _ => ([], t)
        end in
      match scan_digits t' with
      | ([], _) => None
      | (ds, r) => Some (e :: sg ++ ds, r)
      end
  | _ => Some ([], s)
  end.

Definition scan_int (s : gostring) : option (gostring * gostring) :=
  match s with
  | Byte.x30 :: t => Some ([Byte.x30], t)
  | _ =>
      match scan_digits s with
      | ([], _) => None
      | (ds, r) => Some (ds, r)
      end
  end.

(** [-? int frac? exp?] *)
Definition parse_num (s : gostring) : option (gostring * gostring) :=
  let '(sg, s1) := match s with Byte.x2d :: t => ([Byte.x2d], t) | _ => ([], s) end in
  match scan_int s1 with
  | None => None
  | Some (i, s2) =>
      match scan_frac s2 with
      | None => None
      | Some (fr, s3) =>
          match scan_exp s3 with
          | None => None
          | Some (e, s4) => Some (sg ++ i ++ fr ++ e, s4)
          end
      end
  end.

Fixpoint strip_prefix (p s : gostring) : option gostring :=
  match p, s with
  | [], _ => Some s
  | a :: p', b :: s' => if beq a b then strip_prefix p' s' else None
  | _, [] => None
  end.

Definition parse_scalar (s : gostring) : option (jval * gostring) :=
  match strip_prefix (go "null") s with
  | Some t => Some (JNull, t)
  | None =>
  match strip_prefix (go "true") s with
  | Some t => Some (JBool true, t)
  | None =>
  match strip_prefix (go "false") s with
  | Some t => Some (JBool false, t)
  | None =>
  match parse_num s with
  | Some (l, t) => Some (JNum l, t)
  | None => None
  end end end end.

(** One value, the rest of an array after [\[] or [,], the rest of an object
    after [{] or [,]. *)
Fixpoint parse_value (fuel : nat) (s : gostring) : option (jval * gostring) :=
  match fuel with
  | O => None
  | S f =>
      match skip_ws s with
      | Byte.x22 :: t =>
          match parse_str (length t) t with
          | Some (rs, t') => Some (JStr rs, t')
          | None => None
          end
      | Byte.x5b :: t =>
          match skip_ws t with
          | Byte.x5d :: t' => Some (JArr [], t')
          | t' => match parse_elems f t' with
                  | Some (vs, r) => Some (JArr vs, r)
                  | None => None
                  end
          end
      | Byte.x7b :: t =>
          match skip_ws t with
          | Byte.x7d :: t' => Some (JObj [], t')
          | t' => match parse_members f t' with
                  | Some (ms, r) => Some (JObj ms, r)
                  | None => None
                  end
          end
      | s' => parse_scalar s'
      end
  end
with parse_elems (fuel : nat) (s : gostring) : option (list jval * gostring) :=
  match fuel with
  | O => None
  | S f =>
      match parse_value f s with
      | None => None
      | Some (v, r) =>
          match skip_ws r with
          | Byte.x2c :: r' =>
              match parse_elems f r' with
              | Some (vs, r'') => Some (v :: vs, r'')
              | None => None
              end
          | Byte.x5d :: r' => Some ([v], r')
          | _ => None
          end
      end
  end
with parse_members (fuel : nat) (s : gostring) : option (list (list Z * jval) * gostring) :=
  match fuel with
  | O => None
  | S f =>
      match skip_ws s with
      | Byte.x22 :: t =>
          match parse_str (length t) t with
          | None => None
          | Some (k, t') =>
              match skip_ws t' with
              | Byte.x3a :: t'' =>
                  match parse_value f t'' with
                  | None => None
                  | Some (v, r) =>
                      match skip_ws r with
                      | Byte.x2c :: r' =>
                          match parse_members f r' with
                          | Some (ms, r'') => Some ((k, v) :: ms, r'')
                          | None => None
                          end
                      | Byte.x7d :: r' => Some ([(k, v)], r')
                      | _ => None
                      end
                  end
              | _ => None
              end
          end
      | _ => None
      end
  end.

(** Two rounds per byte are enough. *)
Definition parse_fuel (s : gostring) : nat := 2 + 2 * length s.

(** Read one JSON value off the front of a text. *)
Definition jparse (s : gostring) : option (jval * gostring) := parse_value (parse_fuel s) s.

(** Test texts: an apostrophe stands for a double quote. *)
Definition goq (s : string) : gostring :=
  map (fun b => if beq b Byte.x27 then Byte.x22 else b) (go s).
Arguments goq s%_string.

Example jparse_ex :
  jparse (goq " { 'a' : [ 1.5e+3 , null, {}] , '\u00e9':-0}x") =
  Some (JObj [([97], JArr [JNum (go "1.5e+3"); JNull; JObj []]); ([0xe9], JNum (go "-0"))],
        go "x").
Proof. vm_compute. reflexivity. Qed.

(** ** What may follow a value *)

Definition delim (s : gostring) : bool :=
  match s with
  | [] => true
  | b :: _ => is_ws b || beq b Byte.x2c || beq b Byte.x5d || beq b Byte.x7d
  end.

(** ** Number literals *)

Definition int_part (ip : gostring) : Prop :=
  ip = [Byte.x30] \/
  (exists d r, ip = d :: r /\ d <> Byte.x30 /\ is_digit d = true /\ forallb is_digit r = true).

Definition frac_part (fp : gostring) : Prop :=
  fp = [] \/ (exists ds, fp = Byte.x2e :: ds /\ ds <> [] /\ forallb is_digit ds = true).

(** A number literal without exponent. *)
Definition num_lit (lit : gostring) : Prop :=
  exists sg ip fp, lit = sg ++ ip ++ fp /\
    (sg = [] \/ sg = [Byte.x2d]) /\ int_part ip /\ frac_part fp.

(** A byte that is no digit ends a run of digits. *)
Definition no_digit (s : gostring) : bool :=
  match s with [] => true | b :: _ => negb (is_digit b) end.

Lemma scan_digits_app ds rest :
  forallb is_digit ds = true -> no_digit rest = true ->
  scan_digits (ds ++ rest) = (ds, rest).
Proof.
  intros H Hr. induction ds as [|d ds IH]; cbn.
  - destruct rest as [|b t]; [done|]. cbn in *. by destruct (is_digit b).
  - cbn in H. apply andb_prop in H as [Hd H]. rewrite Hd, IH; done.
Qed.

Lemma delim_no_digit rest : delim rest = true -> no_digit rest = true.
Proof. destruct rest as [|b t]; [done|]. by destruct b. Qed.

Lemma frac_no_digit fp rest :
  frac_part fp -> delim rest = true -> no_digit (fp ++ rest) = true.
Proof.
  intros [->|(ds & -> & _ & _)] Hr; [|done]. by apply delim_no_digit.
Qed.

Lemma scan_int_app ip rest :
  int_part ip -> no_digit rest = true -> scan_int (ip ++ rest) = Some (ip, rest).
Proof.
  intros [->|(d & r & -> & Hd & Hdd & Hr)] Hn; [done|].
  unfold scan_int. cbn [app].
  assert (scan_digits (d :: r ++ rest) = (d :: r, rest)) as E.
  { apply (scan_digits_app (d :: r)); [|done]. cbn. by rewrite Hdd. }
  rewrite E. by destruct d.
Qed.

Lemma scan_frac_app fp rest :
  frac_part fp -> delim rest = true -> scan_frac (fp ++ rest) = Some (fp, rest).
Proof.
  intros [->|(ds & -> & Hne & Hds)] Hr.
  - destruct rest as [|b t]; [done|]. by destruct b.
  - cbn [app scan_frac]. rewrite scan_digits_app by auto using delim_no_digit.
    by destruct ds.
Qed.

Lemma scan_exp_delim rest : delim rest = true -> scan_exp rest = Some ([], rest).
Proof. destruct rest as [|b t]; [done|]. by destruct b. Qed.

Lemma int_part_not_minus ip rest t : int_part ip -> ip ++ rest <> Byte.x2d :: t.
Proof. by intros [->|(d & r & -> & _ & Hd & _)] [= ->]. Qed.

Lemma parse_num_lit lit rest :
  num_lit lit -> delim rest = true -> parse_num (lit ++ rest) = Some (lit, rest).
Proof.
  intros (sg & ip & fp & -> & Hsg & Hip & Hfp) Hr.
  assert (parse_num ((sg ++ ip ++ fp) ++ rest) =
    match scan_int (ip ++ (fp ++ rest)) with
    | None => None
    | Some (i, s2) => match scan_frac s2 with
      | None => None
      | Some (fr, s3) => match scan_exp s3 with
        | None => None | Some (e, s4) => Some (sg ++ i ++ fr ++ e, s4) end end end) as ->.
  { rewrite <- !app_assoc. unfold parse_num. destruct Hsg as [->| ->]; [|done].
    cbn [app]. destruct (ip ++ fp ++ rest) as [|b t] eqn:E; [done|].
    destruct b; try done. by apply int_part_not_minus in E. }
  rewrite scan_int_app, scan_frac_app, scan_exp_delim by auto using frac_no_digit.
  by rewrite app_nil_r.
Qed.

Lemma num_lit_head lit :
  num_lit lit -> exists b t, lit = b :: t /\ (b = Byte.x2d \/ is_digit b = true).
Proof.
  intros (sg & ip & fp & -> & [->| ->] & Hip & _).
  - destruct Hip as [->|(d & r & -> & _ & Hd & _)]; eauto.
  - eexists _, _. split; [done|]. by left.
Qed.

Lemma num_lit_last lit : num_lit lit -> exists b, last lit = Some b /\ is_digit b = true.
Proof.
  assert (forall d ds, is_digit d = true -> forallb is_digit ds = true ->
            exists b, last (d :: ds) = Some b /\ is_digit b = true) as Hall.
  { intros d ds. revert d. induction ds as [|e ds IH]; intros d Hd Hds; [by exists d|].
    cbn in Hds. apply andb_prop in Hds as [He Hds]. rewrite last_cons_cons. by apply IH. }
  intros (sg & ip & fp & -> & _ & Hip & Hfp). rewrite app_assoc.
  destruct Hfp as [->|(ds & -> & Hne & Hds)].
  - rewrite app_nil_r.
    destruct Hip as [->|(d & r & -> & _ & Hd & Hr)]; rewrite last_app_nonempty by done; [|auto].
    by exists Byte.x30.
  - destruct ds as [|d ds]; [done|]. rewrite last_app_nonempty by done.
    rewrite last_cons_cons. cbn in Hds. apply andb_prop in Hds as [Hd Hds]. auto.
Qed.

(** The formatters of [strconv] print number literals. *)

Lemma digit_nonzero d : 0 < d < 10 -> digit d <> Byte.x30.
Proof.
  intros Hd C%(f_equal bz). rewrite bz_digit in C by lia.
  change (bz Byte.x30) with 48 in C. lia.
Qed.

(** Outside the range of [FormatUint] the model prints one digit. *)
Lemma FormatUint_neg z : z < 0 -> FormatUint z = [digit (z mod 10)].
Proof.
  intros Hz. unfold FormatUint. rewrite (Z.log2_nonpos z) by lia. cbn.
  by rewrite (proj2 (Z.ltb_lt _ _)) by lia.
Qed.

Lemma FormatUint_int_part z : int_part (FormatUint z).
Proof.
  destruct (decide (z < 0)).
  { rewrite FormatUint_neg by done. pose proof (Z.mod_pos_bound z 10 eq_refl).
    destruct (decide (z mod 10 = 0)) as [->|]; [by left|right].
    eexists _, []. split; [done|]. split; [apply digit_nonzero; lia|].
    split; [by apply digit_is_digit|done]. }
  destruct (decide (z = 0)) as [->|]; [by left|right].
  destruct (FormatUint_head z) as (d & r & E & Hd); [lia|].
  pose proof (FormatUint_digits z ltac:(lia)) as Hall. rewrite E in Hall.
  cbn in Hall. apply andb_prop in Hall as [H1 H2].
  exists (digit d), r. auto using digit_nonzero.
Qed.

Lemma FormatUint_num_lit z : num_lit (FormatUint z).
Proof.
  exists [], (FormatUint z), []. rewrite app_nil_r.
  split; [done|]. split; [by left|]. split; [apply FormatUint_int_part|by left].
Qed.

Lemma FormatInt_num_lit z : num_lit (FormatInt z).
Proof.
  unfold FormatInt. destruct (Z.ltb_spec z 0); [|by apply FormatUint_num_lit].
  exists [Byte.x2d], (FormatUint (- z)), []. rewrite app_nil_r.
  split; [done|]. split; [by right|]. split; [apply FormatUint_int_part|by left].
Qed.

Lemma zeros_digits n : forallb is_digit (zeros n) = true.
Proof. unfold zeros. by induction (Z.to_nat n). Qed.

Lemma forallb_take {A} (P : A -> bool) n l : forallb P l = true -> forallb P (take n l) = true.
Proof.
  intros H. rewrite <- (take_drop n l), forallb_app in H.
  by apply andb_prop in H as [? ?].
Qed.

Lemma forallb_drop {A} (P : A -> bool) n l : forallb P l = true -> forallb P (drop n l) = true.
Proof.
  intros H. rewrite <- (take_drop n l), forallb_app in H.
  by apply andb_prop in H as [? ?].
Qed.

Lemma fmtF_parts ds dp :
  mantissa_digits ds -> exists ip fp, fmtF ds dp = ip ++ fp /\ int_part ip /\ frac_part fp.
Proof.
  intros (d & r & -> & Hd & Hr). unfold fmtF. eexists _, _. split; [done|]. split.
  - destruct (Z.ltb_spec 0 dp); [right|by left].
    destruct (Z.to_nat dp) as [|n] eqn:E; [lia|]. cbn [take app].
    eexists _, _. split; [done|]. split; [by apply digit_nonzero|].
    split; [apply digit_is_digit; lia|].
    by rewrite forallb_app, zeros_digits, forallb_take.
  - destruct (Z.ltb_spec dp (Z.of_nat (length (digit d :: r)))) as [Hlt|]; [right|by left].
    eexists. split; [done|]. split.
    + destruct (Z.leb_spec dp 0).
      * rewrite (Z2Nat.nonpos dp) by lia. intros [_ C]%app_nil. done.
      * intros [_ C]%app_nil. apply (f_equal length) in C.
        rewrite length_drop in C. cbn [length] in *. lia.
    + rewrite forallb_app, zeros_digits. cbn [andb]. apply forallb_drop.
      cbn. rewrite digit_is_digit by lia. done.
Qed.

(** A finite float prints as a number literal. *)
Lemma FormatFloat_num_lit neg m e bitSize :
  0 <= m -> num_lit (FormatFloat (FFin neg m e) bitSize).
Proof.
  intros Hm. unfold FormatFloat.
  destruct (if m =? 0 then ([], 0) else decimal (format_of bitSize) m e) as [ds dp] eqn:E.
  exists (if neg then [Byte.x2d] else []).
  assert (exists ip fp, fmtF ds dp = ip ++ fp /\ int_part ip /\ frac_part fp)
    as (ip & fp & -> & Hip & Hfp).
  { destruct (Z.eqb_spec m 0).
    - simplify_eq. exists [Byte.x30], []. split; [done|]. split; by left.
    - apply fmtF_parts. pose proof (decimal_digits (format_of bitSize) m e ltac:(lia)) as H.
      by rewrite E in H. }
  exists ip, fp. split; [done|]. split; [destruct neg; auto|done].
Qed.

Lemma decode_mantissa f bits neg m e :
  0 < mantbits f -> decode f bits = FFin neg m e -> 0 <= m.
Proof.
  unfold decode. intros Hf H.
  pose proof (Z.mod_pos_bound bits (2 ^ mantbits f) ltac:(apply Z.pow_pos_nonneg; lia)).
  repeat case_match; simplify_eq; lia.
Qed.
