(* ===== verification/Escape.v ===== *)
(** * Escape

    [safeAppendStringLike] of [ladcore/json_encoder.go], with the indices it
    keeps, the escaping it is meant to compute, and what a JSON reader makes
    of its output. *)
From S2P Require Import Prelude Strconv Utf8 Float GoTime Buffer Json.
Open Scope Z_scope.

(** ** The code *)

Definition _hex : gostring := go "0123456789abcdef".

Definition hex_digit (n : Z) : byte :=
  match _hex !! Z.to_nat n with Some b => b | None => Byte.x00 end.

(** The [switch] on a byte that needs escaping. *)
Definition append_escaped (buf : Buffer) (c : byte) : Buffer :=
  if beq c Byte.x5c || beq c Byte.x22 then AppendByte (AppendByte buf Byte.x5c) c
  else if beq c Byte.x0a then AppendByte (AppendByte buf Byte.x5c) Byte.x6e
  else if beq c Byte.x0d then AppendByte (AppendByte buf Byte.x5c) Byte.x72
  else if beq c Byte.x09 then AppendByte (AppendByte buf Byte.x5c) Byte.x74
  else
    AppendByte
      (AppendByte (AppendString buf (go "\u00")) (hex_digit (Z.shiftr (bz c) 4)))
      (hex_digit (Z.land (bz c) 0xF)).

Definition slice (s : gostring) (last i : nat) : gostring := take (i - last) (drop last s).

(** [i] is the next byte to look at, [last] the first one not yet copied.
    Every round moves [i] forward; [None] is running out of rounds. *)
Fixpoint safe_loop (fuel : nat) (s : gostring) (i last : nat) (buf : Buffer)
  : option Buffer :=
  match fuel with
  | O => None
  | S f =>
      match s !! i with
      | None => Some (AppendBytes buf (drop last s))
      | Some c =>
          if RuneSelf <=? bz c then
            let '(r, size) := DecodeRune (drop i s) in
            if negb (r =? RuneError) || negb (Nat.eqb size 1) then
              safe_loop f s (i + size) last buf
            else
              safe_loop f s (i + 1) (i + 1)
                (AppendString (AppendBytes buf (slice s last i)) (go "\ufffd"))
          else if (0x20 <=? bz c) && negb (beq c Byte.x5c) && negb (beq c Byte.x22) then
            safe_loop f s (i + 1) last buf
          else
            safe_loop f s (i + 1) (i + 1)
              (append_escaped (AppendBytes buf (slice s last i)) c)
      end
  end.

Definition safeAppendStringLike (buf : Buffer) (s : gostring) : option Buffer :=
  safe_loop (S (length s)) s 0 0 buf.

(** ** The escaping it computes *)

Definition escape_byte (c : byte) : gostring :=
  if beq c Byte.x5c || beq c Byte.x22 then [Byte.x5c; c]
  else if beq c Byte.x0a then go "\n"
  else if beq c Byte.x0d then go "\r"
  else if beq c Byte.x09 then go "\t"
  else if bz c <? 0x20 then
    go "\u00" ++ [hex_digit (Z.shiftr (bz c) 4); hex_digit (Z.land (bz c) 0xF)]
  else [c].

(** One rune of text: ASCII through [escape_byte], ill-formed bytes as the
    escaped replacement character, the rest copied. *)
Fixpoint escape_fuel (fuel : nat) (s : gostring) : gostring :=
  match fuel, s with
  | S f, c :: t =>
      if bz c <? RuneSelf then escape_byte c ++ escape_fuel f t
      else
        let '(r, n) := DecodeRune s in
        if (r =? RuneError) && Nat.eqb n 1 then go "\ufffd" ++ escape_fuel f t
        else take n s ++ escape_fuel f (drop n s)
  | _, _ => []
  end.
Definition escape (s : gostring) : gostring := escape_fuel (length s) s.

Example escape_ex :
  escape (go "a/\b" ++ [Byte.x0a; Byte.x01; Byte.xff; Byte.xc3; Byte.xa9]) =
  go "a/\\b\n\u0001\ufffd" ++ [Byte.xc3; Byte.xa9].
Proof. vm_compute. reflexivity. Qed.

(** ** Unfolding *)

Lemma escape_fuel_enough f s : (length s <= f)%nat -> escape_fuel f s = escape s.
Proof.
  unfold escape. revert f. induction s as [s IH] using (induction_ltof1 _ (@length byte)).
  unfold ltof in IH. intros f Hf. destruct s as [|c t]; [by destruct f|].
  destruct f as [|f]; [cbn in Hf; lia|]. cbn [escape_fuel length] in *.
  destruct (bz c <? RuneSelf); [f_equal; apply IH; cbn; lia|].
  destruct (DecodeRune (c :: t)) as [r n] eqn:E.
  pose proof (DecodeRune_size _ _ _ E ltac:(done)) as Hn.
  assert (length (drop n (c :: t)) <= length t)%nat as Hl
    by (rewrite length_drop; cbn [length] in *; lia).
  destruct (_ && _); f_equal; [apply IH; cbn; lia|].
  rewrite (IH (drop n (c :: t))); [|cbn; lia|lia].
  symmetry. apply IH; [cbn; lia|done].
Qed.

Lemma escape_ascii c t : bz c < RuneSelf -> escape (c :: t) = escape_byte c ++ escape t.
Proof.
  intros H. unfold escape at 1. cbn [escape_fuel length].
  by rewrite (proj2 (Z.ltb_lt _ _) H).
Qed.

Lemma escape_rune c t r n :
  RuneSelf <= bz c -> DecodeRune (c :: t) = (r, n) ->
  escape (c :: t) =
    if (r =? RuneError) && Nat.eqb n 1 then go "\ufffd" ++ escape t
    else take n (c :: t) ++ escape (drop n (c :: t)).
Proof.
  intros H E. unfold escape at 1. cbn [escape_fuel length].
  rewrite (proj2 (Z.ltb_ge _ _) H), E.
  pose proof (DecodeRune_size _ _ _ E ltac:(done)) as Hn.
  destruct (_ && _); [done|]. f_equal. apply escape_fuel_enough.
  rewrite length_drop. cbn [length] in *. lia.
Qed.

Lemma append_escaped_spec buf c :
  bz c < RuneSelf ->
  (0x20 <=? bz c) && negb (beq c Byte.x5c) && negb (beq c Byte.x22) = false ->
  append_escaped buf c = mkBuffer (bs buf ++ escape_byte c).
Proof.
  intros Hc Hn. unfold append_escaped, escape_byte, AppendByte, AppendString. cbn [bs].
  destruct (beq c Byte.x5c || beq c Byte.x22) eqn:E1; [by rewrite <- app_assoc|].
  destruct (beq c Byte.x0a); [by rewrite <- app_assoc|].
  destruct (beq c Byte.x0d); [by rewrite <- app_assoc|].
  destruct (beq c Byte.x09); [by rewrite <- app_assoc|].
  apply orb_false_elim in E1 as [E1 E2]. rewrite E1, E2 in Hn. cbn in Hn.
  destruct (Z.ltb_spec (bz c) 0x20); [by rewrite <- !app_assoc|].
  rewrite (proj2 (Z.leb_le _ _)) in Hn by lia. done.
Qed.

Lemma escape_byte_plain c :
  (0x20 <=? bz c) && negb (beq c Byte.x5c) && negb (beq c Byte.x22) = true ->
  escape_byte c = [c].
Proof. by byte_cases c. Qed.

(** ** The loop computes it *)

Lemma slice_extend s last i n :
  (last <= i)%nat ->
  slice s last i ++ take n (drop i s) = slice s last (i + n).
Proof.
  intros H. unfold slice.
  rewrite (take_drop_split (drop last s) (i - last) (i + n - last)) by lia.
  rewrite drop_drop. repeat f_equal; lia.
Qed.

(** With [i] at a rune boundary, the loop appends the bytes held back and
    the escaping of the rest. *)
Lemma safe_loop_spec fuel s i last buf :
  (last <= i)%nat -> (length s - i < fuel)%nat ->
  safe_loop fuel s i last buf =
    Some (mkBuffer (bs buf ++ slice s last i ++ escape (drop i s))).
Proof.
  revert i last buf. induction fuel as [|f IH]; intros i last buf Hl Hf; [lia|].
  cbn [safe_loop]. destruct (s !! i) as [c|] eqn:E.
  - pose proof (lookup_lt_Some _ _ _ E) as Hi.
    rewrite (drop_S _ _ _ E).
    assert (take 1 (drop i s) = [c]) as Hc by (by rewrite (drop_S _ _ _ E)).
    destruct (Z.leb_spec RuneSelf (bz c)) as [Hc8|Hc8].
    + destruct (DecodeRune (c :: drop (S i) s)) as [r n] eqn:D.
      rewrite (escape_rune _ _ _ _ Hc8 D).
      pose proof (DecodeRune_size _ _ _ D ltac:(done)) as Hn.
      rewrite <- (drop_S _ _ _ E) in *.
      destruct (r =? RuneError), (Nat.eqb n 1); cbn [negb orb andb].
      1: { rewrite IH by lia. unfold AppendString, AppendBytes. cbn [bs].
           rewrite <- !app_assoc. unfold slice at 2. rewrite Nat.sub_diag, take_0.
           by rewrite Nat.add_1_r. }
      all: rewrite IH by lia; rewrite drop_drop, <- slice_extend by done;
        by rewrite <- !app_assoc.
    + rewrite escape_ascii by done.
      destruct (_ && _ && _) eqn:Hp.
      * rewrite IH by lia. rewrite <- slice_extend, Hc, <- !app_assoc by done.
        rewrite escape_byte_plain by done. by rewrite Nat.add_1_r.
      * rewrite IH by lia. rewrite append_escaped_spec by done.
        unfold AppendBytes. cbn [bs]. rewrite <- !app_assoc.
        unfold slice at 2. rewrite Nat.sub_diag, take_0. by rewrite Nat.add_1_r.
  - apply lookup_ge_None in E. rewrite (drop_ge s i) by lia.
    unfold AppendBytes. cbn. rewrite app_nil_r. unfold slice.
    rewrite take_ge; [done|]. rewrite length_drop. lia.
Qed.

Lemma safeAppend_spec buf s :
  safeAppendStringLike buf s = Some (mkBuffer (bs buf ++ escape s)).
Proof. unfold safeAppendStringLike. rewrite safe_loop_spec by lia. done. Qed.

(** ** A JSON reader recovers the text *)

Lemma parse_str_escape_byte f c t :
  bz c < RuneSelf -> parse_str (S f) (escape_byte c ++ t) = push (bz c) (parse_str f t).
Proof. intros H. destruct c; try reflexivity; exfalso; by vm_compute in H. Qed.

Lemma parse_str_high f c t :
  RuneSelf <= bz c ->
  parse_str (S f) (c :: t) =
    let '(r, n) := DecodeRune (c :: t) in
    if (r =? RuneError) && Nat.eqb n 1 then None else push r (parse_str f (drop n (c :: t))).
Proof. intros H. destruct c; try reflexivity; exfalso; by vm_compute in H. Qed.

Lemma parse_str_replacement f t :
  parse_str (S f) (go "\ufffd" ++ t) = push RuneError (parse_str f t).
Proof. reflexivity. Qed.

Lemma escape_byte_nonempty c : escape_byte c <> [].
Proof. by byte_cases c. Qed.

Lemma parse_str_escape s f rest :
  (length (escape s) < f)%nat ->
  parse_str f (escape s ++ Byte.x22 :: rest) = Some (runes s, rest).
Proof.
  revert f. induction s as [|s r n Hs D IH] using rune_ind; intros f Hf.
  - destruct f; [cbn in Hf; lia|done].
  - destruct s as [|c t]; [done|]. rewrite runes_unfold, D by done. cbn [fst snd].
    pose proof (DecodeRune_size _ _ _ D ltac:(done)) as Hn.
    destruct (Z.ltb_spec (bz c) RuneSelf) as [Hc|Hc].
    + rewrite DecodeRune_ascii in D by done. simplify_eq.
      rewrite escape_ascii in * by done. cbn [drop] in *.
      rewrite drop_0 in *. rewrite <- app_assoc.
      rewrite length_app in Hf. pose proof (escape_byte_nonempty c) as Hne.
      destruct f as [|f]; [lia|]. rewrite parse_str_escape_byte by done.
      rewrite IH; [done|]. destruct (escape_byte c); [done|]. cbn in Hf. lia.
    + rewrite (escape_rune _ _ _ _ Hc D) in *.
      destruct ((r =? RuneError) && Nat.eqb n 1) eqn:Eerr.
      * apply andb_prop in Eerr as [->%Z.eqb_eq ->%Nat.eqb_eq].
        cbn [drop] in IH. rewrite drop_0 in IH. rewrite length_app in Hf. cbn in Hf.
        destruct f as [|f]; [lia|]. rewrite <- app_assoc, parse_str_replacement.
        rewrite IH by lia. cbn [drop push]. by rewrite drop_0.
      * assert (r <> RuneError \/ n <> 1%nat) as Hok.
        { destruct (Z.eqb_spec r RuneError); [|by left].
          destruct (Nat.eqb_spec n 1); [done|by right]. }
        destruct (DecodeRune_encode _ _ _ D ltac:(done) Hok) as [Hv He].
        assert (take n (c :: t) = EncodeRune r) as Ht.
        { rewrite <- (take_drop n (c :: t)) in He at 1. by apply app_inv_tail in He. }
        rewrite length_app, length_take in Hf. destruct f as [|f]; [lia|].
        rewrite <- app_assoc. rewrite Ht.
        pose proof (DecodeRune_EncodeRune r (escape (drop n (c :: t)) ++ Byte.x22 :: rest) Hv) as DE.
        assert (length (EncodeRune r) = n) as Hlen by (rewrite <- Ht, length_take; lia).
        assert (exists u, EncodeRune r = c :: u) as [u Eu].
        { rewrite <- Ht. destruct n as [|n]; [lia|]. by eexists. }
        rewrite Eu in *. cbn [app] in *.
        assert (forall X, drop n (c :: u ++ X) = X) as Hd.
        { intros X. rewrite <- Hlen. apply (drop_app_length (c :: u)). }
        rewrite parse_str_high, DE, Hlen, Eerr, Hd by done.
        rewrite IH by lia. done.
Qed.

