(* ===== verification/JsonTree.v ===== *)
(** * JsonTree

    The trees a JSON log line is made of, how they print, and that the JSON
    parser reads back what was printed.  The JSON encoder is proved to print
    such a tree; everything about the validity of its output is here. *)
From S2P Require Import Prelude Strconv Utf8 Float Buffer Json Escape.
Open Scope Z_scope.
Set Warnings "-register-all".

(** [TRaw] is text a [ReflectedEncoder] supplied; [TQuote] is text put between
    quotes without escaping. *)
Inductive jtree : Type :=
| TNull
| TBool (b : bool)
| TNum (lit : gostring)
| TStr (s : gostring)
| TQuote (s : gostring)
| TRaw (s : gostring)
| TArr (ts : list jtree)
| TObj (ms : list (gostring * jtree)).

Lemma jtree_nested_ind (P : jtree -> Prop)
    (Hnull : P TNull) (Hbool : forall b, P (TBool b)) (Hnum : forall l, P (TNum l))
    (Hstr : forall s, P (TStr s)) (Hquote : forall s, P (TQuote s)) (Hraw : forall s, P (TRaw s))
    (Harr : forall ts, Forall P ts -> P (TArr ts))
    (Hobj : forall ms, Forall (fun m => P m.2) ms -> P (TObj ms)) t : P t.
Proof.
  revert t. fix rec 1. intros [ |b|l|s|s|s|ts|ms];
    [exact Hnull|apply Hbool|apply Hnum|apply Hstr|apply Hquote|apply Hraw| |].
  - apply Harr. induction ts as [|t ts IH]; constructor; [exact (rec t)|exact IH].
  - apply Hobj. induction ms as [|[k t] ms IH]; constructor; [exact (rec t)|exact IH].
Qed.

(** ** Printing *)

Section Render.
Variable spaced : bool.

Definition sep (c : byte) : gostring := if spaced then [c; Byte.x20] else [c].

Definition quoted (s : gostring) : gostring := Byte.x22 :: s ++ [Byte.x22].

(** Concatenate with separators. *)
Fixpoint commas (xs : list gostring) : gostring :=
  match xs with
  | [] => []
  | [x] => x
  | x :: r => x ++ sep Byte.x2c ++ commas r
  end.

Fixpoint render (t : jtree) : gostring :=
  match t with
  | TNull => go "null"
  | TBool b => if b then go "true" else go "false"
  | TNum l => l
  | TStr s => quoted (escape s)
  | TQuote s => quoted s
  | TRaw s => s
  | TArr ts => [Byte.x5b] ++ commas (map render ts) ++ [Byte.x5d]
  | TObj ms =>
      [Byte.x7b] ++
      commas (map (fun m => quoted (escape m.1) ++ sep Byte.x3a ++ render m.2) ms) ++ [Byte.x7d]
  end.

Definition render_member (m : gostring * jtree) : gostring :=
  quoted (escape m.1) ++ sep Byte.x3a ++ render m.2.

Definition render_members (ms : list (gostring * jtree)) : gostring :=
  commas (map render_member ms).

(** ** Reading back *)

(** The value a tree stands for. *)
Definition raw_value (s : gostring) : jval :=
  match jparse s with Some (v, _) => v | None => JNull end.

Fixpoint jsem (t : jtree) : jval :=
  match t with
  | TNull => JNull
  | TBool b => JBool b
  | TNum l => JNum l
  | TStr s | TQuote s => JStr (runes s)
  | TRaw s => raw_value s
  | TArr ts => JArr (map jsem ts)
  | TObj ms => JObj (map (fun m => (runes m.1, jsem m.2)) ms)
  end.

(** The bytes after which [addElementSeparator] adds nothing. *)
Definition no_sep_after (b : byte) : bool :=
  match b with Byte.x7b | Byte.x5b | Byte.x3a | Byte.x2c | Byte.x20 => true | _ => false end.

(** A byte that can start a value. *)
Definition starts_value (b : byte) : bool :=
  negb (is_ws b || beq b Byte.x5d || beq b Byte.x7d).

(** Text of another encoder: it reads as one value, whatever follows, without
    leading space, and does not end in a byte the encoder takes for a separator. *)
Record raw_ok (s : gostring) : Prop := {
  raw_last : exists b, last s = Some b /\ no_sep_after b = false;
  raw_first : exists b t, s = b :: t /\ starts_value b = true;
  raw_reads : forall rest f, delim rest = true -> (2 * length s <= f)%nat ->
    parse_value f (s ++ rest) = Some (raw_value s, rest);
}.

(** Text that needs no escaping. *)
Definition plain (s : gostring) : Prop := escape s = s.

Inductive wf : jtree -> Prop :=
| wf_null : wf TNull
| wf_bool b : wf (TBool b)
| wf_num l : num_lit l -> wf (TNum l)
| wf_str s : wf (TStr s)
| wf_quote s : plain s -> wf (TQuote s)
| wf_raw s : raw_ok s -> wf (TRaw s)
| wf_arr ts : Forall wf ts -> wf (TArr ts)
| wf_obj ms : Forall (fun m => wf m.2) ms -> wf (TObj ms).
End Render.

#[export] Hint Constructors wf : lad.

Lemma commas_cons sp x y r : commas sp (x :: y :: r) = x ++ sep sp Byte.x2c ++ commas sp (y :: r).
Proof. reflexivity. Qed.

(** A leading space changes nothing. *)
Lemma parse_value_space f s : parse_value f (Byte.x20 :: s) = parse_value f s.
Proof. by destruct f. Qed.

Lemma parse_elems_space f s : parse_elems f (Byte.x20 :: s) = parse_elems f s.
Proof. destruct f; [done|]. cbn [parse_elems]. by rewrite parse_value_space. Qed.

Lemma parse_members_space f s : parse_members f (Byte.x20 :: s) = parse_members f s.
Proof. by destruct f. Qed.

Lemma render_head sp t : wf t -> exists b r, render sp t = b :: r /\ starts_value b = true.
Proof.
  destruct 1 as [ |b|l Hl| | |s Hs| | ]; cbn [render]; try (eexists _, _; by split).
  - destruct b; eexists _, _; by split.
  - destruct (num_lit_head l Hl) as (b & r & -> & Hb). exists b, r. split; [done|].
    destruct Hb as [->|Hb]; [done|]. by destruct b.
  - destruct (raw_first s Hs) as (b & r & -> & Hb). eauto.
Qed.

Lemma parse_scalar_num l rest :
  num_lit l -> delim rest = true -> parse_scalar (l ++ rest) = Some (JNum l, rest).
Proof.
  intros Hl Hr. unfold parse_scalar. rewrite (parse_num_lit l rest Hl Hr).
  destruct (num_lit_head l Hl) as (b & t & -> & [->|Hb]); [done|]. by destruct b.
Qed.

Lemma parse_value_num f l rest :
  num_lit l -> delim rest = true -> parse_value (S f) (l ++ rest) = Some (JNum l, rest).
Proof.
  intros Hl Hr. rewrite <- (parse_scalar_num l rest Hl Hr).
  destruct (num_lit_head l Hl) as (b & t & -> & [->|Hb]); [done|]. by destruct b.
Qed.

Lemma parse_value_str f s rest :
  parse_value (S f) (quoted (escape s) ++ rest) = Some (JStr (runes s), rest).
Proof.
  unfold quoted. cbn [app parse_value skip_ws is_ws]. rewrite <- app_assoc. cbn [app].
  rewrite parse_str_escape; [done|]. rewrite length_app. cbn. lia.
Qed.

Lemma parse_value_bracket f b r :
  starts_value b = true ->
  parse_value (S f) (Byte.x5b :: b :: r) =
    match parse_elems f (b :: r) with Some (vs, r') => Some (JArr vs, r') | None => None end.
Proof. intros Hb. by destruct b. Qed.

Section Reads.
Variable spaced : bool.
Local Abbreviation render := (render spaced).
Local Abbreviation sep := (sep spaced).
Local Abbreviation commas := (commas spaced).

(** The tree reads back. *)
Definition reads (t : jtree) : Prop :=
  forall f rest, delim rest = true -> (2 * length (render t) <= f)%nat ->
    parse_value f (render t ++ rest) = Some (jsem t, rest).

Lemma delim_sep rest : delim (sep Byte.x2c ++ rest) = true.
Proof. unfold JsonTree.sep. by destruct spaced. Qed.

Lemma skip_ws_sep c rest : is_ws c = false -> skip_ws (sep c ++ rest) = sep c ++ rest.
Proof. unfold JsonTree.sep. intros Hc. destruct spaced; cbn; by rewrite Hc. Qed.

Lemma sep_length c : (1 <= length (sep c))%nat.
Proof. unfold JsonTree.sep. destruct spaced; cbn; lia. Qed.

(** What [parse_members] does after the key. *)
Definition after_key (f : nat) (k : list Z) (o : option (jval * gostring)) :
    option (list (list Z * jval) * gostring) :=
  match o with
  | None => None
  | Some (v, r) =>
      match skip_ws r with
      | Byte.x2c :: r' =>
          match parse_members f r' with
          | Some (ms, r'') => Some ((k, v) :: ms, r'')
          | None => None
          end
      | Byte.x7d :: r' => Some ([(k, v)], r')
      | _ => None
      end
  end.

Lemma parse_members_key f k rest :
  parse_members (S f) (quoted (escape k) ++ sep Byte.x3a ++ rest) =
    after_key f (runes k) (parse_value f rest).
Proof.
  unfold quoted. cbn [app parse_members skip_ws is_ws]. rewrite <- app_assoc. cbn [app].
  rewrite parse_str_escape by (rewrite length_app; cbn; lia).
  unfold JsonTree.sep. destruct spaced; cbn [app skip_ws is_ws]; rewrite ?parse_value_space; done.
Qed.

Lemma parse_elems_commas ts t f rest :
  Forall reads (t :: ts) -> (2 * length (commas (map render (t :: ts))) < f)%nat ->
  parse_elems f (commas (map render (t :: ts)) ++ Byte.x5d :: rest) =
    Some (map jsem (t :: ts), rest).
Proof.
  revert t f. induction ts as [|u ts IH]; intros t f [Ht Hts]%Forall_cons Hf;
    (destruct f as [|f]; [lia|]); cbn [parse_elems].
  - cbn [map JsonTree.commas] in *. rewrite Ht by (done || lia). done.
  - cbn [map] in *. rewrite commas_cons in *. rewrite !length_app in Hf.
    pose proof (sep_length Byte.x2c). rewrite <- !app_assoc.
    rewrite Ht by (apply delim_sep || lia). rewrite skip_ws_sep by done.
    assert (parse_elems f (commas (render u :: map render ts) ++ Byte.x5d :: rest) =
            Some (jsem u :: map jsem ts, rest)) as E by (apply IH; [done|cbn [map]; lia]).
    unfold JsonTree.sep. destruct spaced; cbn [app];
      rewrite ?parse_elems_space, E; done.
Qed.

Lemma parse_members_commas ms m f rest :
  Forall (fun m => reads m.2) (m :: ms) ->
  (2 * length (render_members spaced (m :: ms)) < f)%nat ->
  parse_members f (render_members spaced (m :: ms) ++ Byte.x7d :: rest) =
    Some (map (fun m => (runes m.1, jsem m.2)) (m :: ms), rest).
Proof.
  unfold render_members. revert m f.
  induction ms as [|u ms IH]; intros [k t] f [Ht Hts]%Forall_cons Hf;
    (destruct f as [|f]; [lia|]); cbn [snd] in Ht.
  - cbn [map JsonTree.commas] in *. unfold render_member in *. cbn [fst snd] in *.
    rewrite !length_app in Hf. rewrite <- !app_assoc.
    rewrite parse_members_key, Ht by (done || lia). done.
  - cbn [map] in *. rewrite commas_cons in *. unfold render_member at 1 in Hf.
    rewrite !length_app in Hf. cbn [fst snd] in *.
    pose proof (sep_length Byte.x2c). unfold render_member at 1. cbn [fst snd]. rewrite <- !app_assoc.
    rewrite parse_members_key, Ht by (apply delim_sep || lia). unfold after_key. rewrite skip_ws_sep by done.
    assert (parse_members f (commas (map (render_member spaced) (u :: ms)) ++ Byte.x7d :: rest) =
            Some (map (fun m => (runes m.1, jsem m.2)) (u :: ms), rest)) as E by (apply IH; [done|cbn [map]; lia]).
    cbn [map] in E. unfold JsonTree.sep. destruct spaced; cbn [app];
      rewrite ?parse_members_space, E; done.
Qed.
End Reads.

Lemma reads_arr sp ts : Forall wf ts -> Forall (reads sp) ts -> reads sp (TArr ts).
Proof.
  intros Hts Hall f rest Hr Hf. destruct f as [|f]; [cbn in Hf; lia|].
  destruct ts as [|t ts]; [done|]. inv Hts.
  destruct (render_head sp t) as (b & r & E & Hb); [done|].
  assert (exists r', commas sp (map (render sp) (t :: ts)) = b :: r') as [r' E'].
  { destruct ts; cbn; rewrite E; eauto. }
  pose proof (parse_elems_commas sp ts t f rest Hall) as Hp.
  cbn [render] in *. rewrite !length_app in Hf. rewrite E' in *. rewrite <- !app_assoc.
  cbn [app length] in *. rewrite parse_value_bracket, Hp by (done || lia). done.
Qed.

Lemma reads_obj sp ms : Forall (fun m => reads sp m.2) ms -> reads sp (TObj ms).
Proof.
  intros Hall f rest Hr Hf. destruct f as [|f]; [cbn in Hf; lia|].
  change (render sp (TObj ms)) with ([Byte.x7b] ++ render_members sp ms ++ [Byte.x7d]) in *.
  cbn [jsem]. rewrite <- !app_assoc. cbn [app parse_value skip_ws is_ws].
  destruct ms as [|m ms]; [done|].
  assert (exists r', render_members sp (m :: ms) = Byte.x22 :: r') as [r' E'].
  { destruct ms; eexists; reflexivity. }
  pose proof (parse_members_commas sp ms m f rest Hall) as Hp.
  rewrite !length_app in Hf. rewrite E' in *. cbn [app length] in *.
  cbn [skip_ws is_ws]. by rewrite Hp by lia.
Qed.

(** A well-formed tree reads back as the value it stands for. *)
Lemma wf_reads sp t : wf t -> reads sp t.
Proof.
  induction t as [ |b|l|s|s|s|ts IH|ms IH] using jtree_nested_ind; intros Hw; inv Hw.
  7: { apply reads_arr; [done|]. by eapply Forall_mp. }
  7: { apply reads_obj. apply (Forall_mp (fun m => wf m.2)); done. }
  all: intros f rest Hr Hf.
  6: by apply raw_reads.
  all: destruct f as [|f]; [cbn in Hf; try destruct b; cbn in *; try lia|].
  - done.
  - by destruct b.
  - destruct (num_lit_head l) as (b & t & -> & _); [done|]. cbn in Hf. lia.
  - by apply parse_value_num.
  - apply parse_value_str.
  - pose proof (parse_value_str f s rest) as H. unfold plain in *. by rewrite H0 in H.
Qed.

(** The whole text, read with [jparse]. *)
Lemma jparse_render sp t rest :
  wf t -> delim rest = true -> jparse (render sp t ++ rest) = Some (jsem t, rest).
Proof.
  intros Hw Hr. apply wf_reads; [done|done|]. unfold parse_fuel. rewrite length_app. lia.
Qed.

(** ** The last byte *)

(** Text after which the encoder puts a comma. *)
Definition ends_value (s : gostring) : Prop := exists b, last s = Some b /\ no_sep_after b = false.

Lemma ends_value_app s t : ends_value t -> ends_value (s ++ t).
Proof.
  intros (b & Hb & Hs). exists b. split; [|done]. rewrite last_app_nonempty; [done|].
  by intros ->.
Qed.

Lemma ends_value_snoc s b : no_sep_after b = false -> ends_value (s ++ [b]).
Proof. intros Hb. exists b. split; [apply last_snoc|done]. Qed.

Lemma render_ends sp t : wf t -> ends_value (render sp t).
Proof.
  destruct 1 as [ |b|l Hl|s|s _|s Hs|ts|ms]; cbn [render].
  - by eexists.
  - destruct b; by eexists.
  - destruct (num_lit_last l Hl) as (b & Hb & Hd). exists b. split; [done|]. by destruct b.
  - unfold quoted. rewrite app_comm_cons. by apply ends_value_snoc.
  - unfold quoted. rewrite app_comm_cons. by apply ends_value_snoc.
  - by apply raw_last.
  - rewrite app_assoc. by apply ends_value_snoc.
  - rewrite app_assoc. by apply ends_value_snoc.
Qed.

(** ** Plain text *)

(** A printable ASCII byte other than the quote and the backslash. *)
Definition plain_byte (c : byte) : bool :=
  (0x20 <=? bz c) && (bz c <? RuneSelf) && negb (beq c Byte.x5c) && negb (beq c Byte.x22).

Lemma plain_bytes s : forallb plain_byte s = true -> plain s.
Proof.
  unfold plain. induction s as [|c s IH]; [done|]. cbn [forallb]. intros [Hc Hs]%andb_prop.
  unfold plain_byte in Hc. apply andb_prop in Hc as [[[H1 H2]%andb_prop H3]%andb_prop H4].
  rewrite escape_ascii by (by apply Z.ltb_lt). rewrite escape_byte_plain by (by rewrite H1, H3, H4).
  cbn. by rewrite IH.
Qed.

Lemma digit_plain ds : forallb is_digit ds = true -> forallb plain_byte ds = true.
Proof.
  intros H. rewrite forallb_forall in *. intros b Hb. specialize (H b Hb). by destruct b.
Qed.

Lemma num_lit_plain l : num_lit l -> forallb plain_byte l = true.
Proof.
  intros (sg & ip & fp & -> & Hsg & Hip & Hfp). rewrite !forallb_app.
  destruct Hsg as [->| ->]; destruct Hip as [->|(d & r & -> & _ & Hd & Hr)];
    destruct Hfp as [->|(ds & -> & _ & Hds)]; cbn;
    rewrite ?(digit_plain [d]), ?digit_plain by (cbn; by rewrite ?Hd); try done.
  all: pose proof (digit_plain [d]) as H; cbn in H; rewrite Hd in H; specialize (H eq_refl);
    apply andb_prop in H as [-> _]; done.
Qed.

Lemma FormatFloat_plain f w :
  (forall neg m e, f = FFin neg m e -> 0 <= m) -> forallb plain_byte (FormatFloat f w) = true.
Proof.
  destruct f as [|[]|neg m e]; intros Hm; try done.
  apply num_lit_plain, FormatFloat_num_lit. by eapply Hm.
Qed.

(** C34.  Escaping is right for every byte string.  The loop of
    [safeAppendStringLike], which copies runs of safe bytes and never
    backtracks, terminates and appends exactly the rune-by-rune escaping; and
    between quotes that text reads back as the runes of the string, with ill-formed
    bytes replaced by U+FFFD. *)
Theorem safe_append_string_correct buf s rest :
  safeAppendStringLike buf s = Some (mkBuffer (bs buf ++ escape s)) /\
  jparse (quoted (escape s) ++ rest) = Some (JStr (runes s), rest).
Proof. split; [apply safeAppend_spec|]. apply parse_value_str. Qed.
