(* ===== verification/Base64.v ===== *)
(** * Base64

    [base64.StdEncoding] of the Go standard library: the standard alphabet
    with padding, and a decoder to state what the encoding preserves. *)
From S2P Require Import Prelude.
Open Scope Z_scope.

Definition encodeStd : gostring :=
  go "ABCDEFGHIJKLMNOPQRSTUVWXYZabcdefghijklmnopqrstuvwxyz0123456789+/".

Definition b64_char (n : Z) : byte := nth (Z.to_nat n) encodeStd Byte.x00.
Definition b64_pad : byte := Byte.x3d.

(** Three bytes make four characters; what is left over is padded. *)
Fixpoint EncodeToString (s : gostring) : gostring :=
  match s with
  | a :: b :: c :: t =>
      let v := (bz a * 256 + bz b) * 256 + bz c in
      b64_char (v / 262144) :: b64_char (v / 4096 mod 64) ::
      b64_char (v / 64 mod 64) :: b64_char (v mod 64) :: EncodeToString t
  | [a; b] =>
      let v := (bz a * 256 + bz b) * 256 in
      [b64_char (v / 262144); b64_char (v / 4096 mod 64); b64_char (v / 64 mod 64); b64_pad]
  | [a] =>
      let v := bz a * 65536 in
      [b64_char (v / 262144); b64_char (v / 4096 mod 64); b64_pad; b64_pad]
  | [] => []
  end.

(** ** Decoding *)

Definition b64_val (c : byte) : option Z :=
  let z := bz c in
  if (65 <=? z) && (z <=? 90) then Some (z - 65)
  else if (97 <=? z) && (z <=? 122) then Some (z - 71)
  else if (48 <=? z) && (z <=? 57) then Some (z + 4)
  else if z =? 43 then Some 62
  else if z =? 47 then Some 63
  else None.

Definition byte_of (v k : Z) : byte := zb (v / k mod 256).

Fixpoint DecodeString (s : gostring) : option gostring :=
  match s with
  | [] => Some []
  | a :: b :: c :: d :: t =>
      match b64_val a, b64_val b, b64_val c, b64_val d with
      | Some a, Some b, Some c, Some d =>
          let v := ((a * 64 + b) * 64 + c) * 64 + d in
          match DecodeString t with
          | Some r => Some (byte_of v 65536 :: byte_of v 256 :: byte_of v 1 :: r)
          | None => None
          end
      | Some a, Some b, Some c, None =>
          let v := ((a * 64 + b) * 64 + c) * 64 in
          if beq d b64_pad && Nat.eqb (length t) 0
          then Some [byte_of v 65536; byte_of v 256] else None
      | Some a, Some b, None, None =>
          let v := (a * 64 + b) * 4096 in
          if beq c b64_pad && beq d b64_pad && Nat.eqb (length t) 0
          then Some [byte_of v 65536] else None
      | _, _, _, _ => None
      end
  | _ => None
  end.

Example encode_ex : EncodeToString (go "Hello") = go "SGVsbG8=".
Proof. reflexivity. Qed.

Definition b64_roundtrip_all : bool :=
  forallb (fun n => match b64_val (b64_char (Z.of_nat n)) with
                    | Some v => v =? Z.of_nat n
                    | None => false
                    end) (seq 0 64).

Lemma b64_val_char n : 0 <= n < 64 -> b64_val (b64_char n) = Some n.
Proof.
  intros Hn. assert (b64_roundtrip_all = true) as H by reflexivity.
  unfold b64_roundtrip_all in H. rewrite forallb_forall in H.
  specialize (H (Z.to_nat n)). rewrite Z2Nat.id in H by lia.
  rewrite in_seq in H. specialize (H ltac:(lia)).
  destruct (b64_val (b64_char n)); [|done]. apply Z.eqb_eq in H. by subst.
Qed.

(** Induction three bytes at a time. *)
Lemma triples_ind (P : gostring -> Prop) (H0 : P []) (H1 : forall a, P [a])
    (H2 : forall a b, P [a; b]) (H3 : forall a b c t, P t -> P (a :: b :: c :: t)) s : P s.
Proof.
  revert s. fix rec 1.
  intros [|a [|b [|c t]]]; [exact H0|apply H1|apply H2|apply H3, rec].
Qed.

Lemma byte_of_eq v k a : v / k mod 256 = bz a -> byte_of v k = a.
Proof. unfold byte_of. intros ->. apply zb_bz. Qed.

Lemma DecodeString_EncodeToString s : DecodeString (EncodeToString s) = Some s.
Proof.
  induction s as [|a|a b|a b c t IH] using triples_ind; cbn [EncodeToString DecodeString].
  - done.
  - pose proof (bz_range a). rewrite !b64_val_char by (Z.to_euclidean_division_equations; lia).
    cbn. do 2 f_equal. apply byte_of_eq. Z.to_euclidean_division_equations; lia.
  - pose proof (bz_range a). pose proof (bz_range b).
    rewrite !b64_val_char by (Z.to_euclidean_division_equations; lia).
    cbn. repeat (f_equal; try (apply byte_of_eq; Z.to_euclidean_division_equations; lia)).
  - pose proof (bz_range a). pose proof (bz_range b). pose proof (bz_range c).
    rewrite !b64_val_char by (Z.to_euclidean_division_equations; lia). rewrite IH.
    repeat (f_equal; try (apply byte_of_eq; Z.to_euclidean_division_equations; lia)).
Qed.
