(* ===== verification/JsonEncoder.v ===== *)
(** * JsonEncoder

    [ladcore/json_encoder.go]: the encoder, method by method, the interpreter
    that runs a marshaler against it, and [EncodeEntry]. *)
From S2P Require Import Prelude Strconv Utf8 Level Float GoTime Buffer Entry Values Field Encoder.
From S2P Require Import Json Escape Base64.
Open Scope Z_scope.

(** ** State *)

(** What [bufferpool.Get] hands out, by [Buffer.GetBuffer_empty]. *)
Definition bufferpool_Get : Buffer := mkBuffer [].

Record jsonEncoder := mkJson {
  cfg : EncoderConfig;
  buf : Buffer;
  spaced : bool;
  openNamespaces : nat;
  reflectBuf : option Buffer;
  reflectEnc : option ReflectedEncoder;
}.

Definition on_buf (f : Buffer -> Buffer) (enc : jsonEncoder) : jsonEncoder :=
  mkJson (cfg enc) (f (buf enc)) (spaced enc) (openNamespaces enc) (reflectBuf enc) (reflectEnc enc).

Definition set_openNamespaces (n : nat) (enc : jsonEncoder) : jsonEncoder :=
  mkJson (cfg enc) (buf enc) (spaced enc) n (reflectBuf enc) (reflectEnc enc).

Definition set_reflect (b : option Buffer) (r : option ReflectedEncoder) (enc : jsonEncoder) :
    jsonEncoder :=
  mkJson (cfg enc) (buf enc) (spaced enc) (openNamespaces enc) b r.

(** [buf.AppendByte], the most frequent step. *)
Definition put (b : byte) : jsonEncoder -> jsonEncoder := on_buf (fun x => AppendByte x b).

(** The encoder as a component: what a [MarshalLogObject] or a
    [MarshalLogArray] run against it does to it. *)
Definition marshal := jsonEncoder -> jsonEncoder * outcome error.

Module JSON.
Section JSON.
Context `{TimeFormat}.

(** ** Separators, keys, strings *)

Definition addElementSeparator (enc : jsonEncoder) : jsonEncoder :=
  let last := Z.of_nat (Len (buf enc)) - 1 in
  if last <? 0 then enc
  else
    match Bytes (buf enc) !! Z.to_nat last with
    | Some (Byte.x7b | Byte.x5b | Byte.x3a | Byte.x2c | Byte.x20) => enc
    | _ =>
        let enc := put Byte.x2c enc in
        if spaced enc then put Byte.x20 enc else enc
    end.

Definition safeAddString (s : gostring) (enc : jsonEncoder) : jsonEncoder :=
  on_buf (fun b => default b (safeAppendStringLike b s)) enc.
Definition safeAddByteString (s : gostring) (enc : jsonEncoder) : jsonEncoder :=
  on_buf (fun b => default b (safeAppendStringLike b s)) enc.

Definition addKey (key : gostring) (enc : jsonEncoder) : jsonEncoder :=
  let enc := addElementSeparator enc in
  let enc := put Byte.x22 enc in
  let enc := safeAddString key enc in
  let enc := put Byte.x22 enc in
  let enc := put Byte.x3a enc in
  if spaced enc then put Byte.x20 enc else enc.

(** ** The [Append] methods *)

Definition AppendBool (v : bool) (enc : jsonEncoder) : jsonEncoder :=
  on_buf (fun b => Buffer.AppendBool b v) (addElementSeparator enc).

Definition AppendString (v : gostring) (enc : jsonEncoder) : jsonEncoder :=
  let enc := put Byte.x22 (addElementSeparator enc) in
  put Byte.x22 (safeAddString v enc).

Definition AppendByteString (v : gostring) (enc : jsonEncoder) : jsonEncoder :=
  let enc := put Byte.x22 (addElementSeparator enc) in
  put Byte.x22 (safeAddByteString v enc).

Definition AppendInt64 (v : Z) (enc : jsonEncoder) : jsonEncoder :=
  on_buf (fun b => Buffer.AppendInt b v) (addElementSeparator enc).

Definition AppendUint64 (v : Z) (enc : jsonEncoder) : jsonEncoder :=
  on_buf (fun b => Buffer.AppendUint b v) (addElementSeparator enc).

Definition appendFloat (v : fval) (bitSize : Z) (enc : jsonEncoder) : jsonEncoder :=
  let enc := addElementSeparator enc in
  let lit s := Byte.x22 :: go s ++ [Byte.x22] in
  match v with
  | FNaN => on_buf (fun b => Buffer.AppendString b (lit "NaN")) enc
  | FInf false => on_buf (fun b => Buffer.AppendString b (lit "+Inf")) enc
  | FInf true => on_buf (fun b => Buffer.AppendString b (lit "-Inf")) enc
  | _ => on_buf (fun b => Buffer.AppendFloat b v bitSize) enc
  end.

(** Both parts are converted to [float64] but printed at [precision]. *)
Definition appendComplex (r i : fval) (precision : Z) (enc : jsonEncoder) : jsonEncoder :=
  let enc := put Byte.x22 (addElementSeparator enc) in
  let enc := on_buf (fun b => Buffer.AppendFloat b r precision) enc in
  let enc := if fval_ge0 i then put Byte.x2b enc else enc in
  let enc := on_buf (fun b => Buffer.AppendFloat b i precision) enc in
  put Byte.x22 (put Byte.x69 enc).

Definition AppendComplex64 (v : Z * Z) := appendComplex (float32 v.1) (float32 v.2) 32.
Definition AppendComplex128 (v : Z * Z) := appendComplex (float64 v.1) (float64 v.2) 64.
Definition AppendFloat64 (v : Z) := appendFloat (float64 v) 64.
Definition AppendFloat32 (v : Z) := appendFloat (float32 v) 32.
Definition AppendInt (v : Z) := AppendInt64 (int64 v).
Definition AppendInt32 (v : Z) := AppendInt64 (int64 v).
Definition AppendInt16 (v : Z) := AppendInt64 (int64 v).
Definition AppendInt8 (v : Z) := AppendInt64 (int64 v).
Definition AppendUint (v : Z) := AppendUint64 (uint64 v).
Definition AppendUint32 (v : Z) := AppendUint64 (uint64 v).
Definition AppendUint16 (v : Z) := AppendUint64 (uint64 v).
Definition AppendUint8 (v : Z) := AppendUint64 (uint64 v).
Definition AppendUintptr (v : Z) := AppendUint64 (uint64 v).

Definition AppendPrim (p : prim) : jsonEncoder -> jsonEncoder :=
  match p with
  | PBool v => AppendBool v
  | PByteString v => AppendByteString v
  | PComplex128 v => AppendComplex128 v
  | PComplex64 v => AppendComplex64 v
  | PFloat64 v => AppendFloat64 v
  | PFloat32 v => AppendFloat32 v
  | PInt v => AppendInt v
  | PInt64 v => AppendInt64 v
  | PInt32 v => AppendInt32 v
  | PInt16 v => AppendInt16 v
  | PInt8 v => AppendInt8 v
  | PString v => AppendString v
  | PUint v => AppendUint v
  | PUint64 v => AppendUint64 v
  | PUint32 v => AppendUint32 v
  | PUint16 v => AppendUint16 v
  | PUint8 v => AppendUint8 v
  | PUintptr v => AppendUintptr v
  end.

(** The formatted time goes between the quotes as it is. *)
Definition AppendTimeLayout (t : gotime) (layout : gostring) (enc : jsonEncoder) : jsonEncoder :=
  let enc := put Byte.x22 (addElementSeparator enc) in
  put Byte.x22 (on_buf (fun b => Buffer.AppendTime b t layout) enc).

(** A primitive encoder run against this one. *)
Definition call (c : pcall) : jsonEncoder -> jsonEncoder :=
  match c with
  | CPrim p => AppendPrim p
  | CTimeLayout t layout => AppendTimeLayout t layout
  end.
Definition calls (cs : list pcall) (enc : jsonEncoder) : jsonEncoder :=
  fold_left (fun e c => call c e) cs enc.

(** Run a primitive encoder and fall back when it wrote nothing. *)
Definition or_else (cs : list pcall) (fallback : jsonEncoder -> jsonEncoder) (enc : jsonEncoder) :
    jsonEncoder :=
  let cur := Len (buf enc) in
  let enc := calls cs enc in
  if Nat.eqb cur (Len (buf enc)) then fallback enc else enc.

Definition AppendDuration (v : Z) (enc : jsonEncoder) : jsonEncoder :=
  or_else match EncodeDuration (cfg enc) with Some e => e v | None => [] end
    (AppendInt64 (int64 v)) enc.

Definition AppendTime (v : gotime) (enc : jsonEncoder) : jsonEncoder :=
  or_else match EncodeTime (cfg enc) with Some e => e v | None => [] end
    (AppendInt64 (UnixNano v)) enc.

(** ** Reflection *)

Definition nullLiteralBytes : gostring := go "null".

(** A configuration always has a [NewReflectedEncoder] once [newJSONEncoder]
    has seen it. *)
Definition resetReflectBuf (enc : jsonEncoder) : jsonEncoder :=
  match reflectBuf enc with
  | None => set_reflect (Some bufferpool_Get) (NewReflectedEncoder (cfg enc)) enc
  | Some b => set_reflect (Some (Reset b)) (reflectEnc enc) enc
  end.

Definition nil_func_panic : gostring :=
  go "runtime error: invalid memory address or nil pointer dereference".

Definition encodeReflected (obj : goval) (enc : jsonEncoder) :
    jsonEncoder * outcome (gostring + goerror) :=
  match obj with
  | VNil => (enc, Ret (inl nullLiteralBytes))
  | _ =>
      let enc := resetReflectBuf enc in
      match reflectEnc enc, reflectBuf enc with
      | Some r, Some b =>
          let '(out, err) := r obj in
          let b := AppendBytes b out in
          match err with
          | Some e => (set_reflect (Some b) (Some r) enc, Ret (inr e))
          | None =>
              let b := TrimNewline b in
              (set_reflect (Some b) (Some r) enc, Ret (inl (Bytes b)))
          end
      | _, _ => (enc, Panic nil_func_panic)
      end
  end.

(** [AppendReflected] and [AddReflected]: [before] adds the separator or the
    key, and only once the value is known to encode. *)
Definition writeReflected (before : jsonEncoder -> jsonEncoder) (obj : goval) : marshal :=
  fun enc =>
    match encodeReflected obj enc with
    | (enc, Ret (inl valueBytes)) =>
        (on_buf (fun b => fst (Buffer.Write b valueBytes)) (before enc), Ret None)
    | (enc, Ret (inr err)) => (enc, Ret (Some err))
    | (enc, Panic v) => (enc, Panic v)
    end.

Definition AppendReflected (obj : goval) : marshal := writeReflected addElementSeparator obj.
Definition AddReflected (key : gostring) (obj : goval) : marshal := writeReflected (addKey key) obj.

(** ** Arrays, objects, namespaces *)

Definition AppendArray (arr : marshal) : marshal := fun enc =>
  match arr (put Byte.x5b (addElementSeparator enc)) with
  | (enc, Ret err) => (put Byte.x5d enc, Ret err)
  | (enc, Panic v) => (enc, Panic v)
  end.

Definition closeOpenNamespaces (enc : jsonEncoder) : jsonEncoder :=
  set_openNamespaces 0 (Nat.iter (openNamespaces enc) (put Byte.x7d) enc).

(** Only the namespaces opened inside are closed. *)
Definition AppendObject (obj : marshal) : marshal := fun enc =>
  let old := openNamespaces enc in
  let enc := set_openNamespaces 0 enc in
  match obj (put Byte.x7b (addElementSeparator enc)) with
  | (enc, Ret err) =>
      (set_openNamespaces old (closeOpenNamespaces (put Byte.x7d enc)), Ret err)
  | (enc, Panic v) => (enc, Panic v)
  end.

Definition OpenNamespace (key : gostring) (enc : jsonEncoder) : jsonEncoder :=
  let enc := put Byte.x7b (addKey key enc) in
  set_openNamespaces (S (openNamespaces enc)) enc.

Definition AddArray (key : gostring) (arr : marshal) : marshal :=
  fun enc => AppendArray arr (addKey key enc).
Definition AddObject (key : gostring) (obj : marshal) : marshal :=
  fun enc => AppendObject obj (addKey key enc).
Definition AddString (key v : gostring) (enc : jsonEncoder) : jsonEncoder :=
  AppendString v (addKey key enc).
Definition AddBinary (key v : gostring) (enc : jsonEncoder) : jsonEncoder :=
  AddString key (EncodeToString v) enc.
Definition AddPrim (key : gostring) (p : prim) (enc : jsonEncoder) : jsonEncoder :=
  AppendPrim p (addKey key enc).
Definition AddDuration (key : gostring) (v : Z) (enc : jsonEncoder) : jsonEncoder :=
  AppendDuration v (addKey key enc).
Definition AddTime (key : gostring) (v : gotime) (enc : jsonEncoder) : jsonEncoder :=
  AppendTime v (addKey key enc).
End JSON.

(** ** Marshalers run against the encoder *)

Section Run.
Context `{TimeFormat}.

Definition done_ (enc : jsonEncoder) : jsonEncoder * outcome error := (enc, Ret None).

Fixpoint run_obj (o : objm) (enc : jsonEncoder) : jsonEncoder * outcome error :=
  match o with
  | ORet e => (enc, Ret e)
  | OPanic v => (enc, Panic v)
  | OCall op k =>
      match run_objop op enc with
      | (enc, Ret e) => run_obj (k e) enc
      | (enc, Panic v) => (enc, Panic v)
      end
  end
with run_objop (op : objop) (enc : jsonEncoder) : jsonEncoder * outcome error :=
  match op with
  | Values.AddArray key a => AddArray key (run_arr a) enc
  | Values.AddObject key o => AddObject key (run_obj o) enc
  | Values.AddBinary key v => done_ (AddBinary key v enc)
  | Values.AddPrim key p => done_ (AddPrim key p enc)
  | Values.AddDuration key d => done_ (AddDuration key d enc)
  | Values.AddTime key t => done_ (AddTime key t enc)
  | Values.AddReflected key v => AddReflected key v enc
  | Values.OpenNamespace key => done_ (OpenNamespace key enc)
  end
with run_arr (a : arrm) (enc : jsonEncoder) : jsonEncoder * outcome error :=
  match a with
  | ARet e => (enc, Ret e)
  | APanic v => (enc, Panic v)
  | ACall op k =>
      match run_arrop op enc with
      | (enc, Ret e) => run_arr (k e) enc
      | (enc, Panic v) => (enc, Panic v)
      end
  end
with run_arrop (op : arrop) (enc : jsonEncoder) : jsonEncoder * outcome error :=
  match op with
  | Values.AppendArray a => AppendArray (run_arr a) enc
  | Values.AppendObject o => AppendObject (run_obj o) enc
  | Values.AppendPrim p => done_ (AppendPrim p enc)
  | Values.AppendDuration d => done_ (AppendDuration d enc)
  | Values.AppendTime t => done_ (AppendTime t enc)
  | Values.AppendReflected v => AppendReflected v enc
  end.

(** ** Encoders and the pool they come from *)

(** The configuration of an encoder in the pool is nil; [clone] sets it. *)
Definition nilConfig : EncoderConfig :=
  mkConfig [] [] [] [] [] [] [] false [] None None None None None None [].

Definition zeroJSON : jsonEncoder := mkJson nilConfig (mkBuffer []) false 0 None None.

Definition _jsonPool : Pool.t jsonEncoder := Pool.mk zeroJSON [].

(** Every field is cleared before the encoder goes back. *)
Definition putJSONEncoder (p : Pool.t jsonEncoder) (enc : jsonEncoder) : Pool.t jsonEncoder :=
  let enc := set_openNamespaces 0 (on_buf (fun _ => mkBuffer []) enc) in
  let enc := mkJson nilConfig (buf enc) false (openNamespaces enc) (reflectBuf enc) (reflectEnc enc) in
  Pool.Put p (set_reflect None None enc).

(** [json.NewEncoder(w)] with [SetEscapeHTML(false)] *)
Context (defaultReflectedEncoder : ReflectedEncoder).

Definition newJSONEncoder (c : EncoderConfig) (sp : bool) : jsonEncoder :=
  let le :=
    if SkipLineEnding c then []
    else if streq (LineEnding c) [] then DefaultLineEnding else LineEnding c in
  let re :=
    match NewReflectedEncoder c with Some r => Some r | None => Some defaultReflectedEncoder end in
  mkJson
    (mkConfig (MessageKey c) (LevelKey c) (TimeKey c) (NameKey c) (CallerKey c) (FunctionKey c)
       (StacktraceKey c) (SkipLineEnding c) le (EncodeLevel c) (EncodeTime c) (EncodeDuration c)
       (EncodeCaller c) (EncodeName c) re (ConsoleSeparator c))
    bufferpool_Get sp 0 None None.

Definition NewJSONEncoder (c : EncoderConfig) : jsonEncoder := newJSONEncoder c false.

(** What [clone] makes of the encoder [x] it got from the pool. *)
Definition reuse (x enc : jsonEncoder) : jsonEncoder :=
  mkJson (cfg enc) bufferpool_Get (spaced enc) (openNamespaces enc) (reflectBuf x) (reflectEnc x).

Definition clone (p : Pool.t jsonEncoder) (choice : option nat) (enc : jsonEncoder) :
    jsonEncoder * Pool.t jsonEncoder :=
  let '(x, p) := Pool.Get p choice in (reuse x enc, p).

Definition Clone (p : Pool.t jsonEncoder) (choice : option nat) (enc : jsonEncoder) :
    jsonEncoder * Pool.t jsonEncoder :=
  let '(c, p) := clone p choice enc in
  (on_buf (fun b => fst (Buffer.Write b (Bytes (buf enc)))) c, p).

Definition truncate (enc : jsonEncoder) : jsonEncoder := on_buf Reset enc.

(** ** [EncodeEntry] *)

Context `{GoRuntime}.

Definition keyed (key : gostring) (cs : list pcall) (fallback : gostring) (enc : jsonEncoder) :
    jsonEncoder :=
  or_else cs (AppendString fallback) (addKey key enc).

Definition addLevel (ent : Entry) (final : jsonEncoder) : jsonEncoder :=
  let c := cfg final in
  match EncodeLevel c with
  | Some e =>
      if nonempty (LevelKey c)
      then keyed (LevelKey c) (e (e_Level ent)) (Level_String (e_Level ent)) final else final
  | None => final
  end.

Definition addTime (ent : Entry) (final : jsonEncoder) : jsonEncoder :=
  let c := cfg final in
  if nonempty (TimeKey c) && negb (IsZero (e_Time ent))
  then AddTime (TimeKey c) (e_Time ent) final else final.

Definition addName (ent : Entry) (final : jsonEncoder) : jsonEncoder :=
  let c := cfg final in
  if nonempty (e_LoggerName ent) && nonempty (NameKey c)
  then keyed (NameKey c) (default FullNameEncoder (EncodeName c) (e_LoggerName ent))
         (e_LoggerName ent) final
  else final.

(** [None] is the nil call of a missing [EncodeCaller]. *)
Definition addCaller (ent : Entry) (final : jsonEncoder) : option jsonEncoder :=
  let c := cfg final in
  if Defined (e_Caller ent) && nonempty (CallerKey c)
  then match EncodeCaller c with
       | Some e => Some (keyed (CallerKey c) (e (e_Caller ent)) (Caller_String (e_Caller ent)) final)
       | None => None
       end
  else Some final.

Definition addFunction (ent : Entry) (final : jsonEncoder) : jsonEncoder :=
  let c := cfg final in
  if Defined (e_Caller ent) && nonempty (FunctionKey c)
  then AppendString (Function_ (e_Caller ent)) (addKey (FunctionKey c) final) else final.

Definition addMessage (ent : Entry) (final : jsonEncoder) : jsonEncoder :=
  let c := cfg final in
  if nonempty (MessageKey c)
  then AppendString (e_Message ent) (addKey (MessageKey c) final) else final.

(** The entry's own members, before any field. *)
Definition addMetadata (ent : Entry) (final : jsonEncoder) : option jsonEncoder :=
  match addCaller ent (addName ent (addTime ent (addLevel ent final))) with
  | Some final => Some (addMessage ent (addFunction ent final))
  | None => None
  end.

Definition EncodeEntry (p : Pool.t jsonEncoder) (choice : option nat) (enc : jsonEncoder)
    (ent : Entry) (fields : list field) : outcome Buffer * Pool.t jsonEncoder :=
  let '(final, p) := clone p choice enc in
  match addMetadata ent (put Byte.x7b final) with
  | None => (Panic nil_func_panic, p)
  | Some final =>
      let final :=
        if (0 <? Z.of_nat (Len (buf enc)))
        then on_buf (fun b => fst (Buffer.Write b (Bytes (buf enc)))) (addElementSeparator final)
        else final in
      match run_obj (addFields fields) final with
      | (_, Panic v) => (Panic v, p)
      | (final, Ret _) =>
          let final := closeOpenNamespaces final in
          let final :=
            if nonempty (e_Stack ent) && nonempty (StacktraceKey (cfg final))
            then AddString (StacktraceKey (cfg final)) (e_Stack ent) final else final in
          let final := put Byte.x7d final in
          let final := on_buf (fun b => Buffer.AppendString b (LineEnding (cfg final))) final in
          (Ret (buf final), putJSONEncoder p final)
      end
  end.
End Run.
End JSON.

(** ** Evaluation *)

#[local] Instance plainTime : TimeFormat := {| time_Format _ l := l |}.

Definition exampleConfig : EncoderConfig :=
  mkConfig (go "msg") (go "level") (go "ts") (go "logger") (go "caller") (go "func") (go "stack")
    false [] (Some LowercaseLevelEncoder) (Some EpochNanosTimeEncoder) (Some StringDurationEncoder)
    (Some ShortCallerEncoder) None None [].

Definition exampleReflect : ReflectedEncoder := fun _ => (go "{}" ++ [Byte.x0a], None).

Definition exampleEntry : Entry :=
  mkEntry InfoLevel (Unix0 1500000000) (go "main") (go "hi") (mkCaller true 0 (go "/a/b/c.go") 7 (go "f"))
    (go "trace").

Definition exampleFields : list field :=
  [Int (go "n") 3; Namespace (go "ns"); Bools (go "bs") [true; false];
   Object (go "o") (of_objm (othen (OpenNamespace (go "in")) (ocall (AddPrim (go "x") (PFloat64 (2 ^ 62)))))) ;
   Reflect (go "r") (VUser (Dyn None None None None 1)); Binary (go "b") (go "abc")].

Example encode_entry_ex :
  fst (@JSON.EncodeEntry plainTime exampleRuntime JSON._jsonPool None
         (JSON.NewJSONEncoder exampleReflect exampleConfig) exampleEntry exampleFields) =
  Ret (mkBuffer (goq "{'level':'info','ts':1500000000,'logger':'main','caller':'b/c.go:7','func':'f','msg':'hi','n':3,'ns':{'bs':[true,false],'o':{'in':{'x':2}},'r':{},'b':'YWJj'},'stack':'trace'}" ++ [Byte.x0a])).
Proof. vm_compute. reflexivity. Qed.
