(* ===== verification/JsonSpec.v ===== *)
(** * JsonSpec

    What the JSON encoder is meant to print, as trees: a marshaler denotes a
    list of members, namespaces nest, an entry is an object.  [JsonProofs]
    shows that the encoder of [JsonEncoder] prints exactly these trees. *)
From S2P Require Import Prelude Strconv Utf8 Level Float GoTime Buffer Entry Values Field Encoder.
From S2P Require Import Json Escape JsonTree Base64.
Open Scope Z_scope.

Abbreviation members := (list (gostring * jtree)).

Section Trees.
Context `{TimeFormat} (c : EncoderConfig) (re : ReflectedEncoder).

(** ** Values *)

Definition float_tree (f : fval) (bitSize : Z) : jtree :=
  match f with
  | FNaN => TStr (go "NaN")
  | FInf false => TStr (go "+Inf")
  | FInf true => TStr (go "-Inf")
  | FFin _ _ _ => TNum (FormatFloat f bitSize)
  end.

Definition complex_tree (r i : fval) (bitSize : Z) : jtree :=
  TQuote (FormatFloat r bitSize ++ (if fval_ge0 i then [Byte.x2b] else []) ++
          FormatFloat i bitSize ++ [Byte.x69]).

Definition prim_tree (p : prim) : jtree :=
  match p with
  | PBool v => TBool v
  | PByteString v | PString v => TStr v
  | PComplex128 v => complex_tree (float64 v.1) (float64 v.2) 64
  | PComplex64 v => complex_tree (float32 v.1) (float32 v.2) 32
  | PFloat64 v => float_tree (float64 v) 64
  | PFloat32 v => float_tree (float32 v) 32
  | PInt64 v => TNum (FormatInt v)
  | PInt v | PInt32 v | PInt16 v | PInt8 v => TNum (FormatInt (int64 v))
  | PUint64 v => TNum (FormatUint v)
  | PUint v | PUint32 v | PUint16 v | PUint8 v | PUintptr v => TNum (FormatUint (uint64 v))
  end.

Definition pcall_tree (pc : pcall) : jtree :=
  match pc with
  | CPrim p => prim_tree p
  | CTimeLayout t layout => TQuote (time_Format t layout)
  end.

(** The one call a primitive encoder makes, or the fallback. *)
Definition first_tree (cs : list pcall) (fallback : jtree) : jtree :=
  match cs with pc :: _ => pcall_tree pc | [] => fallback end.

Definition time_tree (t : gotime) : jtree :=
  first_tree match EncodeTime c with Some e => e t | None => [] end (TNum (FormatInt (UnixNano t))).

Definition duration_tree (d : Z) : jtree :=
  first_tree match EncodeDuration c with Some e => e d | None => [] end (TNum (FormatInt (int64 d))).

Definition reflect_tree (v : goval) : jtree + goerror :=
  match v with
  | VNil => inl TNull
  | _ => match re v with
         | (_, Some e) => inr e
         | (s, None) => inl (TRaw (bs (TrimNewline (mkBuffer s))))
         end
  end.

(** ** Objects under construction *)

(** The members of the innermost open namespace, and, innermost first, the
    members before each namespace with its key. *)
Record ctx := mkCtx { cur : members; outer : list (members * gostring) }.

Definition emptyCtx : ctx := mkCtx [] [].

Definition add (k : gostring) (t : jtree) (x : ctx) : ctx := mkCtx (cur x ++ [(k, t)]) (outer x).
Definition open_ns (k : gostring) (x : ctx) : ctx := mkCtx [] ((cur x, k) :: outer x).

Fixpoint close_into (ms : members) (o : list (members * gostring)) : members :=
  match o with
  | [] => ms
  | (before, k) :: o' => close_into (before ++ [(k, TObj ms)]) o'
  end.
Definition close (x : ctx) : members := close_into (cur x) (outer x).

(** ** Marshalers *)

Definition or_error {A} (v : jtree + goerror) (x : A) (f : jtree -> A) : A * outcome error :=
  match v with
  | inl t => (f t, Ret None)
  | inr e => (x, Ret (Some e))
  end.

Fixpoint spec_obj (o : objm) (x : ctx) : ctx * outcome error :=
  match o with
  | ORet e => (x, Ret e)
  | OPanic v => (x, Panic v)
  | OCall op k =>
      match spec_objop op x with
      | (x, Ret e) => spec_obj (k e) x
      | (x, Panic v) => (x, Panic v)
      end
  end
with spec_objop (op : objop) (x : ctx) : ctx * outcome error :=
  match op with
  | AddArray key a => let '(ts, r) := spec_arr a [] in (add key (TArr ts) x, r)
  | AddObject key o => let '(y, r) := spec_obj o emptyCtx in (add key (TObj (close y)) x, r)
  | AddBinary key v => (add key (TStr (EncodeToString v)) x, Ret None)
  | AddPrim key p => (add key (prim_tree p) x, Ret None)
  | AddDuration key d => (add key (duration_tree d) x, Ret None)
  | AddTime key t => (add key (time_tree t) x, Ret None)
  | AddReflected key v => or_error (reflect_tree v) x (fun t => add key t x)
  | OpenNamespace key => (open_ns key x, Ret None)
  end
with spec_arr (a : arrm) (ts : list jtree) : list jtree * outcome error :=
  match a with
  | ARet e => (ts, Ret e)
  | APanic v => (ts, Panic v)
  | ACall op k =>
      match spec_arrop op ts with
      | (ts, Ret e) => spec_arr (k e) ts
      | (ts, Panic v) => (ts, Panic v)
      end
  end
with spec_arrop (op : arrop) (ts : list jtree) : list jtree * outcome error :=
  match op with
  | AppendArray a => let '(us, r) := spec_arr a [] in (ts ++ [TArr us], r)
  | AppendObject o => let '(y, r) := spec_obj o emptyCtx in (ts ++ [TObj (close y)], r)
  | AppendPrim p => (ts ++ [prim_tree p], Ret None)
  | AppendDuration d => (ts ++ [duration_tree d], Ret None)
  | AppendTime t => (ts ++ [time_tree t], Ret None)
  | AppendReflected v => or_error (reflect_tree v) ts (fun t => ts ++ [t])
  end.

(** ** Entries *)

Definition member_if (b : bool) (k : gostring) (t : jtree) : members := if b then [(k, t)] else [].

Definition level_member (ent : Entry) : members :=
  match EncodeLevel c with
  | Some e => member_if (nonempty (LevelKey c)) (LevelKey c)
                (first_tree (e (e_Level ent)) (TStr (Level_String (e_Level ent))))
  | None => []
  end.
Definition time_member (ent : Entry) : members :=
  member_if (nonempty (TimeKey c) && negb (IsZero (e_Time ent))) (TimeKey c)
    (time_tree (e_Time ent)).
Definition name_member (ent : Entry) : members :=
  member_if (nonempty (e_LoggerName ent) && nonempty (NameKey c)) (NameKey c)
    (first_tree (default FullNameEncoder (EncodeName c) (e_LoggerName ent))
       (TStr (e_LoggerName ent))).
Definition caller_member (ent : Entry) : members :=
  match EncodeCaller c with
  | Some e => member_if (Defined (e_Caller ent) && nonempty (CallerKey c)) (CallerKey c)
                (first_tree (e (e_Caller ent)) (TStr (Caller_String (e_Caller ent))))
  | None => []
  end.
Definition function_member (ent : Entry) : members :=
  member_if (Defined (e_Caller ent) && nonempty (FunctionKey c)) (FunctionKey c)
    (TStr (Function_ (e_Caller ent))).
Definition message_member (ent : Entry) : members :=
  member_if (nonempty (MessageKey c)) (MessageKey c) (TStr (e_Message ent)).

(** The members an entry has before its context. *)
Definition metadata (ent : Entry) : members :=
  level_member ent ++ time_member ent ++ name_member ent ++ caller_member ent ++
  function_member ent ++ message_member ent.

(** Put members in front of the outermost object of a context. *)
Fixpoint prepend_outer (ms : members) (o : list (members * gostring)) : list (members * gostring) :=
  match o with
  | [] => []
  | [(before, k)] => [(ms ++ before, k)]
  | p :: o' => p :: prepend_outer ms o'
  end.
Definition prepend (ms : members) (x : ctx) : ctx :=
  match outer x with
  | [] => mkCtx (ms ++ cur x) []
  | o => mkCtx (cur x) (prepend_outer ms o)
  end.

Context `{GoRuntime}.

(** The members of a whole line: metadata, the logger's context [x] and the
    fields in its innermost namespace, and the stack trace at the top. *)
Definition entry_members (x : ctx) (ent : Entry) (fields : list field) : outcome members :=
  match spec_obj (addFields fields) (prepend (metadata ent) x) with
  | (_, Panic v) => Panic v
  | (y, Ret _) =>
      Ret (close y ++ member_if (nonempty (e_Stack ent) && nonempty (StacktraceKey c))
                        (StacktraceKey c) (TStr (e_Stack ent)))
  end.
End Trees.

(** ** Configurations that promise JSON

    Every primitive encoder makes at most one call, formatted times need no
    escaping, the reflected encoder writes JSON, and a configuration with a
    caller key has a caller encoder. *)
Definition call_ok `{TimeFormat} (pc : pcall) : Prop :=
  match pc with
  | CPrim _ => True
  | CTimeLayout t layout => plain (time_Format t layout)
  end.

Definition calls_ok `{TimeFormat} (cs : list pcall) : Prop := (length cs <= 1)%nat /\ Forall call_ok cs.

Definition reflect_ok (re : ReflectedEncoder) : Prop :=
  forall v s, re v = (s, None) -> raw_ok (bs (TrimNewline (mkBuffer s))).

Record config_ok `{TimeFormat} (c : EncoderConfig) (re : ReflectedEncoder) : Prop := {
  ok_level : forall e l, EncodeLevel c = Some e -> calls_ok (e l);
  ok_time : forall e t, EncodeTime c = Some e -> calls_ok (e t);
  ok_duration : forall e d, EncodeDuration c = Some e -> calls_ok (e d);
  ok_caller : forall e k, EncodeCaller c = Some e -> calls_ok (e k);
  ok_name : forall e n, EncodeName c = Some e -> calls_ok (e n);
  ok_has_caller : EncodeCaller c = None -> CallerKey c = [];
  ok_has_reflect : NewReflectedEncoder c = Some re;
  ok_reflect : reflect_ok re;
}.
