(* ===== verification/JsonProofs.v ===== *)
(** * JsonProofs

    The encoder of [JsonEncoder] prints the trees of [JsonSpec]: every method
    appends one rendered value or member, so whatever a marshaler does, the
    line is one JSON object. *)
From S2P Require Import Prelude Strconv Utf8 Level Float GoTime Buffer Entry Values Field Encoder.
From S2P Require Import Json Escape JsonTree Base64 JsonEncoder JsonSpec.
Open Scope Z_scope.

(** ** Appending text *)

Definition text (enc : jsonEncoder) : gostring := bs (buf enc).

Definition emit (s : gostring) : jsonEncoder -> jsonEncoder :=
  on_buf (fun b => mkBuffer (bs b ++ s)).

Lemma emit_emit s t enc : emit t (emit s enc) = emit (s ++ t) enc.
Proof. unfold emit, on_buf. cbn. by rewrite app_assoc. Qed.

Lemma emit_nil enc : emit [] enc = enc.
Proof. destruct enc as [c [b] sp n rb re]. unfold emit, on_buf. cbn. by rewrite app_nil_r. Qed.

Lemma text_emit s enc : text (emit s enc) = text enc ++ s.
Proof. done. Qed.

Lemma put_emit b enc : put b enc = emit [b] enc.
Proof. done. Qed.

Lemma safeAddString_emit s enc : JSON.safeAddString s enc = emit (escape s) enc.
Proof. unfold JSON.safeAddString, on_buf, emit. by rewrite safeAppend_spec. Qed.

Lemma safeAddByteString_emit s enc : JSON.safeAddByteString s enc = emit (escape s) enc.
Proof. apply safeAddString_emit. Qed.

Lemma spaced_emit s enc : spaced (emit s enc) = spaced enc.
Proof. done. Qed.

Lemma on_append s f enc : (forall b, f b = mkBuffer (bs b ++ s)) -> on_buf f enc = emit s enc.
Proof. intros Hf. unfold emit, on_buf. by rewrite Hf. Qed.

Create Rewrite HintDb emit.
#[export] Hint Rewrite spaced_emit put_emit safeAddString_emit safeAddByteString_emit emit_emit : emit.

(** ** Separators *)

(** Whether the encoder puts a comma after the text. *)
Definition needs_sep (s : gostring) : bool :=
  match last s with Some b => negb (no_sep_after b) | None => false end.

Lemma needs_sep_ends s : ends_value s -> needs_sep s = true.
Proof. intros (b & Hb & Hn). unfold needs_sep. by rewrite Hb, Hn. Qed.

Lemma needs_sep_snoc s b : needs_sep (s ++ [b]) = negb (no_sep_after b).
Proof. unfold needs_sep. by rewrite last_snoc. Qed.

Lemma needs_sep_sep sp s c :
  no_sep_after c = true -> needs_sep (s ++ sep sp c) = false.
Proof.
  intros Hc. unfold sep. destruct sp.
  - change [c; Byte.x20] with ([c] ++ [Byte.x20]). by rewrite app_assoc, needs_sep_snoc.
  - by rewrite needs_sep_snoc, Hc.
Qed.

(** The separator an encoder is about to add. *)
Definition comma (enc : jsonEncoder) : gostring :=
  if needs_sep (text enc) then sep (spaced enc) Byte.x2c else [].

Lemma addElementSeparator_emit enc : JSON.addElementSeparator enc = emit (comma enc) enc.
Proof.
  unfold JSON.addElementSeparator, comma, needs_sep, Len, Bytes. fold (text enc).
  destruct (text enc) as [|x s _] eqn:E using rev_ind; [by rewrite emit_nil|].
  rewrite last_snoc, length_app. cbn [length].
  rewrite (proj2 (Z.ltb_ge _ _)) by lia.
  replace (Z.to_nat (Z.of_nat (length s + 1) - 1)) with (length s) by lia.
  rewrite list_lookup_middle by done.
  assert (emit (sep (spaced enc) Byte.x2c) enc =
          (if spaced enc then put Byte.x20 (put Byte.x2c enc) else put Byte.x2c enc)) as Hs.
  { unfold sep. destruct (spaced enc); by autorewrite with emit. }
  destruct x; cbn [no_sep_after negb]; rewrite ?emit_nil; try done; by rewrite Hs.
Qed.

Lemma addKey_emit k enc :
  JSON.addKey k enc = emit (comma enc ++ quoted (escape k) ++ sep (spaced enc) Byte.x3a) enc.
Proof.
  unfold JSON.addKey. rewrite addElementSeparator_emit. autorewrite with emit. unfold quoted, sep.
  destruct (spaced enc); autorewrite with emit; f_equal;
    app_norm; done.
Qed.

Lemma comma_after_key k enc : comma (JSON.addKey k enc) = [].
Proof.
  unfold comma. rewrite addKey_emit, text_emit, !app_assoc. by rewrite needs_sep_sep.
Qed.

(** ** Methods that append one value *)

(** [f] writes the tree [t]: a separator if one is due, then the value. *)
Definition writes (f : jsonEncoder -> jsonEncoder) (sp : bool) (t : jtree) : Prop :=
  forall enc, spaced enc = sp -> f enc = emit (comma enc ++ render sp t) enc.

Ltac emit_solve :=
  intros enc Hsp; rewrite addElementSeparator_emit; autorewrite with emit;
  f_equal; unfold quoted; app_norm; reflexivity.

Lemma AppendString_writes sp v : writes (JSON.AppendString v) sp (TStr v).
Proof. unfold JSON.AppendString. emit_solve. Qed.

Lemma AppendByteString_writes sp v : writes (JSON.AppendByteString v) sp (TStr v).
Proof. unfold JSON.AppendByteString. emit_solve. Qed.

(** A single append after the separator. *)
Lemma append_writes sp t f :
  (forall b, f b = mkBuffer (bs b ++ render sp t)) ->
  writes (fun enc => on_buf f (JSON.addElementSeparator enc)) sp t.
Proof.
  intros Hf enc Hsp. by rewrite addElementSeparator_emit, (on_append _ _ _ Hf), emit_emit.
Qed.

Lemma appendFloat_writes sp f w : writes (JSON.appendFloat f w) sp (float_tree f w).
Proof. destruct f as [|[]|]; by apply append_writes. Qed.

Lemma appendComplex_writes sp r i w : writes (JSON.appendComplex r i w) sp (complex_tree r i w).
Proof.
  unfold JSON.appendComplex. intros enc Hsp. rewrite addElementSeparator_emit, put_emit.
  rewrite (on_append (FormatFloat r w) (fun b => Buffer.AppendFloat b r w)) by done.
  rewrite (on_append (FormatFloat i w) (fun b => Buffer.AppendFloat b i w)) by done.
  unfold complex_tree. destruct (fval_ge0 i); autorewrite with emit; f_equal;
    cbn [render]; unfold quoted; app_norm; done.
Qed.

Lemma AppendPrim_writes sp p : writes (JSON.AppendPrim p) sp (prim_tree p).
Proof.
  destruct p as [[]| | | | | | | | | | | | | | | | |]; cbn [JSON.AppendPrim prim_tree];
    first [apply AppendString_writes | apply AppendByteString_writes | apply appendFloat_writes
          | apply appendComplex_writes | by apply append_writes].
Qed.

Lemma call_writes `{TimeFormat} sp pc : writes (JSON.call pc) sp (pcall_tree pc).
Proof.
  destruct pc as [p|t l]; [apply AppendPrim_writes|]. cbn [JSON.call pcall_tree].
  unfold JSON.AppendTimeLayout. intros enc Hsp. rewrite addElementSeparator_emit, put_emit.
  rewrite (on_append (time_Format t l)) by done. autorewrite with emit. f_equal.
Qed.

Lemma writes_nonempty f sp t enc :
  writes f sp t -> render sp t <> [] -> spaced enc = sp ->
  Nat.eqb (Len (buf enc)) (Len (buf (f enc))) = false.
Proof.
  intros Hf Ht Hsp. rewrite (Hf enc Hsp). cbn. unfold Len. cbn. rewrite !length_app.
  apply Nat.eqb_neq. destruct (render sp t); [done|]. cbn. lia.
Qed.

(** ** The trees are well formed *)

Lemma float64_mantissa bits neg m e : float64 bits = FFin neg m e -> 0 <= m.
Proof. by apply decode_mantissa. Qed.

Lemma float32_mantissa bits neg m e : float32 bits = FFin neg m e -> 0 <= m.
Proof. by apply decode_mantissa. Qed.

Lemma wf_float_tree f w : (forall neg m e, f = FFin neg m e -> 0 <= m) -> wf (float_tree f w).
Proof.
  destruct f as [|[]|neg m e]; cbn; eauto with lad. intros Hm.
  constructor. apply FormatFloat_num_lit. by eapply Hm.
Qed.

Lemma wf_complex_tree r i w :
  (forall neg m e, r = FFin neg m e -> 0 <= m) -> (forall neg m e, i = FFin neg m e -> 0 <= m) ->
  wf (complex_tree r i w).
Proof.
  intros Hr Hi. constructor. apply plain_bytes.
  rewrite !forallb_app, !FormatFloat_plain by done. by destruct (fval_ge0 i).
Qed.

#[local] Hint Resolve FormatInt_num_lit FormatUint_num_lit float64_mantissa float32_mantissa : lad.

Lemma wf_prim_tree p : wf (prim_tree p).
Proof.
  destruct p; cbn [prim_tree]; first
    [ apply wf_complex_tree; eauto with lad | apply wf_float_tree; eauto with lad
    | constructor; auto with lad ].
Qed.

(** ** The text of an object under construction *)

Section Text.
Variable sp : bool.

Definition tail_sep (ms : members) : gostring :=
  match ms with [] => [] | _ => sep sp Byte.x2c end.

Fixpoint open_text (ms : members) (o : list (members * gostring)) : gostring :=
  match o with
  | [] => render_members sp ms
  | (before, k) :: o' =>
      open_text before o' ++ tail_sep before ++ quoted (escape k) ++ sep sp Byte.x3a ++
      [Byte.x7b] ++ render_members sp ms
  end.
Definition ctx_text (x : ctx) : gostring := open_text (cur x) (outer x).

Definition wf_members (ms : members) : Prop := Forall (fun m => wf m.2) ms.
Definition wf_ctx (x : ctx) : Prop :=
  wf_members (cur x) /\ Forall (fun p => wf_members p.1) (outer x).

Lemma commas_snoc xs y :
  commas sp (xs ++ [y]) = commas sp xs ++ match xs with [] => [] | _ => sep sp Byte.x2c end ++ y.
Proof.
  induction xs as [|x [|x' xs] IH]; [done|done|].
  cbn [app] in *. rewrite !commas_cons, IH. by rewrite <- !app_assoc.
Qed.

Lemma render_members_snoc ms m :
  render_members sp (ms ++ [m]) = render_members sp ms ++ tail_sep ms ++ render_member sp m.
Proof. unfold render_members. rewrite map_app. cbn [map]. rewrite commas_snoc. by destruct ms. Qed.

Lemma render_members_app a b :
  b <> [] -> render_members sp (a ++ b) = render_members sp a ++ tail_sep a ++ render_members sp b.
Proof.
  intros Hb. induction b as [|m b IH] using rev_ind; [done|].
  rewrite app_assoc, !render_members_snoc. destruct b as [|m' b].
  - by rewrite app_nil_r.
  - rewrite IH by done. rewrite <- !app_assoc. do 3 f_equal. by destruct a.
Qed.

Lemma ctx_text_add k t x :
  ctx_text (add k t x) = ctx_text x ++ tail_sep (cur x) ++ render_member sp (k, t).
Proof.
  destruct x as [ms [|[before k'] o]]; unfold ctx_text; cbn [add cur outer open_text];
    rewrite render_members_snoc; [done|by rewrite <- !app_assoc].
Qed.

Lemma ctx_text_open k x :
  ctx_text (open_ns k x) =
    ctx_text x ++ tail_sep (cur x) ++ quoted (escape k) ++ sep sp Byte.x3a ++ [Byte.x7b].
Proof. reflexivity. Qed.

(** Closing what is open gives the members of the whole. *)
Lemma close_text_into ms o :
  open_text ms o ++ repeat Byte.x7d (length o) = render_members sp (close_into ms o).
Proof.
  revert ms. induction o as [|[before k] o IH]; intros ms; [apply app_nil_r|].
  cbn [close_into]. rewrite <- IH. cbn [length repeat open_text].
  pose proof (ctx_text_add k (TObj ms) (mkCtx before o)) as E.
  unfold ctx_text in E. cbn [add cur outer] in E. rewrite E.
  unfold render_member. cbn [fst snd render]. fold (render_member sp). fold (render_members sp ms).
  by app_norm.
Qed.

Lemma close_text x : ctx_text x ++ repeat Byte.x7d (length (outer x)) = render_members sp (close x).
Proof. apply close_text_into. Qed.

Lemma members_end m ms : wf_members (m :: ms) -> ends_value (render_members sp (m :: ms)).
Proof.
  revert m. induction ms as [|m' ms IH]; intros m [Hm Hms]%Forall_cons.
  - apply ends_value_app, ends_value_app, render_ends, Hm.
  - unfold render_members in *. cbn [map]. rewrite commas_cons. apply ends_value_app, ends_value_app.
    by apply (IH m').
Qed.

Lemma needs_sep_ctx pre x :
  wf_ctx x -> needs_sep pre = false ->
  (if needs_sep (pre ++ ctx_text x) then sep sp Byte.x2c else []) = tail_sep (cur x).
Proof.
  intros [Hms _] Hpre. destruct x as [[|m ms] o]; cbn [cur tail_sep].
  - destruct o as [|[before k] o]; unfold ctx_text; cbn [cur outer open_text];
      change (render_members sp []) with (@nil byte); rewrite app_nil_r.
    + by rewrite Hpre.
    + by rewrite !app_assoc, needs_sep_snoc.
  - rewrite needs_sep_ends; [done|]. apply ends_value_app. destruct o as [|[before k] o].
    + by apply members_end.
    + unfold ctx_text. cbn [cur outer open_text]. rewrite !app_assoc.
      by apply ends_value_app, members_end.
Qed.

Lemma wf_add k t x : wf_ctx x -> wf t -> wf_ctx (add k t x).
Proof. intros [H1 H2] Ht. split; [|done]. apply Forall_app. split; [done|by constructor]. Qed.

Lemma wf_open k x : wf_ctx x -> wf_ctx (open_ns k x).
Proof. intros [H1 H2]. split; constructor; done. Qed.

Lemma wf_close_into ms o :
  wf_members ms -> Forall (fun p => wf_members p.1) o -> wf_members (close_into ms o).
Proof.
  revert ms. induction o as [|[before k] o IH]; intros ms Hms Ho; [done|].
  apply Forall_cons in Ho as [Hb Ho]. apply IH; [|done]. apply Forall_app. split; [done|].
  constructor; [by constructor|constructor].
Qed.

Lemma wf_close x : wf_ctx x -> wf_members (close x).
Proof. intros [H1 H2]. by apply wf_close_into. Qed.
End Text.

Section Config.
Context `{TimeFormat} (c : EncoderConfig) (re : ReflectedEncoder) (Hc : config_ok c re).
Variable sp : bool.

Lemma wf_pcall_tree pc : call_ok pc -> wf (pcall_tree pc).
Proof. destruct pc; cbn; [intros _; apply wf_prim_tree|]. by constructor. Qed.

Lemma wf_first_tree cs t : calls_ok cs -> wf t -> wf (first_tree cs t).
Proof.
  intros [_ Hall] Ht. destruct Hall as [|pc cs Hpc _]; [done|]. by apply wf_pcall_tree.
Qed.

Lemma calls_ok_nil : calls_ok [].
Proof. split; [cbn; lia|constructor]. Qed.

Lemma ok_time_calls t : calls_ok match EncodeTime c with Some e => e t | None => [] end.
Proof. destruct (EncodeTime c) eqn:E; [by eapply ok_time|apply calls_ok_nil]. Qed.

Lemma ok_duration_calls d : calls_ok match EncodeDuration c with Some e => e d | None => [] end.
Proof. destruct (EncodeDuration c) eqn:E; [by eapply ok_duration|apply calls_ok_nil]. Qed.

Lemma wf_time_tree t : wf (time_tree c t).
Proof. apply wf_first_tree; [apply ok_time_calls|constructor; auto with lad]. Qed.

Lemma wf_duration_tree d : wf (duration_tree c d).
Proof. apply wf_first_tree; [apply ok_duration_calls|constructor; auto with lad]. Qed.

Lemma wf_reflect_tree v t : reflect_tree re v = inl t -> wf t.
Proof.
  unfold reflect_tree. intros H'.
  destruct v; simplify_eq; [constructor|..];
    destruct (re _) as [s [e|]] eqn:E; simplify_eq; constructor; by eapply ok_reflect.
Qed.

(** ** Primitive encoders with a fallback *)

Lemma or_else_writes cs fallback t :
  calls_ok cs -> writes fallback sp t -> writes (JSON.or_else cs fallback) sp (first_tree cs t).
Proof.
  intros [Hlen Hall] Hf enc Hsp. unfold JSON.or_else.
  destruct cs as [|pc [|]]; [|clear Hlen|cbn in Hlen; lia]; cbn [JSON.calls fold_left].
  - rewrite Nat.eqb_refl. by apply Hf.
  - apply Forall_inv in Hall. rewrite (writes_nonempty _ sp (pcall_tree pc)); [by apply call_writes| |..|done].
    + apply call_writes.
    + destruct (render_head sp (pcall_tree pc)) as (b & r & -> & _); [by apply wf_pcall_tree|done].
Qed.

Lemma AppendTime_writes enc t :
  cfg enc = c -> spaced enc = sp ->
  JSON.AppendTime t enc = emit (comma enc ++ render sp (time_tree c t)) enc.
Proof.
  intros Hcfg Hsp. unfold JSON.AppendTime. rewrite Hcfg.
  apply or_else_writes; [apply ok_time_calls|by apply append_writes|done].
Qed.

Lemma AppendDuration_writes enc d :
  cfg enc = c -> spaced enc = sp ->
  JSON.AppendDuration d enc = emit (comma enc ++ render sp (duration_tree c d)) enc.
Proof.
  intros Hcfg Hsp. unfold JSON.AppendDuration. rewrite Hcfg.
  apply or_else_writes; [apply ok_duration_calls|by apply append_writes|done].
Qed.

(** ** Reflection *)

(** The reflected encoder in use, if any, is the configured one. *)
Definition ready (enc : jsonEncoder) : Prop :=
  cfg enc = c /\ spaced enc = sp /\ (is_Some (reflectBuf enc) -> reflectEnc enc = Some re).

Definition same (enc enc' : jsonEncoder) : Prop :=
  text enc' = text enc /\ openNamespaces enc' = openNamespaces enc.

Lemma encodeReflected_spec v enc :
  ready enc ->
  exists enc', JSON.encodeReflected v enc =
      (enc', Ret match reflect_tree re v with inl t => inl (render sp t) | inr e => inr e end) /\
    ready enc' /\ same enc enc'.
Proof.
  intros (Hcfg & Hsp & Hre). unfold JSON.encodeReflected, reflect_tree.
  assert (exists rb, JSON.resetReflectBuf enc = set_reflect (Some (mkBuffer [])) (Some re) rb /\ rb = enc)
    as (rb & -> & ->).
  { exists enc. split; [|done]. unfold JSON.resetReflectBuf. destruct (reflectBuf enc) eqn:E.
    - by rewrite Hre by (by eexists).
    - rewrite Hcfg, (ok_has_reflect c re Hc). done. }
  assert (forall b, ready (set_reflect (Some b) (Some re) enc) /\
                    same enc (set_reflect (Some b) (Some re) enc)) as Hset by done.
  destruct v; [by exists enc|..]; cbn [set_reflect reflectEnc reflectBuf];
    destruct (re _) as [s [e|]]; cbn [render]; eexists; (split; [reflexivity|]); apply Hset.
Qed.

(** ** The simulation *)

(** The encoder wrote the value [t] and nothing else. *)
Definition wrote (enc : jsonEncoder) (t : jtree) (e : jsonEncoder) : Prop :=
  ready e /\ text e = text enc ++ comma enc ++ render sp t /\
  openNamespaces e = openNamespaces enc /\ wf t.

(** The encoder holds the text [pre], then the object under construction [x];
    [n] namespaces were open before. *)
Definition holds (pre : gostring) (n : nat) (e : jsonEncoder) (x : ctx) : Prop :=
  ready e /\ text e = pre ++ ctx_text sp x /\
  openNamespaces e = (n + length (outer x))%nat /\ wf_ctx x.

Definition holds_arr (pre : gostring) (n : nat) (e : jsonEncoder) (ts : list jtree) : Prop :=
  ready e /\ text e = pre ++ commas sp (map (render sp) ts) /\ openNamespaces e = n /\ Forall wf ts.

(** Same result as the specification, and related states unless it panics. *)
Definition agrees {A} (P : jsonEncoder -> A -> Prop) (r : jsonEncoder * outcome error)
    (s : A * outcome error) : Prop :=
  r.2 = s.2 /\ (returned s.2 = true -> P r.1 s.1).

Lemma ready_emit s enc : ready enc -> ready (emit s enc).
Proof. done. Qed.

Lemma ready_spaced enc : ready enc -> spaced enc = sp.
Proof. by intros (_ & ? & _). Qed.

Lemma ready_addKey k enc : ready enc -> ready (JSON.addKey k enc).
Proof. intros Hr. rewrite addKey_emit. by apply ready_emit. Qed.

Lemma wrote_emit enc t e :
  ready enc -> wf t -> e = emit (comma enc ++ render sp t) enc -> wrote enc t e.
Proof. intros Hr Ht ->. split; [by apply ready_emit|]. by rewrite text_emit. Qed.

Lemma holds_comma pre n e x :
  holds pre n e x -> needs_sep pre = false -> comma e = tail_sep sp (cur x).
Proof.
  intros (Hr & Ht & _ & Hw) Hpre. unfold comma. rewrite Ht, (ready_spaced e Hr).
  by apply needs_sep_ctx.
Qed.

(** A value written after a key is a member. *)
Lemma wrote_member pre n enc x k t e :
  holds pre n enc x -> needs_sep pre = false -> wrote (JSON.addKey k enc) t e ->
  holds pre n e (add k t x).
Proof.
  intros Hh Hpre (Hr & Ht & Hn & Hw). pose proof (holds_comma _ _ _ _ Hh Hpre) as Hcomma.
  destruct Hh as (Hr0 & Ht0 & Hn0 & Hw0).
  rewrite comma_after_key in Ht. rewrite addKey_emit, text_emit, Hcomma, Ht0 in Ht.
  rewrite (ready_spaced enc Hr0) in Ht.
  split; [done|]. split; [|split; [|by apply wf_add]].
  - rewrite Ht, ctx_text_add. unfold render_member. cbn [fst snd]. by app_norm.
  - rewrite Hn, addKey_emit. exact Hn0.
Qed.

(** A value written in an array is an element. *)
Lemma wrote_element pre n enc ts t e :
  holds_arr pre n enc ts -> needs_sep pre = false -> wrote enc t e ->
  holds_arr pre n e (ts ++ [t]).
Proof.
  intros (Hr0 & Ht0 & Hn0 & Hw0) Hpre (Hr & Ht & Hn & Hw).
  split; [done|]. split; [|split; [congruence|by apply Forall_app; auto]].
  rewrite map_app. cbn [map]. rewrite commas_snoc, Ht. unfold comma.
  rewrite (ready_spaced enc Hr0), Ht0, <- app_assoc. do 3 f_equal.
  destruct Hw0 as [|u us Hu Hus]; cbn [map].
  - by rewrite app_nil_r, Hpre.
  - rewrite needs_sep_ends; [done|]. apply ends_value_app. clear Ht0. revert u Hu.
    induction Hus as [|u' us Hu' _ IH]; intros u Hu; [by apply render_ends|].
    cbn [map]. rewrite commas_cons. apply ends_value_app, ends_value_app. by apply IH.
Qed.

Definition P_obj (o : objm) : Prop := forall pre n enc x,
  needs_sep pre = false -> holds pre n enc x ->
  agrees (holds pre n) (JSON.run_obj o enc) (spec_obj c re o x).
Definition P_objop (op : objop) : Prop := forall pre n enc x,
  needs_sep pre = false -> holds pre n enc x ->
  agrees (holds pre n) (JSON.run_objop op enc) (spec_objop c re op x).
Definition P_arr (a : arrm) : Prop := forall pre n enc ts,
  needs_sep pre = false -> holds_arr pre n enc ts ->
  agrees (holds_arr pre n) (JSON.run_arr a enc) (spec_arr c re a ts).
Definition P_arrop (op : arrop) : Prop := forall pre n enc ts,
  needs_sep pre = false -> holds_arr pre n enc ts ->
  agrees (holds_arr pre n) (JSON.run_arrop op enc) (spec_arrop c re op ts).

Lemma AppendArray_wrote a enc :
  P_arr a -> ready enc ->
  agrees (fun e ts => wrote enc (TArr ts) e) (JSON.AppendArray (JSON.run_arr a) enc)
    (spec_arr c re a []).
Proof.
  intros Ha Hr. unfold JSON.AppendArray. rewrite addElementSeparator_emit, put_emit, emit_emit.
  set (pre := text enc ++ comma enc ++ [Byte.x5b]).
  destruct (Ha pre (openNamespaces enc) (emit (comma enc ++ [Byte.x5b]) enc) [])
    as [Hres Hret]; [unfold pre; by rewrite app_assoc, needs_sep_snoc| |].
  { split; [by apply ready_emit|]. split; [|done]. rewrite text_emit. by rewrite app_nil_r. }
  destruct (JSON.run_arr a _) as [e r], (spec_arr c re a []) as [ts [err|v]]; cbn in *; subst;
    [|by split].
  destruct (Hret eq_refl) as (Hr' & Ht' & Hn' & Hw'). split; [done|]. intros _. cbn.
  rewrite put_emit. split; [by apply ready_emit|]. split; [|split; [done|by constructor]].
  rewrite text_emit, Ht'. unfold pre. cbn [render]. by app_norm.
Qed.

Lemma closeOpenNamespaces_emit enc :
  JSON.closeOpenNamespaces enc =
    set_openNamespaces 0 (emit (repeat Byte.x7d (openNamespaces enc)) enc).
Proof.
  unfold JSON.closeOpenNamespaces. f_equal. induction (openNamespaces enc) as [|n IH].
  - by rewrite emit_nil.
  - cbn [Nat.iter nat_rect]. change (nat_rect _ enc _ n) with (Nat.iter n (put Byte.x7d) enc).
    rewrite IH, put_emit, emit_emit. by rewrite <- repeat_cons.
Qed.

Lemma AppendObject_wrote o enc :
  P_obj o -> ready enc ->
  agrees (fun e y => wrote enc (TObj (close y)) e) (JSON.AppendObject (JSON.run_obj o) enc)
    (spec_obj c re o emptyCtx).
Proof.
  intros Ho Hr. unfold JSON.AppendObject. rewrite addElementSeparator_emit, put_emit, emit_emit.
  change (comma (set_openNamespaces 0 enc)) with (comma enc).
  set (pre := text enc ++ comma enc ++ [Byte.x7b]).
  destruct (Ho pre 0%nat (emit (comma enc ++ [Byte.x7b]) (set_openNamespaces 0 enc)) emptyCtx)
    as [Hres Hret]; [unfold pre; by rewrite app_assoc, needs_sep_snoc| |].
  { split; [done|]. split; [|split; [done|split; constructor]]. rewrite text_emit. cbn; by rewrite ?app_nil_r. }
  destruct (JSON.run_obj o _) as [e r], (spec_obj c re o emptyCtx) as [y [err|v]]; cbn in *; subst;
    [|by split].
  destruct (Hret eq_refl) as (Hr' & Ht' & Hn' & Hw'). split; [done|]. intros _. cbn.
  rewrite put_emit, closeOpenNamespaces_emit. split; [done|].
  split; [|split; [done|constructor; by apply wf_close]].
  change (text (set_openNamespaces _ (set_openNamespaces _ ?e))) with (text e).
  rewrite !text_emit, Ht'. change (openNamespaces (emit _ e)) with (openNamespaces e).
  rewrite Hn', <- (app_assoc _ [Byte.x7d]).
  change ([Byte.x7d] ++ ?l) with (Byte.x7d :: l). rewrite repeat_cons. cbn [render].
  change (commas sp (map _ ?m)) with (render_members sp m).
  rewrite <- close_text. unfold pre. by app_norm.
Qed.

Lemma writes_wrote f t enc : writes f sp t -> wf t -> ready enc -> wrote enc t (f enc).
Proof. intros Hf Ht Hr. apply wrote_emit; [done|done|]. apply Hf. by apply ready_spaced. Qed.

Lemma AppendTime_wrote t enc : ready enc -> wrote enc (time_tree c t) (JSON.AppendTime t enc).
Proof.
  intros Hr. apply wrote_emit; [done|apply wf_time_tree|]. by apply AppendTime_writes; apply Hr.
Qed.

Lemma AppendDuration_wrote d enc :
  ready enc -> wrote enc (duration_tree c d) (JSON.AppendDuration d enc).
Proof.
  intros Hr. apply wrote_emit; [done|apply wf_duration_tree|].
  by apply AppendDuration_writes; apply Hr.
Qed.

Lemma AppendPrim_wrote p enc : ready enc -> wrote enc (prim_tree p) (JSON.AppendPrim p enc).
Proof. apply writes_wrote; [apply AppendPrim_writes|apply wf_prim_tree]. Qed.

Lemma AppendString_wrote v enc : ready enc -> wrote enc (TStr v) (JSON.AppendString v enc).
Proof. apply writes_wrote; [apply AppendString_writes|constructor]. Qed.

Lemma agrees_done {A} (P : jsonEncoder -> A -> Prop) e x :
  P e x -> agrees P (JSON.done_ e) (x, Ret None).
Proof. by split. Qed.

(** Relate the states of an agreeing run to those of another relation. *)
Lemma agrees_map {A B} (P : jsonEncoder -> A -> Prop) (Q : jsonEncoder -> B -> Prop) (f : A -> B) r s :
  agrees P r s -> (forall e a, P e a -> Q e (f a)) ->
  agrees Q r (let '(a, o) := s in (f a, o)).
Proof. destruct s as [a o]. intros [H1 H2] HPQ. split; [done|]. cbn in *. auto. Qed.

(** What was encoded by reflection is written after the separator or key. *)
Lemma writeReflected_agrees {A} (P : jsonEncoder -> A -> Prop) before v enc x f :
  ready enc ->
  (forall enc', ready enc' -> same enc enc' -> P enc' x) ->
  (forall enc' t, ready enc' -> same enc enc' -> wf t ->
     P (emit (render sp t) (before enc')) (f t)) ->
  agrees P (JSON.writeReflected before v enc) (or_error (reflect_tree re v) x f).
Proof.
  intros Hr Hx Hf. unfold JSON.writeReflected.
  destruct (encodeReflected_spec v enc Hr) as (enc' & -> & Hr' & Hs).
  destruct (reflect_tree re v) as [t|e] eqn:E; cbn [or_error].
  - split; [done|]. intros _. apply Hf; [done|done|]. by eapply wf_reflect_tree.
  - split; [done|]. intros _. by apply Hx.
Qed.

Lemma holds_same pre n enc enc' x :
  holds pre n enc x -> ready enc' -> same enc enc' -> holds pre n enc' x.
Proof. intros (H1 & H2 & H3 & H4) Hr [Ht Hn]. repeat split; try apply Hr; try apply H4; congruence. Qed.

Lemma holds_arr_same pre n enc enc' ts :
  holds_arr pre n enc ts -> ready enc' -> same enc enc' -> holds_arr pre n enc' ts.
Proof. intros (H1 & H2 & H3 & H4) Hr [Ht Hn]. repeat split; try apply Hr; try done; congruence. Qed.

Lemma objop_agrees op :
  match op with AddArray _ a => P_arr a | AddObject _ o => P_obj o | _ => True end -> P_objop op.
Proof.
  intros Hop pre n enc x Hpre Hh. pose proof (proj1 Hh) as Hr.
  destruct op; cbn [JSON.run_objop spec_objop]; try apply agrees_done.
  - eapply (agrees_map _ _ (fun ts => add key (TArr ts) x)).
    + by apply AppendArray_wrote, ready_addKey.
    + intros e ts. by apply wrote_member.
  - eapply (agrees_map _ _ (fun y => add key (TObj (close y)) x)).
    + by apply AppendObject_wrote, ready_addKey.
    + intros e y. by apply wrote_member.
  - eapply wrote_member; [done|done|]. by apply AppendString_wrote, ready_addKey.
  - eapply wrote_member; [done|done|]. by apply AppendPrim_wrote, ready_addKey.
  - eapply wrote_member; [done|done|]. by apply AppendDuration_wrote, ready_addKey.
  - eapply wrote_member; [done|done|]. by apply AppendTime_wrote, ready_addKey.
  - apply writeReflected_agrees; [done|intros; by eapply holds_same|].
    intros enc' t Hr' Hs Ht. eapply wrote_member; [by eapply holds_same|done|].
    apply wrote_emit; [by apply ready_addKey|done|]. by rewrite comma_after_key.
  - unfold JSON.OpenNamespace. rewrite put_emit, addKey_emit, emit_emit.
    destruct Hh as (_ & Ht & Hn & Hw). pose proof (holds_comma pre n enc x) as Hcomma.
    rewrite Hcomma by done. split; [done|]. split; [|split; [|by apply wf_open]].
    + change (text (set_openNamespaces _ ?e)) with (text e).
      rewrite text_emit, ctx_text_open, Ht, (ready_spaced enc Hr). by app_norm.
    + cbn. rewrite Hn. lia.
Qed.

Lemma arrop_agrees op :
  match op with AppendArray a => P_arr a | AppendObject o => P_obj o | _ => True end -> P_arrop op.
Proof.
  intros Hop pre n enc ts Hpre Hh. pose proof (proj1 Hh) as Hr.
  destruct op; cbn [JSON.run_arrop spec_arrop]; try apply agrees_done.
  - eapply (agrees_map _ _ (fun us => ts ++ [TArr us])); [by apply AppendArray_wrote|].
    intros e us. by apply wrote_element.
  - eapply (agrees_map _ _ (fun y => ts ++ [TObj (close y)])); [by apply AppendObject_wrote|].
    intros e y. by apply wrote_element.
  - eapply wrote_element; [done|done|]. by apply AppendPrim_wrote.
  - eapply wrote_element; [done|done|]. by apply AppendDuration_wrote.
  - eapply wrote_element; [done|done|]. by apply AppendTime_wrote.
  - apply writeReflected_agrees; [done|intros; by eapply holds_arr_same|].
    intros enc' t Hr' Hs Ht. eapply wrote_element; [by eapply holds_arr_same|done|].
    apply wrote_emit; [done|done|]. by rewrite addElementSeparator_emit, emit_emit.
Qed.

Lemma spec_obj_call op k x :
  spec_obj c re (OCall op k) x =
    match spec_objop c re op x with (y, Ret e) => spec_obj c re (k e) y | (y, Panic v) => (y, Panic v) end.
Proof. reflexivity. Qed.

Lemma spec_arr_call op k ts :
  spec_arr c re (ACall op k) ts =
    match spec_arrop c re op ts with (us, Ret e) => spec_arr c re (k e) us | (us, Panic v) => (us, Panic v) end.
Proof. reflexivity. Qed.

Lemma run_obj_call op k enc :
  JSON.run_obj (OCall op k) enc =
    match JSON.run_objop op enc with
    | (e, Ret err) => JSON.run_obj (k err) e | (e, Panic v) => (e, Panic v) end.
Proof. reflexivity. Qed.

Lemma run_arr_call op k enc :
  JSON.run_arr (ACall op k) enc =
    match JSON.run_arrop op enc with
    | (e, Ret err) => JSON.run_arr (k err) e | (e, Panic v) => (e, Panic v) end.
Proof. reflexivity. Qed.

Lemma run_agrees :
  (forall o, P_obj o) /\ (forall op, P_objop op) /\ (forall a, P_arr a) /\ (forall op, P_arrop op).
Proof.
  apply marshaler_ind.
  4-11: by intros; apply objop_agrees.
  7-12: by intros; apply arrop_agrees.
  1, 2, 4, 5: by repeat intro; split.
  - intros op Hop k Hk pre n enc x Hpre Hh. rewrite run_obj_call, spec_obj_call.
    destruct (Hop pre n enc x Hpre Hh) as [Hres Hret].
    destruct (JSON.run_objop op enc) as [e r], (spec_objop c re op x) as [y [err|v]];
      cbn [fst snd returned] in *; subst; [|by split]. by apply Hk, Hret.
  - intros op Hop k Hk pre n enc ts Hpre Hh. rewrite run_arr_call, spec_arr_call.
    destruct (Hop pre n enc ts Hpre Hh) as [Hres Hret].
    destruct (JSON.run_arrop op enc) as [e r], (spec_arrop c re op ts) as [us [err|v]];
      cbn [fst snd returned] in *; subst; [|by split]. by apply Hk, Hret.
Qed.

(** ** Entries *)

Definition extend (x : ctx) (ms : members) : ctx := mkCtx (cur x ++ ms) (outer x).

Lemma extend_extend x a b : extend (extend x a) b = extend x (a ++ b).
Proof. unfold extend. cbn. by rewrite app_assoc. Qed.

Lemma extend_nil x : extend x [] = x.
Proof. destruct x. unfold extend. cbn. by rewrite app_nil_r. Qed.

Section Members.
Variables (pre : gostring) (n : nat).
Hypothesis Hpre : needs_sep pre = false.

(** An optional member. *)
Lemma holds_if (b : bool) e e' x k t :
  holds pre n e x -> (holds pre n e x -> holds pre n e' (add k t x)) ->
  holds pre n (if b then e' else e) (extend x (member_if b k t)).
Proof. intros H1 H2. destruct b; cbn [member_if]; [by apply H2|]. by rewrite extend_nil. Qed.

Lemma keyed_member k cs s e x :
  calls_ok cs -> holds pre n e x ->
  holds pre n (JSON.keyed k cs s e) (add k (first_tree cs (TStr s)) x).
Proof.
  intros Hcs Hh. eapply wrote_member; [done|done|]. unfold JSON.keyed.
  apply writes_wrote; [|apply wf_first_tree; [done|constructor]|apply ready_addKey, Hh].
  apply or_else_writes; [done|apply AppendString_writes].
Qed.

Lemma AddString_member k s e x :
  holds pre n e x -> holds pre n (JSON.AppendString s (JSON.addKey k e)) (add k (TStr s) x).
Proof.
  intros Hh. eapply wrote_member; [done|done|]. apply AppendString_wrote, ready_addKey, Hh.
Qed.

Lemma AddTime_member k t e x :
  holds pre n e x -> holds pre n (JSON.AddTime k t e) (add k (time_tree c t) x).
Proof.
  intros Hh. eapply wrote_member; [done|done|]. apply AppendTime_wrote, ready_addKey, Hh.
Qed.

Lemma calls_ok_one pc : call_ok pc -> calls_ok [pc].
Proof. intros Hpc. split; [cbn; lia|by constructor]. Qed.

Lemma addLevel_spec ent e x :
  holds pre n e x -> holds pre n (JSON.addLevel ent e) (extend x (level_member c ent)).
Proof.
  intros Hh. unfold JSON.addLevel, level_member. rewrite (proj1 (proj1 Hh)).
  destruct (EncodeLevel c) as [f|] eqn:E; [|by rewrite extend_nil].
  apply holds_if; [done|]. apply keyed_member. by eapply ok_level.
Qed.

Lemma addTime_spec ent e x :
  holds pre n e x -> holds pre n (JSON.addTime ent e) (extend x (time_member c ent)).
Proof.
  intros Hh. unfold JSON.addTime, time_member. rewrite (proj1 (proj1 Hh)).
  apply holds_if; [done|]. apply AddTime_member.
Qed.

Lemma addName_spec ent e x :
  holds pre n e x -> holds pre n (JSON.addName ent e) (extend x (name_member c ent)).
Proof.
  intros Hh. unfold JSON.addName, name_member. rewrite (proj1 (proj1 Hh)).
  apply holds_if; [done|]. apply keyed_member.
  destruct (EncodeName c) eqn:E; [by eapply ok_name|by apply calls_ok_one].
Qed.

Lemma addCaller_spec ent e x :
  holds pre n e x ->
  exists e', JSON.addCaller ent e = Some e' /\ holds pre n e' (extend x (caller_member c ent)).
Proof.
  intros Hh. unfold JSON.addCaller, caller_member. rewrite (proj1 (proj1 Hh)).
  destruct (EncodeCaller c) as [f|] eqn:E.
  - pose proof (ok_caller c re Hc f (e_Caller ent) E) as Hcalls.
    destruct (_ && _); eexists; (split; [done|]); cbn [member_if].
    + by apply keyed_member.
    + by rewrite extend_nil.
  - rewrite (ok_has_caller c re Hc E), andb_false_r. exists e. by rewrite extend_nil.
Qed.

Lemma addFunction_spec ent e x :
  holds pre n e x -> holds pre n (JSON.addFunction ent e) (extend x (function_member c ent)).
Proof.
  intros Hh. unfold JSON.addFunction. rewrite (proj1 (proj1 Hh)).
  apply holds_if; [done|]. apply AddString_member.
Qed.

Lemma addMessage_spec ent e x :
  holds pre n e x -> holds pre n (JSON.addMessage ent e) (extend x (message_member c ent)).
Proof.
  intros Hh. unfold JSON.addMessage. rewrite (proj1 (proj1 Hh)).
  apply holds_if; [done|]. apply AddString_member.
Qed.

Lemma addMetadata_spec ent e x :
  holds pre n e x ->
  exists e', JSON.addMetadata ent e = Some e' /\ holds pre n e' (extend x (metadata c ent)).
Proof.
  intros H1%(addLevel_spec ent)%(addTime_spec ent)%(addName_spec ent).
  unfold JSON.addMetadata. destruct (addCaller_spec ent _ _ H1) as (e4 & -> & H4).
  eexists. split; [done|]. unfold metadata. rewrite <- !extend_extend.
  by apply addMessage_spec, addFunction_spec.
Qed.
End Members.

(** The pool holds only encoders without a reflection buffer. *)
Definition pool_ok (p : Pool.t jsonEncoder) : Prop := Pool.all (fun e => reflectBuf e = None) p.

Lemma pool_ok_put p e : pool_ok p -> pool_ok (JSON.putJSONEncoder p e).
Proof. intros Hp. by apply Pool.Put_all. Qed.

(** Writing the logger's context after the metadata. *)
Lemma prepend_outer_text ms ms' p o :
  open_text sp ms' (prepend_outer ms (p :: o)) =
    render_members sp ms ++ tail_sep sp ms ++ open_text sp ms' (p :: o).
Proof.
  revert p ms'. induction o as [|q o IH]; intros [before k] ms'.
  - cbn [prepend_outer open_text]. destruct before as [|m before].
    + rewrite app_nil_r. by app_norm.
    + rewrite render_members_app by done.
      assert (tail_sep sp (ms ++ m :: before) = tail_sep sp (m :: before)) as -> by (by destruct ms).
      by app_norm.
  - change (prepend_outer ms ((before, k) :: q :: o)) with ((before, k) :: prepend_outer ms (q :: o)).
    cbn [open_text]. rewrite IH. by app_norm.
Qed.

Lemma prepend_text ms x :
  ctx_text sp x <> [] ->
  ctx_text sp (prepend ms x) = render_members sp ms ++ tail_sep sp ms ++ ctx_text sp x.
Proof.
  intros Hx. destruct x as [ms' [|q o]]; [|apply prepend_outer_text].
  apply render_members_app. intros E. cbn in E. by subst.
Qed.

Lemma ctx_text_nil x : ctx_text sp x = [] -> x = emptyCtx.
Proof.
  destruct x as [ms [|[before k] o]]; unfold ctx_text; cbn [cur outer open_text]; intros E.
  - by destruct ms as [|m [|m' ms]].
  - do 4 apply app_nil in E as [_ E]. done.
Qed.

Lemma outer_prepend ms x : length (outer (prepend ms x)) = length (outer x).
Proof.
  destruct x as [ms' [|q o]]; [done|]. unfold prepend. cbn [outer].
  revert q. induction o as [|q' o IH]; intros [before k]; [done|]. cbn. f_equal. apply IH.
Qed.

Lemma wf_prepend ms x : wf_members ms -> wf_ctx x -> wf_ctx (prepend ms x).
Proof.
  intros Hms [H1 H2]. destruct x as [ms' o]. cbn [cur outer] in *. destruct o as [|q o].
  { split; [by apply Forall_app|done]. }
  split; [done|]. unfold prepend. cbn [outer]. clear H1. revert q H2.
  induction o as [|q' o IH]; intros [before k] H2; apply Forall_cons in H2 as [Hb Ho].
  - constructor; [by apply Forall_app|constructor].
  - constructor; [done|]. by apply IH.
Qed.

(** The context of the logger, written after the metadata. *)
Lemma context_spec enc e ms x :
  holds [] 0 enc x -> holds [Byte.x7b] (length (outer x)) e (mkCtx ms []) ->
  holds [Byte.x7b] 0
    (if 0 <? Z.of_nat (Len (buf enc))
     then on_buf (fun b => fst (Write b (Bytes (buf enc)))) (JSON.addElementSeparator e) else e)
    (prepend ms x).
Proof.
  intros (_ & Ht & _ & Hw) He. pose proof (holds_comma _ _ _ _ He eq_refl) as Hcomma.
  destruct He as (Hr & Hte & Hn & Hwe). cbn [cur outer length] in *.
  change (Bytes (buf enc)) with (text enc). change (Len (buf enc)) with (length (text enc)).
  rewrite Ht. cbn [app]. destruct (ctx_text sp x) as [|b s] eqn:E.
  - apply ctx_text_nil in E as ->. split; [done|]. split; [|split; [done|]].
    + unfold prepend. cbn [outer emptyCtx cur]. by rewrite app_nil_r.
    + apply wf_prepend; [apply Hwe|done].
  - cbn [length]. rewrite (proj2 (Z.ltb_lt _ _)) by lia. rewrite <- E.
    rewrite (on_append (ctx_text sp x)) by done.
    rewrite addElementSeparator_emit, emit_emit, Hcomma. split; [done|].
    split; [|split; [rewrite outer_prepend; cbn; lia|apply wf_prepend; [apply Hwe|done]]].
    rewrite text_emit, Hte, prepend_text by (by rewrite E). by app_norm.
Qed.

Context `{GoRuntime}.

(** Closing the namespaces leaves one object. *)
Lemma close_spec pre e y :
  holds pre 0 e y -> holds pre 0 (JSON.closeOpenNamespaces e) (mkCtx (close y) []).
Proof.
  intros (Hr & Ht & Hn & Hw). rewrite closeOpenNamespaces_emit. split; [done|].
  split; [|split; [done|split; [by apply wf_close|constructor]]].
  change (text (set_openNamespaces _ ?e)) with (text e).
  rewrite text_emit, Ht, Hn, <- app_assoc. cbn [Nat.add]. by rewrite close_text.
Qed.

Lemma EncodeEntry_spec p choice enc x ent fields :
  pool_ok p -> holds [] 0 enc x ->
  fst (JSON.EncodeEntry p choice enc ent fields) =
    match entry_members c re x ent fields with
    | Ret ms => Ret (mkBuffer (render sp (TObj ms) ++ LineEnding c))
    | Panic v => Panic v
    end /\
  pool_ok (snd (JSON.EncodeEntry p choice enc ent fields)) /\
  (forall ms, entry_members c re x ent fields = Ret ms -> wf (TObj ms)).
Proof.
  intros Hp Hx. unfold JSON.EncodeEntry, JSON.clone.
  destruct (Pool.Get p choice) as [px p'] eqn:EP. destruct (Pool.Get_all _ _ _ _ _ Hp EP) as [Hpx Hp'].
  assert (holds [Byte.x7b] (length (outer x)) (put Byte.x7b (JSON.reuse px enc)) emptyCtx) as Hstart.
  { destruct Hx as ((Hcfg & Hsp & _) & _ & Hn & _). split; [|split; [done|]].
    - split; [done|]. split; [done|]. intros [b Hb]. cbn in Hb. congruence.
    - split; [|split; constructor]. cbn in *. lia. }
  destruct (addMetadata_spec [Byte.x7b] _ eq_refl ent _ _ Hstart) as (e1 & -> & H1).
  pose proof (context_spec _ _ _ _ Hx H1) as H2.
  match type of H2 with holds _ _ ?e _ => set (e2 := e) in * end. clearbody e2.
  destruct (proj1 run_agrees (addFields fields) [Byte.x7b] 0%nat e2 _ eq_refl H2) as [Hres Hret].
  unfold entry_members. change (metadata c ent) with ([] ++ metadata c ent).
  change ([] ++ metadata c ent) with (cur (extend emptyCtx (metadata c ent))).
  unfold extend in *. cbn [cur outer emptyCtx app] in *.
  destruct (JSON.run_obj (addFields fields) e2) as [e3 r3], (spec_obj c re _ _) as [y [err|v]];
    cbn [fst snd returned] in *; subst; [|by split_and!].
  pose proof (close_spec _ _ _ (Hret eq_refl)) as H4. set (e4 := JSON.closeOpenNamespaces e3) in *.
  clearbody e4. rewrite (proj1 (proj1 H4)). unfold JSON.AddString.
  pose proof (holds_if [Byte.x7b] 0 (nonempty (e_Stack ent) && nonempty (StacktraceKey c)) e4 _ _ _ _ H4
    (AddString_member [Byte.x7b] 0 eq_refl (StacktraceKey c) (e_Stack ent) _ _)) as H5.
  match type of H5 with holds _ _ ?e (extend _ ?m) =>
    set (e5 := e) in *; set (ms := m) in * end.
  clearbody e5 ms. destruct H5 as (Hr5 & Ht5 & _ & Hw5). split; [|split].
  - rewrite put_emit. change (cfg (emit _ e5)) with (cfg e5). rewrite (proj1 Hr5).
    rewrite (on_append (LineEnding c)) by done. rewrite emit_emit. f_equal.
    change (buf ?e) with (mkBuffer (text e)). rewrite text_emit, Ht5. cbn [render]. by app_norm.
  - by apply pool_ok_put.
  - intros ms' [= <-]. constructor. apply Hw5.
Qed.
End Config.
