(* ===== verification/JsonTheorems.v ===== *)
(** * JsonTheorems

    The properties of the JSON encoder, for every encoder a logger can hold:
    one made by [NewJSONEncoder] or the console encoder's, after any sequence
    of [With] calls. *)
From S2P Require Import Prelude Strconv Utf8 Level Float GoTime Buffer Entry Values Field Encoder.
From S2P Require Import Json Escape JsonTree Base64 JsonEncoder JsonSpec JsonProofs.
Open Scope Z_scope.

(** ** The encoders of loggers *)

Section Built.
Context `{TimeFormat} `{GoRuntime}.
Variables (dre : ReflectedEncoder) (c0 : EncoderConfig) (sp : bool) (re : ReflectedEncoder).

(** The configuration as [newJSONEncoder] completes it. *)
Definition effective : EncoderConfig := cfg (JSON.newJSONEncoder dre c0 sp).

(** [built enc x]: [enc] was made by [newJSONEncoder] and then extended by
    [With] calls, which clone the encoder and add fields; [x] is the context
    those fields denote. *)
Inductive built : jsonEncoder -> ctx -> Prop :=
| built_new : built (JSON.newJSONEncoder dre c0 sp) emptyCtx
| built_with p choice enc x fields e p' e' err :
    built enc x -> pool_ok p ->
    JSON.Clone p choice enc = (e, p') ->
    JSON.run_obj (addFields fields) e = (e', Ret err) ->
    built e' (fst (spec_obj effective re (addFields fields) x)).

Hypothesis Hc : config_ok effective re.

Lemma Clone_holds p choice enc x e p' :
  pool_ok p -> holds effective re sp [] 0 enc x -> JSON.Clone p choice enc = (e, p') ->
  holds effective re sp [] 0 e x.
Proof.
  unfold JSON.Clone, JSON.clone. intros Hp Hx HC. destruct (Pool.Get p choice) as [px q] eqn:EP.
  destruct (Pool.Get_all _ _ _ _ _ Hp EP) as [Hpx _]. simplify_eq.
  destruct Hx as ((Hcfg & Hsp & _) & Ht & Hn & Hw). split; [|by split_and!].
  split; [done|]. split; [done|]. intros [b Hb]. cbn in Hb. congruence.
Qed.

Lemma built_holds enc x : built enc x -> holds effective re sp [] 0 enc x.
Proof.
  induction 1 as [|p choice enc x fields e p' e' err _ IH Hp HC HR].
  - split; [|split; [done|split; [done|split; constructor]]].
    split; [done|]. split; [done|]. intros [b Hb]. done.
  - pose proof (Clone_holds _ _ _ _ _ _ Hp IH HC) as He.
    destruct (proj1 (run_agrees effective re Hc sp) (addFields fields) [] 0%nat e x eq_refl He)
      as [Hres Hret].
    rewrite HR in *. cbn [fst snd] in *. rewrite <- Hres in Hret. by apply Hret.
Qed.
End Built.

(** ** Adding fields commutes with the entry's metadata *)

Section Commute.
Context `{TimeFormat} (c : EncoderConfig) (re : ReflectedEncoder).

Lemma add_prepend k t ms x : add k t (prepend ms x) = prepend ms (add k t x).
Proof. destruct x as [ms' [|q o]]; [|done]. unfold add, prepend. cbn. by rewrite app_assoc. Qed.

Lemma open_prepend k ms x : open_ns k (prepend ms x) = prepend ms (open_ns k x).
Proof. by destruct x as [ms' [|q o]]. Qed.

Lemma spec_objop_array key a x :
  spec_objop c re (AddArray key a) x =
    let '(ts, r) := spec_arr c re a [] in (add key (TArr ts) x, r).
Proof. reflexivity. Qed.

Lemma spec_objop_object key o x :
  spec_objop c re (AddObject key o) x =
    let '(y, r) := spec_obj c re o emptyCtx in (add key (TObj (close y)) x, r).
Proof. reflexivity. Qed.

Lemma objop_prepend op ms x :
  spec_objop c re op (prepend ms x) =
    let '(y, r) := spec_objop c re op x in (prepend ms y, r).
Proof.
  destruct op as [key a|key o| | | | |key v| ].
  1: rewrite !spec_objop_array; destruct (spec_arr c re a []) as [ts r].
  2: rewrite !spec_objop_object; destruct (spec_obj c re o emptyCtx) as [y r].
  7: cbn; destruct (reflect_tree re v).
  all: cbn; by rewrite ?add_prepend, ?open_prepend.
Qed.

Lemma obj_prepend o ms x :
  spec_obj c re o (prepend ms x) = let '(y, r) := spec_obj c re o x in (prepend ms y, r).
Proof.
  revert o x. fix rec 1. intros [e|v|op k] x; [done|done|].
  rewrite !spec_obj_call, objop_prepend.
  destruct (spec_objop c re op x) as [y [e|v]]; [|done]. apply rec.
Qed.

Lemma spec_obj_bind o k x :
  spec_obj c re (obind o k) x =
    match spec_obj c re o x with (y, Ret e) => spec_obj c re (k e) y | (y, Panic v) => (y, Panic v) end.
Proof.
  revert o x. fix rec 1. intros [e|v|op k'] x; [done|done|].
  cbn [obind]. rewrite !spec_obj_call. destruct (spec_objop c re op x) as [y [e|v]]; [|done].
  apply rec.
Qed.

Context `{GoRuntime}.

Lemma spec_addFields_app fs gs x :
  spec_obj c re (addFields (fs ++ gs)) x =
    match spec_obj c re (addFields fs) x with
    | (y, Ret _) => spec_obj c re (addFields gs) y
    | (y, Panic v) => (y, Panic v)
    end.
Proof.
  revert x. induction fs as [|f fs IH]; intros x; [done|]. cbn [app addFields].
  rewrite !spec_obj_bind. destruct (spec_obj c re (AddTo f) x) as [y [e|v]]; [|done]. apply IH.
Qed.

Lemma entry_members_app fs gs x y e ent :
  spec_obj c re (addFields fs) x = (y, Ret e) ->
  entry_members c re x ent (fs ++ gs) = entry_members c re y ent gs.
Proof.
  intros Hf. unfold entry_members. by rewrite spec_addFields_app, obj_prepend, Hf.
Qed.
End Commute.

(** ** An instance *)

Lemma raw_ok_braces : raw_ok (go "{}").
Proof.
  split; [by eexists|by eexists _, _|]. intros rest f Hr Hf.
  destruct f as [|f]; [cbn in Hf; lia|]. reflexivity.
Qed.

Lemma example_config_ok :
  @config_ok plainTime (@effective exampleReflect exampleConfig false) exampleReflect.
Proof.
  split; cbn; try (intros ? ? [= <-]; by split; [cbn; lia|repeat constructor]); try done.
  intros v s [= <-]. exact raw_ok_braces.
Qed.

(** An encoder with context: one [With] call that opens a namespace. *)
Definition exampleContext : list field := [Namespace (go "app"); Int (go "pid") 7].

Definition exampleEncoder : jsonEncoder :=
  fst (@JSON.run_obj plainTime (@addFields exampleRuntime exampleContext)
         (fst (JSON.Clone JSON._jsonPool None (JSON.NewJSONEncoder exampleReflect exampleConfig)))).

Definition exampleCtx : ctx :=
  fst (@spec_obj plainTime (effective exampleReflect exampleConfig false) exampleReflect
         (@addFields exampleRuntime exampleContext) emptyCtx).

Lemma json_pool_ok : pool_ok JSON._jsonPool.
Proof. by split; [|constructor]. Qed.

Lemma example_built :
  @built plainTime exampleRuntime exampleReflect exampleConfig false exampleReflect
    exampleEncoder exampleCtx.
Proof. by eapply (built_with _ _ _ _ _ None); [apply built_new|apply json_pool_ok|..]. Qed.

(** ** Properties *)

Section Properties.
Context `{TimeFormat} `{GoRuntime}.
Variables (dre : ReflectedEncoder) (c0 : EncoderConfig) (sp : bool) (re : ReflectedEncoder).
Local Abbreviation c := (effective dre c0 sp).

(** C1.  [EncodeEntry] refines its specification.  For every encoder a logger
    can hold, every entry and all fields, whatever marshalers do, the buffer is
    exactly the printed object whose members are the metadata, the logger's
    context with the fields in the innermost open namespace, and the stack
    trace, followed by the line ending; and a panic of a marshaler is the only
    way to get no buffer. *)
Theorem encode_entry_refines enc x p choice ent fields
    (Hc : config_ok c re) (Hb : built dre c0 sp re enc x) (Hp : pool_ok p) :
  fst (JSON.EncodeEntry p choice enc ent fields) =
    match entry_members c re x ent fields with
    | Ret ms => Ret (mkBuffer (render sp (TObj ms) ++ LineEnding c))
    | Panic v => Panic v
    end.
Proof. apply EncodeEntry_spec; [done|done|by apply built_holds]. Qed.

(** C3.  Every line is valid JSON: an RFC 8259 parser reads the buffer
    [EncodeEntry] returns as one object, with nothing left but the line ending,
    and the object has the members of the specification in their order, with
    every string read back rune for rune. *)
Theorem encoded_entry_parses enc x p choice ent fields b
    (Hc : config_ok c re) (Hb : built dre c0 sp re enc x) (Hp : pool_ok p)
    (Hl : delim (LineEnding c) = true)
    (He : fst (JSON.EncodeEntry p choice enc ent fields) = Ret b) :
  exists ms, entry_members c re x ent fields = Ret ms /\
    jparse (bs b) = Some (jsem (TObj ms), LineEnding c).
Proof.
  destruct (EncodeEntry_spec c re Hc sp p choice enc x ent fields Hp (built_holds _ _ _ _ Hc _ _ Hb))
    as (E & _ & Hw).
  rewrite E in He. destruct (entry_members c re x ent fields) as [ms|v]; [|done].
  exists ms. split; [done|].
  assert (b = mkBuffer (render sp (TObj ms) ++ LineEnding c)) as -> by congruence.
  apply jparse_render; auto.
Qed.

(** Recycling is invisible.  What [EncodeEntry] returns does not depend
    on which pooled encoder it was handed, nor on what other entries left in
    the pool, and it keeps the pool fit for use. *)
Theorem encode_entry_pool_independent enc x p q choice choice' ent fields
    (Hc : config_ok c re) (Hb : built dre c0 sp re enc x) (Hp : pool_ok p) (Hq : pool_ok q) :
  fst (JSON.EncodeEntry p choice enc ent fields) = fst (JSON.EncodeEntry q choice' enc ent fields) /\
  pool_ok (snd (JSON.EncodeEntry p choice enc ent fields)).
Proof.
  pose proof (built_holds _ _ _ _ Hc _ _ Hb) as Hx.
  destruct (EncodeEntry_spec c re Hc sp p choice enc x ent fields Hp Hx) as (-> & ? & _).
  by destruct (EncodeEntry_spec c re Hc sp q choice' enc x ent fields Hq Hx) as (-> & _ & _).
Qed.

Lemma EncodeEntry_after_With enc x p choice e p' fs e' err q choice' ent gs
    (Hc : config_ok c re) (Hb : built dre c0 sp re enc x) (Hp : pool_ok p)
    (HC : JSON.Clone p choice enc = (e, p'))
    (HR : JSON.run_obj (addFields fs) e = (e', Ret err)) (Hq : pool_ok q) :
  fst (JSON.EncodeEntry q choice' e' ent gs) = fst (JSON.EncodeEntry q choice' enc ent (fs ++ gs)).
Proof.
  pose proof (built_holds _ _ _ _ Hc _ _ Hb) as Hx.
  pose proof (Clone_holds _ _ _ _ _ _ _ _ _ _ Hp Hx HC) as He.
  destruct (proj1 (run_agrees c re Hc sp) (addFields fs) [] 0%nat e x eq_refl He) as [Hres Hret].
  rewrite HR in *. destruct (spec_obj c re (addFields fs) x) as [y r] eqn:E. cbn [fst snd] in *. subst r.
  destruct (EncodeEntry_spec c re Hc sp q choice' e' y ent gs Hq (Hret eq_refl)) as (-> & _).
  destruct (EncodeEntry_spec c re Hc sp q choice' enc x ent (fs ++ gs) Hq Hx) as (-> & _).
  by rewrite (entry_members_app _ _ fs gs x y err ent E).
Qed.

(** [With] and per-call fields mean the same: adding [fs] to a clone of
    the encoder and then logging with [gs] gives the line of logging with
    [fs] and [gs] at once, also when [fs] opens namespaces. *)
Theorem with_then_log enc x p choice e p' fs e' err q choice' ent gs
    (Hc : config_ok c re) (Hb : built dre c0 sp re enc x) (Hp : pool_ok p)
    (HC : JSON.Clone p choice enc = (e, p'))
    (HR : JSON.run_obj (addFields fs) e = (e', Ret err)) (Hq : pool_ok q) :
  fst (JSON.EncodeEntry q choice' e' ent gs) = fst (JSON.EncodeEntry q choice' enc ent (fs ++ gs)).
Proof. exact (EncodeEntry_after_With enc x p choice e p' fs e' err q choice' ent gs Hc Hb Hp HC HR Hq). Qed.
End Properties.

(** The properties at the example. *)

Lemma encode_entry_refines_witness :
  fst (@JSON.EncodeEntry plainTime exampleRuntime JSON._jsonPool None exampleEncoder exampleEntry
         exampleFields) =
  match @entry_members plainTime (effective exampleReflect exampleConfig false) exampleReflect
          exampleRuntime exampleCtx exampleEntry exampleFields with
  | Ret ms => Ret (mkBuffer (render false (TObj ms) ++ [Byte.x0a]))
  | Panic v => Panic v
  end.
Proof.
  apply (@encode_entry_refines plainTime exampleRuntime exampleReflect exampleConfig false
           exampleReflect exampleEncoder exampleCtx JSON._jsonPool None);
    [apply example_config_ok|apply example_built|apply json_pool_ok].
Defined.

Definition exampleLine : Buffer :=
  match fst (@JSON.EncodeEntry plainTime exampleRuntime JSON._jsonPool None exampleEncoder
               exampleEntry exampleFields) with
  | Ret b => b
  | Panic _ => mkBuffer []
  end.

Lemma encoded_entry_parses_witness :
  exists ms,
    @entry_members plainTime (effective exampleReflect exampleConfig false) exampleReflect
      exampleRuntime exampleCtx exampleEntry exampleFields = Ret ms /\
    jparse (bs exampleLine) = Some (jsem (TObj ms), [Byte.x0a]).
Proof.
  apply (@encoded_entry_parses plainTime exampleRuntime exampleReflect exampleConfig false
           exampleReflect exampleEncoder exampleCtx JSON._jsonPool None);
    [apply example_config_ok|apply example_built|apply json_pool_ok|reflexivity|].
  vm_compute. reflexivity.
Defined.

Lemma encode_entry_pool_independent_witness :
  let used := snd (@JSON.EncodeEntry plainTime exampleRuntime JSON._jsonPool None exampleEncoder
                     exampleEntry exampleFields) in
  fst (@JSON.EncodeEntry plainTime exampleRuntime JSON._jsonPool None exampleEncoder exampleEntry
         exampleFields) =
  fst (@JSON.EncodeEntry plainTime exampleRuntime used (Some 0%nat) exampleEncoder exampleEntry
         exampleFields) /\
  pool_ok used.
Proof.
  apply (@encode_entry_pool_independent plainTime exampleRuntime exampleReflect exampleConfig false
           exampleReflect exampleEncoder exampleCtx);
    [apply example_config_ok|apply example_built|apply json_pool_ok|].
  vm_compute. repeat constructor.
Defined.

Lemma with_then_log_witness :
  fst (@JSON.EncodeEntry plainTime exampleRuntime JSON._jsonPool None exampleEncoder exampleEntry
         exampleFields) =
  fst (@JSON.EncodeEntry plainTime exampleRuntime JSON._jsonPool None
         (JSON.NewJSONEncoder exampleReflect exampleConfig) exampleEntry
         (exampleContext ++ exampleFields)).
Proof.
  eapply (@with_then_log plainTime exampleRuntime exampleReflect exampleConfig false exampleReflect
           (JSON.NewJSONEncoder exampleReflect exampleConfig) emptyCtx JSON._jsonPool None);
    [apply example_config_ok|apply built_new|apply json_pool_ok|reflexivity|reflexivity|].
  apply json_pool_ok.
Defined.

(** ** Binary fields *)

Lemma b64_char_ascii n : bz (b64_char n) < 0x80.
Proof.
  unfold b64_char. destruct (nth_in_or_default (Z.to_nat n) encodeStd Byte.x00) as [Hin| ->]; [|done].
  assert (forallb (fun b => bz b <? 0x80) encodeStd = true) as Hall by reflexivity.
  rewrite forallb_forall in Hall. by apply Z.ltb_lt, Hall.
Qed.

Lemma base64_ascii s : is_ascii (EncodeToString s) = true.
Proof.
  assert (forall n t, is_ascii (b64_char n :: t) = is_ascii t) as Hcons.
  { intros n t. unfold is_ascii. cbn [forallb]. by rewrite (proj2 (Z.ltb_lt _ _) (b64_char_ascii n)). }
  induction s as [|a|a b|a b c t IH] using triples_ind; cbn [EncodeToString]; by rewrite ?Hcons.
Qed.

(** A [Binary] field survives the trip through JSON: the member's string,
    read by a JSON parser and decoded as base64, is the bytes logged. *)
Theorem binary_field_decodes `{TimeFormat} `{GoRuntime} dre c0 key v :
  exists rs,
    jparse (text (put Byte.x7d (fst (JSON.run_obj (AddTo (Binary key v))
              (put Byte.x7b (JSON.NewJSONEncoder dre c0)))))) = Some (JObj [(runes key, JStr rs)], []) /\
    DecodeString (utf8_encode rs) = Some v.
Proof.
  exists (runes (EncodeToString v)). split.
  - transitivity (jparse (render false (TObj [(key, TStr (EncodeToString v))]) ++ [])).
    2: { apply jparse_render; [|done]. by repeat constructor. }
    f_equal. cbn [AddTo Binary Field_ as_bytes othen JSON.run_obj JSON.run_objop JSON.done_ fst].
    rewrite map_map, (map_ext _ id), map_id by apply zb_bz.
    unfold JSON.AddBinary, JSON.AddString.
    rewrite (AppendString_writes false), comma_after_key, addKey_emit, !put_emit, !emit_emit by done.
    rewrite text_emit, app_nil_r. cbn [render map commas fst snd]. unfold quoted. by app_norm.
  - pose proof (is_ascii_valid _ (base64_ascii v)) as Hv. unfold valid_utf8, sanitize in Hv.
    rewrite Hv. apply DecodeString_EncodeToString.
Qed.

(** ** Time layouts *)

(** A formatted time is not escaped: with a layout that has a quote in its
    literal text, which [time.Format] copies, [EncodeEntry] returns a line that
    is not JSON. *)
Theorem layout_quote_breaks_json :
  let c0 := mkConfig [] [] (go "ts") [] [] [] [] false [] None
              (Some (TimeEncoderOfLayout (goq "at 'noon'"))) None None None None [] in
  exists b,
    fst (@JSON.EncodeEntry plainTime exampleRuntime JSON._jsonPool None
           (JSON.NewJSONEncoder exampleReflect c0) exampleEntry []) = Ret b /\
    jparse (bs b) = None.
Proof.
  exists (mkBuffer (goq "{'ts':'at 'noon''}" ++ [Byte.x0a])). split; vm_compute; reflexivity.
Qed.
