(* ===== verification/Memory.v ===== *)
(** * Memory

    [ladcore/memory_encoder.go]: the encoders backed by maps and slices of
    [interface{}] values, and that they see what the JSON encoder prints. *)
From S2P Require Import Prelude Strconv Utf8 Level Float GoTime Buffer Entry Values Field Encoder.
From S2P Require Import Json Escape JsonTree Base64 JsonSpec JsonProofs JsonTheorems.
Open Scope Z_scope.
Set Warnings "-register-all".

(** ** Values *)

(** An [interface{}] in the map or slice, with the method that stored it. *)
Inductive mval : Type :=
| MPrim (p : prim)
| MBinary (v : gostring)
| MDuration (d : Z)
| MTime (t : gotime)
| MReflected (v : goval)
| MArr (elems : list mval)
| MMap (entries : list (gostring * mval)).

(** The value itself, for those that are no containers. *)
Definition prim_value (p : prim) : goval :=
  match p with
  | PBool v => VScalar KBool v
  | PByteString v | PString v => VScalar KString v
  | PComplex128 v => VScalar KComplex128 v
  | PComplex64 v => VScalar KComplex64 v
  | PFloat64 v => VScalar KFloat64 v
  | PFloat32 v => VScalar KFloat32 v
  | PInt v => VScalar KInt v
  | PInt64 v => VScalar KInt64 v
  | PInt32 v => VScalar KInt32 v
  | PInt16 v => VScalar KInt16 v
  | PInt8 v => VScalar KInt8 v
  | PUint v => VScalar KUint v
  | PUint64 v => VScalar KUint64 v
  | PUint32 v => VScalar KUint32 v
  | PUint16 v => VScalar KUint16 v
  | PUint8 v => VScalar KUint8 v
  | PUintptr v => VScalar KUintptr v
  end.

(** A byte string is stored as [string(v)]. *)
Definition stored (p : prim) : prim := match p with PByteString v => PString v | _ => p end.

(** [m[k] = v] on a map, as a list of entries with distinct keys. *)
Fixpoint assign {A} (k : gostring) (v : A) (l : list (gostring * A)) : list (gostring * A) :=
  match l with
  | [] => [(k, v)]
  | (k', v') :: l => if streq k k' then (k, v) :: l else (k', v') :: assign k v l
  end.

Fixpoint find {A} (k : gostring) (l : list (gostring * A)) : option A :=
  match l with
  | [] => None
  | (k', v) :: l => if streq k k' then Some v else find k l
  end.

(** ** The encoders *)

(** The namespace written to, and, innermost first, the maps around it with the
    key it has there.  [cur] of the code points into [Fields]; the maps around
    it are not written again. *)
Record MapObjectEncoder := mkMapEnc {
  m_cur : list (gostring * mval);
  m_outer : list (list (gostring * mval) * gostring);
}.

Definition NewMapObjectEncoder : MapObjectEncoder := mkMapEnc [] [].

Fixpoint close_maps (cur : list (gostring * mval)) (o : list (list (gostring * mval) * gostring)) :
    list (gostring * mval) :=
  match o with
  | [] => cur
  | (before, k) :: o => close_maps (assign k (MMap cur) before) o
  end.

(** The whole map. *)
Definition Fields (m : MapObjectEncoder) : list (gostring * mval) := close_maps (m_cur m) (m_outer m).

Definition put_key (k : gostring) (v : mval) (m : MapObjectEncoder) : MapObjectEncoder :=
  mkMapEnc (assign k v (m_cur m)) (m_outer m).

Definition OpenNamespace_ (k : gostring) (m : MapObjectEncoder) : MapObjectEncoder :=
  mkMapEnc [] ((m_cur m, k) :: m_outer m).

(** A marshaler against the encoders.  [AddObject] stores the map before it is
    filled, [AddArray] the slice after. *)
Fixpoint map_obj (o : objm) (m : MapObjectEncoder) : MapObjectEncoder * outcome error :=
  match o with
  | ORet e => (m, Ret e)
  | OPanic v => (m, Panic v)
  | OCall op k =>
      match map_objop op m with
      | (m, Ret e) => map_obj (k e) m
      | (m, Panic v) => (m, Panic v)
      end
  end
with map_objop (op : objop) (m : MapObjectEncoder) : MapObjectEncoder * outcome error :=
  match op with
  | AddArray key a =>
      match slice_arr a [] with
      | (elems, Ret err) => (put_key key (MArr elems) m, Ret err)
      | (_, Panic v) => (m, Panic v)
      end
  | AddObject key o =>
      let '(newMap, r) := map_obj o NewMapObjectEncoder in (put_key key (MMap (Fields newMap)) m, r)
  | AddBinary key v => (put_key key (MBinary v) m, Ret None)
  | AddPrim key p => (put_key key (MPrim (stored p)) m, Ret None)
  | AddDuration key d => (put_key key (MDuration d) m, Ret None)
  | AddTime key t => (put_key key (MTime t) m, Ret None)
  | AddReflected key v => (put_key key (MReflected v) m, Ret None)
  | OpenNamespace key => (OpenNamespace_ key m, Ret None)
  end
with slice_arr (a : arrm) (elems : list mval) : list mval * outcome error :=
  match a with
  | ARet e => (elems, Ret e)
  | APanic v => (elems, Panic v)
  | ACall op k =>
      match slice_arrop op elems with
      | (elems, Ret e) => slice_arr (k e) elems
      | (elems, Panic v) => (elems, Panic v)
      end
  end
with slice_arrop (op : arrop) (elems : list mval) : list mval * outcome error :=
  match op with
  | AppendArray a =>
      match slice_arr a [] with
      | (inner, Ret err) => (elems ++ [MArr inner], Ret err)
      | (_, Panic v) => (elems, Panic v)
      end
  | AppendObject o =>
      match map_obj o NewMapObjectEncoder with
      | (m, Ret err) => (elems ++ [MMap (Fields m)], Ret err)
      | (_, Panic v) => (elems, Panic v)
      end
  | AppendPrim p => (elems ++ [MPrim (stored p)], Ret None)
  | AppendDuration d => (elems ++ [MDuration d], Ret None)
  | AppendTime t => (elems ++ [MTime t], Ret None)
  | AppendReflected v => (elems ++ [MReflected v], Ret None)
  end.

(** ** What the JSON encoder prints *)

(** An object as a map sees it: of members with the same key, the last. *)
Fixpoint last_wins (t : jtree) : jtree :=
  match t with
  | TObj ms => TObj (fold_left (fun acc m => let '(k, t) := m in assign k (last_wins t) acc) ms [])
  | TArr ts => TArr (map last_wins ts)
  | _ => t
  end.

Section Agree.
Context `{TimeFormat} (c : EncoderConfig) (re : ReflectedEncoder).

(** The [ReflectedEncoder] encodes the value; [nil] is not handed to it. *)
Definition encodes (v : goval) : Prop := match v with VNil => True | _ => snd (re v) = None end.

(** The values a marshaler reflects while it runs are encoded: those of the
    calls it makes, at every depth, given what the calls before returned. *)
Fixpoint encodes_obj (o : objm) (m : MapObjectEncoder) : Prop :=
  match o with
  | ORet _ | OPanic _ => True
  | OCall op k =>
      encodes_objop op /\ match map_objop op m with (m, Ret e) => encodes_obj (k e) m | (_, Panic _) => True end
  end
with encodes_objop (op : objop) : Prop :=
  match op with
  | AddArray _ a => encodes_arr a []
  | AddObject _ o => encodes_obj o NewMapObjectEncoder
  | AddReflected _ v => encodes v
  | _ => True
  end
with encodes_arr (a : arrm) (es : list mval) : Prop :=
  match a with
  | ARet _ | APanic _ => True
  | ACall op k =>
      encodes_arrop op /\ match slice_arrop op es with (es, Ret e) => encodes_arr (k e) es | (_, Panic _) => True end
  end
with encodes_arrop (op : arrop) : Prop :=
  match op with
  | AppendArray a => encodes_arr a []
  | AppendObject o => encodes_obj o NewMapObjectEncoder
  | AppendReflected v => encodes v
  | _ => True
  end.

Definition reflected_text (v : goval) : jtree :=
  match v with VNil => TNull | _ => TRaw (bs (TrimNewline (mkBuffer (fst (re v))))) end.

Fixpoint tree_of (v : mval) : jtree :=
  match v with
  | MPrim p => prim_tree p
  | MBinary v => TStr (EncodeToString v)
  | MDuration d => duration_tree c d
  | MTime t => time_tree c t
  | MReflected v => reflected_text v
  | MArr elems => TArr (map tree_of elems)
  | MMap entries => TObj (map (fun e => let '(k, v) := e in (k, tree_of v)) entries)
  end.

Definition members_of (entries : list (gostring * mval)) : members :=
  map (fun e => let '(k, v) := e in (k, tree_of v)) entries.

Definition merged (ms : members) : members :=
  fold_left (fun acc m => let '(k, t) := m in assign k (last_wins t) acc) ms [].

(** The two states say the same. *)
Definition rel (m : MapObjectEncoder) (x : ctx) : Prop :=
  members_of (m_cur m) = merged (cur x) /\
  Forall2 (fun a b => members_of a.1 = merged b.1 /\ a.2 = b.2) (m_outer m) (outer x).

Definition rel_arr (elems : list mval) (ts : list jtree) : Prop := map tree_of elems = map last_wins ts.

Definition agree {A B} (R : A -> B -> Prop) (r : A * outcome error) (s : B * outcome error) : Prop :=
  r.2 = s.2 /\ (forall e, r.2 = Ret e -> R r.1 s.1).

Lemma merged_snoc ms k t : merged (ms ++ [(k, t)]) = assign k (last_wins t) (merged ms).
Proof. unfold merged. by rewrite fold_left_app. Qed.

Lemma members_of_assign k v l : members_of (assign k v l) = assign k (tree_of v) (members_of l).
Proof.
  induction l as [|[k' v'] l IH]; [done|]. cbn [assign members_of map].
  destruct (streq k k'); [done|]. cbn. f_equal. apply IH.
Qed.

Lemma last_wins_prim p : last_wins (prim_tree p) = prim_tree p.
Proof.
  destruct p; try done; cbn; unfold complex_tree; try done; unfold float_tree;
    by match goal with |- context [match ?f with FNaN => _ | _ => _ end] => destruct f as [|[]|] end.
Qed.

Lemma stored_tree p : prim_tree (stored p) = last_wins (prim_tree p).
Proof. rewrite last_wins_prim. by destruct p. Qed.

Lemma last_wins_first cs t : last_wins t = t -> last_wins (first_tree cs t) = first_tree cs t.
Proof. intros Ht. destruct cs as [|[p|]]; [done|apply last_wins_prim|done]. Qed.

Lemma last_wins_time t : last_wins (time_tree c t) = time_tree c t.
Proof. by apply last_wins_first. Qed.

Lemma last_wins_duration d : last_wins (duration_tree c d) = duration_tree c d.
Proof. by apply last_wins_first. Qed.

Lemma reflect_total v :
  encodes v -> reflect_tree re v = inl (reflected_text v) /\ last_wins (reflected_text v) = reflected_text v.
Proof.
  unfold encodes, reflect_tree, reflected_text. intros Hv.
  destruct v; [done|..]; destruct (re _) as [s [e|]]; by cbn in *.
Qed.

Lemma rel_put m x k v t : rel m x -> tree_of v = last_wins t -> rel (put_key k v m) (add k t x).
Proof.
  intros [Hc Ho] Hv. split; [|done]. cbn [put_key m_cur add cur].
  by rewrite members_of_assign, merged_snoc, Hc, Hv.
Qed.

Lemma rel_close m x : rel m x -> members_of (Fields m) = merged (close x).
Proof.
  destruct m as [cm om], x as [cx ox]. intros [Hc Ho]. unfold Fields, close. cbn [m_cur m_outer cur outer] in *.
  revert cm cx Hc. induction Ho as [|[bm k] [bx k'] om ox [Hb Hk] _ IH]; intros cm cx Hc; [done|].
  cbn [fst snd] in Hb, Hk. subst k'. cbn [close_maps close_into]. apply IH.
  rewrite members_of_assign, merged_snoc, Hb. cbn [tree_of last_wins]. fold (members_of cm). by rewrite Hc.
Qed.

Lemma rel_new : rel NewMapObjectEncoder emptyCtx.
Proof. by split. Qed.

Lemma rel_snoc elems ts v t :
  rel_arr elems ts -> tree_of v = last_wins t -> rel_arr (elems ++ [v]) (ts ++ [t]).
Proof. unfold rel_arr. intros Hr Hv. rewrite !map_app, Hr. cbn. by rewrite Hv. Qed.

Lemma map_obj_call op k m :
  map_obj (OCall op k) m =
    match map_objop op m with (m, Ret e) => map_obj (k e) m | (m, Panic v) => (m, Panic v) end.
Proof. reflexivity. Qed.

Lemma slice_arr_call op k es :
  slice_arr (ACall op k) es =
    match slice_arrop op es with (es, Ret e) => slice_arr (k e) es | (es, Panic v) => (es, Panic v) end.
Proof. reflexivity. Qed.

Lemma map_objop_array key a m :
  map_objop (AddArray key a) m =
    match slice_arr a [] with
    | (elems, Ret err) => (put_key key (MArr elems) m, Ret err)
    | (_, Panic v) => (m, Panic v)
    end.
Proof. reflexivity. Qed.

Lemma map_objop_object key o m :
  map_objop (AddObject key o) m =
    let '(newMap, r) := map_obj o NewMapObjectEncoder in (put_key key (MMap (Fields newMap)) m, r).
Proof. reflexivity. Qed.

Lemma slice_arrop_array a es :
  slice_arrop (AppendArray a) es =
    match slice_arr a [] with
    | (inner, Ret err) => (es ++ [MArr inner], Ret err)
    | (_, Panic v) => (es, Panic v)
    end.
Proof. reflexivity. Qed.

Lemma slice_arrop_object o es :
  slice_arrop (AppendObject o) es =
    match map_obj o NewMapObjectEncoder with
    | (m, Ret err) => (es ++ [MMap (Fields m)], Ret err)
    | (_, Panic v) => (es, Panic v)
    end.
Proof. reflexivity. Qed.

Lemma spec_arrop_array a ts :
  spec_arrop c re (AppendArray a) ts = let '(us, r) := spec_arr c re a [] in (ts ++ [TArr us], r).
Proof. reflexivity. Qed.

Lemma spec_arrop_object o ts :
  spec_arrop c re (AppendObject o) ts = let '(y, r) := spec_obj c re o emptyCtx in (ts ++ [TObj (close y)], r).
Proof. reflexivity. Qed.

Lemma agree_put m x k v t : rel m x -> tree_of v = last_wins t -> agree rel (put_key k v m, Ret None) (add k t x, Ret None).
Proof. intros Hr Hv. split; [done|]. intros e _. by apply rel_put. Qed.

Lemma agree_snoc es ts v t :
  rel_arr es ts -> tree_of v = last_wins t -> agree rel_arr (es ++ [v], Ret None) (ts ++ [t], Ret None).
Proof. intros Hr Hv. split; [done|]. intros e _. by apply rel_snoc. Qed.

(** Splits the results of the two runs of a marshaler, which agree. *)
Local Ltac runs IH :=
  destruct IH as [Hres Hret];
  repeat match goal with
  | |- context [slice_arr ?a ?x] => destruct (slice_arr a x)
  | |- context [map_obj ?a ?x] => destruct (map_obj a x)
  | |- context [slice_arrop ?a ?x] => destruct (slice_arrop a x)
  | |- context [map_objop ?a ?x] => destruct (map_objop a x)
  | |- context [spec_arr c re ?a ?x] => destruct (spec_arr c re a x)
  | |- context [spec_obj c re ?a ?x] => destruct (spec_obj c re a x)
  | |- context [spec_arrop c re ?a ?x] => destruct (spec_arrop c re a x)
  | |- context [spec_objop c re ?a ?x] => destruct (spec_objop c re a x)
  end;
  cbn [fst snd] in *; subst;
  match goal with H : context [?r = Ret _] |- _ => destruct r as [?|?]; [|by split] end.

Lemma encodes_obj_call op k m :
  encodes_obj (OCall op k) m =
    (encodes_objop op /\ match map_objop op m with (m, Ret e) => encodes_obj (k e) m | (_, Panic _) => True end).
Proof. reflexivity. Qed.

Lemma encodes_arr_call op k es :
  encodes_arr (ACall op k) es =
    (encodes_arrop op /\ match slice_arrop op es with (es, Ret e) => encodes_arr (k e) es | (_, Panic _) => True end).
Proof. reflexivity. Qed.

Lemma map_agrees :
  (forall o m x, encodes_obj o m -> rel m x -> agree rel (map_obj o m) (spec_obj c re o x)) /\
  (forall op m x, encodes_objop op -> rel m x -> agree rel (map_objop op m) (spec_objop c re op x)) /\
  (forall a es ts, encodes_arr a es -> rel_arr es ts -> agree rel_arr (slice_arr a es) (spec_arr c re a ts)) /\
  (forall op es ts, encodes_arrop op -> rel_arr es ts -> agree rel_arr (slice_arrop op es) (spec_arrop c re op ts)).
Proof.
  apply marshaler_ind.
  - intros e m x _ Hr. by split.
  - intros v m x _ Hr. by split.
  - intros op IHop k IHk m x Hd Hr. rewrite encodes_obj_call in Hd. destruct Hd as [Ho Hd].
    rewrite map_obj_call, spec_obj_call. specialize (IHop m x Ho Hr). destruct (map_objop op m).
    runs IHop. apply IHk; [done|]. by eapply Hret.
  - intros key a IHa m x Hd Hr. rewrite map_objop_array, spec_objop_array. runs (IHa [] [] Hd eq_refl).
    split; [done|]. intros e' _. apply rel_put; [done|]. cbn [tree_of last_wins]. f_equal. by eapply Hret.
  - intros key o IHo m x Hd Hr. rewrite map_objop_object, spec_objop_object. runs (IHo _ _ Hd rel_new).
    split; [done|]. intros e' _. apply rel_put; [done|]. cbn [tree_of last_wins]. f_equal. apply rel_close. by eapply Hret.
  - intros key v m x _ Hr. by apply agree_put.
  - intros key p m x _ Hr. apply agree_put; [done|]. apply stored_tree.
  - intros key d m x _ Hr. apply agree_put; [done|]. by rewrite last_wins_duration.
  - intros key t m x _ Hr. apply agree_put; [done|]. by rewrite last_wins_time.
  - intros key v m x Hd Hr. destruct (reflect_total v Hd) as [Ht Hl]. cbn. rewrite Ht. by apply agree_put.
  - intros key m x _ [Hc Ho]. split; [done|]. intros e _. split; [done|]. by constructor.
  - intros e es ts _ Hr. by split.
  - intros v es ts _ Hr. by split.
  - intros op IHop k IHk es ts Hd Hr. rewrite encodes_arr_call in Hd. destruct Hd as [Ho Hd].
    rewrite slice_arr_call, spec_arr_call. specialize (IHop es ts Ho Hr). destruct (slice_arrop op es).
    runs IHop. apply IHk; [done|]. by eapply Hret.
  - intros a IHa es ts Hd Hr. rewrite slice_arrop_array, spec_arrop_array. runs (IHa [] [] Hd eq_refl).
    split; [done|]. intros e' _. apply rel_snoc; [done|]. cbn [tree_of last_wins]. f_equal. by eapply Hret.
  - intros o IHo es ts Hd Hr. rewrite slice_arrop_object, spec_arrop_object. runs (IHo _ _ Hd rel_new).
    split; [done|]. intros e' _. apply rel_snoc; [done|]. cbn [tree_of last_wins]. f_equal. apply rel_close. by eapply Hret.
  - intros p es ts _ Hr. apply agree_snoc; [done|]. apply stored_tree.
  - intros d es ts _ Hr. apply agree_snoc; [done|]. by rewrite last_wins_duration.
  - intros t es ts _ Hr. apply agree_snoc; [done|]. by rewrite last_wins_time.
  - intros v es ts Hd Hr. destruct (reflect_total v Hd) as [Ht Hl]. cbn. rewrite Ht. by apply agree_snoc.
Qed.
End Agree.
