(* ===== verification/Console.v ===== *)
(** * Console

    [ladcore/console_encoder.go]: a line of plain text metadata followed by the
    context as a JSON object. *)
From S2P Require Import Prelude Strconv Utf8 Level Float GoTime Buffer Entry Values Field Encoder.
From S2P Require Import Json Escape JsonTree JsonEncoder JsonSpec JsonProofs JsonTheorems.
Open Scope Z_scope.

(** What [fmt.Fprint] writes for a single element; a string is written as it
    is. *)
Class FprintElem := {
  fprint : prim -> gostring;
  fprint_string s : fprint (PString s) = s;
}.

Module Console.
Section Console.
Context `{TimeFormat} `{GoRuntime} `{FprintElem}.

(** ** The slice encoder *)

(** What the [Append] methods of a [sliceArrayEncoder] add; it has no
    [AppendTimeLayout], so a layout is formatted to a string. *)
Definition slice_elem (pc : pcall) : prim :=
  match pc with
  | CPrim (PByteString v) => PString v
  | CPrim p => p
  | CTimeLayout t layout => PString (time_Format t layout)
  end.

Definition slice_calls (elems : list prim) (cs : list pcall) : list prim := elems ++ map slice_elem cs.

(** ** The encoder *)

(** A configuration without a separator gets a tab. *)
Definition with_separator (c : EncoderConfig) : EncoderConfig :=
  let separator := if streq (ConsoleSeparator c) [] then [Byte.x09] else ConsoleSeparator c in
  mkConfig (MessageKey c) (LevelKey c) (TimeKey c) (NameKey c) (CallerKey c) (FunctionKey c)
    (StacktraceKey c) (SkipLineEnding c) (LineEnding c) (EncodeLevel c) (EncodeTime c)
    (EncodeDuration c) (EncodeCaller c) (EncodeName c) (NewReflectedEncoder c) separator.

Definition NewConsoleEncoder (dre : ReflectedEncoder) (c : EncoderConfig) : jsonEncoder :=
  JSON.newJSONEncoder dre (with_separator c) true.

(** The elements of the metadata. *)
Definition metadata_elems (c : EncoderConfig) (ent : Entry) : list prim :=
  let arr := [] in
  let arr :=
    match EncodeTime c with
    | Some e => if nonempty (TimeKey c) && negb (IsZero (e_Time ent)) then slice_calls arr (e (e_Time ent)) else arr
    | None => arr
    end in
  let arr :=
    match EncodeLevel c with
    | Some e => if nonempty (LevelKey c) then slice_calls arr (e (e_Level ent)) else arr
    | None => arr
    end in
  let arr :=
    if nonempty (e_LoggerName ent) && nonempty (NameKey c)
    then slice_calls arr (default FullNameEncoder (EncodeName c) (e_LoggerName ent)) else arr in
  if Defined (e_Caller ent) then
    let arr :=
      match EncodeCaller c with
      | Some e => if nonempty (CallerKey c) then slice_calls arr (e (e_Caller ent)) else arr
      | None => arr
      end in
    if nonempty (FunctionKey c) then slice_calls arr (CString (Function_ (e_Caller ent))) else arr
  else arr.

(** The loop that prints them. *)
Fixpoint print_elems (sep : gostring) (first : bool) (elems : list prim) (line : Buffer) : Buffer :=
  match elems with
  | [] => line
  | e :: elems =>
      let line := if first then line else AppendString line sep in
      print_elems sep false elems (AppendString line (fprint e))
  end.

Definition addSeparatorIfNecessary (c : EncoderConfig) (line : Buffer) : Buffer :=
  if (0 <? Z.of_nat (Len line)) then AppendString line (ConsoleSeparator c) else line.

(** The clone goes back to the pool also when a marshaler panics. *)
Definition writeContext (p : Pool.t jsonEncoder) (choice : option nat) (enc : jsonEncoder)
    (line : Buffer) (extra : list field) : outcome Buffer * Pool.t jsonEncoder :=
  let '(context, p) := JSON.Clone p choice enc in
  match JSON.run_obj (addFields extra) context with
  | (context, Panic v) => (Panic v, JSON.putJSONEncoder p context)
  | (context, Ret _) =>
      let context := JSON.closeOpenNamespaces context in
      let p := JSON.putJSONEncoder p context in
      if Nat.eqb (Len (buf context)) 0 then (Ret line, p)
      else
        let line := addSeparatorIfNecessary (cfg enc) line in
        let line := AppendByte line Byte.x7b in
        let line := fst (Buffer.Write line (Bytes (buf context))) in
        (Ret (AppendByte line Byte.x7d), p)
  end.

Definition EncodeEntry (p : Pool.t jsonEncoder) (choice : option nat) (enc : jsonEncoder)
    (ent : Entry) (fields : list field) : outcome Buffer * Pool.t jsonEncoder :=
  let c := cfg enc in
  let line := print_elems (ConsoleSeparator c) true (metadata_elems c ent) bufferpool_Get in
  let line :=
    if nonempty (MessageKey c)
    then AppendString (addSeparatorIfNecessary c line) (e_Message ent) else line in
  match writeContext p choice enc line fields with
  | (Panic v, p) => (Panic v, p)
  | (Ret line, p) =>
      let line :=
        if nonempty (e_Stack ent) && nonempty (StacktraceKey c)
        then AppendString (AppendByte line Byte.x0a) (e_Stack ent) else line in
      (Ret (AppendString line (LineEnding c)), p)
  end.

(** ** What a line should be *)

Fixpoint intercalate (sep : gostring) (l : list gostring) : gostring :=
  match l with
  | [] => []
  | [s] => s
  | s :: l => s ++ sep ++ intercalate sep l
  end.

(** Text after a separator, unless the line is still empty. *)
Definition glue (sep line s : gostring) : gostring := if nonempty line then line ++ sep ++ s else line ++ s.

Definition head_text (c : EncoderConfig) (ent : Entry) : gostring :=
  let line := intercalate (ConsoleSeparator c) (map fprint (metadata_elems c ent)) in
  if nonempty (MessageKey c) then glue (ConsoleSeparator c) line (e_Message ent) else line.

Definition console_line (c : EncoderConfig) (ent : Entry) (ms : members) : gostring :=
  let line := head_text c ent in
  let line := match ms with [] => line | _ => glue (ConsoleSeparator c) line (render true (TObj ms)) end in
  let line := if nonempty (e_Stack ent) && nonempty (StacktraceKey c) then line ++ [Byte.x0a] ++ e_Stack ent else line in
  line ++ LineEnding c.

Lemma print_elems_spec sep elems line :
  elems <> [] ->
  bs (print_elems sep false elems line) = bs line ++ sep ++ intercalate sep (map fprint elems).
Proof.
  revert line. induction elems as [|e [|e' elems] IH]; intros line He; [done|..].
  - cbn. by app_norm.
  - change (print_elems sep false (e :: e' :: elems) line) with
      (print_elems sep false (e' :: elems) (AppendString (AppendString line sep) (fprint e))).
    rewrite IH by done. unfold AppendString. cbn [bs].
    change (map fprint (e :: e' :: elems)) with (fprint e :: fprint e' :: map fprint elems).
    cbn [intercalate]. by app_norm.
Qed.

Lemma print_first sep elems :
  bs (print_elems sep true elems bufferpool_Get) = intercalate sep (map fprint elems).
Proof.
  destruct elems as [|e [|e' elems]]; [done|done|].
  change (print_elems sep true (e :: e' :: elems) bufferpool_Get) with
    (print_elems sep false (e' :: elems) (AppendString bufferpool_Get (fprint e))).
  by rewrite print_elems_spec.
Qed.

Lemma separator_glue c line s :
  bs (AppendString (addSeparatorIfNecessary c line) s) = glue (ConsoleSeparator c) (bs line) s.
Proof.
  unfold addSeparatorIfNecessary, glue, Len, AppendString. destruct (bs line) as [|b l] eqn:E.
  - cbn [length]. change (0 <? Z.of_nat 0) with false. change (nonempty []) with false. cbn [bs]. by rewrite E.
  - change (nonempty (b :: l)) with true. rewrite (proj2 (Z.ltb_lt _ _)) by (cbn; lia).
    cbn [bs]. by rewrite ?E, <- ?app_assoc.
Qed.

Section Refines.
Variables (dre : ReflectedEncoder) (c0 : EncoderConfig) (re : ReflectedEncoder).
Local Abbreviation c := (effective dre c0 true).

Lemma writeContext_spec p choice enc x line fields :
  config_ok c re -> built dre c0 true re enc x -> pool_ok p ->
  fst (writeContext p choice enc line fields) =
    match spec_obj c re (addFields fields) x with
    | (y, Ret _) =>
        Ret (mkBuffer match close y with
                      | [] => bs line
                      | ms => glue (ConsoleSeparator c) (bs line) (render true (TObj ms))
                      end)
    | (_, Panic v) => Panic v
    end.
Proof.
  intros Hc Hb Hp. unfold writeContext. destruct (JSON.Clone p choice enc) as [e p'] eqn:HC.
  pose proof (built_holds _ _ _ _ Hc _ _ Hb) as Hx.
  pose proof (Clone_holds _ _ _ _ _ _ _ _ _ _ Hp Hx HC) as He.
  destruct (proj1 (run_agrees c re Hc true) (addFields fields) [] 0%nat e x eq_refl He) as [Hres Hret].
  destruct (JSON.run_obj (addFields fields) e) as [e' r], (spec_obj c re (addFields fields) x) as [y [err|v]];
    cbn [fst snd] in *; subst r; [|done].
  destruct (close_spec c re true _ _ _ (Hret eq_refl)) as (_ & Ht & _ & _).
  set (e4 := JSON.closeOpenNamespaces e') in *. unfold ctx_text in Ht. cbn [cur outer open_text app] in Ht.
  unfold Len, Bytes. fold (text e4). rewrite Ht.
  assert (cfg enc = c) as -> by (by destruct Hx as ((? & _) & _)).
  destruct (close y) as [|m ms].
  - cbn. by destruct line.
  - assert (render_members true (m :: ms) <> []) as Hne.
    { unfold render_members. cbn [map]. unfold render_member, quoted. by destruct ms. }
    destruct (render_members true (m :: ms)) as [|b t] eqn:Hr; [done|]. cbn [length Nat.eqb fst].
    f_equal. rewrite <- Hr.
    transitivity (AppendString (addSeparatorIfNecessary c line) (render true (TObj (m :: ms)))).
    + unfold AppendString, AppendByte, Buffer.Write. cbn [bs fst]. f_equal. by app_norm.
    + by rewrite <- separator_glue; destruct (AppendString _ _).
Qed.

Lemma EncodeEntry_line enc x p choice ent fields :
  config_ok c re -> built dre c0 true re enc x -> pool_ok p ->
  fst (EncodeEntry p choice enc ent fields) =
    match spec_obj c re (addFields fields) x with
    | (y, Ret _) => Ret (mkBuffer (console_line c ent (close y)))
    | (_, Panic v) => Panic v
    end.
Proof.
  intros Hc Hb Hp.
  unfold EncodeEntry.
  assert (cfg enc = c) as -> by (by destruct (built_holds _ _ _ _ Hc _ _ Hb) as ((? & _) & _)).
  set (line := if nonempty (MessageKey c) then _ else _).
  assert (bs line = head_text c ent) as Hline.
  { unfold line, head_text. rewrite <- print_first. destruct (nonempty (MessageKey c)); [|done].
    apply separator_glue. }
  pose proof (writeContext_spec p choice enc x line fields Hc Hb Hp) as Hw.
  destruct (writeContext p choice enc line fields) as [r p']. cbn [fst] in Hw. subst r.
  destruct (spec_obj c re (addFields fields) x) as [y [err|v]]; [|done]. cbn [fst]. f_equal.
  unfold console_line. rewrite Hline. unfold AppendString, AppendByte.
  destruct (nonempty (e_Stack ent) && nonempty (StacktraceKey c)), (close y); cbn [bs]; by app_norm.
Qed.

(** Fields added to the encoder print as fields of the entry. *)
Lemma console_after_With enc x p choice e p' fs e' err q choice' ent gs :
  config_ok c re -> built dre c0 true re enc x -> pool_ok p ->
  JSON.Clone p choice enc = (e, p') -> JSON.run_obj (addFields fs) e = (e', Ret err) -> pool_ok q ->
  fst (EncodeEntry q choice' e' ent gs) = fst (EncodeEntry q choice' enc ent (fs ++ gs)).
Proof.
  intros Hc Hb Hp HC HR Hq.
  assert (built dre c0 true re e' (fst (spec_obj c re (addFields fs) x))) as Hb'
    by (eapply built_with; [exact Hb|exact Hp|exact HC|exact HR]).
  rewrite (EncodeEntry_line e' _ q choice' ent gs Hc Hb' Hq), (EncodeEntry_line enc x q choice' ent (fs ++ gs) Hc Hb Hq).
  rewrite spec_addFields_app.
  pose proof (Clone_holds _ _ _ _ _ _ _ _ _ _ Hp (built_holds _ _ _ _ Hc _ _ Hb) HC) as He.
  destruct (proj1 (run_agrees c re Hc true) (addFields fs) [] 0%nat e x eq_refl He) as [Hres _].
  rewrite HR in Hres. destruct (spec_obj c re (addFields fs) x) as [y [er|v]]; [|done]. reflexivity.
Qed.

(** C22.  The console encoder writes its line: for every encoder a logger can
    hold, the metadata elements in order, separated, then the message, then, if
    there is any, the context and the fields as one JSON object with their
    namespaces nested, then the stack trace on lines of its own, and the line
    ending; only a panic of a marshaler prevents it. *)
Theorem console_entry_refines enc x p choice ent fields
    (Hc : config_ok c re) (Hb : built dre c0 true re enc x) (Hp : pool_ok p) :
  fst (EncodeEntry p choice enc ent fields) =
    match spec_obj c re (addFields fields) x with
    | (y, Ret _) => Ret (mkBuffer (console_line c ent (close y)))
    | (_, Panic v) => Panic v
    end.
Proof. by apply EncodeEntry_line. Qed.
End Refines.
End Console.
End Console.

(** ** An instance *)

Definition exampleFprint : FprintElem.
Proof.
  refine {| fprint p := match p with PString s => s | PInt64 v => FormatInt v | _ => go "?" end |}.
  done.
Defined.

Definition exampleConsole : jsonEncoder := Console.NewConsoleEncoder exampleReflect exampleConfig.

(** The configuration [NewConsoleEncoder] passes on. *)
Definition consoleConfig : EncoderConfig :=
  mkConfig (go "msg") (go "level") (go "ts") (go "logger") (go "caller") (go "func") (go "stack")
    false [] (Some LowercaseLevelEncoder) (Some EpochNanosTimeEncoder) (Some StringDurationEncoder)
    (Some ShortCallerEncoder) None None [Byte.x09].

Lemma console_config_ok :
  @config_ok plainTime (effective exampleReflect consoleConfig true) exampleReflect.
Proof.
  split; cbn; try (intros ? ? [= <-]; by split; [cbn; lia|repeat constructor]); try done.
  intros v s [= <-]. exact raw_ok_braces.
Qed.

Definition exampleConsoleLine : gostring :=
  go "1500000000" ++ [Byte.x09] ++ go "info" ++ [Byte.x09] ++ go "main" ++ [Byte.x09] ++ go "b/c.go:7"
    ++ [Byte.x09] ++ go "f" ++ [Byte.x09] ++ go "hi" ++ [Byte.x09]
    ++ goq "{'n': 3, 'ns': {'x': 1}}" ++ [Byte.x0a] ++ go "trace" ++ [Byte.x0a].

Example console_entry_ex :
  fst (@Console.EncodeEntry plainTime exampleRuntime exampleFprint JSON._jsonPool None exampleConsole
         exampleEntry [Int (go "n") 3; Namespace (go "ns"); Int (go "x") 1]) =
  Ret (mkBuffer exampleConsoleLine).
Proof. vm_compute. reflexivity. Qed.

Lemma console_entry_refines_witness :
  fst (@Console.EncodeEntry plainTime exampleRuntime exampleFprint JSON._jsonPool None exampleConsole
         exampleEntry exampleFields) =
  match @spec_obj plainTime (effective exampleReflect consoleConfig true) exampleReflect
          (@addFields exampleRuntime exampleFields) emptyCtx with
  | (y, Ret _) =>
      Ret (mkBuffer (@Console.console_line plainTime exampleFprint
                       (effective exampleReflect consoleConfig true) exampleEntry (close y)))
  | (_, Panic v) => Panic v
  end.
Proof.
  apply (@Console.console_entry_refines plainTime exampleRuntime exampleFprint exampleReflect
           consoleConfig exampleReflect exampleConsole emptyCtx);
    [apply console_config_ok|exact (built_new _ _ _ _)|apply json_pool_ok].
Defined.
