(* ===== verification/Sampler.v ===== *)
(** * Sampler

    [ladcore/sampler.go]: the counters, the sampling decision, and the races
    [IncCheckReset] tolerates.  The core that uses them is in [Core]. *)
From S2P Require Import Prelude Strconv Utf8 Level GoTime Entry.
Open Scope Z_scope.

(** ** Counters *)

Definition _numLevels : Z := _maxLevel - _minLevel + 1.
Definition _countersPerLevel : Z := 4096.

Definition fnv32a_step (hash : Z) (c : byte) : Z := uint32 (Z.lxor hash (bz c) * 16777619).

Definition fnv32a (s : gostring) : Z := fold_left fnv32a_step s 2166136261.

Example fnv32a_foobar : fnv32a (go "foobar") = 0xbf9cf968.
Proof. reflexivity. Qed.

Record counter := mkCounter { resetAt : Z; count : Z }.

Definition zeroCounter : counter := mkCounter 0 0.

(** The array of counters; those absent from the map are zero. *)
Abbreviation counters := (gmap (Z * Z) counter).

Definition newCounters : counters := ∅.

(** The cell [get] points to. *)
Definition slot (lvl : Z) (key : gostring) : Z * Z :=
  (int8 (lvl - _minLevel), fnv32a key mod _countersPerLevel).

Definition get (cs : counters) (lvl : Z) (key : gostring) : counter :=
  default zeroCounter (cs !! slot lvl key).

(** [IncCheckReset] without interference. *)
Definition IncCheckReset (c : counter) (t : gotime) (tick : Z) : Z * counter :=
  let tn := UnixNano t in
  if tn <? resetAt c then
    let n := uint64 (count c + 1) in (n, mkCounter (resetAt c) n)
  else (1, mkCounter (int64 (tn + tick)) 1).

(** ** Decisions *)

Record sampling := mkSampling { tick : Z; first : Z; thereafter : Z }.

(** [NewSamplerWithOptions(core, tick, first, thereafter)] *)
Definition NewSampling (tick first thereafter : Z) : sampling :=
  mkSampling tick (uint64 first) (uint64 thereafter).

Definition LogDropped : Z := 1.
Definition LogSampled : Z := 2.

(** Whether the [n]th entry is dropped. *)
Definition drops (s : sampling) (n : Z) : bool :=
  (first s <? n) &&
  ((thereafter s =? 0) || negb (uint64 (n - first s) mod thereafter s =? 0)).

(** The decision of [Check], for an enabled entry: what the hook is told, if
    anything, and the counters afterwards.  Levels outside the range are never
    sampled away. *)
Definition decide_sample (s : sampling) (cs : counters) (ent : Entry) : option Z * counters :=
  if (_minLevel <=? e_Level ent) && (e_Level ent <=? _maxLevel) then
    let '(n, c) := IncCheckReset (get cs (e_Level ent) (e_Message ent)) (e_Time ent) (tick s) in
    let cs := <[slot (e_Level ent) (e_Message ent) := c]> cs in
    (Some (if drops s n then LogDropped else LogSampled), cs)
  else (None, cs).

(** ** The array is never left *)

(** The counters after a run of entries. *)
Definition sample_all (s : sampling) (ents : list Entry) : counters :=
  fold_left (fun cs ent => snd (decide_sample s cs ent)) ents newCounters.

(** The cell is one of the array [\[_numLevels\]\[_countersPerLevel\]counter],
    and it holds an [int64] and a [uint64]. *)
Definition cell_ok (ij : Z * Z) (c : counter) : Prop :=
  0 <= fst ij < _numLevels /\ 0 <= snd ij < _countersPerLevel /\
  inS 64 (resetAt c) /\ inU 64 (count c).

Lemma slot_level lvl key :
  _minLevel <= lvl <= _maxLevel -> fst (slot lvl key) = lvl - _minLevel.
Proof.
  unfold slot, _minLevel, _maxLevel, DebugLevel, FatalLevel. cbn [fst]. intros Hl.
  apply wrapS_id; [lia|]. unfold inS. lia.
Qed.

Lemma IncCheckReset_cell c t tick :
  inS 64 (resetAt c) ->
  inS 64 (resetAt (snd (IncCheckReset c t tick))) /\ inU 64 (count (snd (IncCheckReset c t tick))).
Proof.
  intros Hc. unfold IncCheckReset. destruct (_ <? _); cbn; split; try done;
    [by apply wrapU_range|by apply wrapS_range].
Qed.

Lemma decide_sample_cells s cs ent :
  map_Forall cell_ok cs -> map_Forall cell_ok (snd (decide_sample s cs ent)).
Proof.
  intros Hcs. unfold decide_sample.
  destruct (Z.leb_spec _minLevel (e_Level ent)), (Z.leb_spec (e_Level ent) _maxLevel); try done.
  cbn [andb]. set (k := slot _ _). unfold get. fold k.
  assert (inS 64 (resetAt (default zeroCounter (cs !! k)))) as Hc.
  { destruct (cs !! k) eqn:E; cbn; [by apply (Hcs _ _ E)|done]. }
  pose proof (IncCheckReset_cell _ (e_Time ent) (tick s) Hc) as [Hr Hn].
  destruct (IncCheckReset _ _ _) as [n c]. cbn [snd] in *. apply map_Forall_insert_2; [|done].
  assert (fst k = e_Level ent - _minLevel) as Hk by (by apply slot_level).
  unfold cell_ok. rewrite Hk. split_and!; try done; [lia|unfold _numLevels; lia|..];
    unfold k, slot; cbn [snd]; apply Z.mod_pos_bound; done.
Qed.

(** C29.  The sampler stays inside its array: for entries of any level, the
    unknown ones included, any message and any time, every counter ever touched
    is one of the [_numLevels] by [_countersPerLevel], holds values of its
    machine types, and entries of different levels never share one. *)
Theorem sampler_stays_in_bounds s ents :
  map_Forall cell_ok (sample_all s ents) /\
  forall l1 l2 k1 k2, _minLevel <= l1 <= _maxLevel -> _minLevel <= l2 <= _maxLevel ->
    slot l1 k1 = slot l2 k2 -> l1 = l2.
Proof.
  split.
  - unfold sample_all. generalize (map_Forall_empty cell_ok : map_Forall cell_ok newCounters).
    generalize newCounters. induction ents as [|e ents IH]; intros cs Hcs; [done|].
    apply IH. by apply decide_sample_cells.
  - intros l1 l2 k1 k2 H1 H2 E. apply (f_equal fst) in E. rewrite !slot_level in E by done. lia.
Qed.

(** ** A burst of equal entries *)

(** The numbers a sequence of calls gets. *)
Fixpoint numbers (c : counter) (tick : Z) (ts : list gotime) : list Z :=
  match ts with
  | [] => []
  | t :: r => let '(n, c') := IncCheckReset c t tick in n :: numbers c' tick r
  end.

Lemma numbers_counting c tick ts :
  0 <= count c -> count c + Z.of_nat (length ts) < 2 ^ 64 ->
  Forall (fun t => UnixNano t < resetAt c) ts ->
  numbers c tick ts = map (fun k => count c + Z.of_nat k) (seq 1 (length ts)).
Proof.
  revert c. induction ts as [|t ts IH]; intros c Hc Hlen Hts; [done|].
  apply Forall_cons in Hts as [Ht Hts]. cbn [length] in Hlen.
  cbn [numbers length seq map]. unfold IncCheckReset. rewrite (proj2 (Z.ltb_lt _ _) Ht).
  rewrite (wrapU_id 64 (count c + 1)) by (unfold inU; lia).
  rewrite IH; cbn [count resetAt]; [|lia|lia|done]. f_equal.
  rewrite <- (seq_shift (length ts) 1), map_map. apply map_ext. lia.
Qed.

(** The rule of the documentation: the first [first] entries of a tick, then
    every [thereafter]th. *)
Definition kept (s : sampling) (k : Z) : bool :=
  (k <=? first s) || (negb (thereafter s =? 0) && ((k - first s) mod thereafter s =? 0)).

Lemma drops_kept s k :
  0 <= first s -> 0 < k < 2 ^ 64 -> drops s k = negb (kept s k).
Proof.
  intros Hf Hk. unfold drops, kept. rewrite negb_orb, negb_andb, negb_involutive.
  destruct (Z.leb_spec k (first s)).
  - by rewrite (proj2 (Z.ltb_ge _ _)) by lia.
  - rewrite (proj2 (Z.ltb_lt _ _)) by lia. rewrite (wrapU_id 64) by (unfold inU; lia). done.
Qed.

(** C30.  The promise of [NewSamplerWithOptions], for calls that do not race:
    of the entries with one level and message that arrive within a tick of the
    first, exactly the first [first] and then every [thereafter]th are kept;
    with [thereafter] zero, none after the first [first]. *)
Theorem sampler_keeps_first_then_every c s t ts
    (Hexp : resetAt c <= UnixNano t) (Hs : 0 <= first s)
    (Hover : - 2 ^ 63 <= UnixNano t + tick s < 2 ^ 63)
    (Hlen : Z.of_nat (length ts) + 1 < 2 ^ 64)
    (Htick : Forall (fun u => UnixNano u < UnixNano t + tick s) ts) :
  map (drops s) (numbers c (tick s) (t :: ts)) =
  map (fun k => negb (kept s (Z.of_nat k))) (seq 1 (S (length ts))).
Proof.
  assert (numbers c (tick s) (t :: ts) = map Z.of_nat (seq 1 (S (length ts)))) as ->.
  { cbn [numbers]. unfold IncCheckReset. rewrite (proj2 (Z.ltb_ge _ _) Hexp).
    rewrite wrapS_id by (unfold inS; lia). rewrite numbers_counting; cbn [count resetAt]; [|lia|lia|done].
    cbn [seq map]. f_equal. rewrite <- (seq_shift (length ts) 1), map_map. apply map_ext. lia. }
  rewrite map_map. apply map_ext_in. intros k Hk%in_seq. apply drops_kept; lia.
Qed.

Lemma sampler_keeps_first_then_every_witness :
  map (drops (NewSampling 1000 2 3)) (numbers zeroCounter 1000 (map Unix0 [5; 6; 7; 8; 9; 9; 10; 10])) =
  [false; false; true; true; false; true; true; false].
Proof.
  transitivity (map (fun k => negb (kept (NewSampling 1000 2 3) (Z.of_nat k))) (seq 1 8)); [|reflexivity].
  pose proof (sampler_keeps_first_then_every zeroCounter (NewSampling 1000 2 3) (Unix0 5)
                (map Unix0 [6; 7; 8; 9; 9; 10; 10])) as H.
  apply H; [by vm_compute|by vm_compute|by split; vm_compute|by vm_compute|].
  repeat constructor.
Defined.

(** ** Races

    Goroutines run [IncCheckReset] on one counter, interleaved at every atomic
    operation. *)
Module Race.

(** Where a call is: before the load, before the store, before the
    compare-and-swap, before the final add, returned. *)
Inductive pc : Type :=
| Start
| Store (resetAfter : Z)
| Swap (resetAfter : Z)
| Add
| Done (n : Z).

(** A call with [t.UnixNano()] and the tick. *)
Record call := mkCall { tn : Z; dt : Z }.

(** One atomic operation of a call. *)
Definition step (c : counter) (a : call) (p : pc) : option (counter * pc) :=
  match p with
  | Start => Some (c, if tn a <? resetAt c then Add else Store (resetAt c))
  | Store r => Some (mkCounter (resetAt c) 1, Swap r)
  | Swap r =>
      if resetAt c =? r then Some (mkCounter (int64 (tn a + dt a)) (count c), Done 1)
      else Some (c, Add)
  | Add => let n := uint64 (count c + 1) in Some (mkCounter (resetAt c) n, Done n)
  | Done _ => None
  end.

(** The counter and the calls in progress. *)
Definition state : Type := counter * list (call * pc).

(** The [i]th call takes a step. *)
Inductive steps_to : state -> state -> Prop :=
| steps_one c ths i a p c' p' :
    ths !! i = Some (a, p) -> step c a p = Some (c', p') ->
    steps_to (c, ths) (c', <[i := (a, p')]> ths).

Inductive reachable (s : state) : state -> Prop :=
| reach_refl : reachable s s
| reach_step s' s'' : reachable s s' -> steps_to s' s'' -> reachable s s''.

(** A call left alone does what [IncCheckReset] does, in at most four steps. *)
Fixpoint alone (fuel : nat) (c : counter) (a : call) (p : pc) : option (Z * counter) :=
  match p with
  | Done n => Some (n, c)
  | _ =>
      match fuel with
      | O => None
      | S f => match step c a p with
               | Some (c', p') => alone f c' a p'
               | None => None
               end
      end
  end.

Lemma alone_IncCheckReset c t tick :
  alone 4 c (mkCall (UnixNano t) tick) Start = Some (IncCheckReset c t tick).
Proof.
  unfold IncCheckReset. cbn. destruct (UnixNano t <? resetAt c); [done|].
  cbn. by rewrite Z.eqb_refl.
Qed.

(** *** One window *)

Definition is_done (t : call * pc) : nat := match t.2 with Done _ => 1 | _ => 0 end.
#[local] Arguments is_done : simpl never.
Definition dones (ths : list (call * pc)) : nat := list_sum (map is_done ths).

Lemma dones_insert ths i t t' :
  ths !! i = Some t -> is_done t = 0%nat -> dones (<[i := t']> ths) = (dones ths + is_done t')%nat.
Proof.
  unfold dones. revert i. induction ths as [|u ths IH]; intros [|i] H Ht; cbn in *; simplify_eq;
    unfold list_sum in *.
  - lia.
  - rewrite IH by done. lia.
Qed.

Lemma dones_length ths : (dones ths <= length ths)%nat.
Proof.
  unfold dones, list_sum. induction ths as [|[a p] ths IH]; [done|]. cbn.
  assert (is_done (a, p) <= 1)%nat by (unfold is_done; destruct p; cbn; lia). lia.
Qed.

Section Window.
(** The calls race in one window: the counter expired before all of them, and
    each time lies before the end of the window any of them would open. *)
Variables (r0 : Z) (calls : list call).
Hypothesis Hexp : Forall (fun a => r0 <= tn a) calls.
Hypothesis Hsame : forall a b, In a calls -> In b calls -> tn a < tn b + dt b.
Hypothesis Hover : Forall (fun a => - 2 ^ 63 <= tn a + dt a < 2 ^ 63) calls.
Hypothesis Hmany : Z.of_nat (length calls) < 2 ^ 64.

(** Nobody has swapped yet. *)
Definition opening (s : state) : Prop :=
  resetAt s.1 = r0 /\
  forall i a p, s.2 !! i = Some (a, p) ->
    p = Start \/ p = Store r0 \/ (p = Swap r0 /\ count s.1 = 1).

(** Call [k] opened the window. *)
Definition open_by (k : nat) (s : state) : Prop :=
  (forall a, In a calls -> tn a < resetAt s.1) /\ r0 < resetAt s.1 /\
  1 <= count s.1 <= Z.of_nat (dones s.2) /\
  (exists a, s.2 !! k = Some (a, Done 1)) /\
  forall i a p, s.2 !! i = Some (a, p) -> i <> k ->
    p = Start \/ p = Store r0 \/ p = Swap r0 \/ p = Add \/
    (exists n, p = Done n /\ 2 <= n <= Z.of_nat (length calls)).

Definition invariant (s : state) : Prop :=
  map fst s.2 = calls /\ (opening s \/ exists k, open_by k s).

Lemma start_invariant c :
  resetAt c = r0 -> invariant (c, map (fun a => (a, Start)) calls).
Proof.
  intros Hr. split; [cbn; rewrite map_map; apply map_id|]. left. split; [done|]. cbn.
  intros i a p Hi. rewrite list_lookup_fmap in Hi.
  destruct (calls !! i); cbn in Hi; simplify_eq. by left.
Qed.

Lemma insert_same_call (ths : list (call * pc)) i a p p' :
  ths !! i = Some (a, p) -> map fst (<[i := (a, p')]> ths) = map fst ths.
Proof.
  intros Hi. change (fst <$> <[i:=(a, p')]> ths = fst <$> ths).
  rewrite list_fmap_insert. apply list_insert_id. by rewrite list_lookup_fmap, Hi.
Qed.

Lemma call_in (ths : list (call * pc)) i a p : map fst ths = calls -> ths !! i = Some (a, p) -> In a calls.
Proof.
  intros <- Hi. apply list_elem_of_In. change (a ∈ fst <$> ths).
  apply list_elem_of_lookup. exists i. by rewrite list_lookup_fmap, Hi.
Qed.

(** What is known of the others stays known. *)
Lemma others (P : pc -> Prop) (ths : list (call * pc)) i a p' :
  P p' -> (forall j b q, ths !! j = Some (b, q) -> j <> i -> P q) ->
  forall j b q, <[i := (a, p')]> ths !! j = Some (b, q) -> P q.
Proof.
  intros Hp Hothers j b q Hj. apply list_lookup_insert_Some in Hj as [(-> & [= -> ->] & _)|(Hne & Hj)];
    [done|]. eapply Hothers; [done|congruence].
Qed.

Lemma step_opening c ths i a p c' p' :
  map fst ths = calls -> opening (c, ths) -> ths !! i = Some (a, p) -> step c a p = Some (c', p') ->
  opening (c', <[i := (a, p')]> ths) \/ exists k, open_by k (c', <[i := (a, p')]> ths).
Proof.
  intros Hcalls [Hr Hall] Hi Hstep. cbn [fst snd] in *. pose proof (call_in _ _ _ _ Hcalls Hi) as Hin.
  rewrite Forall_forall in Hexp, Hover.
  pose proof (Hexp a (proj2 (list_elem_of_In _ _) Hin)). pose proof (Hover a (proj2 (list_elem_of_In _ _) Hin)).
  pose proof (Hsame a a Hin Hin).
  destruct (Hall i a p Hi) as [->|[->|[-> Hc]]]; cbn in Hstep.
  - rewrite Hr, (proj2 (Z.ltb_ge _ _)) in Hstep by lia. simplify_eq. left. split; [done|].
    cbn. eapply others; [by right; left|eauto].
  - simplify_eq. left. split; [done|]. cbn. eapply others; [by right; right|].
    intros j b q Hj _. destruct (Hall j b q Hj) as [?|[?|[? _]]]; auto.
  - rewrite Hr, Z.eqb_refl in Hstep. simplify_eq. right. exists i.
    rewrite wrapS_id by (unfold inS; lia). split; [|split; [|split; [|split]]]; cbn [fst snd resetAt count].
    + intros b Hb. by apply Hsame.
    + lia.
    + rewrite (dones_insert _ _ _ _ Hi) by done. unfold is_done. cbn. lia.
    + exists a. rewrite list_lookup_insert_eq by (by eapply lookup_lt_Some). done.
    + intros j b q Hj Hne. rewrite list_lookup_insert_ne in Hj by done.
      destruct (Hall j b q Hj) as [?|[?|[? _]]]; auto.
Qed.

Lemma step_open c ths i a p c' p' k :
  map fst ths = calls -> open_by k (c, ths) -> ths !! i = Some (a, p) -> step c a p = Some (c', p') ->
  open_by k (c', <[i := (a, p')]> ths).
Proof.
  intros Hcalls (Hend & Hr & Hc & [ak Hk] & Hall) Hi Hstep. cbn [fst snd] in *.
  pose proof (call_in _ _ _ _ Hcalls Hi) as Hin. pose proof (Hend a Hin) as Htn.
  assert (i <> k) as Hik by (intros ->; rewrite Hk in Hi; simplify_eq).
  assert (length ths = length calls) as Hl by (by rewrite <- Hcalls, length_map).
  pose proof (dones_length (<[i := (a, p')]> ths)) as Hd. rewrite length_insert, Hl in Hd.
  assert (forall c'' q, c' = c'' -> p' = q -> resetAt c'' = resetAt c ->
            1 <= count c'' <= Z.of_nat (dones (<[i := (a, q)]> ths)) ->
            (q = Add \/ q = Swap r0 \/ exists n, q = Done n /\ 2 <= n <= Z.of_nat (length calls)) ->
            open_by k (c'', <[i := (a, q)]> ths)) as Hbuild.
  { intros c'' q -> -> Hrr Hcc Hq. unfold open_by. cbn [fst snd]. rewrite Hrr.
    split; [done|]. split; [done|]. split; [done|]. split.
    - exists ak. by rewrite list_lookup_insert_ne.
    - intros j b x Hj Hjk.
      apply list_lookup_insert_Some in Hj as [(-> & [= -> ->] & _)|(_ & Hj)]; [|eauto].
      destruct Hq as [?|[?|?]]; eauto 6. }
  destruct (Hall i a p Hi Hik) as [->|[->|[->|[->|(n & -> & _)]]]]; cbn in Hstep; try done.
  - rewrite (proj2 (Z.ltb_lt _ _) Htn) in Hstep. simplify_eq. apply Hbuild; auto.
    rewrite (dones_insert _ _ _ _ Hi) by done. lia.
  - simplify_eq. apply Hbuild; auto. rewrite (dones_insert _ _ _ _ Hi) by done. cbn. lia.
  - rewrite (proj2 (Z.eqb_neq _ _)) in Hstep by lia. simplify_eq. apply Hbuild; auto.
    rewrite (dones_insert _ _ _ _ Hi) by done. lia.
  - simplify_eq. rewrite (dones_insert _ _ _ _ Hi) in Hd by done.
    unfold is_done in Hd. cbn [snd] in Hd.
    rewrite (wrapU_id 64) in * by (unfold inU; lia). apply Hbuild; auto.
    + rewrite (dones_insert _ _ _ _ Hi) by done. unfold is_done. cbn. lia.
    + right. right. eexists. split; [done|]. lia.
Qed.

Lemma reachable_invariant s s' : invariant s -> reachable s s' -> invariant s'.
Proof.
  intros Hs Hr. induction Hr as [|s' s'' _ IH Hstep]; [done|].
  destruct Hstep as [c ths i a p c' p' Hi Hst]. destruct IH as [Hcalls Hinv]. cbn [snd] in Hcalls.
  split; [cbn [snd]; by rewrite (insert_same_call _ _ _ _ _ Hi)|].
  destruct Hinv as [Ho|[k Ho]]; [by eapply step_opening|]. right. exists k. by eapply step_open.
Qed.
End Window.

(** Run a schedule: which call moves, step by step. *)
Fixpoint exec (schedule : list nat) (s : state) : option state :=
  match schedule with
  | [] => Some s
  | i :: r =>
      let '(c, ths) := s in
      match ths !! i with
      | Some (a, p) =>
          match step c a p with
          | Some (c', p') => exec r (c', <[i := (a, p')]> ths)
          | None => None
          end
      | None => None
      end
  end.

Lemma exec_reachable schedule s s' : exec schedule s = Some s' -> reachable s s'.
Proof.
  assert (forall s0, reachable s0 s -> exec schedule s = Some s' -> reachable s0 s') as H;
    [|apply H, reach_refl].
  intros s0. revert s. induction schedule as [|i r IH]; intros s Hs He; cbn in He; [by simplify_eq|].
  destruct s as [c ths]. destruct (ths !! i) as [[a p]|] eqn:Hi; [|done].
  destruct (step c a p) as [[c' p']|] eqn:Hst; [|done].
  eapply IH; [|exact He]. eapply reach_step; [exact Hs|]. by econstructor.
Qed.

Definition complete (s : state) : Prop := forall i a p, s.2 !! i = Some (a, p) -> exists n, p = Done n.

(** C6.  A window opens once, however the calls race.  When goroutines call
    [IncCheckReset] on an expired counter within one tick of each other, then
    in every interleaving of their atomic operations that runs to the end
    exactly one call gets 1, and every other gets a number from 2 to the number
    of calls. *)
Theorem race_opens_window_once c calls s
    (Hne : calls <> [])
    (Hexp : Forall (fun a => resetAt c <= tn a) calls)
    (Hsame : forall a b, In a calls -> In b calls -> tn a < tn b + dt b)
    (Hover : Forall (fun a => - 2 ^ 63 <= tn a + dt a < 2 ^ 63) calls)
    (Hmany : Z.of_nat (length calls) < 2 ^ 64)
    (Hreach : reachable (c, map (fun a => (a, Start)) calls) s)
    (Hcomplete : complete s) :
  exists k a, s.2 !! k = Some (a, Done 1) /\
    forall i b p, s.2 !! i = Some (b, p) -> i <> k ->
      exists n, p = Done n /\ 2 <= n <= Z.of_nat (length calls).
Proof.
  assert (invariant (resetAt c) calls s) as [Hcalls [[_ Hall]|[k Hk]]]
    by (eapply reachable_invariant; [done..| |exact Hreach]; by apply start_invariant).
  - exfalso. destruct s as [c' [|[a p] ths]]; cbn in *; [by subst|].
    destruct (Hcomplete 0%nat a p eq_refl) as [n ->].
    by destruct (Hall 0%nat a (Done n) eq_refl) as [?|[?|[? _]]].
  - destruct Hk as (_ & _ & _ & [a Ha] & Hall). exists k, a. split; [done|]. intros i b p Hi Hne'.
    destruct (Hcomplete i b p Hi) as [n ->].
    by destruct (Hall i b (Done n) Hi Hne') as [?|[?|[?|[?|?]]]].
Qed.

(** Two calls that both find the counter expired; the second stores and loses
    the swap. *)
Lemma race_opens_window_once_witness :
  exists k a, [(mkCall 10 5, Done 1); (mkCall 11 5, Done 2)] !! k = Some (a, Done 1) /\
    forall i b p, [(mkCall 10 5, Done 1); (mkCall 11 5, Done 2)] !! i = Some (b, p) -> i <> k ->
      exists n, p = Done n /\ 2 <= n <= 2.
Proof.
  apply (race_opens_window_once (mkCounter 3 9) [mkCall 10 5; mkCall 11 5]
           (mkCounter 15 2, [(mkCall 10 5, Done 1); (mkCall 11 5, Done 2)])); try done.
  - repeat constructor; done.
  - intros a b [<-|[<-|[]]] [<-|[<-|[]]]; done.
  - repeat constructor; done.
  - by apply (exec_reachable [0; 1; 0; 1; 0; 1; 1]%nat).
  - intros [|[|i]] a p Hi; cbn in Hi; simplify_eq; eauto.
Defined.
End Race.
