(* ===== verification/Testing.v ===== *)
(** * Testing

    What the library offers to tests: the writers of [internal/ztest], the
    [TestingWriter] of [ladtest], and the stub for [os.Exit] of
    [internal/exit]. *)
From S2P Require Import Prelude Strconv Utf8 Strings Float GoTime Values.
Open Scope Z_scope.

(** ** [internal/ztest/writer.go] *)

Record Syncer := mkSyncer { sy_err : error; sy_called : bool }.

Definition SetError (err : error) (s : Syncer) : Syncer := mkSyncer err (sy_called s).
Definition Syncer_Sync (s : Syncer) : Syncer * error := (mkSyncer (sy_err s) true, sy_err s).
Definition Called (s : Syncer) : bool := sy_called s.

Definition Discarder_Write (b : gostring) : Z * error := (Z.of_nat (length b), None).
Definition FailWriter_Write (b : gostring) : Z * error := (Z.of_nat (length b), Some (newError (go "failed"))).
Definition ShortWriter_Write (b : gostring) : Z * error := (Z.of_nat (length b) - 1, None).

(** [output[:len(output)-1]] *)
Definition Lines (buf : gostring) : list gostring := removelast (Split Byte.x0a buf).

Definition Stripped (buf : gostring) : gostring := trim_newlines buf.

(** ** [ladtest/logger.go] *)

(** A [TestingT]: what was logged, and whether the test was marked as failed. *)
Record TestingT := mkT { t_logs : list gostring; t_failed : bool }.
Definition newT : TestingT := mkT [] false.

Record TestingWriter := mkTestingWriter { tw_markFailed : bool }.

Definition NewTestingWriter : TestingWriter := mkTestingWriter false.

Definition WithMarkFailed (v : bool) (w : TestingWriter) : TestingWriter := mkTestingWriter v.

Definition TestingWriter_Write (w : TestingWriter) (p : gostring) (t : TestingT) : TestingT * (Z * error) :=
  (mkT (t_logs t ++ [trim_newlines p]) (t_failed t || tw_markFailed w), (Z.of_nat (length p), None)).

Definition TestingWriter_Sync : error := None.

(** ** [internal/exit/exit.go] *)

(** The stubs, by number, and the function [_exit] is: [os.Exit], or the method
    of a stub. *)
Record StubbedExit := mkStub { Exited : bool; Code : Z; prev : option nat }.

Record exits := mkExits { _exit : option nat; stubs : list StubbedExit }.

Definition stub_exit (code : Z) (s : StubbedExit) : StubbedExit := mkStub true code (prev s).

(** [None] when the process ends. *)
Definition exit_With (code : Z) (x : exits) : option exits :=
  match _exit x with
  | None => None
  | Some i =>
      match stubs x !! i with
      | Some s => Some (mkExits (_exit x) (<[i := stub_exit code s]> (stubs x)))
      | None => None
      end
  end.

Definition Stub (x : exits) : nat * exits :=
  (length (stubs x), mkExits (Some (length (stubs x))) (stubs x ++ [mkStub false 0 (_exit x)])).

Definition Unstub (i : nat) (x : exits) : exits :=
  match stubs x !! i with
  | Some s => mkExits (prev s) (stubs x)
  | None => x
  end.

Definition WithStub (f : exits -> option exits) (x : exits) : option (nat * exits) :=
  let '(s, x) := Stub x in
  x ← f x; Some (s, Unstub s x).

(** ** [internal/ztest/timeout.go], [ladtest/timeout.go] *)

Section Timeouts.
(** [strconv.ParseFloat(s, 64)], and what converting a float that is no [int64]
    gives on the machine. *)
Variables (ParseFloat : gostring -> fval + gostring) (out_of_range : fval -> Z).

(** [time.Duration(x)] *)
Definition Duration_of (x : fval) : Z :=
  match x with
  | FFin neg m e => let d := trunc neg m e in if (- 2 ^ 63 <=? d) && (d <? 2 ^ 63) then d else out_of_range x
  | _ => out_of_range x
  end.

(** [scale] is [_timeoutScale]. *)
Definition Timeout (scale : fval) (base : Z) : Z := Duration_of (fmul (of_int base) scale).

(** The time at which a [Sleep] that begins at [now] is over. *)
Definition Sleep (scale : fval) (base now : Z) : Z := now + Z.max 0 (Timeout scale base).

(** The new scale, and the function that undoes the change. *)
Definition Initialize (factor : gostring) (scale : fval) : outcome (fval * (fval -> fval)) :=
  match ParseFloat factor with
  | inr err => Panic err
  | inl fv => let original := scale in Ret (fv, fun _ => original)
  end.

(** [init], with the value of [TEST_TIMEOUT_SCALE] *)
Definition init_scale (v : gostring) (scale : fval) : outcome fval :=
  if nonempty v
  then match Initialize v scale with Ret (fv, _) => Ret fv | Panic err => Panic err end
  else Ret scale.

(** A scale that is a whole number scales exactly, as long as a [float64] holds
    the result. *)
Lemma Timeout_whole scale k base :
  is_int scale k -> Z.abs base <= 2 ^ 53 -> Z.abs (base * k) <= 2 ^ 53 -> Timeout scale base = base * k.
Proof.
  intros Hs Hb Hk. unfold Timeout. pose proof (fmul_int _ _ base k (of_int_exact base Hb) Hs Hk) as Hi.
  destruct (fmul (of_int base) scale) as [| |neg m e] eqn:E; [by destruct Hi as (? & ? & ? & ? & _)..|].
  cbn [Duration_of]. rewrite (trunc_int _ _ _ _ Hi).
  rewrite (proj2 (Z.leb_le _ _)), (proj2 (Z.ltb_lt _ _)) by lia. done.
Qed.

(** Scales set one inside the other are undone from the inside out. *)
Lemma Initialize_nested f g s0 s1 s2 undo1 undo2 :
  Initialize f s0 = Ret (s1, undo1) -> Initialize g s1 = Ret (s2, undo2) -> undo2 s2 = s1 /\ undo1 (undo2 s2) = s0.
Proof. unfold Initialize. repeat case_match; try done. by intros [= <- <-] [= <- <-]. Qed.
End Timeouts.

(** ** Properties *)

Abbreviation no_newline := (without Byte.x0a).

(** The lines written to a [Buffer] are the lines it shows. *)
Lemma Lines_of_lines ls : Forall no_newline ls -> Lines (concat (map (fun l => l ++ [Byte.x0a]) ls)) = ls.
Proof.
  unfold Lines. induction 1 as [|l ls Hl _ IH]; [done|]. cbn [map concat]. rewrite <- app_assoc. cbn [app].
  rewrite Split_piece by done. cbn [removelast].
  pose proof (Split_nonempty Byte.x0a (concat (map (fun l => l ++ [Byte.x0a]) ls))) as Hne.
  destruct (Split Byte.x0a (concat (map (fun l => l ++ [Byte.x0a]) ls))); [done|]. by rewrite IH.
Qed.

(** A program that only exits through [exit.With]. *)
Inductive program : Type :=
| PReturn
| PExit (code : Z) (rest : program).

Fixpoint run_program (p : program) (x : exits) : option exits :=
  match p with
  | PReturn => Some x
  | PExit code rest => x ← exit_With code x; run_program rest x
  end.

Fixpoint last_code (p : program) : option Z :=
  match p with
  | PReturn => None
  | PExit code rest => match last_code rest with Some c => Some c | None => Some code end
  end.

Lemma run_stubbed p x i s :
  _exit x = Some i -> stubs x !! i = Some s ->
  run_program p x = Some (mkExits (Some i) (<[i := match last_code p with
                                                    | Some c => mkStub true c (prev s)
                                                    | None => s
                                                    end]> (stubs x))).
Proof.
  revert x s. induction p as [|code p IH]; intros x s Hi Hs; cbn [run_program last_code].
  - rewrite list_insert_id by done. by destruct x; cbn in *; subst.
  - unfold exit_With. rewrite Hi, Hs. cbn. apply lookup_lt_Some in Hs as Hlt.
    erewrite IH; [|done|by apply list_lookup_insert_eq].
    cbn. rewrite list_insert_insert_eq. destruct (last_code p); done.
Qed.

(** Exits are caught: the program goes on, the stub knows the last code, and
    [_exit] is what it was. *)
Lemma with_stub_catches p x :
  WithStub (run_program p) x =
    Some (length (stubs x),
          mkExits (_exit x)
            (stubs x ++ [match last_code p with
                         | Some c => mkStub true c (_exit x)
                         | None => mkStub false 0 (_exit x)
                         end])).
Proof.
  unfold WithStub. cbn [Stub]. set (s := mkStub false 0 (_exit x)).
  assert ((stubs x ++ [s]) !! length (stubs x) = Some s) as Hs by (by apply list_lookup_middle).
  erewrite run_stubbed; [|done|exact Hs]. cbn. unfold Unstub. cbn [stubs].
  rewrite list_lookup_insert_eq by (rewrite length_app; cbn; lia).
  rewrite insert_app_r_alt by lia. rewrite Nat.sub_diag. cbn. by destruct (last_code p).
Qed.
