(* ===== verification/WriteSyncer.v ===== *)
(** * WriteSyncer

    [ladcore/write_syncer.go] and [ladcore/buffered_write_syncer.go]: where
    encoded entries go.  Files and other writers a user supplies are devices
    that record what they accept and may fail at any call. *)
From S2P Require Import Prelude Strconv Utf8 Float GoTime Values Testing.
Open Scope Z_scope.
Set Warnings "-register-all".

(** ** Devices *)

(** The chunks accepted so far, how often [Sync] was called, and how the next
    calls will go.  As [io.Writer] demands, a call takes everything or fails
    with an error after some bytes; without a plan it succeeds. *)
Record device := mkDevice {
  d_chunks : list gostring;
  d_syncs : nat;
  d_write_plan : list (option (nat * goerror));
  d_sync_plan : list error;
}.

Definition newDevice : device := mkDevice [] 0 [] [].

Definition d_data (d : device) : gostring := concat (d_chunks d).

Definition device_Write (d : device) (p : gostring) : device * (Z * error) :=
  let '(n, err) :=
    match d_write_plan d with
    | Some (n, e) :: _ => (Nat.min n (length p), Some e)
    | _ => (length p, None)
    end in
  (mkDevice (d_chunks d ++ [take n p]) (d_syncs d) (tail (d_write_plan d)) (d_sync_plan d),
   (Z.of_nat n, err)).

Definition device_Sync (d : device) : device * error :=
  let '(err, plan) := match d_sync_plan d with [] => (None, []) | e :: r => (e, r) end in
  (mkDevice (d_chunks d) (S (d_syncs d)) (d_write_plan d) plan, err).

(** ** [bufio.Writer] *)

(** The buffered bytes, the size, and the error that sticks. *)
Record bufio := mkBufio { b_buf : gostring; b_size : Z; b_err : error }.

Definition NewWriterSize (size : Z) : bufio :=
  mkBufio [] (if size <=? 0 then 4096 else size) None.

Definition Buffered (b : bufio) : Z := Z.of_nat (length (b_buf b)).
Definition Available (b : bufio) : Z := b_size b - Buffered b.

Definition io_ErrShortWrite : goerror := newError (go "short write").

Section Bufio.
(** The world the underlying writer lives in, and its [Write]; [None] is a call
    that never returns. *)
Context {W : Type} (wr : gostring -> W -> option (W * (Z * error))).

Definition Flush (b : bufio) (w : W) : option (bufio * W * error) :=
  match b_err b with
  | Some _ => Some (b, w, b_err b)
  | None =>
      if Buffered b =? 0 then Some (b, w, None)
      else
        '(w, (n, err)) ← wr (b_buf b) w;
        let err := match err with
                   | None => if n <? Buffered b then Some io_ErrShortWrite else None
                   | _ => err
                   end in
        match err with
        | Some _ => Some (mkBufio (drop (Z.to_nat n) (b_buf b)) (b_size b) err, w, err)
        | None => Some (mkBufio [] (b_size b) None, w, None)
        end
  end.

(** The loop of [Write]: what does not fit goes out directly when the buffer is
    empty, and fills it up otherwise.  Every round consumes a byte, empties the
    buffer or fails, unless the underlying writer makes no progress without an
    error, and then the loop never ends: out of fuel is [None]. *)
Fixpoint write_loop (fuel : nat) (b : bufio) (p : gostring) (nn : Z) (w : W) :
    option (bufio * W * gostring * Z) :=
  match b_err b with
  | Some _ => Some (b, w, p, nn)
  | None =>
      if Available b <? Z.of_nat (length p) then
        match fuel with
        | O => None
        | S f =>
            if Buffered b =? 0 then
              '(w, (n, err)) ← wr p w;
              write_loop f (mkBufio (b_buf b) (b_size b) err) (drop (Z.to_nat n) p) (nn + n) w
            else
              let n := Available b in
              '(b, w, _) ← Flush (mkBufio (b_buf b ++ take (Z.to_nat n) p) (b_size b) None) w;
              write_loop f b (drop (Z.to_nat n) p) (nn + n) w
        end
      else Some (b, w, p, nn)
  end.

Definition bufio_Write (b : bufio) (p : gostring) (w : W) : option (bufio * W * (Z * error)) :=
  '(b, w, p, nn) ← write_loop (2 * length p + 2) b p 0 w;
  match b_err b with
  | Some _ => Some (b, w, (nn, b_err b))
  | None => Some (mkBufio (b_buf b ++ p) (b_size b) None, w, (nn + Z.of_nat (length p), None))
  end.
End Bufio.

(** ** Write syncers *)

(** The state a [BufferedWriteSyncer] keeps behind its mutex. *)
Record bws := mkBws {
  Size : Z;
  initialized : bool;
  stopped : bool;
  writer : bufio;
  looping : bool; (* the flush loop is running *)
}.

Definition newBws (size : Z) : bws := mkBws size false false (NewWriterSize 0) false.

(** [WBuffered] points to its state; [WWriter] is an [io.Writer] without a
    [Sync] method, inside [writerWrapper]; [WTesting] is a [TestingWriter], which
    points to its test. *)
Inductive WriteSyncer : Type :=
| WDevice (d : nat)
| WWriter (d : nat)
| WLocked (ws : WriteSyncer)
| WMulti (wss : list WriteSyncer)
| WBuffered (b : nat) (WS : WriteSyncer)
| WTesting (t : nat) (tw : TestingWriter).

Record world := mkWorld { devices : gmap nat device; buffers : gmap nat bws; tests : gmap nat TestingT }.

Definition get_device (w : world) (d : nat) : device := default newDevice (devices w !! d).
Definition set_device (w : world) (d : nat) (x : device) : world :=
  mkWorld (<[d := x]> (devices w)) (buffers w) (tests w).
Definition get_bws (w : world) (b : nat) : bws := default (newBws 0) (buffers w !! b).
Definition set_bws (w : world) (b : nat) (x : bws) : world :=
  mkWorld (devices w) (<[b := x]> (buffers w)) (tests w).
Definition get_test (w : world) (t : nat) : TestingT := default newT (tests w !! t).
Definition set_test (w : world) (t : nat) (x : TestingT) : world :=
  mkWorld (devices w) (buffers w) (<[t := x]> (tests w)).

(** [AddSync]: a writer that has [Sync] is used as it is. *)
Definition AddSync (d : nat) (has_Sync : bool) : WriteSyncer := if has_Sync then WDevice d else WWriter d.

Definition Lock (ws : WriteSyncer) : WriteSyncer :=
  match ws with WLocked _ => ws | _ => WLocked ws end.

Definition NewMultiWriteSyncer (wss : list WriteSyncer) : WriteSyncer :=
  match wss with [ws] => ws | _ => WMulti wss end.

Definition _defaultBufferSize : Z := 256 * 1024.

Definition initialize (s : bws) : bws :=
  let size := if Size s =? 0 then _defaultBufferSize else Size s in
  mkBws (Size s) true (stopped s) (NewWriterSize size) true.

Definition with_writer (s : bws) (wr : bufio) : bws :=
  mkBws (Size s) (initialized s) (stopped s) wr (looping s).

Section Syncers.
Context `{MultiErr}.

(** The loops of [multiWriteSyncer]: every syncer is called, whatever the others
    returned. *)
Section Multi.
Variable write : WriteSyncer -> world -> option (world * (Z * error)).
Variable sync : WriteSyncer -> world -> option (world * error).

Fixpoint multi_Write (l : list WriteSyncer) (w : world) (nWritten : Z) (writeErr : error) :
    option (world * (Z * error)) :=
  match l with
  | [] => Some (w, (nWritten, writeErr))
  | ws :: l =>
      '(w, (n, err)) ← write ws w;
      multi_Write l w
        (if (nWritten =? 0) && negb (n =? 0) then n
         else if n <? nWritten then n else nWritten)
        (multierr_Append writeErr err)
  end.

Fixpoint multi_Sync (l : list WriteSyncer) (w : world) (err : error) : option (world * error) :=
  match l with
  | [] => Some (w, err)
  | ws :: l =>
      '(w, err') ← sync ws w;
      multi_Sync l w (multierr_Append err err')
  end.
End Multi.

(** [Write] of a [BufferedWriteSyncer] with the state [s], over [wr]. *)
Definition buffered_Write (wr : gostring -> world -> option (world * (Z * error))) (s : bws)
    (p : gostring) (w : world) : option (bws * world * (Z * error)) :=
  let s := if initialized s then s else initialize s in
  let write b w :=
    '(b, w, r) ← bufio_Write wr b p w;
    Some (with_writer s b, w, r) in
  if (Available (writer s) <? Z.of_nat (length p)) && (0 <? Buffered (writer s)) then
    '(b, w, err) ← Flush wr (writer s) w;
    match err with
    | Some _ => Some (with_writer s b, w, (0, err))
    | None => write b w
    end
  else write (writer s) w.

Fixpoint Write (ws : WriteSyncer) (p : gostring) (w : world) : option (world * (Z * error)) :=
  match ws with
  | WDevice d | WWriter d =>
      let '(x, r) := device_Write (get_device w d) p in Some (set_device w d x, r)
  | WLocked ws => Write ws p w
  | WMulti wss => multi_Write (fun ws => Write ws p) wss w 0 None
  | WBuffered b WS =>
      '(s, w, r) ← buffered_Write (Write WS) (get_bws w b) p w;
      Some (set_bws w b s, r)
  | WTesting t tw => let '(x, r) := TestingWriter_Write tw p (get_test w t) in Some (set_test w t x, r)
  end.

(** [Sync] of a [BufferedWriteSyncer]: flush, then sync what is below; both
    errors are reported. *)
Definition buffered_Sync (wr : gostring -> world -> option (world * (Z * error)))
    (sync : world -> option (world * error)) (s : bws) (w : world) :
    option (bws * world * error) :=
  '(b, w, err) ← (if initialized s then Flush wr (writer s) w else Some (writer s, w, None));
  '(w, err') ← sync w;
  Some (with_writer s b, w, multierr_Append err err').

Fixpoint Sync (ws : WriteSyncer) (w : world) : option (world * error) :=
  match ws with
  | WDevice d => let '(x, err) := device_Sync (get_device w d) in Some (set_device w d x, err)
  | WWriter _ => Some (w, None)
  | WLocked ws => Sync ws w
  | WMulti wss => multi_Sync Sync wss w None
  | WBuffered b WS =>
      '(s, w, err) ← buffered_Sync (Write WS) (Sync WS) (get_bws w b) w;
      Some (set_bws w b s, err)
  | WTesting _ _ => Some (w, TestingWriter_Sync)
  end.

(** One round of [flushLoop], while it runs; the error is ignored. *)
Definition flush_tick (b : nat) (WS : WriteSyncer) (w : world) : option world :=
  if looping (get_bws w b) then
    '(w, _) ← Sync (WBuffered b WS) w; Some w
  else Some w.

(** The critical section of [Stop]. *)
Definition stop_section (s : bws) : bool * bws :=
  if negb (initialized s) then (false, s)
  else if stopped s then (false, s)
  else (true, mkBws (Size s) true true (writer s) (looping s)).

Definition loop_exit (s : bws) : bws :=
  mkBws (Size s) (initialized s) (stopped s) (writer s) false.

(** [Stop].  The flush loop may still take a tick that was pending when it was
    told to stop; [Stop] waits for the loop to end, then syncs. *)
Definition Stop (pending : bool) (b : nat) (WS : WriteSyncer) (w : world) : option (world * error) :=
  let '(stopped, s) := stop_section (get_bws w b) in
  let w := set_bws w b s in
  if negb stopped then Some (w, None)
  else
    w ← (if pending then flush_tick b WS w else Some w);
    let w := set_bws w b (loop_exit (get_bws w b)) in
    Sync (WBuffered b WS) w.
End Syncers.

(** ** A buffered syncer over a device *)

Section Whole.
Context `{MultiErr}.
Variables (b d : nat).

(** What can happen to the syncer; a tick is the flush loop's. *)
Inductive op : Type :=
| OpWrite (p : gostring)
| OpSync
| OpTick
| OpStop (pending : bool).

Definition run_op (o : op) (w : world) : option (world * (Z * error)) :=
  match o with
  | OpWrite p => Write (WBuffered b (WDevice d)) p w
  | OpSync => '(w, err) ← Sync (WBuffered b (WDevice d)) w; Some (w, (0, err))
  | OpTick => w ← flush_tick b (WDevice d) w; Some (w, (0, None))
  | OpStop pending => '(w, err) ← Stop pending b (WDevice d) w; Some (w, (0, err))
  end.

Fixpoint run_ops (os : list op) (w : world) : option (world * list (Z * error)) :=
  match os with
  | [] => Some (w, [])
  | o :: os =>
      '(w, r) ← run_op o w;
      '(w, rs) ← run_ops os w;
      Some (w, r :: rs)
  end.

Definition message (o : op) : list gostring := match o with OpWrite p => [p] | _ => [] end.

(** After the messages [ms], on a device that had received [base]: without an
    error it has got groups of whole messages, one chunk each, and the buffer
    holds the rest; after an error the last chunk may be torn, and the messages
    after it are lost. *)
Inductive delivered (base : list gostring) (w : world) (ms : list gostring) : error -> Prop :=
| delivered_whole groups pending :
    ms = concat groups ++ pending ->
    d_chunks (get_device w d) = base ++ map (@concat byte) groups ->
    b_buf (writer (get_bws w b)) = concat pending ->
    delivered base w ms None
| delivered_torn groups torn lost n e :
    ms = concat groups ++ torn ++ lost ->
    d_chunks (get_device w d) = base ++ map (@concat byte) groups ++ [take n (concat torn)] ->
    delivered base w ms (Some e).

(** The error that sticks; before it the buffer never overflows, and a syncer
    that was never written to is empty. *)
Definition buffer_ok (w : world) (err : error) : Prop :=
  let s := get_bws w b in
  b_err (writer s) = err /\ (err = None -> Buffered (writer s) <= b_size (writer s)) /\
  (initialized s = false -> b_buf (writer s) = [] /\ err = None).

Definition syncer (base : list gostring) (w : world) (ms : list gostring) (err : error) : Prop :=
  delivered base w ms err /\ buffer_ok w err.

Definition plan (w : world) : list (option (nat * goerror)) := d_write_plan (get_device w d).

(** A device does not learn to fail, and an error that appears is one of the
    device's; it stays. *)
Definition step_ok (w w' : world) (err err' : error) : Prop :=
  plan w' ⊆ plan w /\
  match err, err' with
  | Some e, _ => err' = Some e
  | None, Some e => exists n, Some (n, e) ∈ plan w
  | None, None => True
  end.

Lemma step_ok_refl w err : step_ok w w err err.
Proof. split; [done|by destruct err]. Qed.

Lemma step_ok_trans w1 w2 w3 e1 e2 e3 : step_ok w1 w2 e1 e2 -> step_ok w2 w3 e2 e3 -> step_ok w1 w3 e1 e3.
Proof.
  intros [Hp1 H1] [Hp2 H2]. split; [by transitivity (plan w2)|].
  destruct e1 as [e1|]; [by subst e2|]. destruct e2 as [e2|]; [by subst e3|].
  destruct e3 as [e3|]; [|done]. destruct H2 as [n Hn]. exists n. by apply Hp1.
Qed.

Definition wr := Write (WDevice d).

Lemma get_set_device w x : get_device (set_device w d x) d = x.
Proof. unfold get_device, set_device. cbn. by rewrite lookup_insert_eq. Qed.

Lemma get_set_bws w s : get_bws (set_bws w b s) b = s.
Proof. unfold get_bws, set_bws. cbn. by rewrite lookup_insert_eq. Qed.

(** The device received the chunks [cs], in the course of its plan. *)
Definition took (cs : list gostring) (w w' : world) : Prop :=
  d_chunks (get_device w' d) = d_chunks (get_device w d) ++ cs /\ plan w' ⊆ plan w.

Lemma took_nothing w : took [] w w.
Proof. split; [by rewrite app_nil_r|done]. Qed.

Lemma took_app cs1 cs2 w1 w2 w3 : took cs1 w1 w2 -> took cs2 w2 w3 -> took (cs1 ++ cs2) w1 w3.
Proof. intros [E1 P1] [E2 P2]. split; [by rewrite E2, E1, app_assoc|by transitivity (plan w2)]. Qed.

Lemma wr_cases p w :
  exists w', (wr p w = Some (w', (Z.of_nat (length p), None)) /\ took [p] w w') \/
    (exists n e, wr p w = Some (w', (Z.of_nat (Nat.min n (length p)), Some e)) /\
       took [take n p] w w' /\ Some (n, e) ∈ plan w).
Proof.
  unfold wr, took, plan. cbn [Write]. unfold device_Write.
  destruct (d_write_plan (get_device w d)) as [|[[n e]|] r] eqn:Hp; eexists; [left|right; exists n, e|left];
    rewrite ?get_set_device; cbn; rewrite ?get_set_device, ?firstn_all; (split; [done|]);
    cbn; split_and?; try done; [|set_solver..].
  f_equal. f_equal. destruct (Nat.le_ge_cases n (length p)).
  - by rewrite Nat.min_l.
  - by rewrite Nat.min_r, firstn_all, take_ge.
Qed.

Lemma Flush_cases x w :
  b_err x = None ->
  exists w',
    (Flush wr x w = Some (mkBufio [] (b_size x) None, w', None) /\
     took (if Buffered x =? 0 then [] else [b_buf x]) w w') \/
    (exists y n e, Flush wr x w = Some (y, w', Some e) /\ b_err y = Some e /\
       took [take n (b_buf x)] w w' /\ Some (n, e) ∈ plan w).
Proof.
  intros He. unfold Flush. rewrite He. destruct (Z.eqb_spec (Buffered x) 0) as [H0|H0].
  - exists w. left. split; [|apply took_nothing].
    unfold Buffered in H0. destruct x as [[|] n e]; cbn in *; [by subst|lia].
  - destruct (wr_cases (b_buf x) w) as (w' & [[-> Ht]|(n & e & -> & Ht & Hin)]); exists w'.
    + left. cbn [mbind option_bind]. change (Z.of_nat (length (b_buf x))) with (Buffered x).
      by rewrite Z.ltb_irrefl.
    + right. cbn [mbind option_bind]. eauto 10.
Qed.

Lemma bufio_Write_fits x p w :
  b_err x = None -> Z.of_nat (length p) <= Available x ->
  bufio_Write wr x p w =
    Some (mkBufio (b_buf x ++ p) (b_size x) None, w, (Z.of_nat (length p), None)).
Proof.
  intros He Hfit. unfold bufio_Write. replace (2 * length p + 2)%nat with (S (2 * length p + 1)) by lia.
  cbn [write_loop]. rewrite He, (proj2 (Z.ltb_ge _ _)) by lia. cbn [mbind option_bind]. by rewrite He.
Qed.

Lemma bufio_Write_direct n p w :
  0 <= n < Z.of_nat (length p) ->
  exists w',
    (bufio_Write wr (mkBufio [] n None) p w = Some (mkBufio [] n None, w', (Z.of_nat (length p), None)) /\
     took [p] w w') \/
    (exists m e, bufio_Write wr (mkBufio [] n None) p w =
       Some (mkBufio [] n (Some e), w', (Z.of_nat (Nat.min m (length p)), Some e)) /\
       took [take m p] w w' /\ Some (m, e) ∈ plan w).
Proof.
  intros Hn.
  assert (bufio_Write wr (mkBufio [] n None) p w =
    ('(w, (m, err)) ← wr p w;
     '(x, w, q, k) ← write_loop wr (S (2 * length p)) (mkBufio [] n err) (drop (Z.to_nat m) p) (0 + m) w;
     match b_err x with
     | Some _ => Some (x, w, (k, b_err x))
     | None => Some (mkBufio (b_buf x ++ q) (b_size x) None, w, (k + Z.of_nat (length q), None))
     end)) as ->.
  { unfold bufio_Write. replace (2 * length p + 2)%nat with (S (S (2 * length p))) by lia.
    remember (S (2 * length p)) as f. cbn [write_loop b_err].
    unfold Available at 1, Buffered at 1. cbn [b_buf b_size length].
    rewrite (proj2 (Z.ltb_lt _ _)) by lia. unfold Buffered at 1. cbn [b_buf length]. rewrite Z.eqb_refl.
    by destruct (wr p w) as [[w' [m err]]|]. }
  destruct (wr_cases p w) as (w' & [[-> Ht]|(m & e & -> & Ht & Hin)]); exists w'; cbn [mbind option_bind].
  - left. split; [|done]. rewrite Nat2Z.id, drop_all. cbn [write_loop b_err].
    unfold Available, Buffered. cbn [b_buf b_size length].
    rewrite (proj2 (Z.ltb_ge _ _)) by lia. cbn. by rewrite Z.add_0_r.
  - right. exists m, e. by split.
Qed.

Lemma NewWriterSize_pos n : 0 < b_size (NewWriterSize n).
Proof. cbn. destruct (Z.leb_spec n 0); lia. Qed.

(** ** Steps of a syncer that has not failed *)

(** The syncer as [Write] sees it: initialized, with the same content. *)
Lemma initialized_syncer w :
  buffer_ok w None ->
  let s := get_bws w b in
  let s' := if initialized s then s else initialize s in
  b_err (writer s') = None /\ b_buf (writer s') = b_buf (writer s) /\
  Buffered (writer s') <= b_size (writer s') /\ initialized s' = true.
Proof.
  unfold buffer_ok. cbv zeta. intros (Herr & Hsz & Hini).
  destruct (initialized (get_bws w b)) eqn:Ei; [split_and!; auto|].
  rewrite (proj1 (Hini eq_refl)). split_and!; try done.
  pose proof (NewWriterSize_pos (if Size (get_bws w b) =? 0 then _defaultBufferSize else Size (get_bws w b))).
  unfold Buffered. cbn [initialize writer]. cbn in *. lia.
Qed.

Lemma whole_after base w w' s groups pending cs qs ms x n :
  d_chunks (get_device w d) = base ++ map (@concat byte) groups -> took cs w w' ->
  cs = map (@concat byte) qs -> initialized s = true -> x = concat pending -> Z.of_nat (length x) <= n ->
  ms = concat groups ++ concat qs ++ pending ->
  syncer base (set_bws w' b (with_writer s (mkBufio x n None))) ms None.
Proof.
  intros Hch [Ht _] -> Hs -> Hn ->. split.
  - apply (delivered_whole _ _ _ (groups ++ qs) pending).
    + by rewrite concat_app, app_assoc.
    + change (get_device (set_bws ?u b _) d) with (get_device u d). by rewrite Ht, Hch, map_app, app_assoc.
    + by rewrite get_set_bws.
  - unfold buffer_ok. rewrite get_set_bws. split_and!; try done. cbn. congruence.
Qed.

Lemma torn_after base w w' s groups qs torn lost cs ms n y e :
  d_chunks (get_device w d) = base ++ map (@concat byte) groups -> took cs w w' ->
  cs = map (@concat byte) qs ++ [take n (concat torn)] -> initialized s = true -> b_err y = Some e ->
  ms = concat groups ++ concat qs ++ torn ++ lost ->
  syncer base (set_bws w' b (with_writer s y)) ms (Some e).
Proof.
  intros Hch [Ht _] -> Hs He ->. split.
  - apply (delivered_torn _ _ _ (groups ++ qs) torn lost n e).
    + by rewrite concat_app, app_assoc.
    + change (get_device (set_bws ?u b _) d) with (get_device u d). by rewrite Ht, Hch, map_app, !app_assoc.
  - unfold buffer_ok. rewrite get_set_bws. split_and!; try done. cbn. congruence.
Qed.

Lemma took_step cs w w' s err :
  took cs w w' -> match err with Some e => exists n, Some (n, e) ∈ plan w | None => True end ->
  step_ok w (set_bws w' b s) None err.
Proof. intros [_ Hp] He. by split. Qed.

(** What a write comes to: it reports the error that sticks, or all of its
    bytes. *)
Definition write_result (p : gostring) (r : Z * error) (err : error) : Prop :=
  r.2 = err /\ (err = None -> r.1 = Z.of_nat (length p)).

(** A direct write of the messages [g] to the device, after [cs]. *)
Lemma direct_write base w w1 s groups qs g ms n p :
  d_chunks (get_device w d) = base ++ map (@concat byte) groups -> took (map (@concat byte) qs) w w1 ->
  initialized s = true -> 0 <= n < Z.of_nat (length p) -> concat g = p ->
  ms = concat groups ++ concat qs ++ g ->
  exists x w' r err, bufio_Write wr (mkBufio [] n None) p w1 = Some (x, w', r) /\
    syncer base (set_bws w' b (with_writer s x)) ms err /\
    step_ok w (set_bws w' b (with_writer s x)) None err /\ write_result p r err.
Proof.
  intros Hch Ht Hs Hn Hg ->. destruct (bufio_Write_direct n p w1 Hn) as (w' & [[-> Ht']|(m & e & -> & Ht' & Hin)]).
  - eexists _, w', _, None. split; [done|]. pose proof (took_app _ _ _ _ _ Ht Ht') as Ht2.
    split_and!; [|by eapply took_step|by split].
    eapply (whole_after _ w w' _ groups [] _ (qs ++ [g]) _ _ _ Hch Ht2); try done; [|cbn; lia|].
    + rewrite map_app. cbn. by rewrite Hg.
    + rewrite concat_app. cbn. by rewrite !app_nil_r.
  - eexists _, w', _, (Some e). split; [done|]. pose proof (took_app _ _ _ _ _ Ht Ht') as Ht2.
    split_and!; [|by eapply took_step; [|exists m; apply Ht]|by split].
    eapply (torn_after _ w w' _ groups qs g [] _ _ m _ _ Hch Ht2); try done; [by rewrite Hg|by rewrite app_nil_r].
Qed.

Lemma buffered_Write_eq p w :
  Write (WBuffered b (WDevice d)) p w =
    ('(s, w, r) ← buffered_Write wr (get_bws w b) p w; Some (set_bws w b s, r)).
Proof. reflexivity. Qed.

Lemma Write_whole base w ms p :
  syncer base w ms None ->
  exists w' r err, Write (WBuffered b (WDevice d)) p w = Some (w', r) /\
    syncer base w' (ms ++ [p]) err /\ step_ok w w' None err /\ write_result p r err.
Proof.
  intros [Hd Hb]. destruct (initialized_syncer w Hb) as (Herr & Hbuf & Hsz & Hini).
  inversion Hd as [gs ps -> Hch Hps|]; subst. rewrite Hps in Hbuf.
  rewrite buffered_Write_eq. unfold buffered_Write.
  set (s := if initialized _ then _ else _) in *. clearbody s.
  destruct (writer s) as [x n e] eqn:Ex. cbn [b_err b_buf b_size] in *. subst e x.
  unfold Buffered in Hsz. cbn [b_buf b_size] in Hsz.
  destruct (Z.ltb_spec (Available (mkBufio (concat ps) n None)) (Z.of_nat (length p))) as [Hov|Hfit].
  2: { cbn [andb]. rewrite bufio_Write_fits by done. cbn [mbind option_bind].
       eexists _, _, None. split; [done|]. split_and!; [|by eapply took_step; [apply took_nothing|]|by split].
       eapply (whole_after _ w w _ gs (ps ++ [p]) [] []); try done; [apply took_nothing|..].
       - rewrite concat_app. cbn. by rewrite app_nil_r.
       - unfold Available, Buffered in Hfit. cbn in *. rewrite length_app. lia.
       - cbn. by rewrite app_assoc. }
  unfold Available, Buffered in Hov. cbn [b_buf b_size] in Hov.
  destruct (Z.ltb_spec 0 (Buffered (mkBufio (concat ps) n None))) as [Hpos|Hz]; cbn [andb].
  - destruct (Flush_cases (mkBufio (concat ps) n None) w eq_refl) as (w1 & [[-> Ht]|(y & m & e & -> & He & Ht & Hin)]);
      cbn [mbind option_bind b_size b_buf] in *.
    + rewrite (proj2 (Z.eqb_neq _ _)) in Ht by lia.
      destruct (Z.leb_spec (Z.of_nat (length p)) n).
      * rewrite bufio_Write_fits by (done || unfold Available, Buffered; cbn; lia). cbn [mbind option_bind b_buf app b_size].
        eexists _, _, None. split; [done|]. split_and!; [|by eapply took_step|by split].
        eapply (whole_after _ w w1 _ gs [p] _ [ps]); try done; cbn; rewrite ?app_nil_r; try done.
        by rewrite app_assoc.
      * destruct (direct_write base w w1 s gs [ps] [p] ((concat gs ++ ps) ++ [p]) n p Hch Ht Hini)
          as (x & w' & r & err & -> & Hs & Hst & Hr); [lia|cbn; by rewrite app_nil_r|cbn; by rewrite app_nil_r, app_assoc|].
        cbn [mbind option_bind]. eauto 10.
    + eexists _, _, (Some e). split; [done|]. split_and!; [|eapply took_step; eauto|by split].
      eapply (torn_after _ w w1 _ gs [] ps [p] _ _ m); try done. cbn. by rewrite app_assoc.
  - unfold Buffered in Hz. cbn [b_buf] in Hz.
    assert (concat ps = []) as E by (destruct (concat ps); [done|cbn in Hz; lia]). rewrite E in *. cbn [length] in *.
    destruct (direct_write base w w s gs [] (ps ++ [p]) ((concat gs ++ ps) ++ [p]) n p Hch (took_nothing w) Hini)
      as (x & w' & r & err & -> & Hs & Hst & Hr);
      [lia|rewrite concat_app, E; cbn; by rewrite app_nil_r|cbn; by rewrite app_assoc|].
    cbn [mbind option_bind]. eauto 10.
Qed.

(** ** Steps after a failure *)

(** A write error sticks: once a flush has failed, every later write to
    the [BufferedWriteSyncer] reports that error and passes nothing on, so a
    gap in the output is never silent. *)
Theorem buffered_error_sticks WS p w e
    (Hini : initialized (get_bws w b) = true) (Herr : b_err (writer (get_bws w b)) = Some e) :
  exists w', Write (WBuffered b WS) p w = Some (w', (0, Some e)) /\
    devices w' = devices w /\ get_bws w' b = get_bws w b.
Proof.
  cbn [Write]. unfold buffered_Write. rewrite Hini. unfold Flush, bufio_Write.
  assert (write_loop (fun p w => Write WS p w) (2 * length p + 2) (writer (get_bws w b)) p 0 w =
          Some (writer (get_bws w b), w, p, 0)) as El.
  { destruct (2 * length p + 2)%nat; cbn [write_loop]; by rewrite Herr. }
  destruct (_ && _); [rewrite Herr|change (Write WS) with (fun p w => Write WS p w); rewrite El];
    cbn; rewrite ?Herr; cbn; eexists; (split; [done|]); cbn; rewrite get_set_bws;
    (split; [done|]); by destruct (get_bws w b).
Qed.

Lemma torn_more base w w' ms e p :
  syncer base w ms (Some e) -> d_chunks (get_device w' d) = d_chunks (get_device w d) ->
  get_bws w' b = get_bws w b -> syncer base w' (ms ++ p) (Some e).
Proof.
  intros [Hd Hb] Hc Hg. split; [|unfold buffer_ok; by rewrite Hg].
  inversion Hd as [|gs torn lost n e' -> Hch]; subst.
  apply (delivered_torn _ _ _ gs torn (lost ++ p) n e); [by rewrite !app_assoc|congruence].
Qed.

Lemma syncer_initialized base w ms e : syncer base w ms (Some e) -> initialized (get_bws w b) = true.
Proof.
  intros [_ (_ & _ & Hi)]. destruct (initialized (get_bws w b)); [done|]. by destruct (Hi eq_refl).
Qed.

Lemma Write_syncer base w ms err p :
  syncer base w ms err ->
  exists w' r err', Write (WBuffered b (WDevice d)) p w = Some (w', r) /\
    syncer base w' (ms ++ [p]) err' /\ step_ok w w' err err' /\ write_result p r err'.
Proof.
  destruct err as [e|]; [|apply Write_whole]. intros Hs. pose proof (syncer_initialized _ _ _ _ Hs) as Hi.
  destruct (buffered_error_sticks (WDevice d) p w e Hi) as (w' & -> & Hdev & Hg); [apply Hs|].
  assert (get_device w' d = get_device w d) as Ed by (unfold get_device; by rewrite Hdev).
  exists w', (0, Some e), (Some e). split; [done|]. split_and!; [|split; [unfold plan; by rewrite Ed|done]|by split].
  eapply torn_more; [done|by rewrite Ed|done].
Qed.

(** ** Syncs, ticks and stops *)

(** Nothing is left in the buffer. *)
Definition drained (w : world) : Prop := b_buf (writer (get_bws w b)) = [].

(** [Flush] as [Sync] uses it. *)
Lemma Flush_syncer base w ms err (s := get_bws w b) :
  syncer base w ms err ->
  exists x w' err', (if initialized s then Flush wr (writer s) w else Some (writer s, w, None)) = Some (x, w', err') /\
    syncer base (set_bws w' b (with_writer s x)) ms err' /\ step_ok w w' err err' /\
    (err' = None -> b_buf x = []).
Proof.
  intros Hs. subst s. destruct err as [e|].
  { rewrite (syncer_initialized _ _ _ _ Hs). unfold Flush.
    replace (b_err (writer (get_bws w b))) with (Some e) by (symmetry; apply Hs).
    eexists _, w, _. split; [done|]. split_and!; [|apply step_ok_refl|done].
    rewrite <- (app_nil_r ms). eapply torn_more; [done|done|]. rewrite get_set_bws. by destruct (get_bws w b). }
  destruct Hs as [Hd (He & Hsz & Hi)]. inversion Hd as [gs ps -> Hch Hps|]; subst.
  specialize (Hsz eq_refl). destruct (initialized (get_bws w b)) eqn:Ei.
  - destruct (Flush_cases (writer (get_bws w b)) w He) as (w' & [[-> Ht]|(y & m & e & -> & Hy & Ht & Hin)]);
      eexists _, w', _; (split; [done|]).
    + split_and!; [|split; [apply Ht|done]|done]. destruct (Z.eqb_spec (Buffered (writer (get_bws w b))) 0) as [H0|H0].
      * eapply (whole_after _ w w' _ gs ps _ [] _ _ _ Hch Ht); try done; [|unfold Buffered in *; cbn; lia].
        rewrite <- Hps. unfold Buffered in H0. by destruct (b_buf _).
      * eapply (whole_after _ w w' _ gs [] _ [ps] _ _ _ Hch Ht); try done; cbn; rewrite ?Hps, ?app_nil_r; try done.
        unfold Buffered in *. lia.
    + split_and!; [|split; [apply Ht|by exists m]|done].
      eapply (torn_after _ w w' _ gs [] ps [] _ _ m _ _ Hch Ht); try done; cbn; by rewrite ?Hps, ?app_nil_r.
  - destruct (Hi eq_refl) as [Hb _]. eexists _, w, None. split; [done|]. split_and!; [|apply step_ok_refl|done].
    split; [apply (delivered_whole _ _ _ gs ps); [done|done|by rewrite get_set_bws]|].
    unfold buffer_ok. rewrite get_set_bws. cbn [with_writer writer initialized]. rewrite Ei. by split_and!.
Qed.

Lemma syncer_same base w w' ms err :
  d_chunks (get_device w' d) = d_chunks (get_device w d) -> writer (get_bws w' b) = writer (get_bws w b) ->
  initialized (get_bws w' b) = initialized (get_bws w b) -> syncer base w ms err -> syncer base w' ms err.
Proof.
  intros Hc Hw Hi [Hd Hb]. split; [|unfold buffer_ok; by rewrite Hw, Hi].
  inversion Hd as [gs ps Hms Hch Hps|gs torn lost n e Hms Hch]; subst.
  - apply (delivered_whole _ _ _ gs ps); congruence.
  - apply (delivered_torn _ _ _ gs torn lost n e); congruence.
Qed.

Lemma Sync_syncer base w ms err :
  syncer base w ms err ->
  exists w' r err', Sync (WBuffered b (WDevice d)) w = Some (w', r) /\ syncer base w' ms err' /\
    step_ok w w' err err' /\ (is_Some err' -> is_Some r) /\ (err' = None -> drained w') /\
    stopped (get_bws w' b) = stopped (get_bws w b) /\ initialized (get_bws w' b) = initialized (get_bws w b).
Proof.
  intros Hs. destruct (Flush_syncer base w ms err Hs) as (x & w1 & err' & E & Hs1 & Hst & Hx).
  change (Sync (WBuffered b (WDevice d)) w) with
    ('(s, w, err) ← buffered_Sync wr (Sync (WDevice d)) (get_bws w b) w; Some (set_bws w b s, err)).
  unfold buffered_Sync. rewrite E. cbn [mbind option_bind Sync].
  destruct (device_Sync (get_device w1 d)) as [y r] eqn:Es. cbn [mbind option_bind].
  assert (d_chunks y = d_chunks (get_device w1 d) /\ d_write_plan y = plan w1)
    as [Ey1 Ey2] by (unfold device_Sync in Es; by case_match; simplify_eq).
  eexists _, _, err'. split; [done|]. split_and!.
  - eapply syncer_same, Hs1; [|by rewrite !get_set_bws..].
    change (get_device (set_bws ?u b _) d) with (get_device u d). by rewrite get_set_device.
  - eapply step_ok_trans; [exact Hst|]. split; [|by destruct err'].
    unfold plan at 1. change (get_device (set_bws ?u b _) d) with (get_device u d). by rewrite get_set_device, Ey2.
  - intros [e ->]. destruct r as [r|]; [apply Append_some|rewrite Append_nil_r; eauto].
  - intros He. unfold drained. rewrite get_set_bws. by apply Hx.
  - by rewrite get_set_bws.
  - by rewrite get_set_bws.
Qed.

Lemma flush_tick_syncer base w ms err :
  syncer base w ms err ->
  exists w' err', flush_tick b (WDevice d) w = Some w' /\ syncer base w' ms err' /\ step_ok w w' err err' /\
    (looping (get_bws w b) = true -> err' = None -> drained w').
Proof.
  intros Hs. unfold flush_tick. destruct (looping (get_bws w b)).
  - destruct (Sync_syncer base w ms err Hs) as (w' & r & err' & -> & Hs' & Hst & _ & Hd & _). cbn. eauto 10.
  - exists w, err. split_and!; [done..|apply step_ok_refl|done].
Qed.

(** Changing the flags of the syncer changes no data. *)
Lemma syncer_flags base w s ms err :
  writer s = writer (get_bws w b) -> initialized s = initialized (get_bws w b) ->
  syncer base w ms err -> syncer base (set_bws w b s) ms err /\ step_ok w (set_bws w b s) err err.
Proof.
  intros Hw Hi Hs. split; [|split; [done|by destruct err]].
  eapply syncer_same, Hs; [done|by rewrite get_set_bws..].
Qed.

Lemma Stop_syncer pending base w ms err :
  syncer base w ms err ->
  exists w' r err', Stop pending b (WDevice d) w = Some (w', r) /\ syncer base w' ms err' /\ step_ok w w' err err' /\
    (stopped (get_bws w b) = false -> (is_Some err' -> is_Some r) /\ (err' = None -> drained w')).
Proof.
  intros Hs. unfold Stop, stop_section. destruct (initialized (get_bws w b)) eqn:Ei; cbn [negb].
  2: { destruct (syncer_flags base w (get_bws w b) ms err eq_refl eq_refl Hs) as [Hs1 Hst].
       destruct Hs as [_ (_ & _ & Hi)]. destruct (Hi Ei) as [Hb ->].
       eexists _, _, None. split; [done|]. split_and!; [done|done|]. intros _. split; [by intros [? ?]|].
       intros _. unfold drained. by rewrite get_set_bws. }
  destruct (stopped (get_bws w b)) eqn:Est; cbn [negb].
  { destruct (syncer_flags base w (get_bws w b) ms err eq_refl eq_refl Hs) as [Hs1 Hst].
    by eexists _, _, err. }
  set (w1 := set_bws w b _).
  assert (syncer base w1 ms err /\ step_ok w w1 err err) as [Hs1 Hst1] by (by apply syncer_flags).
  assert (exists w2 err2, (if pending then flush_tick b (WDevice d) w1 else Some w1) = Some w2 /\
            syncer base w2 ms err2 /\ step_ok w1 w2 err err2) as (w2 & err2 & -> & Hs2 & Hst2).
  { destruct pending; [destruct (flush_tick_syncer base w1 ms err Hs1) as (w2 & err2 & Ht); naive_solver|].
    exists w1, err. split_and!; [done..|apply step_ok_refl]. }
  cbn [mbind option_bind].
  destruct (syncer_flags base w2 (loop_exit (get_bws w2 b)) ms err2 eq_refl eq_refl Hs2) as [Hs3 Hst3].
  destruct (Sync_syncer _ _ _ _ Hs3) as (w4 & r & err4 & -> & Hs4 & Hst4 & Hr & Hd & _).
  eexists _, _, err4. split; [done|]. split; [done|]. split; [|done].
  eauto using step_ok_trans.
Qed.

Lemma run_op_syncer o base w ms err :
  syncer base w ms err ->
  exists w' r err', run_op o w = Some (w', r) /\ syncer base w' (ms ++ message o) err' /\ step_ok w w' err err' /\
    match o with OpWrite p => write_result p r err' | _ => True end.
Proof.
  intros Hs. destruct o as [p| | |pending]; cbn [run_op message]; rewrite ?app_nil_r.
  - apply (Write_syncer base w ms err p Hs).
  - destruct (Sync_syncer base w ms err Hs) as (w' & r & err' & -> & Hs' & Hst & _). cbn. eauto 10.
  - destruct (flush_tick_syncer base w ms err Hs) as (w' & err' & -> & Hs' & Hst & _). cbn. eauto 10.
  - destruct (Stop_syncer pending base w ms err Hs) as (w' & r & err' & -> & Hs' & Hst & _). cbn. eauto 10.
Qed.

(** The answers to the writes: success for all bytes before the call number
    [k], and the error from there on. *)
Definition answers (os : list op) (rs : list (Z * error)) (k : nat) (err : error) : Prop :=
  forall i p, os !! i = Some (OpWrite p) ->
    exists r, rs !! i = Some r /\ write_result p r (if decide (i < k)%nat then None else err).

(** The error appears in the call number [k]: it is [err] up to that call, and
    [err'] after it. *)
Definition changes_at (os : list op) (w : world) (k : nat) (err err' : error) : Prop :=
  forall j, exists wj rsj, run_ops (take j os) w = Some (wj, rsj) /\
    b_err (writer (get_bws wj b)) = if decide (j <= k)%nat then err else err'.

Lemma run_ops_syncer os base w ms err :
  syncer base w ms err ->
  exists w' rs k err', run_ops os w = Some (w', rs) /\ syncer base w' (ms ++ concat (map message os)) err' /\
    step_ok w w' err err' /\ (is_Some err -> k = 0%nat) /\ answers os rs k err' /\ changes_at os w k err err'.
Proof.
  revert w ms err. induction os as [|o os IH]; intros w ms err Hs.
  { eexists w, _, 0%nat, err. split; [done|]. cbn. rewrite app_nil_r.
    split_and!; [done|apply step_ok_refl|done|done|]. intros j. exists w, []. rewrite firstn_nil.
    split; [done|]. destruct (decide _); apply Hs. }
  destruct (run_op_syncer o base w ms err Hs) as (w1 & r & err1 & E1 & Hs1 & Hst1 & Ho).
  destruct (IH w1 _ err1 Hs1) as (w2 & rs & k & err2 & E2 & Hs2 & Hst2 & Hk & Hans & Hch).
  cbn [run_ops]. rewrite E1. cbn [mbind option_bind]. rewrite E2. cbn [mbind option_bind].
  eexists _, _, (match err1 with None => S k | Some _ => 0%nat end), err2. split; [done|].
  split_and!; [cbn; by rewrite app_assoc|by eapply step_ok_trans| | |].
  - intros [e ->]. destruct Hst1 as [_ ->]. done.
  - intros [|i] p Hi; cbn in Hi.
    + simplify_eq. exists r. split; [done|]. destruct err1 as [e|]; [|done]. by destruct Hst2 as [_ ->].
    + destruct (Hans i p Hi) as (r' & Hr' & Hw). exists r'. split; [done|].
      destruct err1 as [e|]; [by rewrite (Hk (mk_is_Some _ _ eq_refl)) in Hw|].
      destruct (decide (i < k)%nat), (decide (S i < S k)%nat); try lia; done.
  - intros [|j]; cbn [take].
    + exists w, []. split; [done|]. rewrite decide_True by lia. apply Hs.
    + destruct (Hch j) as (wj & rsj & Ej & Hj). exists wj, (r :: rsj). cbn [run_ops]. rewrite E1. cbn [mbind option_bind].
      rewrite Ej. split; [done|]. rewrite Hj. destruct err1 as [e|].
      * destruct Hst2 as [_ ->]. repeat destruct (decide _); try lia; done.
      * assert (err = None) as -> by (destruct err; [by destruct Hst1|done]). repeat destruct (decide _); try lia; done.
Qed.

(** ** Over a device that never fails *)

(** The device got [groups] of whole messages, one chunk each; [pending]
    messages wait in the buffer. *)
Definition holds_messages (w : world) (groups : list (list gostring)) (pending : list gostring) : Prop :=
  let s := get_bws w b in
  let x := get_device w d in
  d_chunks x = map (@concat byte) groups /\ d_write_plan x = [] /\
  b_buf (writer s) = concat pending /\ b_err (writer s) = None /\
  Buffered (writer s) <= b_size (writer s) /\
  (initialized s = false -> b_buf (writer s) = []).

(** Messages in the order written. *)
Definition flat (groups : list (list gostring)) (pending : list gostring) : list gostring :=
  concat groups ++ pending.

Lemma holds_syncer w gs ps : holds_messages w gs ps -> syncer [] w (flat gs ps) None.
Proof.
  intros (Hch & _ & Hbuf & Herr & Hsz & Hini). split; [by apply (delivered_whole _ _ _ gs ps)|].
  split_and!; [done..|]. intros Hi. by split; [apply Hini|].
Qed.

Lemma syncer_holds w w' gs ps ms err :
  holds_messages w gs ps -> step_ok w w' None err -> syncer [] w' ms err ->
  err = None /\ exists gs' ps', holds_messages w' gs' ps' /\ flat gs' ps' = ms.
Proof.
  intros (_ & Hp & _) [Hsub He] [Hd Hb]. unfold plan in Hsub. rewrite Hp in Hsub.
  destruct err as [e|]; [destruct He as [n Hn]; unfold plan in Hn; rewrite Hp in Hn; set_solver|].
  split; [done|]. inversion Hd as [gs' ps' -> Hch Hps|]; subst. exists gs', ps'. split; [|done].
  destruct Hb as (Hb & Hsz & Hini). split_and!; try done; [|by apply Hsz|intros Hi; by apply Hini].
  destruct (d_write_plan (get_device w' d)) as [|f r]; [done|]. set_solver.
Qed.

Lemma Write_holds w gs ps p :
  holds_messages w gs ps ->
  exists w' gs' ps', Write (WBuffered b (WDevice d)) p w = Some (w', (Z.of_nat (length p), None)) /\
    holds_messages w' gs' ps' /\ flat gs' ps' = flat gs (ps ++ [p]).
Proof.
  intros Hh. destruct (Write_syncer [] w _ None p (holds_syncer _ _ _ Hh)) as (w' & [n e] & err & E & Hs & Hst & Hr).
  destruct (syncer_holds _ _ _ _ _ _ Hh Hst Hs) as [-> (gs' & ps' & Hh' & Hf)].
  destruct Hr as [Hr1 Hr2]. cbn in Hr1, Hr2. rewrite E, Hr1, (Hr2 eq_refl).
  exists w', gs', ps'. split_and!; [done..|]. rewrite Hf. unfold flat. by rewrite app_assoc.
Qed.

Lemma drained_data w gs ps :
  holds_messages w gs ps -> drained w -> d_data (get_device w d) = concat (flat gs ps).
Proof.
  intros (Hch & _ & Hbuf & _) Hd. unfold drained in Hd. rewrite Hd in Hbuf. unfold d_data, flat.
  by rewrite Hch, concat_app, <- Hbuf, app_nil_r, concat_map_concat.
Qed.

Lemma Sync_holds w gs ps :
  holds_messages w gs ps ->
  exists w' err gs' ps', Sync (WBuffered b (WDevice d)) w = Some (w', err) /\
    holds_messages w' gs' ps' /\ flat gs' ps' = flat gs ps /\ drained w' /\
    stopped (get_bws w' b) = stopped (get_bws w b).
Proof.
  intros Hh. destruct (Sync_syncer [] w _ None (holds_syncer _ _ _ Hh)) as (w' & r & err & E & Hs & Hst & _ & Hd & Hsp & _).
  destruct (syncer_holds _ _ _ _ _ _ Hh Hst Hs) as [-> (gs' & ps' & Hh' & Hf)].
  exists w', r, gs', ps'. split_and!; [done..|by apply Hd|done].
Qed.

Lemma run_ops_holds os w gs ps :
  holds_messages w gs ps ->
  exists w' rs gs' ps', run_ops os w = Some (w', rs) /\ holds_messages w' gs' ps' /\
    flat gs' ps' = flat gs ps ++ concat (map message os).
Proof.
  intros Hh. destruct (run_ops_syncer os [] w _ None (holds_syncer _ _ _ Hh)) as (w' & rs & k & err & E & Hs & Hst & _).
  destruct (syncer_holds _ _ _ _ _ _ Hh Hst Hs) as [-> (gs' & ps' & Hh' & Hf)]. eauto 10.
Qed.

(** A fresh syncer over an empty device. *)
Definition fresh_world (size : Z) : world := mkWorld ∅ {[ b := newBws size ]} ∅.

Lemma fresh_holds size : holds_messages (fresh_world size) [] [].
Proof.
  unfold holds_messages, fresh_world, get_bws, get_device. cbn. rewrite lookup_singleton_eq. cbn.
  split_and!; try done.
Qed.

(** ** Over any device *)

(** A fresh syncer over the device [x]. *)
Definition world_over (x : device) (size : Z) : world := mkWorld {[ d := x ]} {[ b := newBws size ]} ∅.

Lemma get_world_over x size : get_device (world_over x size) d = x.
Proof. unfold world_over, get_device. cbn. by rewrite lookup_singleton_eq. Qed.

Lemma world_over_syncer x size : syncer (d_chunks x) (world_over x size) [] None.
Proof.
  assert (get_bws (world_over x size) b = newBws size) as E
    by (unfold world_over, get_bws; cbn; by rewrite lookup_singleton_eq).
  split; [apply (delivered_whole _ _ _ [] []); [done| |by rewrite E]|unfold buffer_ok; by rewrite E].
  rewrite get_world_over. cbn. by rewrite app_nil_r.
Qed.

(** C8.  A [BufferedWriteSyncer] neither reorders nor splits messages, and does
    not write on after a failure.  Take any device, which may fail at any of its
    calls, any buffer size and any sequence of writes, syncs, flush-loop ticks and
    stops.  As long as the device has not failed, every write reported success for
    all its bytes, the device has received, after what it had, the messages in
    order, each call delivering a group of whole messages, and the buffer holds
    exactly the rest.  From the call on in which the device failed (call number
    [k], before which the syncer has no error and after which it has that one),
    every write reports that error of the device; what the device received is
    still groups of whole messages in order, but for the last chunk, which is the
    part it took of such a group, and nothing follows it. *)
Theorem buffered_writes_whole_messages x size os :
  exists w rs k err,
    run_ops os (world_over x size) = Some (w, rs) /\
    delivered (d_chunks x) w (concat (map message os)) err /\
    answers os rs k err /\
    changes_at os (world_over x size) k None err /\
    b_err (writer (get_bws w b)) = err /\
    (forall e, err = Some e -> exists n, Some (n, e) ∈ d_write_plan x).
Proof.
  destruct (run_ops_syncer os _ _ _ _ (world_over_syncer x size)) as (w & rs & k & err & E & [Hd Hb] & [_ Hst] & _ & Ha & Hk).
  exists w, rs, k, err. split_and!; [done..|apply Hb|]. intros e ->. unfold plan in Hst. by rewrite get_world_over in Hst.
Qed.

(** Where the syncer is in its life: the first write starts the flush loop, the
    first stop after it ends the loop for good. *)
Inductive phase := Fresh | Running | Ended.

Definition lifecycle (ph : phase) (o : op) : phase :=
  match ph, o with
  | Fresh, OpWrite _ => Running
  | Running, OpStop _ => Ended
  | _, _ => ph
  end.

Definition phase_of (os : list op) : phase := fold_left lifecycle os Fresh.

(** What empties the buffer: a sync always; the flush loop's next tick and a
    stop, unless the loop has ended. *)
Definition flushing (ph : phase) (o : op) : bool :=
  match o, ph with
  | OpWrite _, _ => false
  | OpSync, _ => true
  | _, Ended => false
  | _, _ => true
  end.

Definition in_phase (w : world) (ph : phase) : Prop :=
  let s := get_bws w b in
  (initialized s, stopped s, looping s) =
    match ph with
    | Fresh => (false, false, false)
    | Running => (true, false, true)
    | Ended => (true, true, false)
    end.

Lemma Sync_phase w w' err ph :
  Sync (WBuffered b (WDevice d)) w = Some (w', err) -> in_phase w ph -> in_phase w' ph.
Proof.
  cbn [Sync]. unfold buffered_Sync, mbind, option_bind. intros E Hph.
  repeat case_match; simplify_eq; unfold in_phase; by rewrite get_set_bws.
Qed.

Lemma Write_phase w w' p r ph :
  Write (WBuffered b (WDevice d)) p w = Some (w', r) -> in_phase w ph ->
  in_phase w' (lifecycle ph (OpWrite p)).
Proof.
  cbn [Write]. unfold buffered_Write, mbind, option_bind, in_phase. intros E Hph.
  destruct ph; simplify_eq; repeat case_match; simplify_eq; rewrite get_set_bws; cbn; congruence.
Qed.

Lemma flush_tick_phase w w' ph :
  flush_tick b (WDevice d) w = Some w' -> in_phase w ph -> in_phase w' ph.
Proof.
  unfold flush_tick. destruct (looping (get_bws w b)); [|naive_solver].
  destruct (Sync _ w) as [[w1 err]|] eqn:E; [|done]. cbn. intros [= <-]. by eapply Sync_phase.
Qed.

Lemma Stop_phase pending w w' err ph :
  Stop pending b (WDevice d) w = Some (w', err) -> in_phase w ph ->
  in_phase w' (lifecycle ph (OpStop pending)).
Proof.
  unfold Stop, stop_section. intros E Hph. pose proof Hph as Hfl. unfold in_phase in Hfl.
  destruct ph; injection Hfl as Hi Hs Hl; rewrite Hi, ?Hs in E; cbn [negb] in E; simplify_eq;
    [by unfold in_phase; rewrite get_set_bws| |by unfold in_phase; rewrite get_set_bws].
  destruct (if pending then _ else _) as [w1|] eqn:E1; [|done]. cbn [mbind option_bind] in E.
  eapply Sync_phase; [exact E|]. unfold in_phase. rewrite get_set_bws.
  destruct pending; simplify_eq; [|by rewrite get_set_bws].
  unfold flush_tick in E1. rewrite get_set_bws in E1. cbn [looping] in E1. rewrite Hl in E1.
  cbn [Sync] in E1. unfold buffered_Sync, mbind, option_bind in E1.
  repeat case_match; simplify_eq; by rewrite !get_set_bws.
Qed.

Lemma run_op_phase o w w' r ph :
  run_op o w = Some (w', r) -> in_phase w ph -> in_phase w' (lifecycle ph o).
Proof.
  assert (forall o, match o with OpSync | OpTick => lifecycle ph o = ph | _ => True end) as Hid
    by (intros []; by destruct ph).
  specialize (Hid o). destruct o as [p| | |pending]; cbn [run_op]; [apply Write_phase|rewrite Hid..|];
    unfold mbind, option_bind; intros E Hph; repeat case_match; simplify_eq;
    eauto using Sync_phase, flush_tick_phase, Stop_phase.
Qed.

(** A flushing step leaves nothing in the buffer, or there is an error and it
    reports one; only the flush loop has nobody to report to. *)
Lemma flushing_drains o base w ms err ph :
  syncer base w ms err -> in_phase w ph -> flushing ph o = true ->
  exists w' r err', run_op o w = Some (w', r) /\ syncer base w' ms err' /\ step_ok w w' err err' /\
    (o <> OpTick -> is_Some err' -> is_Some r.2) /\ (err' = None -> drained w').
Proof.
  intros Hs Hph Hfl. unfold in_phase in Hph. destruct o as [p| | |pending]; [done|..]; cbn [run_op].
  - destruct (Sync_syncer _ _ _ _ Hs) as (w' & r & err' & -> & Hs' & Hst & Hr & Hd & _). cbn. eauto 10.
  - destruct (flush_tick_syncer _ _ _ _ Hs) as (w' & err' & E & Hs' & Hst & Hd). rewrite E. cbn.
    eexists w', _, err'. split_and!; [done..|]. destruct ph; [..|done]; injection Hph as Hi Hk Hl.
    + intros _. unfold flush_tick in E. rewrite Hl in E. injection E as <-. by apply Hs.
    + by apply Hd.
  - destruct (Stop_syncer pending _ _ _ _ Hs) as (w' & r & err' & -> & Hs' & Hst & Hr). cbn.
    assert (stopped (get_bws w b) = false) as Hk by (destruct ph; [..|done]; congruence).
    destruct (Hr Hk) as [Hr1 Hr2]. eauto 10.
Qed.

(** What the device has received begins with what it had, and continues with
    a beginning of the messages: all of them once the buffer is empty. *)
Lemma delivered_data x w ms err :
  delivered (d_chunks x) w ms err ->
  d_data (get_device w d) `prefix_of` d_data x ++ concat ms /\ d_data x `prefix_of` d_data (get_device w d) /\
  (err = None -> drained w -> d_data (get_device w d) = d_data x ++ concat ms).
Proof.
  unfold d_data, drained. intros Hd. inversion Hd as [gs ps -> -> ->|gs torn lost n e -> ->]; subst.
  - rewrite !concat_app, concat_map_concat. split_and!; [|by eexists|by intros _ ->; rewrite app_nil_r].
    rewrite app_assoc. by eexists.
  - rewrite !concat_app, concat_map_concat. cbn. rewrite app_nil_r. split_and!; [|by eexists|done].
    apply prefix_app, prefix_app, prefix_app_r. exists (drop n (concat torn)). by rewrite take_drop.
Qed.

Lemma run_ops_snoc os o w w' rs w'' r :
  run_ops os w = Some (w', rs) -> run_op o w' = Some (w'', r) ->
  run_ops (os ++ [o]) w = Some (w'', rs ++ [r]).
Proof.
  revert w rs. induction os as [|o' os IH]; intros w rs; cbn [run_ops app].
  - intros [= <- <-] ->. done.
  - destruct (run_op o' w) as [[w1 r1]|]; [|done]. cbn [mbind option_bind].
    destruct (run_ops os w1) as [[w2 rs2]|] eqn:E; [|done]. cbn [mbind option_bind].
    intros [= <- <-] Ho. by rewrite (IH _ _ E Ho).
Qed.

Lemma run_ops_phase os w w' rs ph :
  run_ops os w = Some (w', rs) -> in_phase w ph -> in_phase w' (fold_left lifecycle os ph).
Proof.
  revert w rs ph. induction os as [|o os IH]; intros w rs ph; cbn [run_ops fold_left];
    [naive_solver|].
  destruct (run_op o w) as [[w1 r]|] eqn:E; [|done]. cbn [mbind option_bind].
  destruct (run_ops os w1) as [[w2 rs2]|] eqn:E2; [|done]. cbn [mbind option_bind].
  intros [= <- <-] Hph. eapply IH; [exact E2|]. by eapply run_op_phase.
Qed.

(** C9.  What is written is delivered, or an error says it is not.  Over any
    device, whatever happened before, the next sync puts every byte written so
    far on the device, in order, after what was there, and so does, as long as the
    flush loop has not ended, its next tick and the stop that ends it; unless the
    device has failed a write.  Then the sync or the stop reports an error, and
    the device holds a beginning of those bytes. *)
Theorem buffered_flush_delivers x size os o (Hfl : flushing (phase_of os) o = true) :
  exists w rs r, run_ops (os ++ [o]) (world_over x size) = Some (w, rs ++ [r]) /\
    let all := d_data x ++ concat (concat (map message os)) in
    match b_err (writer (get_bws w b)) with
    | None => d_data (get_device w d) = all
    | Some e =>
        (exists n, Some (n, e) ∈ d_write_plan x) /\ (o <> OpTick -> is_Some r.2) /\
        d_data (get_device w d) `prefix_of` all /\ d_data x `prefix_of` d_data (get_device w d)
    end.
Proof.
  destruct (run_ops_syncer os _ _ _ _ (world_over_syncer x size)) as (w & rs & k & err & E & Hs & Hst & _).
  assert (in_phase w (phase_of os)) as Hph.
  { eapply run_ops_phase; [exact E|]. unfold in_phase, world_over, get_bws. cbn.
    by rewrite lookup_singleton_eq. }
  destruct (flushing_drains o _ w _ _ _ Hs Hph Hfl) as (w' & r & err' & Eo & [Hd Hb] & Hst' & Hr & Hdr).
  exists w', rs, r. split; [by eapply run_ops_snoc|]. cbv zeta.
  destruct (delivered_data _ _ _ _ Hd) as (H1 & H2 & H3). destruct Hb as (-> & _).
  destruct err' as [e|]; [|by apply H3, Hdr].
  destruct (step_ok_trans _ _ _ _ _ _ Hst Hst') as [_ Hin]. unfold plan in Hin. rewrite get_world_over in Hin.
  split_and!; [done|intros Ho; by apply Hr|done..].
Qed.
End Whole.

(** ** Failures *)

Section Failures.
Context `{MultiErr}.

Lemma Append_None a b : multierr_Append a b = None <-> a = None /\ b = None.
Proof.
  destruct a as [a|]; [|rewrite Append_nil_l; naive_solver].
  destruct b as [b|]; [|rewrite Append_nil_r; naive_solver].
  destruct (Append_some a b) as [e ->]. naive_solver.
Qed.

Definition device_ok (x : device) : bool :=
  match d_write_plan x with Some _ :: _ => false | _ => true end.

Lemma device_Write_error x p : snd (snd (device_Write x p)) = None <-> device_ok x = true.
Proof. unfold device_Write, device_ok. destruct (d_write_plan x) as [|[[n e]|] r]; cbn; naive_solver. Qed.

Lemma multi_Write_devices p ds w n e :
  NoDup ds ->
  exists w' n' e', multi_Write (fun ws => Write ws p) (map WDevice ds) w n e = Some (w', (n', e')) /\
    (forall d, get_device w' d =
       if decide (d ∈ ds) then fst (device_Write (get_device w d) p) else get_device w d) /\
    (e' = None <-> e = None /\ forallb (fun d => device_ok (get_device w d)) ds = true).
Proof.
  revert w n e. induction ds as [|d ds IH]; intros w n e Hnd; cbn [map multi_Write].
  - eexists _, _, _. split; [done|]. split; [|naive_solver]. intros d.
    rewrite decide_False; [done|set_solver].
  - inv Hnd. cbn [Write]. destruct (device_Write (get_device w d) p) as [x [m err]] eqn:Ex.
    cbn [mbind option_bind].
    destruct (IH (set_device w d x)
      (if (n =? 0) && negb (m =? 0) then m else if m <? n then m else n) (multierr_Append e err))
      as (w' & n' & e' & -> & Hdev & Herr); [done|].
    assert (forall d', d' <> d -> get_device (set_device w d x) d' = get_device w d') as Hne.
    { intros d' Hd'. unfold get_device, set_device. cbn. by rewrite lookup_insert_ne. }
    eexists _, _, _. split; [done|]. split.
    + intros d'. rewrite Hdev. destruct (decide (d' = d)) as [->|Hd'].
      * rewrite decide_False, decide_True by set_solver. by rewrite get_set_device, Ex.
      * rewrite Hne by done. destruct (decide (d' ∈ ds)).
        -- by rewrite decide_True by set_solver.
        -- by rewrite decide_False by set_solver.
    + rewrite Herr, Append_None. cbn [forallb]. rewrite andb_true_iff.
      assert (forallb (fun d' => device_ok (get_device (set_device w d x) d')) ds =
              forallb (fun d' => device_ok (get_device w d')) ds) as ->.
      { apply forallb_ext_in. intros d' Hd'%list_elem_of_In. rewrite Hne; [done|]. set_solver. }
      pose proof (device_Write_error (get_device w d) p) as He. rewrite Ex in He. cbn in He. tauto.
Qed.

(** A multi-writer reaches every destination: each underlying syncer gets
    the whole write, including after others failed, no other device is touched,
    and an error is reported exactly when some destination failed. *)
Theorem multi_write_reaches_all p ds w (Hnd : NoDup ds) :
  exists w' n err, Write (WMulti (map WDevice ds)) p w = Some (w', (n, err)) /\
    (forall d, get_device w' d =
       if decide (d ∈ ds) then fst (device_Write (get_device w d) p) else get_device w d) /\
    (err = None <-> forallb (fun d => device_ok (get_device w d)) ds = true).
Proof.
  destruct (multi_Write_devices p ds w 0 None Hnd) as (w' & n & e & E & H1 & H2).
  exists w', n, e. split; [exact E|]. split; [exact H1|]. tauto.
Qed.
End Failures.

(** A [MultiErr] to evaluate examples with: the first error wins. *)
Definition firstError : MultiErr.
Proof.
  refine {| multierr_Append a b := match a with None => b | Some _ => a end |}; intros; try done.
  by destruct e.
Defined.

Definition failing (n : nat) : device := mkDevice [] 0 [Some (n, newError (go "disk full"))] [].

Lemma multi_write_reaches_all_witness :
  exists w' n err,
    @Write firstError (WMulti [WDevice 0; WDevice 1]) (go "hello")
      (mkWorld {[0%nat := failing 2]} ∅ ∅) = Some (w', (n, err)) /\
    (forall d, get_device w' d =
       if decide (d ∈ [0%nat; 1%nat])
       then fst (device_Write (get_device (mkWorld {[0%nat := failing 2]} ∅ ∅) d) (go "hello"))
       else get_device (mkWorld {[0%nat := failing 2]} ∅ ∅) d) /\
    (err = None <-> false = true).
Proof.
  apply (@multi_write_reaches_all firstError (go "hello") [0%nat; 1%nat]).
  repeat constructor; set_solver.
Defined.

Lemma buffered_error_sticks_witness :
  let s := mkBws 16 true false (mkBufio (go "lost") 16 (Some (newError (go "disk full")))) true in
  exists w', @Write firstError (WBuffered 0 (WDevice 0)) (go "more") (mkWorld ∅ {[0%nat := s]} ∅) =
      Some (w', (0, Some (newError (go "disk full")))) /\
    devices w' = ∅ /\ get_bws w' 0 = s.
Proof.
  intros s. exact (@buffered_error_sticks firstError 0%nat (WDevice 0)
                     (go "more") (mkWorld ∅ {[0%nat := s]} ∅) (newError (go "disk full")) eq_refl eq_refl).
Defined.

(** The count a multi-writer returns is not always the smallest, as its
    comment says: a destination that took no bytes is passed over when a later
    one takes some. *)
Theorem multi_write_count_skips_zero `{MultiErr} :
  exists w w' n err, Write (WMulti [WDevice 0; WDevice 1]) (go "hello") w = Some (w', (n, err)) /\
    n = 5 /\ d_data (get_device w' 0) = [].
Proof.
  exists (mkWorld {[0%nat := failing 0]} ∅ ∅). eexists _, _, _. split; [reflexivity|]. by split.
Qed.

(** A device with something on it, whose second write takes a byte and fails. *)
Definition secondFails : device := mkDevice [go "x"] 0 [None; Some (1%nat, newError (go "disk full"))] [].

Lemma buffered_flush_delivers_witness :
  exists w rs r,
    run_ops (H := firstError) 0 1 [OpWrite (go "ab"); OpSync; OpWrite (go "cd"); OpSync] (world_over 0 1 secondFails 4) =
      Some (w, rs ++ [r]) /\
    match b_err (writer (get_bws w 0)) with
    | None => d_data (get_device w 1) = go "xabcd"
    | Some e =>
        (exists n, Some (n, e) ∈ d_write_plan secondFails) /\ (OpSync <> OpTick -> is_Some r.2) /\
        d_data (get_device w 1) `prefix_of` go "xabcd" /\ go "x" `prefix_of` d_data (get_device w 1)
    end.
Proof.
  exact (buffered_flush_delivers (H := firstError) 0 1 secondFails 4
           [OpWrite (go "ab"); OpSync; OpWrite (go "cd")] OpSync eq_refl).
Defined.

(** What that run comes to: the last sync fails after one byte, and a write
    after it is refused. *)
Example second_write_fails :
  exists w, run_ops (H := firstError) 0 1 [OpWrite (go "ab"); OpSync; OpWrite (go "cd"); OpSync; OpWrite (go "ef")]
      (world_over 0 1 secondFails 4) =
    Some (w, [(2, None); (0, None); (2, None); (0, Some (newError (go "disk full"))); (0, Some (newError (go "disk full")))]) /\
    d_data (get_device w 1) = go "xabc".
Proof. eexists. split; reflexivity. Qed.
