(* ===== verification/Concurrent.v ===== *)
(** * Concurrent

    [ladcore/buffered_write_syncer.go] used by several goroutines at once: the
    critical sections of [Write], [Sync] and [Stop] in small steps, the mutex
    around them, the flush loop, and the channels that end it.  A
    critical section, run to its end, is an operation of [WriteSyncer], and does
    end. *)
From S2P Require Import Prelude Strconv Utf8 Float GoTime Values WriteSyncer.
Open Scope Z_scope.

(** ** The program *)

(** The code between [Lock] and [Unlock]. *)
Inductive section : Type :=
| SecWrite (p : gostring)
| SecSync
| SecStop.

(** The variables of a critical section: what it returns, once that is known,
    and whether it decided to stop the loop. *)
Record local := mkLocal { ret_ : option (Z * error); stopping : bool }.

Definition noLocal : local := mkLocal None false.

(** What the mutex protects: the world with the syncer's state, whether its
    ticker runs, and whether the channel [stop] is closed. *)
Record shared := mkShared { sh_world : world; sh_ticker : bool; sh_stop : bool }.

(** The calls of a [BufferedWriteSyncer] goroutines make. *)
Inductive request : Type :=
| RWrite (p : gostring)
| RSync
| RStop.

Inductive who : Type :=
| User (q : request)
| FlushLoop.

(** Where a goroutine is: before [Lock], before the [k]th step of a critical
    section, before [<-s.done], in the [select] of the loop; the loop may not
    have been started or be over, and a call may have returned. *)
Inductive tstate : Type :=
| Want (sec : section)
| In_ (sec : section) (k : nat) (l : local)
| WaitDone
| Select
| Idle
| Exited
| Returned (r : Z * error).

(** The goroutine that holds the mutex, the ticks waiting in the ticker's
    channel, and whether [done] is closed. *)
Record conf := mkConf {
  c_shared : shared;
  c_mu : option nat;
  c_tick : bool;
  c_done : bool;
  c_threads : list (who * tstate);
}.

Section Concurrent.
Context `{MultiErr}.
Variables (b d : nat).

Definition bws_of (sh : shared) : bws := get_bws (sh_world sh) b.
Definition put (sh : shared) (w : world) (s : bws) : shared :=
  mkShared (set_bws w b s) (sh_ticker sh) (sh_stop sh).

Definition micro : Type := local -> shared -> option (local * shared).

(** The steps of [Write]: [initialize], which makes the ticker and the channels
    and starts the loop; the flush before a write that does not fit; the
    write. *)
Definition write_init : micro := fun l sh =>
  if initialized (bws_of sh) then Some (l, sh)
  else Some (l, mkShared (set_bws (sh_world sh) b (initialize (bws_of sh))) true false).

Definition write_flush (p : gostring) : micro := fun l sh =>
  let s := bws_of sh in
  if (Available (writer s) <? Z.of_nat (length p)) && (0 <? Buffered (writer s)) then
    '(bf, w, err) ← Flush (wr d) (writer s) (sh_world sh);
    Some (match err with Some _ => mkLocal (Some (0, err)) false | None => l end,
          put sh w (with_writer s bf))
  else Some (l, sh).

Definition write_write (p : gostring) : micro := fun l sh =>
  match ret_ l with
  | Some _ => Some (l, sh)
  | None =>
      let s := bws_of sh in
      '(bf, w, r) ← bufio_Write (wr d) (writer s) p (sh_world sh);
      Some (mkLocal (Some r) false, put sh w (with_writer s bf))
  end.

(** The steps of [Sync]. *)
Definition sync_flush : micro := fun l sh =>
  let s := bws_of sh in
  '(bf, w, err) ← (if initialized s then Flush (wr d) (writer s) (sh_world sh)
                   else Some (writer s, sh_world sh, None));
  Some (mkLocal (Some (0, err)) false, put sh w (with_writer s bf)).

Definition sync_below : micro := fun l sh =>
  '(w, err') ← Sync (WDevice d) (sh_world sh);
  let err := snd (default (0, None) (ret_ l)) in
  Some (mkLocal (Some (0, multierr_Append err err')) false, mkShared w (sh_ticker sh) (sh_stop sh)).

(** The steps of the critical section of [Stop]. *)
Definition stop_mark : micro := fun l sh =>
  let '(st, s) := stop_section (bws_of sh) in
  if st then Some (mkLocal None true, put sh (sh_world sh) s) else Some (mkLocal None false, sh).

Definition stop_ticker : micro := fun l sh =>
  Some (l, if stopping l then mkShared (sh_world sh) false (sh_stop sh) else sh).

Definition stop_close : micro := fun l sh =>
  Some (l, if stopping l then mkShared (sh_world sh) (sh_ticker sh) true else sh).

Definition micros (sec : section) : list micro :=
  match sec with
  | SecWrite p => [write_init; write_flush p; write_write p]
  | SecSync => [sync_flush; sync_below]
  | SecStop => [stop_mark; stop_ticker; stop_close]
  end.

(** What a call does first, and what comes after a critical section: [Stop]
    waits for the loop if it was the one to stop it, and then syncs. *)
Definition begin (q : request) : tstate :=
  match q with
  | RWrite p => Want (SecWrite p)
  | RSync => Want SecSync
  | RStop => Want SecStop
  end.

Definition after (a : who) (sec : section) (l : local) : tstate :=
  match a, sec with
  | FlushLoop, _ => Select
  | User _, SecStop => if stopping l then WaitDone else Returned (0, None)
  | User _, _ => Returned (default (0, None) (ret_ l))
  end.

(** One step of goroutine [i], if it can take one; [choice] is the channel the
    [select] of the loop takes when both are ready. *)
Definition move (choice : bool) (i : nat) (c : conf) : option conf :=
  let '(mkConf sh mu tick done ths) := c in
  '(a, st) ← ths !! i;
  match st with
  | Want sec =>
      match mu with
      | None => Some (mkConf sh (Some i) tick done (<[i := (a, In_ sec 0 noLocal)]> ths))
      | Some _ => None
      end
  | In_ sec k l =>
      match micros sec !! k with
      | Some f =>
          '(l, sh) ← f l sh;
          Some (mkConf sh mu tick done (<[i := (a, In_ sec (S k) l)]> ths))
      | None => Some (mkConf sh None tick done (<[i := (a, after a sec l)]> ths))
      end
  | WaitDone => if done then Some (mkConf sh mu tick done (<[i := (a, Want SecSync)]> ths)) else None
  | Select =>
      if tick && (choice || negb (sh_stop sh)) then
        Some (mkConf sh mu false done (<[i := (a, Want SecSync)]> ths))
      else if sh_stop sh then Some (mkConf sh mu tick true (<[i := (a, Exited)]> ths))
      else None
  | Idle =>
      if looping (bws_of sh) then Some (mkConf sh mu tick done (<[i := (a, Select)]> ths)) else None
  | Exited | Returned _ => None
  end.

(** What can happen: the ticker ticks, dropping the tick if one is waiting, or
    a goroutine moves. *)
Inductive event : Type :=
| EvTick
| EvMove (i : nat) (choice : bool).

Definition happen (e : event) (c : conf) : option conf :=
  match e with
  | EvTick =>
      if sh_ticker (c_shared c)
      then Some (mkConf (c_shared c) (c_mu c) true (c_done c) (c_threads c)) else None
  | EvMove i choice => move choice i c
  end.

Fixpoint exec (es : list event) (c : conf) : option conf :=
  match es with
  | [] => Some c
  | e :: es => c ← happen e c; exec es c
  end.

(** A new syncer in any world, the loop not started, and goroutines about to
    make the calls. *)
Definition start_shared (w : world) (size : Z) : shared := mkShared (set_bws w b (newBws size)) false false.

Definition start (w : world) (size : Z) (qs : list request) : conf :=
  mkConf (start_shared w size) None false false
    ((FlushLoop, Idle) :: map (fun q => (User q, begin q)) qs).

(** ** A critical section is one operation *)

#[local] Arguments bufio_Write : simpl never.
#[local] Arguments Flush : simpl never.
#[local] Arguments wr : simpl never.
#[local] Arguments buffered_Write : simpl never.

(** The sequential operations of [WriteSyncer] on the shared state. *)
Definition atomic (sec : section) (sh : shared) : option (local * shared) :=
  match sec with
  | SecWrite p =>
      '(w, r) ← Write (WBuffered b (WDevice d)) p (sh_world sh);
      let init := initialized (bws_of sh) in
      Some (mkLocal (Some r) false, mkShared w (sh_ticker sh || negb init) (sh_stop sh && init))
  | SecSync =>
      '(w, err) ← Sync (WBuffered b (WDevice d)) (sh_world sh);
      Some (mkLocal (Some (0, err)) false, mkShared w (sh_ticker sh) (sh_stop sh))
  | SecStop =>
      let '(st, s) := stop_section (bws_of sh) in
      Some (mkLocal None st, if st then mkShared (set_bws (sh_world sh) b s) false true else sh)
  end.

Fixpoint run_micros (ms : list micro) (l : local) (sh : shared) : option (local * shared) :=
  match ms with
  | [] => Some (l, sh)
  | f :: ms => '(l, sh) ← f l sh; run_micros ms l sh
  end.

Lemma run_cons f ms l sh : run_micros (f :: ms) l sh = ('(l, sh) ← f l sh; run_micros ms l sh).
Proof. done. Qed.

Lemma set_set_bws w s s' : set_bws (set_bws w b s) b s' = set_bws w b s'.
Proof. unfold set_bws. cbn. by rewrite insert_insert_eq. Qed.

(** The device does not see the syncer's state. *)
Lemma wr_frame p w s : wr d p (set_bws w b s) = (fun '(w', r) => (set_bws w' b s, r)) <$> wr d p w.
Proof.
  unfold wr. cbn [Write]. change (get_device (set_bws w b s) d) with (get_device w d).
  by destruct (device_Write (get_device w d) p) as [x r].
Qed.

Lemma Flush_frame bf w s :
  Flush (wr d) bf (set_bws w b s) =
    (fun '(bf, w', e) => (bf, set_bws w' b s, e)) <$> Flush (wr d) bf w.
Proof.
  unfold Flush. destruct (b_err bf); [done|]. destruct (Buffered bf =? 0); [done|].
  rewrite wr_frame. destruct (wr d (b_buf bf) w) as [[w' [n err]]|]; [|done]. cbn.
  by destruct (match err with Some _ => err | None => _ end).
Qed.

Lemma write_loop_frame fuel bf p nn w s :
  write_loop (wr d) fuel bf p nn (set_bws w b s) =
    (fun '(bf, w', p, nn) => (bf, set_bws w' b s, p, nn)) <$> write_loop (wr d) fuel bf p nn w.
Proof.
  revert bf p nn w. induction fuel as [|fuel IH]; intros bf p nn w; cbn [write_loop];
    (destruct (b_err bf); [done|]); (destruct (Available bf <? _); [|done]); [done|].
  destruct (Buffered bf =? 0).
  - rewrite wr_frame. destruct (wr d p w) as [[w' [n err]]|]; [|done]. cbn. apply IH.
  - rewrite Flush_frame. destruct (Flush (wr d) _ w) as [[[bf' w'] err]|]; [|done]. cbn. apply IH.
Qed.

Lemma bufio_Write_frame bf p w s :
  bufio_Write (wr d) bf p (set_bws w b s) =
    (fun '(bf, w', r) => (bf, set_bws w' b s, r)) <$> bufio_Write (wr d) bf p w.
Proof.
  unfold bufio_Write. rewrite write_loop_frame.
  destruct (write_loop _ _ bf p 0 w) as [[[[bf' w'] p'] nn]|]; [|done]. cbn. by destruct (b_err bf').
Qed.

(** The steps of [Write] on an initialized syncer, whose state may just have
    been put into the world. *)
Lemma write_rest p sh w s :
  initialized s = true -> bws_of sh = s -> sh_world sh = w \/ sh_world sh = set_bws w b s ->
  run_micros [write_flush p; write_write p] noLocal sh =
    ('(s', w', r) ← buffered_Write (wr d) s p w; Some (mkLocal (Some r) false, put sh w' s')).
Proof.
  intros Hi Hs Hw. unfold buffered_Write. rewrite Hi. cbn [run_micros]. unfold write_flush. rewrite Hs.
  destruct (_ && _).
  - assert (Flush (wr d) (writer s) (sh_world sh) = Flush (wr d) (writer s) w \/
      Flush (wr d) (writer s) (sh_world sh) =
        (fun '(bf, w', e) => (bf, set_bws w' b s, e)) <$> Flush (wr d) (writer s) w) as HF.
    { destruct Hw as [-> | ->]; [by left|right; apply Flush_frame]. }
    destruct HF as [-> | ->]; (destruct (Flush (wr d) (writer s) w) as [[[bf w'] [e|]]|]; [..|done]); cbn;
      unfold put, write_write, bws_of; cbn; rewrite ?set_set_bws, ?get_set_bws; try done;
      rewrite bufio_Write_frame; cbn;
      (destruct (bufio_Write (wr d) bf p w') as [[[bf' w''] r]|]; [|done]); cbn;
      unfold put; cbn; by rewrite set_set_bws.
  - cbn. unfold write_write. cbn. rewrite Hs.
    destruct Hw as [-> | ->]; [|rewrite bufio_Write_frame];
      (destruct (bufio_Write (wr d) (writer s) p w) as [[[bf' w''] r]|]; [|done]); cbn;
      unfold put; by rewrite ?set_set_bws.
Qed.

Lemma Write_buffered p w :
  Write (WBuffered b (WDevice d)) p w =
    ('(s, w, r) ← buffered_Write (wr d) (get_bws w b) p w; Some (set_bws w b s, r)).
Proof. done. Qed.

Lemma section_atomic sec sh : run_micros (micros sec) noLocal sh = atomic sec sh.
Proof.
  destruct sec as [p| |].
  - change (micros (SecWrite p)) with (write_init :: [write_flush p; write_write p]).
    rewrite run_cons. cbn [atomic]. rewrite Write_buffered. unfold write_init, bws_of.
    destruct (initialized (get_bws (sh_world sh) b)) eqn:Ei; cbn [mbind option_bind].
    + rewrite (write_rest p sh (sh_world sh) (get_bws (sh_world sh) b)) by eauto.
      destruct (buffered_Write _ _ _ _) as [[[s' w'] r]|]; [|done]. cbn.
      by rewrite orb_false_r, andb_true_r.
    + set (s1 := initialize _).
      rewrite (write_rest p _ (sh_world sh) s1); [|done|by apply get_set_bws|by right].
      assert (forall s, initialized s = false ->
        buffered_Write (wr d) s p (sh_world sh) = buffered_Write (wr d) (initialize s) p (sh_world sh)) as Hun.
      { intros s Hs. unfold buffered_Write. by rewrite Hs. }
      rewrite (Hun _ Ei). fold s1. destruct (buffered_Write _ s1 _ _) as [[[s' w'] r]|]; [|done]. cbn. unfold put. cbn.
      by rewrite orb_true_r, andb_false_r.
  - cbn [micros run_micros atomic Sync]. unfold sync_flush, buffered_Sync, bws_of. fold (wr d).
    destruct (if initialized _ then _ else _) as [[[bf w'] err]|]; [|done]. cbn.
    change (get_device (set_bws w' b _) d) with (get_device w' d).
    by destruct (device_Sync (get_device w' d)) as [x e].
  - cbn [micros run_micros atomic]. unfold stop_mark.
    destruct (stop_section (bws_of sh)) as [[|] s]; cbn; [|by destruct sh]. done.
Qed.

(** ** Every critical section ends *)

Definition cap_ok (bf : bufio) : Prop := 0 < b_size bf /\ Buffered bf <= b_size bf.

Lemma wr_total p w :
  exists w' n err, wr d p w = Some (w', (Z.of_nat n, err)) /\ (n <= length p)%nat /\ (err = None -> n = length p).
Proof.
  unfold wr. cbn [Write]. unfold device_Write.
  destruct (d_write_plan (get_device w d)) as [|[[n e]|] plan]; cbn; eexists _, _, _; (split; [done|]); (split; [lia|done]).
Qed.

Lemma Flush_total bf w :
  cap_ok bf -> exists bf' w' err, Flush (wr d) bf w = Some (bf', w', err) /\ cap_ok bf' /\
    b_size bf' = b_size bf /\ b_err bf' = err /\ (err = None -> b_buf bf' = []).
Proof.
  intros [Hpos Hcap]. unfold Flush. destruct (b_err bf) as [e|] eqn:Ee;
    [by exists bf, w, (Some e); unfold cap_ok; split_and!|].
  destruct (Z.eqb_spec (Buffered bf) 0) as [H0|H0].
  - eexists bf, w, None. split_and!; try done. unfold Buffered in H0. by destruct (b_buf bf).
  - destruct (wr_total (b_buf bf) w) as (w' & n & err & -> & Hn & Hall). cbn [mbind option_bind].
    destruct (match err with Some _ => err | None => _ end) as [e|] eqn:Eerr.
    + eexists _, _, _. split; [done|]. unfold cap_ok, Buffered in *. cbn. rewrite length_drop.
      split_and!; try done. lia.
    + eexists _, _, _. split; [done|]. unfold cap_ok, Buffered in *. cbn. split_and!; try done. lia.
Qed.

Lemma write_loop_end fuel bf p nn w :
  cap_ok bf -> b_err bf <> None \/ Z.of_nat (length p) <= Available bf ->
  write_loop (wr d) fuel bf p nn w = Some (bf, w, p, nn).
Proof.
  intros Hcap Hor. destruct fuel; cbn [write_loop]; (destruct (b_err bf) as [e|]; [done|]);
    destruct Hor as [?|Hfit]; try done; by rewrite (proj2 (Z.ltb_ge _ _)) by lia.
Qed.

(** The buffer empty, what does not fit goes out in one call. *)
Lemma write_loop_direct fuel bf p nn w :
  cap_ok bf -> b_buf bf = [] -> exists bf' w' p' nn',
    write_loop (wr d) (S fuel) bf p nn w = Some (bf', w', p', nn') /\ cap_ok bf' /\
    (b_err bf' = None -> Z.of_nat (length p') <= Available bf').
Proof.
  intros Hcap Hbuf. cbn [write_loop]. destruct (b_err bf) as [e|] eqn:Ee.
  { eexists _, _, _, _. split; [done|]. split; [done|]. congruence. }
  destruct (Z.ltb_spec (Available bf) (Z.of_nat (length p))) as [Hlt|Hge]; [|by eexists _, _, _, _].
  unfold Buffered at 1. rewrite Hbuf. cbn [length Z.of_nat Z.eqb].
  destruct (wr_total p w) as (w' & n & err & -> & Hn & Hall). cbn [mbind option_bind].
  assert (cap_ok (mkBufio [] (b_size bf) err)) as Hc by (destruct Hcap; unfold cap_ok, Buffered; cbn; lia).
  rewrite write_loop_end.
  - eexists _, _, _, _. split; [done|]. split; [done|]. cbn [b_err]. intros Herr.
    rewrite length_drop, (Hall Herr). destruct Hcap. unfold Available, Buffered. cbn. lia.
  - done.
  - cbn [b_err]. destruct err; [by left|right]. rewrite length_drop, Hall by done. destruct Hc. cbn in *.
    unfold Available, Buffered. cbn. lia.
Qed.

Lemma bufio_Write_total bf p w :
  cap_ok bf -> exists bf' w' r, bufio_Write (wr d) bf p w = Some (bf', w', r) /\ cap_ok bf'.
Proof.
  intros Hcap. unfold bufio_Write.
  assert (exists bf' w' p' nn, write_loop (wr d) (2 * length p + 2) bf p 0 w = Some (bf', w', p', nn) /\
            cap_ok bf' /\ (b_err bf' = None -> Z.of_nat (length p') <= Available bf'))
    as (bf' & w' & p' & nn & -> & [Hpos Hc] & Hfit).
  { replace (2 * length p + 2)%nat with (S (S (2 * length p))) by lia.
    destruct (Z.eqb_spec (Buffered bf) 0) as [H0|H0].
    { apply write_loop_direct; [done|]. unfold Buffered in H0. by destruct (b_buf bf). }
    remember (S (2 * length p)) as fuel eqn:Hfuel.
    cbn [write_loop]. destruct (b_err bf) as [e|] eqn:Ee.
    { eexists _, _, _, _. split; [done|]. split; [done|]. congruence. }
    destruct (Z.ltb_spec (Available bf) (Z.of_nat (length p))) as [Hlt|Hge]; [|by eexists _, _, _, _].
    rewrite (proj2 (Z.eqb_neq _ _) H0).
    destruct (Flush_total (mkBufio (b_buf bf ++ take (Z.to_nat (Available bf)) p) (b_size bf) None) w)
      as (bf' & w' & err & -> & Hc' & Hsz & He & Hb).
    { destruct Hcap. unfold cap_ok, Available, Buffered in *. cbn. rewrite length_app, length_take. lia. }
    cbn [mbind option_bind]. destruct err as [e|].
    - rewrite write_loop_end by (done || (left; congruence)). eexists _, _, _, _.
      split; [done|]. split; [done|]. congruence.
    - subst fuel. apply write_loop_direct; auto. }
  cbn [mbind option_bind]. destruct (b_err bf') eqn:Ee; [by eexists _, _, _|].
  eexists _, _, _. split; [done|]. specialize (Hfit eq_refl). unfold cap_ok, Available, Buffered in *. cbn.
  rewrite length_app. lia.
Qed.

(** What holds of the shared state whenever the mutex is free. *)
Definition good (sh : shared) : Prop :=
  let s := bws_of sh in
  cap_ok (writer s) /\ initialized s = looping s /\ (sh_stop sh = true -> looping s = true).

Definition shape (sec : section) (l : local) : Prop :=
  match sec with
  | SecStop => ret_ l = None
  | _ => is_Some (ret_ l) /\ stopping l = false
  end.

Lemma buffered_Write_total s p w :
  cap_ok (writer s) -> exists bf w' r,
    buffered_Write (wr d) s p w =
      Some (with_writer (if initialized s then s else initialize s) bf, w', r) /\ cap_ok bf.
Proof.
  intros Hc. unfold buffered_Write. set (s1 := if initialized s then s else initialize s).
  assert (cap_ok (writer s1)) as Hc1.
  { unfold s1. destruct (initialized s); [done|]. unfold cap_ok, initialize, NewWriterSize, Buffered. cbn.
    repeat case_match; lia. }
  destruct (_ && _).
  - destruct (Flush_total (writer s1) w Hc1) as (bf & w' & [e|] & -> & Hbf & _); cbn [mbind option_bind]; [by eauto 10|].
    destruct (bufio_Write_total bf p w' Hbf) as (bf' & w'' & r & -> & Hbf'). cbn. eauto 10.
  - destruct (bufio_Write_total (writer s1) p w Hc1) as (bf' & w'' & r & -> & Hbf'). cbn. eauto 10.
Qed.

Lemma atomic_good sec sh :
  good sh -> exists l sh', atomic sec sh = Some (l, sh') /\ good sh' /\ shape sec l /\
    (stopping l = true -> sh_stop sh' = true) /\ (sh_stop sh = true -> sh_stop sh' = true).
Proof.
  intros (Hc & Hi & Hs). destruct sec as [p| |]; cbn [atomic].
  - rewrite Write_buffered. destruct (buffered_Write_total (bws_of sh) p (sh_world sh) Hc) as (bf & w' & r & E & Hbf).
    unfold bws_of in *. rewrite E. cbn [mbind option_bind]. eexists _, _. split; [done|].
    unfold good, bws_of. cbn [sh_world sh_stop]. rewrite get_set_bws. unfold shape. cbn.
    destruct (initialized (get_bws (sh_world sh) b)) eqn:Ei; cbn; rewrite ?andb_true_r, ?andb_false_r.
    + split_and!; eauto; congruence.
    + split_and!; eauto; congruence.
  - cbn [Sync]. fold (wr d). unfold buffered_Sync.
    assert (exists bf w' err, (if initialized (bws_of sh) then Flush (wr d) (writer (bws_of sh)) (sh_world sh)
              else Some (writer (bws_of sh), sh_world sh, None)) = Some (bf, w', err) /\ cap_ok bf)
      as (bf & w' & err & E & Hbf).
    { destruct (initialized (bws_of sh)); [|by eauto 10].
      destruct (Flush_total _ (sh_world sh) Hc) as (bf & w' & err & -> & ? & _). eauto 10. }
    change (Write (WDevice d)) with (wr d). unfold bws_of in *. rewrite E. cbn [mbind option_bind].
    destruct (device_Sync (get_device w' d)) as [x err']. cbn. eexists _, _. split; [done|].
    unfold good, bws_of, shape. cbn. rewrite get_set_bws. cbn. split_and!; eauto; congruence.
  - unfold stop_section. destruct (initialized (bws_of sh)) eqn:Ei; cbn [negb];
      [destruct (stopped (bws_of sh))|]; eexists _, _; (split; [done|]); unfold good, shape; cbn;
      try (split_and!; done || congruence).
    unfold bws_of in *. cbn. rewrite get_set_bws. cbn. split_and!; try done; congruence.
Qed.
End Concurrent.
