(* ===== verification/ConcurrentTheorems.v ===== *)
(** * ConcurrentTheorems

    The properties of a [BufferedWriteSyncer] used by several goroutines: every
    interleaving does what the operations of [WriteSyncer] do one after the
    other, messages arrive whole, and every call returns. *)
From S2P Require Import Prelude Strconv Utf8 Float GoTime Values WriteSyncer Concurrent.
Open Scope Z_scope.

Section Concurrent.
Context `{MultiErr}.
Variables (b d : nat).

#[local] Abbreviation atomic := (atomic b d).
#[local] Abbreviation micros := (micros b d).
#[local] Abbreviation good := (good b).
#[local] Abbreviation move := (move b d).
#[local] Abbreviation happen := (happen b d).
#[local] Abbreviation exec := (exec b d).
#[local] Abbreviation start := (start b).
#[local] Abbreviation start_shared := (start_shared b).
#[local] Abbreviation bws_of := (bws_of b).

(** ** Interleavings are sequences of operations *)

(** What was done, in order: by whom, the critical section, and what it told its
    goroutine. *)
Definition history : Type := list (nat * section * local).

Inductive commits (sh0 : shared) : history -> shared -> Prop :=
| commits_nil : commits sh0 [] sh0
| commits_snoc log sh i sec l sh' :
    commits sh0 log sh -> atomic sec sh = Some (l, sh') -> commits sh0 (log ++ [(i, sec, l)]) sh'.

Lemma commits_good sh0 log sh :
  good sh0 -> commits sh0 log sh ->
  good sh /\ Forall (fun e => shape e.1.2 e.2) log /\ (Exists (fun e => stopping e.2 = true) log -> sh_stop sh = true).
Proof.
  intros H0. induction 1 as [|log sh i sec l sh' _ (Hg & Hs & Hst) E]; [by rewrite Exists_nil|].
  destruct (atomic_good b d sec sh Hg) as (l' & sh'' & E' & Hg' & Hsh & Hst' & Hmono).
  rewrite E in E'. simplify_eq. split; [done|]. rewrite Forall_app, Forall_singleton, Exists_app. split; [done|].
  intros [Hold|Hnew]; [auto|]. inv Hnew; [auto|]. by rewrite Exists_nil in *.
Qed.

(** The part of a goroutine. *)
Definition hist (i : nat) (log : history) : list (section * local) :=
  omap (fun '(j, sec, l) => if Nat.eqb j i then Some (sec, l) else None) log.

Lemma hist_snoc i log j sec l :
  hist i (log ++ [(j, sec, l)]) = hist i log ++ (if Nat.eqb j i then [(sec, l)] else []).
Proof. unfold hist. rewrite omap_app. cbn. by destruct (Nat.eqb j i). Qed.

(** The critical sections a goroutine has been through, given where it is. *)
Definition told (a : who) (st : tstate) (h : list (section * local)) : Prop :=
  match a, st with
  | FlushLoop, (Select | Idle | Exited) => Forall (fun e => e.1 = SecSync) h
  | FlushLoop, (Want sec | In_ sec _ _) => sec = SecSync /\ Forall (fun e => e.1 = SecSync) h
  | User (RWrite p), (Want sec | In_ sec _ _) => sec = SecWrite p /\ h = []
  | User (RWrite p), Returned r => h = [(SecWrite p, mkLocal (Some r) false)]
  | User RSync, (Want sec | In_ sec _ _) => sec = SecSync /\ h = []
  | User RSync, Returned r => h = [(SecSync, mkLocal (Some r) false)]
  | User RStop, (Want SecStop | In_ SecStop _ _) => h = []
  | User RStop, (WaitDone | Want SecSync | In_ SecSync _ _) => h = [(SecStop, mkLocal None true)]
  | User RStop, Returned r =>
      (r = (0, None) /\ h = [(SecStop, mkLocal None false)]) \/
      h = [(SecStop, mkLocal None true); (SecSync, mkLocal (Some r) false)]
  | _, _ => False
  end.

Lemma told_enter a sec k l h : told a (Want sec) h -> told a (In_ sec k l) h.
Proof. by destruct a as [[p| |]|]. Qed.

Lemma told_micro a sec k l k' l' h : told a (In_ sec k l) h -> told a (In_ sec k' l') h.
Proof. by destruct a as [[p| |]|]. Qed.

Lemma told_leave a sec k l l' h :
  told a (In_ sec k l) h -> shape sec l' -> told a (after a sec l') (h ++ [(sec, l')]).
Proof.
  destruct l' as [r st]. destruct a as [[p| |]|], sec; cbn [told shape ret_ stopping after];
    intros Ht Hs; destruct_and?; simplify_eq; try done;
    try match goal with Hr : is_Some _ |- _ => destruct Hr as [? ->] end; simplify_eq/=; auto.
  - destruct st; auto.
  - rewrite Forall_app, Forall_singleton. done.
Qed.

(** The mutex is free and nobody is inside, or its holder is the only one, and
    has done a part of its critical section. *)
Definition alone (i : option nat) (c : conf) : Prop :=
  forall j a sec k l, c_threads c !! j = Some (a, In_ sec k l) -> Some j = i.

Definition held (base : shared) (c : conf) : Prop :=
  alone (c_mu c) c /\
  match c_mu c with
  | None => c_shared c = base
  | Some i => exists a sec k l, c_threads c !! i = Some (a, In_ sec k l) /\
      run_micros (take k (micros sec)) noLocal base = Some (l, c_shared c)
  end.

Record Inv (sh0 : shared) (qs : list request) (c : conf) (log : history) (base : shared) : Prop := {
  inv_who : map fst (c_threads c) = FlushLoop :: map User qs;
  inv_commits : commits sh0 log base;
  inv_held : held base c;
  inv_told : forall i a st, c_threads c !! i = Some (a, st) -> told a st (hist i log);
  inv_tids : Forall (fun e => e.1.1 < length (c_threads c))%nat log;
  inv_done : c_done c = true <-> c_threads c !! 0%nat = Some (FlushLoop, Exited);
  inv_waited : forall i a st, c_threads c !! i = Some (a, st) -> st <> WaitDone ->
    (SecStop, mkLocal None true) ∈ hist i log -> c_done c = true;
}.

(** Goroutine [i] went from [st] to [st'] and may have added to the history. *)
Lemma inv_update sh0 qs c log base i a st st' c' log' base' :
  Inv sh0 qs c log base -> c_threads c !! i = Some (a, st) -> st <> Exited -> st' <> Exited ->
  c_threads c' = <[i := (a, st')]> (c_threads c) -> c_done c' = c_done c ->
  log' = log \/ (exists sec l, log' = log ++ [(i, sec, l)]) ->
  commits sh0 log' base' -> held base' c' -> told a st' (hist i log') ->
  (st' <> WaitDone -> (SecStop, mkLocal None true) ∈ hist i log' -> c_done c = true) ->
  Inv sh0 qs c' log' base'.
Proof.
  intros HI Hi Hst Hst' Hths Hdone Hlog Hcom Hheld Htold Hwait.
  assert (forall k, k <> i -> hist k log' = hist k log) as Hother.
  { intros k Hk. destruct Hlog as [->|(sec & l & ->)]; [done|].
    rewrite hist_snoc. apply not_eq_sym, Nat.eqb_neq in Hk. by rewrite Hk, app_nil_r. }
  assert (i < length (c_threads c))%nat as Hlt by (by eapply lookup_lt_Some).
  split.
  - rewrite Hths, <- (inv_who _ _ _ _ _ HI). change (fst <$> <[i:=(a, st')]> (c_threads c) = fst <$> c_threads c).
    rewrite list_fmap_insert. apply list_insert_id. by rewrite list_lookup_fmap, Hi.
  - done.
  - done.
  - intros k a' s'. rewrite Hths. intros [(<- & ? & _)|[Hne Hk]]%list_lookup_insert_Some; simplify_eq; [done|].
    rewrite Hother by done. by apply (inv_told _ _ _ _ _ HI).
  - rewrite Hths, length_insert. pose proof (inv_tids _ _ _ _ _ HI) as Ht.
    destruct Hlog as [->|(sec & l & ->)]; [done|]. by rewrite Forall_app, Forall_singleton.
  - rewrite Hths, Hdone, (inv_done _ _ _ _ _ HI). split.
    + intros H0. rewrite list_lookup_insert_ne; [done|]. intros ->. congruence.
    + intros [(-> & ? & _)|[_ H0]]%list_lookup_insert_Some; [congruence|done].
  - intros k a' s'. rewrite Hths, Hdone.
    intros [(<- & ? & _)|[Hne Hk]]%list_lookup_insert_Some; simplify_eq; [done|].
    rewrite Hother by done. exact (inv_waited _ _ _ _ _ HI _ _ _ Hk).
Qed.

Lemma alone_update c c' i a st :
  alone (c_mu c) c -> c_mu c = None \/ c_mu c = Some i ->
  c_threads c' = <[i := (a, st)]> (c_threads c) ->
  (c_mu c' = Some i \/ (c_mu c' = None /\ forall sec k l, st <> In_ sec k l)) -> alone (c_mu c') c'.
Proof.
  intros Hal Hmu Hths Hmu' k a' sec n l. rewrite Hths.
  intros [(<- & ? & _)|[Hne Hk]]%list_lookup_insert_Some; simplify_eq.
  - destruct Hmu' as [->|[_ Hno]]; [done|]. by destruct (Hno sec n l).
  - apply Hal in Hk. destruct Hmu as [E|E]; rewrite E in Hk; congruence.
Qed.

Lemma run_micros_app ms1 ms2 l sh :
  run_micros (ms1 ++ ms2) l sh = ('(l, sh) ← run_micros ms1 l sh; run_micros ms2 l sh).
Proof.
  revert l sh. induction ms1 as [|f ms1 IH]; intros l sh; [done|]. rewrite <- app_comm_cons, !run_cons.
  destruct (f l sh) as [[l' sh']|]; [|done]. cbn. apply IH.
Qed.

Lemma run_micros_S ms k f l sh l' sh' :
  ms !! k = Some f -> run_micros (take k ms) l sh = Some (l', sh') ->
  run_micros (take (S k) ms) l sh = f l' sh'.
Proof.
  intros Hf Hr. assert (take (S k) ms = take k ms ++ [f]) as -> by (by apply take_S_r).
  rewrite run_micros_app, Hr. cbn. by destruct (f l' sh') as [[]|].
Qed.

(** The goroutine inside is the holder. *)
Lemma inside_holds base c i a sec k l :
  held base c -> c_threads c !! i = Some (a, In_ sec k l) ->
  c_mu c = Some i /\ run_micros (take k (micros sec)) noLocal base = Some (l, c_shared c).
Proof.
  intros [Hal Hh] Hi. pose proof (Hal _ _ _ _ _ Hi) as Hmu. rewrite <- Hmu in Hh.
  destruct Hh as (a' & sec' & k' & l' & Hi' & Hr). by simplify_eq.
Qed.

(** Entering, inside, and leaving a critical section. *)
Lemma inv_enter sh0 qs c log base i a sec :
  Inv sh0 qs c log base -> c_threads c !! i = Some (a, Want sec) -> c_mu c = None ->
  Inv sh0 qs (mkConf (c_shared c) (Some i) (c_tick c) (c_done c) (<[i := (a, In_ sec 0 noLocal)]> (c_threads c)))
    log base.
Proof.
  intros HI Hi Hmu. pose proof (inv_held _ _ _ _ _ HI) as [Hal Hh]. rewrite Hmu in Hh.
  eapply inv_update; try done; eauto using told_enter, inv_commits, inv_told.
  - split; [|exists a, sec, 0%nat, noLocal; cbn; split; [|rewrite Hh; done]].
    + eapply alone_update; eauto.
    + apply list_lookup_insert_eq. by eapply lookup_lt_Some.
  - intros _. by apply (inv_waited _ _ _ _ _ HI _ _ _ Hi).
Qed.

Lemma inv_inside sh0 qs c log base i a sec k l f l' sh' :
  Inv sh0 qs c log base -> c_threads c !! i = Some (a, In_ sec k l) ->
  micros sec !! k = Some f -> f l (c_shared c) = Some (l', sh') ->
  Inv sh0 qs (mkConf sh' (c_mu c) (c_tick c) (c_done c) (<[i := (a, In_ sec (S k) l')]> (c_threads c))) log base.
Proof.
  intros HI Hi Hf E. pose proof (inv_held _ _ _ _ _ HI) as Hheld.
  destruct (inside_holds _ _ _ _ _ _ _ Hheld Hi) as [Hmu Hr].
  eapply (inv_update _ _ c log base i a (In_ sec k l)); try done; eauto using inv_commits.
  - split; [eapply alone_update; eauto; apply Hheld|]. cbn. rewrite Hmu. exists a, sec, (S k), l'.
    rewrite (run_micros_S _ _ _ _ _ _ _ Hf Hr). split; [|done].
    apply list_lookup_insert_eq. by eapply lookup_lt_Some.
  - eapply (told_micro _ _ k l), (inv_told _ _ _ _ _ HI _ _ _ Hi).
  - intros _. by apply (inv_waited _ _ _ _ _ HI _ _ _ Hi).
Qed.

Lemma inv_leave sh0 qs c log base i a sec k l :
  good sh0 -> Inv sh0 qs c log base -> c_threads c !! i = Some (a, In_ sec k l) -> micros sec !! k = None ->
  Inv sh0 qs (mkConf (c_shared c) None (c_tick c) (c_done c) (<[i := (a, after a sec l)]> (c_threads c)))
    (log ++ [(i, sec, l)]) (c_shared c).
Proof.
  intros Hg HI Hi Hk. pose proof (inv_held _ _ _ _ _ HI) as Hheld.
  destruct (inside_holds _ _ _ _ _ _ _ Hheld Hi) as [Hmu Hr].
  rewrite take_ge, section_atomic in Hr by (by apply lookup_ge_None).
  assert (commits sh0 (log ++ [(i, sec, l)]) (c_shared c)) as Hcom
    by (econstructor; eauto using inv_commits).
  assert (shape sec l) as Hs.
  { apply commits_good in Hcom as (_ & [_ Hs]%Forall_app & _); [by inv Hs|done]. }
  pose proof (inv_told _ _ _ _ _ HI _ _ _ Hi) as Ht.
  assert (hist i (log ++ [(i, sec, l)]) = hist i log ++ [(sec, l)]) as Eh by (by rewrite hist_snoc, Nat.eqb_refl).
  eapply inv_update; try done; eauto; rewrite ?Eh; eauto using told_leave.
  - intros E. destruct a, sec; cbn in E; try done. by destruct (stopping l).
  - split; [|done]. eapply alone_update; eauto; [apply Hheld|]. right. split; [done|].
    intros sec' k' l'. destruct a, sec; cbn; try done. by destruct (stopping l).
  - intros Hne [Hin|Hin%list_elem_of_singleton]%elem_of_app; [by apply (inv_waited _ _ _ _ _ HI _ _ _ Hi)|].
    simplify_eq. destruct a as [q|]; [by cbn in Hne|]. by destruct Ht.
Qed.

Definition outside (st : tstate) : Prop := match st with In_ _ _ _ => False | _ => True end.

Lemma held_update base c i a st st' tick dn :
  held base c -> c_threads c !! i = Some (a, st) -> outside st -> outside st' ->
  held base (mkConf (c_shared c) (c_mu c) tick dn (<[i := (a, st')]> (c_threads c))).
Proof.
  intros [Hal Hh] Hi Hst Hst'. split.
  - intros k a' sec n l. cbn [c_threads c_mu].
    intros [(<- & ? & _)|[Hne Hk]]%list_lookup_insert_Some; simplify_eq; [done|]. by apply (Hal _ _ _ _ _ Hk).
  - cbn [c_mu c_shared c_threads]. destruct (c_mu c) as [h|]; [|done].
    destruct Hh as (a' & sec & k & l & Hh & Hr). exists a', sec, k, l. split; [|done].
    rewrite list_lookup_insert_ne; [done|]. intros <-. simplify_eq. done.
Qed.

(** A step outside the critical sections that leaves [done] alone. *)
Lemma inv_outside sh0 qs c log base i a st st' tick :
  Inv sh0 qs c log base -> c_threads c !! i = Some (a, st) -> outside st -> outside st' ->
  st <> Exited -> st' <> Exited -> (forall h, told a st h -> told a st' h) -> st <> WaitDone \/ c_done c = true ->
  Inv sh0 qs (mkConf (c_shared c) (c_mu c) tick (c_done c) (<[i := (a, st')]> (c_threads c))) log base.
Proof.
  intros HI Hi Ho Ho' He He' Ht Hw.
  eapply (inv_update _ _ c log base i a st st'); try done; eauto using inv_commits, inv_told.
  - eapply held_update; eauto using inv_held.
  - intros _ Hin. destruct Hw as [Hw|]; [|done]. by apply (inv_waited _ _ _ _ _ HI _ _ _ Hi Hw).
Qed.

Lemma loop_index sh0 qs c log base i st :
  Inv sh0 qs c log base -> c_threads c !! i = Some (FlushLoop, st) -> i = 0%nat.
Proof.
  intros HI Hi. assert (map fst (c_threads c) !! i = Some FlushLoop) as Hf
    by (change ((fst <$> c_threads c) !! i = Some FlushLoop); by rewrite list_lookup_fmap, Hi).
  rewrite (inv_who _ _ _ _ _ HI) in Hf. destruct i as [|i]; [done|]. cbn in Hf.
  change ((User <$> qs) !! i = Some FlushLoop) in Hf. rewrite list_lookup_fmap in Hf.
  by destruct (qs !! i).
Qed.

Lemma select_loop a h : told a Select h -> a = FlushLoop.
Proof. by destruct a as [[p| |]|]. Qed.

(** The flush loop ends and closes [done]. *)
Lemma inv_exits sh0 qs c log base i a :
  Inv sh0 qs c log base -> c_threads c !! i = Some (a, Select) ->
  Inv sh0 qs (mkConf (c_shared c) (c_mu c) (c_tick c) true (<[i := (a, Exited)]> (c_threads c))) log base.
Proof.
  intros HI Hi. pose proof (inv_told _ _ _ _ _ HI _ _ _ Hi) as Ht.
  assert (a = FlushLoop) as -> by (by eapply select_loop).
  assert (i = 0%nat) as -> by (by eapply loop_index).
  assert (0 < length (c_threads c))%nat by (by eapply lookup_lt_Some).
  split; cbn [c_threads c_done]; 
    [| |by eapply held_update; eauto using inv_held| |by rewrite length_insert; apply HI| |done].
  - rewrite <- (inv_who _ _ _ _ _ HI).
    change (fst <$> <[0%nat:=(FlushLoop, Exited)]> (c_threads c) = fst <$> c_threads c).
    rewrite list_fmap_insert. apply list_insert_id. by rewrite list_lookup_fmap, Hi.
  - apply HI.
  - intros k a' s' [(<- & ? & _)|[Hne Hk]]%list_lookup_insert_Some; simplify_eq; [done|].
    by apply (inv_told _ _ _ _ _ HI).
  - split; [|done]. intros _. by apply list_lookup_insert_eq.
Qed.

Lemma inv_happen sh0 qs c log base e c' :
  good sh0 -> Inv sh0 qs c log base -> happen e c = Some c' -> exists log' base', Inv sh0 qs c' log' base'.
Proof.
  intros Hg HI. destruct e as [|i choice]; cbn [happen].
  { destruct (sh_ticker _); [|done]. intros [= <-]. exists log, base.
    destruct HI. by constructor. }
  destruct c as [sh mu tick dn ths] eqn:Ec. cbn [move]. destruct (ths !! i) as [[a st]|] eqn:Hi; [|done].
  cbn [mbind option_bind]. destruct st as [sec|sec k l| | | | |r].
  - destruct mu; [done|]. intros [= <-]. exists log, base. by apply (inv_enter _ _ _ _ _ i a sec HI).
  - destruct (micros sec !! k) as [f|] eqn:Hf.
    + destruct (f l sh) as [[l' sh']|] eqn:E; [|done]. intros [= <-]. exists log, base.
      by apply (inv_inside _ _ _ _ _ i a sec k l f l' sh' HI).
    + intros [= <-]. eexists _, _. by apply (inv_leave _ _ _ _ _ i a sec k l Hg HI).
  - destruct dn; [|done]. intros [= <-]. exists log, base.
    apply (inv_outside _ _ _ _ _ i a WaitDone (Want SecSync) tick HI); try done;
      first [by left|by right|by destruct a as [[p| |]|]].
  - destruct (tick && _).
    + intros [= <-]. exists log, base.
      apply (inv_outside _ _ _ _ _ i a Select (Want SecSync) false HI); try done;
      first [by left|by right|by destruct a as [[p| |]|]].
    + destruct (sh_stop sh); [|done]. intros [= <-]. exists log, base. by apply (inv_exits _ _ _ _ _ i a HI).
  - destruct (looping _); [|done]. intros [= <-]. exists log, base.
    apply (inv_outside _ _ _ _ _ i a Idle Select tick HI); try done;
      first [by left|by right|by destruct a as [[p| |]|]].
  - done.
  - done.
Qed.

Lemma inv_exec sh0 qs es c log base c' :
  good sh0 -> Inv sh0 qs c log base -> exec es c = Some c' -> exists log' base', Inv sh0 qs c' log' base'.
Proof.
  intros Hg. revert c log base. induction es as [|e es IH]; intros c log base HI; cbn [exec].
  { intros [= <-]. eauto. }
  destruct (happen e c) as [c1|] eqn:E; [|done]. cbn. intros He.
  destruct (inv_happen _ _ _ _ _ _ _ Hg HI E) as (log1 & base1 & HI1). by eapply IH.
Qed.

Lemma start_good w size : good (start_shared w size).
Proof.
  unfold good, start_shared, bws_of. cbn. rewrite get_set_bws. cbn. by split_and!.
Qed.

Lemma inv_start w size qs : Inv (start_shared w size) qs (start w size qs) [] (start_shared w size).
Proof.
  assert (forall i a st, c_threads (start w size qs) !! i = Some (a, st) ->
    (a = FlushLoop /\ st = Idle) \/ exists q, a = User q /\ st = begin q) as Hth.
  { intros [|i] a st; [intros [= <- <-]; by left|].
    change (c_threads (start w size qs) !! S i) with (((fun q => (User q, begin q)) <$> qs) !! i).
    rewrite list_lookup_fmap. destruct (qs !! i) as [q|]; [|done]. intros [= <- <-]. right. by exists q. }
  split.
  - cbn. f_equal. rewrite map_map. by apply map_ext.
  - constructor.
  - split; [|done]. intros i a sec k l Hi. destruct (Hth _ _ _ Hi) as [[_ ?]|(q & _ & ?)]; [done|]. by destruct q.
  - intros i a st Hi. cbn [hist omap list_omap]. destruct (Hth _ _ _ Hi) as [[-> ->]|([p| |] & -> & ->)]; cbn; auto.
  - constructor.
  - done.
  - intros i a st _ _ Hin. by apply elem_of_nil in Hin.
Qed.

(** What the history says of a call that returned [r]. *)
Definition answered (q : request) (r : Z * error) (h : list (section * local)) : Prop :=
  match q with
  | RWrite p => h = [(SecWrite p, mkLocal (Some r) false)]
  | RSync => h = [(SecSync, mkLocal (Some r) false)]
  | RStop =>
      (r = (0, None) /\ h = [(SecStop, mkLocal None false)]) \/
      h = [(SecStop, mkLocal None true); (SecSync, mkLocal (Some r) false)]
  end.

Lemma told_answered q r h : told (User q) (Returned r) h -> answered q r h.
Proof. by destruct q. Qed.


(** ** Every call returns *)

(** How many steps a goroutine still has to go, the loop between two ticks. *)
Definition left_after (a : who) (sec : section) : nat :=
  match a, sec with
  | FlushLoop, _ => 1
  | User _, SecStop => 6
  | User _, _ => 0
  end.

Definition weight (t : who * tstate) : nat :=
  match t.2 with
  | Want sec => length (micros sec) + 2 + left_after t.1 sec
  | In_ sec k _ => length (micros sec) - k + 1 + left_after t.1 sec
  | WaitDone => 6
  | Select => 1
  | Idle => 2
  | Exited | Returned _ => 0
  end.

Definition conf_weight (c : conf) : nat :=
  list_sum (map weight (c_threads c)) + (if c_tick c then 5 else 0).

Lemma after_weight a sec l : (weight (a, after a sec l) <= left_after a sec)%nat.
Proof. destruct a, sec; cbn; try lia. destruct (stopping l); cbn; lia. Qed.

Lemma move_weight choice i c c' : move choice i c = Some c' -> (conf_weight c' < conf_weight c)%nat.
Proof.
  destruct c as [sh mu tick dn ths]. cbn [move]. destruct (ths !! i) as [[a st]|] eqn:Hi; [|done].
  cbn [mbind option_bind]. unfold conf_weight.
  assert (forall st', (list_sum (map weight (<[i := (a, st')]> ths)) + weight (a, st) =
    list_sum (map weight ths) + weight (a, st'))%nat) as Hsum by (intros st'; by apply sum_insert).
  assert (weight (a, Want SecSync) <= 5)%nat as Hw by (destruct a; cbn; lia).
  destruct st as [sec|sec k l| | | | |r].
  - destruct mu; [done|]. intros [= <-]. cbn [c_threads c_tick]. specialize (Hsum (In_ sec 0 noLocal)).
    unfold weight in Hsum at 2 4. cbn [fst snd] in Hsum. lia.
  - destruct (micros sec !! k) as [f|] eqn:Hf.
    + destruct (f l sh) as [[l' sh']|]; [|done]. intros [= <-]. cbn [c_threads c_tick].
      specialize (Hsum (In_ sec (S k) l')). unfold weight in Hsum at 2 4. cbn [fst snd] in Hsum.
      assert (k < length (micros sec))%nat by (by eapply lookup_lt_Some). lia.
    + intros [= <-]. cbn [c_threads c_tick]. specialize (Hsum (after a sec l)).
      pose proof (after_weight a sec l). unfold weight in Hsum at 2. cbn [fst snd] in Hsum. lia.
  - destruct dn; [|done]. intros [= <-]. cbn [c_threads c_tick]. specialize (Hsum (Want SecSync)).
    change (weight (a, WaitDone)) with 6%nat in Hsum. lia.
  - destruct (tick && _) eqn:Et.
    + apply andb_true_iff in Et as [-> _]. intros [= <-]. cbn [c_threads c_tick].
      specialize (Hsum (Want SecSync)). change (weight (a, Select)) with 1%nat in Hsum. lia.
    + destruct (sh_stop sh); [|done]. intros [= <-]. cbn [c_threads c_tick].
      specialize (Hsum Exited). change (weight (a, Select)) with 1%nat in Hsum.
      change (weight (a, Exited)) with 0%nat in Hsum. lia.
  - destruct (looping _); [|done]. intros [= <-]. cbn [c_threads c_tick]. specialize (Hsum Select).
    change (weight (a, Idle)) with 2%nat in Hsum. change (weight (a, Select)) with 1%nat in Hsum. lia.
  - done.
  - done.
Qed.

Lemma hist_in i log sec l : (sec, l) ∈ hist i log -> (i, sec, l) ∈ log.
Proof.
  unfold hist. rewrite list_elem_of_omap. intros ([[j sec'] l'] & Hin & E).
  destruct (Nat.eqb_spec j i); [|done]. by simplify_eq.
Qed.

Lemma loop_thread sh0 qs c log base :
  Inv sh0 qs c log base -> exists st, c_threads c !! 0%nat = Some (FlushLoop, st).
Proof.
  intros HI. pose proof (inv_who _ _ _ _ _ HI) as Hw. destruct (c_threads c) as [|[a st] ths]; [done|].
  cbn in *. simplify_eq. by exists st.
Qed.

(** The holder of the mutex is never stuck. *)
Lemma holder_moves sh0 qs c log base i :
  good sh0 -> Inv sh0 qs c log base -> c_mu c = Some i -> is_Some (move false i c).
Proof.
  intros Hg HI Hmu. pose proof (inv_held _ _ _ _ _ HI) as [_ Hh]. rewrite Hmu in Hh.
  destruct Hh as (a & sec & k & l & Hi & Hr). destruct c as [sh mu tick dn ths]. cbn in *. rewrite Hi. cbn.
  destruct (micros sec !! k) as [f|] eqn:Hf; [|by eexists].
  destruct (commits_good _ _ _ Hg (inv_commits _ _ _ _ _ HI)) as (Hgb & _).
  destruct (atomic_good b d sec base Hgb) as (l' & sh' & E & _). rewrite <- section_atomic in E.
  rewrite <- (take_drop (S k) (micros sec)), run_micros_app, (run_micros_S _ _ _ _ _ _ _ Hf Hr) in E.
  destruct (f l sh) as [[l1 sh1]|]; [by eexists|done].
Qed.

(** Whoever waits for the loop to end, the loop is on its way. *)
Lemma loop_moves sh0 qs c log base i a :
  good sh0 -> Inv sh0 qs c log base -> c_mu c = None -> c_threads c !! i = Some (a, WaitDone) ->
  c_done c = true \/ is_Some (move false 0 c).
Proof.
  intros Hg HI Hmu Hi. destruct (loop_thread _ _ _ _ _ HI) as [st H0].
  pose proof (inv_told _ _ _ _ _ HI _ _ _ Hi) as Ht. pose proof (inv_told _ _ _ _ _ HI _ _ _ H0) as Ht0.
  pose proof (inv_held _ _ _ _ _ HI) as [Hal Hh]. rewrite Hmu in Hh, Hal.
  destruct (commits_good _ _ _ Hg (inv_commits _ _ _ _ _ HI)) as ((_ & _ & Hloop) & _ & Hst).
  assert (sh_stop base = true) as Hstop.
  { apply Hst, Exists_exists. exists (i, SecStop, mkLocal None true). split; [|done].
    apply hist_in. destruct a as [[p| |]|]; cbn in Ht; try done. rewrite Ht. by apply list_elem_of_here. }
  specialize (Hloop Hstop). destruct st as [sec|sec k l| | | | |r]; try done.
  - right. destruct c. cbn in *. subst. rewrite H0. by eexists.
  - by apply Hal in H0.
  - right. destruct c as [sh mu tick dn ths]. cbn in *. subst. rewrite H0. cbn.
    rewrite Hstop, andb_false_r. by eexists.
  - right. destruct c. cbn in *. subst. rewrite H0. cbn. rewrite Hloop. by eexists.
  - left. by apply (inv_done _ _ _ _ _ HI).
Qed.

Lemma progress sh0 qs c log base i q st :
  good sh0 -> Inv sh0 qs c log base -> c_threads c !! i = Some (User q, st) -> (forall r, st <> Returned r) ->
  exists k, is_Some (move false k c).
Proof.
  intros Hg HI Hi Hst. destruct (c_mu c) as [h|] eqn:Hmu; [by eauto using holder_moves|].
  pose proof (inv_told _ _ _ _ _ HI _ _ _ Hi) as Ht. pose proof (inv_held _ _ _ _ _ HI) as [Hal _].
  destruct st as [sec|sec k l| | | | |r]; try (by destruct q).
  - exists i. destruct c. cbn in *. subst. rewrite Hi. by eexists.
  - apply Hal in Hi. congruence.
  - destruct (loop_moves _ _ _ _ _ i _ Hg HI Hmu Hi) as [Hd|]; [|by eauto].
    exists i. destruct c. cbn in *. subst. rewrite Hi. by eexists.
  - by destruct (Hst r).
Qed.

Definition moves (ms : list (nat * bool)) : list event := map (fun m => EvMove m.1 m.2) ms.

Lemma moves_weight ms c c' : exec (moves ms) c = Some c' -> (length ms + conf_weight c' <= conf_weight c)%nat.
Proof.
  revert c. induction ms as [|[i ch] ms IH]; intros c; cbn [moves map exec length]; [intros [= <-]; lia|].
  destruct (happen _ c) as [c1|] eqn:E; [|done]. cbn [mbind option_bind]. intros He%IH.
  apply move_weight in E. lia.
Qed.

Lemma exec_app es1 es2 c c' : exec es1 c = Some c' -> exec (es1 ++ es2) c = exec es2 c'.
Proof.
  revert c. induction es1 as [|e es1 IH]; intros c; cbn [exec app]; [by intros [= <-]|].
  destruct (happen e c) as [c1|]; [|done]. apply IH.
Qed.

(** C13.  No deadlock: from any moment on, while the clock does not tick, the
    goroutines can take only so many steps, in whatever order, and when none can
    take another one every call has returned.  So [Stop], which waits for the
    flush loop without the lock the loop may need, always comes back. *)
Theorem concurrent_calls_return w size qs es c (Hrun : exec es (start w size qs) = Some c) :
  exists bound, forall ms c', exec (moves ms) c = Some c' ->
    (length ms <= bound)%nat /\
    ((forall choice i, move choice i c' = None) ->
     forall i q st, c_threads c' !! i = Some (User q, st) -> exists r, st = Returned r).
Proof.
  exists (conf_weight c). intros ms c' Hms. split; [apply moves_weight in Hms; lia|].
  intros Hstuck i q st Hi. rewrite <- (exec_app _ _ _ _ Hrun) in Hms.
  destruct (inv_exec _ _ _ _ _ _ _ (start_good w size) (inv_start w size qs) Hms) as (log & sh & HI).
  destruct st as [sec|sec k l| | | | |r]; try (by eexists).
  all: edestruct (progress _ _ _ _ _ i q _ (start_good w size) HI Hi) as [k' [c'' Hk]]; [done|];
    by rewrite Hstuck in Hk.
Qed.

(** ** Messages *)

Definition sec_message (e : section * local) : option gostring :=
  match e.1 with SecWrite p => Some p | _ => None end.

Definition req_message (q : request) : option gostring :=
  match q with RWrite p => Some p | _ => None end.

Definition messages (log : history) : list gostring := omap (fun e => sec_message (e.1.2, e.2)) log.

(** The answer to a write, when [err] is what the device has come to: success
    for all its bytes, or the device's error. *)
Definition write_answer (err : error) (e : section * local) : Prop :=
  forall p, e.1 = SecWrite p -> exists r, ret_ e.2 = Some r /\ (write_result p r None \/ write_result p r err).

Lemma write_answer_later w w' err err' e : step_ok d w w' err err' -> write_answer err e -> write_answer err' e.
Proof.
  intros [_ Hst] He p Hp. destruct (He p Hp) as (r & Hr & Hw). exists r. split; [done|].
  destruct err as [e'|]; [by rewrite Hst|]. left. naive_solver.
Qed.

Lemma atomic_messages base sec sh l sh' ms err :
  syncer b d base (sh_world sh) ms err -> atomic sec sh = Some (l, sh') ->
  exists err', syncer b d base (sh_world sh') (ms ++ option_list (sec_message (sec, l))) err' /\
    step_ok d (sh_world sh) (sh_world sh') err err' /\ write_answer err' (sec, l).
Proof.
  intros Hs. destruct sec as [p| |]; cbn [atomic].
  - destruct (Write_syncer b d _ _ _ _ p Hs) as (w' & r & err' & -> & Hs' & Hst & Hr). cbn. intros [= <- <-].
    exists err'. split_and!; [done..|]. intros p' [= <-]. cbn. eauto.
  - destruct (Sync_syncer b d _ _ _ _ Hs) as (w' & r & err' & -> & Hs' & Hst & _). cbn. intros [= <- <-].
    exists err'. cbn. by rewrite app_nil_r.
  - unfold stop_section. destruct (initialized _) eqn:Ei; cbn [negb]; [destruct (stopped _)|];
      intros [= <- <-]; exists err; cbn; rewrite app_nil_r; (split_and!; [|by split; [|destruct err]|done]); try done.
    by apply syncer_flags.
Qed.

Lemma commits_messages w size log sh :
  commits (start_shared w size) log sh ->
  exists err, syncer b d (d_chunks (get_device w d)) (sh_world sh) (messages log) err /\
    step_ok d w (sh_world sh) None err /\ Forall (fun e => write_answer err (e.1.2, e.2)) log.
Proof.
  induction 1 as [|log sh i sec l sh' _ (err & Hs & Hst & Hans) E].
  - exists None. split_and!; [|done|done]. split.
    + apply (delivered_whole _ _ _ _ _ [] []); [done| |].
      * cbn. by rewrite app_nil_r.
      * cbn [start_shared sh_world]. by rewrite get_set_bws.
    + unfold buffer_ok. cbn [start_shared sh_world]. by rewrite get_set_bws.
  - destruct (atomic_messages _ _ _ _ _ _ _ Hs E) as (err' & Hs' & Hst' & Hn). exists err'.
    split_and!; [unfold messages in *; by rewrite omap_app|by eapply step_ok_trans|].
    apply Forall_app_2; [|by constructor]. eapply Forall_impl; [exact Hans|]. intros e. by apply write_answer_later with (1 := Hst').
Qed.

(** The messages of the history, goroutine by goroutine. *)
Lemma concat_app_each {A} (f g : nat -> list A) l :
  concat (map (fun i => f i ++ g i) l) ≡ₚ concat (map f l) ++ concat (map g l).
Proof. induction l as [|i l IH]; [done|]. cbn. rewrite IH. solve_Permutation. Qed.

Lemma concat_only {A} (x : list A) j n :
  (j < n)%nat -> concat (map (fun i => if Nat.eqb j i then x else []) (seq 0 n)) = x.
Proof.
  intros Hj. replace n with (j + S (n - S j))%nat by lia. rewrite seq_app, map_app, concat_app. cbn.
  rewrite Nat.eqb_refl.
  assert (forall l, (forall i, In i l -> i <> j) -> concat (map (fun i => if Nat.eqb j i then x else []) l) = []) as Hn.
  { intros l. induction l as [|i l IH]; intros Hl; [done|]. cbn.
    rewrite (proj2 (Nat.eqb_neq j i)) by (apply not_eq_sym, Hl; by left). apply IH. intros k Hk. apply Hl. by right. }
  rewrite !Hn, app_nil_r; [done|intros i Hi%in_seq; lia..].
Qed.

Lemma messages_by_thread n log :
  Forall (fun e => e.1.1 < n)%nat log ->
  messages log ≡ₚ concat (map (fun i => omap sec_message (hist i log)) (seq 0 n)).
Proof.
  induction 1 as [|[[j sec] l] log Hj _ IH].
  - cbn. clear. induction (seq 0 n); done.
  - transitivity (option_list (sec_message (sec, l)) ++ messages log).
    { unfold messages. cbn. by destruct (sec_message (sec, l)). }
    rewrite IH, <- (concat_only (option_list (sec_message (sec, l))) j n) at 1 by done.
    rewrite <- concat_app_each.
    enough (forall i, (if Nat.eqb j i then option_list (sec_message (sec, l)) else []) ++
      omap sec_message (hist i log) = omap sec_message (hist i ((j, sec, l) :: log))) as He
      by (by rewrite (map_ext _ _ He)).
    intros i. unfold hist. cbn.
    destruct (Nat.eqb j i); [|done]. cbn. by destruct (sec_message (sec, l)).
Qed.

Lemma concat_requests (f : nat -> list gostring) qs :
  (forall k q, qs !! k = Some q -> f k = option_list (req_message q)) ->
  concat (map f (seq 0 (length qs))) = omap req_message qs.
Proof.
  revert f. induction qs as [|q qs IH]; intros f Hf; [done|]. cbn [length seq map concat].
  rewrite (Hf 0%nat q eq_refl), <- seq_shift, map_map, (IH (fun k => f (S k))).
  - cbn. by destruct (req_message q).
  - intros k q' Hk. by apply (Hf (S k)).
Qed.

Definition is_over (t : who * tstate) : Prop :=
  match t with (User _, Returned _) | (FlushLoop, _) => True | _ => False end.

Lemma answered_messages q r h : answered q r h -> omap sec_message h = option_list (req_message q).
Proof. intros Ha. destruct q; cbn in Ha; [..|destruct Ha as [[_ Ha]|Ha]]; subst h; reflexivity. Qed.

Lemma loop_messages st h : told FlushLoop st h -> omap sec_message h = [].
Proof.
  intros Ht. assert (Forall (fun e => e.1 = SecSync) h) as Hall by (by destruct st; cbn in Ht; destruct_and?).
  clear Ht. induction Hall as [|[sec l] h Hs _ IH]; [done|]. cbn [fst] in Hs. subst sec. exact IH.
Qed.

(** C12.  Messages from many goroutines arrive whole, over any device.  When
    all calls have returned, there is an order of the messages given to [Write],
    all of them and each once, such that, if the device has not failed a write, it
    has received groups of whole messages in that order, after what it had, and
    the buffer holds the rest; every [Write] then reported success for all its
    bytes.  If the device did fail, only the last chunk it received is torn, what
    came before are whole messages in that order, nothing came after, and a
    [Write] that does not report success for all its bytes reports the device's
    error. *)
Theorem concurrent_messages_whole w size qs es c
    (Hrun : exec es (start w size qs) = Some c) (Hall : Forall is_over (c_threads c)) (Hfree : c_mu c = None) :
  exists order err,
    order ≡ₚ omap req_message qs /\
    delivered b d (d_chunks (get_device w d)) (sh_world (c_shared c)) order err /\
    (forall e, err = Some e -> exists n, Some (n, e) ∈ d_write_plan (get_device w d)) /\
    forall i p r, c_threads c !! i = Some (User (RWrite p), Returned r) ->
      r = (Z.of_nat (length p), None) \/ is_Some err /\ r.2 = err.
Proof.
  destruct (inv_exec _ _ _ _ _ _ _ (start_good w size) (inv_start w size qs) Hrun) as (log & sh & HI).
  destruct (commits_messages w size log sh (inv_commits _ _ _ _ _ HI)) as (err & [Hd _] & [_ Hpl] & Hans).
  pose proof (inv_held _ _ _ _ _ HI) as [_ Hsh]. rewrite Hfree in Hsh. subst sh.
  exists (messages log), err. split_and!; [|done|by intros e ->|].
  - rewrite (messages_by_thread _ _ (inv_tids _ _ _ _ _ HI)).
    pose proof (f_equal length (inv_who _ _ _ _ _ HI)) as Hlen. cbn in Hlen. rewrite !length_map in Hlen.
    rewrite Hlen. cbn [seq map concat]. destruct (loop_thread _ _ _ _ _ HI) as [st0 H0].
    rewrite (loop_messages _ _ (inv_told _ _ _ _ _ HI _ _ _ H0)). cbn [app].
    rewrite <- seq_shift, map_map. rewrite concat_requests; [done|]. intros k q Hk.
    assert (exists st, c_threads c !! S k = Some (User q, st)) as [st Hst].
    { pose proof (f_equal (fun l => l !! S k) (inv_who _ _ _ _ _ HI)) as Hw. cbn in Hw.
      change ((fst <$> c_threads c) !! S k = (User <$> qs) !! k) in Hw. rewrite !list_lookup_fmap, Hk in Hw.
      destruct (c_threads c !! S k) as [[a st]|]; cbn in Hw; simplify_eq. by exists st. }
    pose proof (proj1 (Forall_lookup _ _) Hall _ _ Hst) as Hov. destruct st; try done.
    eapply answered_messages, told_answered, (inv_told _ _ _ _ _ HI _ _ _ Hst).
  - intros i p r Hi. pose proof (inv_told _ _ _ _ _ HI _ _ _ Hi) as Ht. cbn in Ht.
    assert ((i, SecWrite p, mkLocal (Some r) false) ∈ log) as Hin by (apply hist_in; rewrite Ht; by apply list_elem_of_here).
    destruct (proj1 (Forall_forall _ _) Hans _ Hin p eq_refl) as (r' & E & Hw). cbn in E. injection E as <-.
    destruct r as [n e]. destruct Hw as [[E1 E2]|[E1 E2]]; cbn in E1, E2 |- *; subst.
    + left. by rewrite E2.
    + destruct err; [by right|]. left. by rewrite E2.
Qed.
End Concurrent.

(** ** A run *)

#[local] Existing Instance firstError.

Definition exampleRequests : list request := [RWrite (go "ab"); RStop].

(** The write; a tick; the loop starts; [Stop] closes the channel, the loop
    takes the tick, syncs, and ends; [Stop] syncs. *)
Definition exampleSchedule : list event :=
  moves (repeat (1%nat, false) 5) ++ [EvTick; EvMove 0 false] ++ moves (repeat (2%nat, false) 5) ++
  moves (repeat (0%nat, true) 6) ++ moves (repeat (2%nat, false) 5).

Definition exampleStart : conf := start 0 (mkWorld ∅ ∅ ∅) 8 exampleRequests.

Definition exampleEnd : conf := default exampleStart (exec 0 1 exampleSchedule exampleStart).


Lemma concurrent_calls_return_witness :
  exists bound, forall ms c', exec 0 1 (moves ms) exampleStart = Some c' ->
    (length ms <= bound)%nat /\
    ((forall choice i, move 0 1 choice i c' = None) ->
     forall i q st, c_threads c' !! i = Some (User q, st) -> exists r, st = Returned r).
Proof. apply (concurrent_calls_return 0 1 (mkWorld ∅ ∅ ∅) 8 exampleRequests []). reflexivity. Defined.

Lemma concurrent_messages_whole_witness :
  exists order err,
    order ≡ₚ [go "ab"] /\ delivered 0 1 (d_chunks (get_device (mkWorld ∅ ∅ ∅) 1)) (sh_world (c_shared exampleEnd)) order err /\
    (forall e, err = Some e -> exists n, Some (n, e) ∈ d_write_plan (get_device (mkWorld ∅ ∅ ∅) 1)) /\
    forall i p r, c_threads exampleEnd !! i = Some (User (RWrite p), Returned r) ->
      r = (Z.of_nat (length p), None) \/ is_Some err /\ r.2 = err.
Proof.
  apply (concurrent_messages_whole 0 1 (mkWorld ∅ ∅ ∅) 8 exampleRequests exampleSchedule exampleEnd);
    [vm_compute; reflexivity|vm_compute; by repeat constructor|vm_compute; reflexivity].
Defined.
