(* ===== verification/LazyRace.v ===== *)
(** * LazyRace

    [ladcore/lazy_with.go] used by several goroutines at once: [sync.Once] in
    its atomic operations, the function it runs, and the reads of the core that
    follow it or, in the promoted methods, do not.  The core is any type, and
    [With] any function that may panic. *)
From S2P Require Import Prelude.

(** ** The program *)

(** Where a goroutine is.  [With] and [Check] begin at [Load], where [Once.Do]
    reads its flag; [Enabled], [Level], [Write] and [Sync], which go to the
    embedded core at once, begin at [Use].  [Slow], [Locked] and the following
    are [doSlow]: the lock, the second look at the flag, the body of [initOnce]
    (read the core, call [With], store the result), the deferred store to the
    flag, the deferred unlock. *)
Inductive pc (C : Type) : Type :=
| Load
| Slow
| Locked
| Read
| Call (c : C)
| Store (c : C)
| Mark (ok : bool)
| Unlock (ok : bool)
| Use
| Returned (c : C)
| Panicked.
Arguments Load {C}. Arguments Slow {C}. Arguments Locked {C}. Arguments Read {C}. Arguments Call {C}.
Arguments Store {C}. Arguments Mark {C}. Arguments Unlock {C}. Arguments Use {C}. Arguments Returned {C}.
Arguments Panicked {C}.

Section LazyRace.
Context {C : Type} (with_fields : C -> option C).

(** The flag and the mutex of the [Once], the embedded core, and which
    goroutines have called its [With]. *)
Record lazy := mkLazy {
  o_done : bool;
  o_mu : option nat;
  o_core : C;
  o_withs : list nat;
  o_threads : list (pc C);
}.

(** One step of goroutine [i], if it can take one. *)
Definition move (i : nat) (s : lazy) : option lazy :=
  let '(mkLazy dn mu core withs ths) := s in
  p ← ths !! i;
  let at_ p := <[i := p]> ths in
  match p with
  | Load => Some (mkLazy dn mu core withs (at_ (if dn then Use else Slow)))
  | Slow => match mu with None => Some (mkLazy dn (Some i) core withs (at_ Locked)) | Some _ => None end
  | Locked => Some (mkLazy dn mu core withs (at_ (if dn then Unlock true else Read)))
  | Read => Some (mkLazy dn mu core withs (at_ (Call core)))
  | Call c =>
      Some (mkLazy dn mu core (withs ++ [i])
              (at_ (match with_fields c with Some c' => Store c' | None => Mark false end)))
  | Store c => Some (mkLazy dn mu c withs (at_ (Mark true)))
  | Mark ok => Some (mkLazy true mu core withs (at_ (Unlock ok)))
  | Unlock ok => Some (mkLazy dn None core withs (at_ (if ok then Use else Panicked)))
  | Use => Some (mkLazy dn mu core withs (at_ (Returned core)))
  | Returned _ | Panicked => None
  end.

Fixpoint run (sched : list nat) (s : lazy) : option lazy :=
  match sched with
  | [] => Some s
  | i :: sched => s ← move i s; run sched s
  end.

(** A new lazy core, and goroutines about to use it: [true] for [With] and
    [Check], [false] for the promoted methods. *)
Definition start (c0 : C) (uses : list bool) : lazy :=
  mkLazy false None c0 [] (map (fun first : bool => if first then Load else Use) uses).

(** ** Once *)

Section Safe.
Variables (c0 : C) (uses : list bool).

(** The core [initOnce] leaves behind. *)
Definition final : C := default c0 (with_fields c0).

(** What a goroutine at [p] knows of the rest.  [k] is the goroutine. *)
Definition knows (s : lazy) (first : bool) (k : nat) (p : pc C) : Prop :=
  let fresh := o_done s = false /\ o_core s = c0 /\ o_withs s = [] in
  let ran := o_withs s = [k] in
  match p with
  | Load | Slow => first = true
  | Locked => o_mu s = Some k /\ (o_done s = true \/ fresh)
  | Read => o_mu s = Some k /\ fresh
  | Call c => o_mu s = Some k /\ fresh /\ c = c0
  | Store c => o_mu s = Some k /\ o_done s = false /\ ran /\ with_fields c0 = Some c
  | Mark ok => o_mu s = Some k /\ o_done s = false /\ ran /\ o_core s = final /\ (ok = false -> with_fields c0 = None)
  | Unlock ok => o_mu s = Some k /\ o_done s = true /\ (ok = false -> ran /\ with_fields c0 = None)
  | Use => first = true -> o_done s = true
  | Returned c => (first = true -> c = final) /\ (c = c0 \/ c = final)
  | Panicked => ran /\ with_fields c0 = None
  end.

Definition inside (p : pc C) : bool :=
  match p with Locked | Read | Call _ | Store _ | Mark _ | Unlock _ => true | _ => false end.

Record Inv (s : lazy) : Prop := {
  once_knows : forall k p, o_threads s !! k = Some p -> exists first, uses !! k = Some first /\ knows s first k p;
  once_holder : forall k, o_mu s = Some k -> exists p, o_threads s !! k = Some p /\ inside p = true;
  once_free : o_mu s = None -> o_done s = true \/ (o_done s = false /\ o_core s = c0 /\ o_withs s = []);
  once_done : o_done s = true -> o_core s = final /\ exists k, o_withs s = [k];
  once_core : o_core s = c0 \/ o_core s = final;
  once_once : (length (o_withs s) <= 1)%nat;
}.

(** Goroutine [i] went from [p] to [p']: what is left to show. *)
Lemma once_step s s' i p p' :
  Inv s -> o_threads s !! i = Some p -> o_threads s' = <[i := p']> (o_threads s) ->
  (forall first, knows s first i p -> knows s' first i p') ->
  (forall k first q, k <> i -> knows s first k q -> knows s' first k q) ->
  (o_mu s' = Some i /\ inside p' = true \/ o_mu s' = None \/ (o_mu s' = o_mu s /\ o_mu s <> Some i)) ->
  (o_mu s' = None -> o_done s' = true \/ (o_done s' = false /\ o_core s' = c0 /\ o_withs s' = [])) ->
  (o_done s' = true -> o_core s' = final /\ exists k, o_withs s' = [k]) ->
  (o_core s' = c0 \/ o_core s' = final) -> (length (o_withs s') <= 1)%nat -> Inv s'.
Proof.
  intros HI Hi Hths Hself Hoth Hmu Hfree Hdone Hcore Honce. split; try done.
  - intros k q. rewrite Hths. intros [(<- & <- & _)|[Hne Hk]]%list_lookup_insert_Some.
    + destruct (once_knows _ HI _ _ Hi) as (first & Hf & Hk). eauto.
    + destruct (once_knows _ HI _ _ Hk) as (first & Hf & Hkn). eauto.
  - intros k Hk. rewrite Hths. assert (i < length (o_threads s))%nat by (by eapply lookup_lt_Some).
    destruct Hmu as [[E Hin]|[E|[E Hne]]]; rewrite E in Hk; simplify_eq.
    + exists p'. by rewrite list_lookup_insert_eq.
    + destruct (once_holder _ HI _ Hk) as (q & Hq & Hin). exists q.
      rewrite list_lookup_insert_ne; [done|]. intros ->. congruence.
Qed.

Lemma once_final_some c : with_fields c0 = Some c -> final = c.
Proof. unfold final. by intros ->. Qed.

Lemma once_final_none : with_fields c0 = None -> final = c0.
Proof. unfold final. by intros ->. Qed.

Lemma once_outside s i p : Inv s -> o_threads s !! i = Some p -> inside p = false -> o_mu s <> Some i.
Proof. intros HI Hi Hin Hmu. destruct (once_holder _ HI _ Hmu) as (q & Hq & ?). congruence. Qed.

(** A goroutine that holds the lock, or takes it, disturbs no other. *)
Lemma once_others s s' i k first q :
  k <> i -> o_mu s = None \/ o_mu s = Some i -> (o_done s = true -> o_done s' = true) ->
  (o_withs s <> [] -> o_withs s' = o_withs s) -> knows s first k q -> knows s' first k q.
Proof.
  intros Hne Hmu Hd Hw. destruct q; cbn; try done.
  all: try (intros [Hk _]; destruct Hmu; congruence).
  - auto.
  - intros [E ?]. rewrite Hw; [done|]. by rewrite E.
Qed.

Local Ltac others i :=
  let k := fresh "k" in let Hne := fresh in let Hk := fresh in
  intros k ? ? Hne Hk; refine (once_others _ _ i k _ _ Hne _ _ _ Hk); cbn; auto.

Local Ltac stepping HI Hi := intros [= <-]; eapply (once_step _ _ _ _ _ HI Hi); [reflexivity|..]; cbn;
  [..|try done|try done|try done|try done].

Lemma once_move s i s' : Inv s -> move i s = Some s' -> Inv s'.
Proof.
  intros HI. destruct s as [dn mu core withs ths]. cbn [move].
  destruct (ths !! i) as [p|] eqn:Hi; [|done]. cbn [mbind option_bind].
  destruct (once_knows _ HI i p Hi) as (first0 & Huse & Hkn).
  pose proof (once_outside _ i p HI Hi) as Hout.
  pose proof (once_free _ HI) as Hfree. pose proof (once_done _ HI) as Hdone. pose proof (once_core _ HI) as Hcore.
  pose proof (once_once _ HI) as Honce. cbn in Hfree, Hdone, Hcore, Honce, Hout.
  destruct p as [| | | |c|c|ok|ok| |c|]; cbn in Hkn; [..|done|done].
  - stepping HI Hi; [by destruct dn|done|auto].
  - destruct mu as [|]; [done|]. stepping HI Hi; [|others i|by left].
    intros first _. split; [done|by apply Hfree].
  - destruct Hkn as [-> Hkn]. stepping HI Hi; [|done|left; by destruct dn].
    intros first _. destruct dn; cbn; [done|]. by destruct Hkn.
  - destruct Hkn as [-> Hkn]. stepping HI Hi; [|done|by left]. intros first _. by destruct Hkn as (? & ? & ?).
  - destruct Hkn as (-> & (-> & -> & ->) & ->). stepping HI Hi.
    + intros first _. destruct (with_fields c0) eqn:E; cbn; [done|]. by rewrite (once_final_none E).
    + others i; done.
    + left. by destruct (with_fields c0).
  - destruct Hkn as (-> & -> & -> & Hw). stepping HI Hi.
    + intros first _. by rewrite (once_final_some _ Hw).
    + others i.
    + by left.
    + right. by rewrite (once_final_some _ Hw).
  - destruct Hkn as (-> & -> & -> & -> & Hw). stepping HI Hi.
    + intros first _. auto.
    + others i.
    + by left.
    + eauto.
  - destruct Hkn as (-> & -> & Hw). stepping HI Hi; [|others i|by right;left|by left].
    intros first _. destruct ok; cbn; auto.
  - stepping HI Hi; [|done|auto]. intros first Hu. split; [|done]. intros Hf. apply Hdone, Hu, Hf.
Qed.

Lemma once_start : Inv (start c0 uses).
Proof.
  split; cbn; [|naive_solver lia..].
  intros k p. rewrite list_lookup_fmap. destruct (uses !! k) as [[]|] eqn:E; intros [= <-]; eexists; by split.
Qed.

Lemma once_run sched s s' : Inv s -> run sched s = Some s' -> Inv s'.
Proof.
  revert s. induction sched as [|i sched IH]; intros s HI; cbn; [by intros [= <-]|].
  destruct (move i s) as [s1|] eqn:E; [|done]. cbn. eauto using once_move.
Qed.

(** ** Progress *)

(** How many steps a goroutine has left at most. *)
Definition weight (p : pc C) : nat :=
  match p with
  | Load => 9 | Slow => 8 | Locked => 7 | Read => 6 | Call _ => 5 | Store _ => 4 | Mark _ => 3 | Unlock _ => 2
  | Use => 1 | Returned _ | Panicked => 0
  end.
Definition weights (s : lazy) : nat := list_sum (map weight (o_threads s)).

Definition ended (p : pc C) : bool := match p with Returned _ | Panicked => true | _ => false end.

Lemma once_move_weight s i s' : move i s = Some s' -> (weights s' < weights s)%nat.
Proof.
  destruct s as [dn mu core withs ths]. cbn [move].
  destruct (ths !! i) as [p|] eqn:Hi; [|done]. cbn [mbind option_bind]. unfold weights. intros Hm.
  assert (exists p', o_threads s' = <[i := p']> ths /\ (weight p' < weight p)%nat) as (p' & -> & Hlt).
  { destruct p; repeat case_match; simplify_eq/=; (eexists; split; [reflexivity|cbn; lia]). }
  pose proof (sum_insert weight ths i p p' Hi). cbn [o_threads]. lia.
Qed.

Lemma once_run_weight sched s s' : run sched s = Some s' -> (length sched + weights s' <= weights s)%nat.
Proof.
  revert s. induction sched as [|i sched IH]; intros s; cbn; [intros [= <-]; lia|].
  destruct (move i s) as [s1|] eqn:E; [|done]. cbn. intros He%IH. apply once_move_weight in E. lia.
Qed.

Lemma once_start_weight : (weights (start c0 uses) <= 9 * length uses)%nat.
Proof.
  unfold weights, start. cbn [o_threads]. clear. induction uses as [|first us IH]; [done|].
  rewrite !map_cons. cbn [length]. unfold list_sum in *. cbn [fold_right]. destruct first; cbn [weight]; lia.
Qed.

(** A goroutine that has not ended can go on, or waits for one that can. *)
Lemma once_progress s k p : Inv s -> o_threads s !! k = Some p -> ended p = false -> exists i, move i s <> None.
Proof.
  intros HI Hk Hp. destruct s as [dn mu core withs ths].
  destruct mu as [j|] eqn:Hmu.
  - destruct (once_holder _ HI j eq_refl) as (q & Hq & Hin). exists j. cbn in *. rewrite Hq. cbn. by destruct q.
  - exists k. cbn in *. rewrite Hk. cbn. by destruct p.
Qed.

(** C16.  [lazyWithCore] used by any number of goroutines in any order.  The
    fields are added at most once.  [With] and [Check] go on with the core that
    has them; the promoted methods see the core before or after.  Only the
    goroutine whose call of [With] panicked panics.  A read of the core that is
    not ordered before or after the store of [initOnce] is one of a promoted
    method.  Nobody waits for ever: each goroutine takes at most nine steps, and
    when none can take one all have returned or panicked. *)
Theorem lazy_with_once sched s (Hrun : run sched (start c0 uses) = Some s) :
  (length (o_withs s) <= 1)%nat /\
  (forall k c, o_threads s !! k = Some (Returned c) ->
     (c = c0 \/ c = final) /\ (uses !! k = Some true -> c = final)) /\
  (forall k, o_threads s !! k = Some Panicked -> with_fields c0 = None /\ o_withs s = [k]) /\
  (forall i k c, o_threads s !! i = Some (Store c) -> o_threads s !! k = Some Use -> uses !! k = Some false) /\
  (length sched <= 9 * length uses)%nat /\
  ((forall i, move i s = None) -> Forall (fun p => ended p = true) (o_threads s)).
Proof.
  pose proof (once_run _ _ _ once_start Hrun) as HI. pose proof (once_knows _ HI) as Hkn.
  split_and!; [by apply once_once|..].
  - intros k c (first & -> & [Hf Hc])%Hkn. split; [done|]. intros [= ->]. auto.
  - intros k (first & _ & [Hr Hw])%Hkn. done.
  - intros i k c (? & _ & _ & Hd & _)%Hkn ([|] & -> & Hu)%Hkn; [|done]. cbn in Hu. rewrite Hu in Hd; done.
  - apply once_run_weight in Hrun. pose proof once_start_weight. lia.
  - intros Hstuck. apply Forall_lookup. intros k p Hk. destruct (ended p) eqn:Hp; [done|].
    destruct (once_progress _ _ _ HI Hk Hp) as [i Hi]. by rewrite Hstuck in Hi.
Qed.
End Safe.
End LazyRace.

(** ** Examples

    The core is the list of the fields added to it.  Goroutine 0 and 1 call
    [Check], goroutine 2 [Enabled]. *)
Definition exampleLazyWith (c : list Z) : option (list Z) := Some (c ++ [7]).
Definition exampleUses : list bool := [true; true; false].

(** Goroutine 1 finds the flag unset, and waits for goroutine 0. *)
Definition exampleLazySchedule : list nat := [0; 1; 0; 0; 0; 2; 0; 0; 0; 0; 1; 1; 1; 0; 1]%nat.

Lemma lazy_with_once_witness :
  exists s, run exampleLazyWith exampleLazySchedule (start [] exampleUses) = Some s /\
    (length (o_withs s) <= 1)%nat /\
    o_threads s = [Returned [7]; Returned [7]; Returned []].
Proof.
  eexists. split; [vm_compute; reflexivity|]. split; [|reflexivity].
  apply (lazy_with_once exampleLazyWith [] exampleUses exampleLazySchedule). vm_compute. reflexivity.
Defined.

(** The read of the promoted [Enabled], which [Logger.check] calls first, can
    come at the moment another goroutine stores the core: nothing orders the
    two. *)
Theorem lazy_enabled_races :
  exists sched s, run exampleLazyWith sched (start [] [true; false]) = Some s /\
    o_threads s = [Store [7]; Use] /\ move exampleLazyWith 0 s <> None /\ move exampleLazyWith 1 s <> None.
Proof. exists [0; 0; 0; 0; 0]%nat. eexists. split; [vm_compute; reflexivity|]. by vm_compute. Qed.
