(* ===== verification/Guarded.v ===== *)
(** * Guarded

    Objects that several goroutines share behind a mutex.  The critical
    sections of an object in small steps, a [sync.RWMutex] around them
    ([sync.Mutex] is one nobody takes for reading), and goroutines that call
    the object, each next call depending on what the ones before it returned.
    However they are scheduled, the calls take effect one after the other, and
    every run comes to an end with every call returned.  The clients are the
    locked write syncer ([LockedSink]) and the collections of [SharedState]. *)
From Stdlib Require Import Wellfounded.
From S2P Require Import Prelude.

(** ** The program *)

(** An object: which calls only take the lock for reading, the variables a
    critical section starts with, its steps, and what it returns.  Sections
    that read leave the object alone. *)
Class Guarded (St Loc Op Res : Type) := {
  reads : Op -> bool;
  enter : Op -> Loc;
  body : Op -> list (Loc -> St -> Loc * St);
  result : Loc -> Res;
  reads_keep op f l s : reads op = true -> f ∈ body op -> (f l s).2 = s;
}.

(** What a goroutine will call, given what the calls return. *)
Inductive prog (Op Res : Type) : Type :=
| Done
| Call (op : Op) (k : Res -> prog Op Res).
Arguments Done {Op Res}. Arguments Call {Op Res}.

(** The calls one after the other, whatever they return. *)
Definition calls_of {Op Res} (ops : list Op) : prog Op Res :=
  fold_right (fun op p => Call op (fun _ => p)) Done ops.

Section Guarded.
Context {St Loc Op Res : Type} `{G : !Guarded St Loc Op Res}.

Abbreviation micro := (Loc -> St -> Loc * St).
Abbreviation program := (prog Op Res).

(** Where a goroutine is: outside; waiting for the readers to leave, as a
    writer other goroutines know of; or in a critical section, with the steps
    left, the variables, and what comes after it. *)
Inductive place : Type :=
| Outside (p : program)
| Announced (op : Op) (k : Res -> program)
| Inside (op : Op) (k : Res -> program) (rest : list micro) (l : Loc).

(** A goroutine, with what its calls have returned so far. *)
Record thread := mkThread { t_at : place; t_rets : list Res }.

(** The object, the readers inside, the writer inside or announced, the
    goroutines, and the calls in the order they got the lock. *)
Record conf := mkConf {
  g_shared : St;
  g_readers : gset nat;
  g_writer : option nat;
  g_threads : list thread;
  g_order : list (nat * Op);
}.

(** One step of goroutine [i], if it can take one.  [RLock] waits for a writer
    that is inside or announced; [Lock] waits for other writers, announces
    itself, and waits for the readers inside. *)
Definition move (i : nat) (c : conf) : option conf :=
  let '(mkConf sh rd wt ths ord) := c in
  '(mkThread pl rets) ← ths !! i;
  let at_ pl := <[i := mkThread pl rets]> ths in
  match pl with
  | Outside Done => None
  | Outside (Call op k) =>
      match wt with
      | Some _ => None
      | None =>
          if reads op
          then Some (mkConf sh ({[i]} ∪ rd) None (at_ (Inside op k (body op) (enter op))) (ord ++ [(i, op)]))
          else Some (mkConf sh rd (Some i) (at_ (Announced op k)) ord)
      end
  | Announced op k =>
      if decide (rd = ∅)
      then Some (mkConf sh rd wt (at_ (Inside op k (body op) (enter op))) (ord ++ [(i, op)]))
      else None
  | Inside op k (f :: rest) l =>
      let '(l', sh') := f l sh in Some (mkConf sh' rd wt (at_ (Inside op k rest l')) ord)
  | Inside op k [] l =>
      let r := result l in
      let ths := <[i := mkThread (Outside (k r)) (rets ++ [r])]> ths in
      if reads op then Some (mkConf sh (rd ∖ {[i]}) wt ths ord) else Some (mkConf sh rd None ths ord)
  end.

Fixpoint run (is_ : list nat) (c : conf) : option conf :=
  match is_ with
  | [] => Some c
  | i :: is_ => c ← move i c; run is_ c
  end.

Definition start (s : St) (ps : list program) : conf :=
  mkConf s ∅ None (map (fun p => mkThread (Outside p) []) ps) [].

(** ** One call after the other *)

Fixpoint finish (ms : list micro) (l : Loc) (s : St) : Loc * St :=
  match ms with
  | [] => (l, s)
  | f :: ms => let '(l, s) := f l s in finish ms l s
  end.

Definition run_call (op : Op) (s : St) : St * Res :=
  let '(l, s) := finish (body op) (enter op) s in (s, result l).

(** The object after the calls in this order, and what those of goroutine [i]
    returned. *)
Fixpoint after (s : St) (ord : list (nat * Op)) : St :=
  match ord with
  | [] => s
  | (_, op) :: ord => after (run_call op s).1 ord
  end.

Fixpoint answers (i : nat) (s : St) (ord : list (nat * Op)) : list Res :=
  match ord with
  | [] => []
  | (j, op) :: ord =>
      let '(s, r) := run_call op s in
      if decide (j = i) then r :: answers i s ord else answers i s ord
  end.

Definition own (i : nat) (ord : list (nat * Op)) : list Op :=
  omap (fun '(j, op) => if decide (j = i) then Some op else None) ord.

(** A program that was given these results: the calls it made, and what it
    will do next. *)
Fixpoint asked (p : program) (rs : list Res) : list Op :=
  match p, rs with
  | Call op k, r :: rs => op :: asked (k r) rs
  | _, _ => []
  end.

Fixpoint remains (p : program) (rs : list Res) : program :=
  match p, rs with
  | Call op k, r :: rs => remains (k r) rs
  | _, _ => p
  end.

Lemma after_snoc s ord i op : after s (ord ++ [(i, op)]) = (run_call op (after s ord)).1.
Proof. revert s. induction ord as [|[j o] ord IH]; intros s; [done|]. apply IH. Qed.

Lemma answers_snoc i s ord j op :
  answers i s (ord ++ [(j, op)]) =
    answers i s ord ++ (if decide (j = i) then [(run_call op (after s ord)).2] else []).
Proof.
  revert s. induction ord as [|[j' o] ord IH]; intros s; cbn [answers app after].
  - destruct (run_call op s). by case_decide.
  - destruct (run_call o s) as [s' r] eqn:E. rewrite IH. by destruct (decide (j' = i)).
Qed.

Lemma own_snoc i ord j op : own i (ord ++ [(j, op)]) = own i ord ++ (if decide (j = i) then [op] else []).
Proof. unfold own. rewrite omap_app. f_equal. cbn. by destruct (decide (j = i)). Qed.

Lemma remains_snoc p rs op k r : remains p rs = Call op k -> remains p (rs ++ [r]) = k r.
Proof.
  revert p. induction rs as [|x rs IH]; intros [|o k']; cbn; try done.
  - intros [= -> ->]. by destruct (k r).
  - intros H. apply (IH (k' x) H).
Qed.

Lemma asked_snoc p rs op k r : remains p rs = Call op k -> asked p (rs ++ [r]) = asked p rs ++ [op].
Proof.
  revert p. induction rs as [|x rs IH]; intros [|o k']; cbn; try done.
  - intros [= -> ->]. by destruct (k r).
  - intros H. f_equal. apply (IH (k' x) H).
Qed.

Lemma finish_reads ms l s :
  (forall f l s, f ∈ ms -> (f l s).2 = s) -> (finish ms l s).2 = s.
Proof.
  revert l s. induction ms as [|f ms IH]; intros l s Hf; [done|]. cbn.
  pose proof (Hf f l s ltac:(left)) as E. destruct (f l s) as [l' s']. cbn in E. subst s'.
  apply IH. intros g l0 s0 Hg. apply Hf. by right.
Qed.

Lemma run_call_reads op s : reads op = true -> (run_call op s).1 = s.
Proof.
  intros Hr. unfold run_call. pose proof (finish_reads (body op) (enter op) s) as E.
  destruct (finish _ _ _) as [l s']. apply E. intros f l0 s0. by apply reads_keep.
Qed.

(** The calls with what they returned. *)
Fixpoint trace (s : St) (ord : list (nat * Op)) : list (nat * (Op * Res)) :=
  match ord with
  | [] => []
  | (i, op) :: ord => let '(s, r) := run_call op s in (i, (op, r)) :: trace s ord
  end.

(** The calls of goroutine [i] in it. *)
Definition calls_by (i : nat) (tr : list (nat * (Op * Res))) : list (Op * Res) :=
  omap (fun '(j, x) => if decide (j = i) then Some x else None) tr.

Lemma trace_calls i s ord :
  map fst (calls_by i (trace s ord)) = own i ord /\ map snd (calls_by i (trace s ord)) = answers i s ord.
Proof.
  unfold own, calls_by. revert s. induction ord as [|[j op] ord IH]; intros s; [done|].
  specialize (IH (run_call op s).1). simpl. destruct (run_call op s) as [s' r]. simpl in *.
  destruct IH as [IH1 IH2]. destruct (decide (j = i)); [|done]. split; simpl; f_equal; done.
Qed.

(** A call in the middle: it returned what it does on the object the calls
    before it left. *)
Lemma trace_middle s ord tr1 i op r tr2 :
  trace s ord = tr1 ++ (i, (op, r)) :: tr2 ->
  exists ord1, tr1 = trace s ord1 /\ r = (run_call op (after s ord1)).2.
Proof.
  revert s tr1. induction ord as [|[j o] ord IH]; intros s tr1; [by destruct tr1|]. cbn [trace].
  destruct (run_call o s) as [s' r'] eqn:E. destruct tr1 as [|x tr1]; cbn [app]; intros Htr.
  - simplify_eq. exists []. cbn [after]. by rewrite E.
  - injection Htr as <- Htr. destruct (IH _ _ Htr) as (ord1 & -> & ->). exists ((j, o) :: ord1).
    cbn [trace after]. by rewrite E.
Qed.

Lemma trace_app s o1 o2 : trace s (o1 ++ o2) = trace s o1 ++ trace (after s o1) o2.
Proof.
  revert s. induction o1 as [|[i op] o1 IH]; intros s; [done|]. cbn [trace after app].
  destruct (run_call op s) as [s' r] eqn:E. cbn [fst app]. by rewrite <- IH.
Qed.

Lemma trace_ids s ord x : x ∈ trace s ord -> exists op, (x.1, op) ∈ ord.
Proof.
  revert s. induction ord as [|[i op] ord IH]; intros s; [by intros ?%elem_of_nil|]. cbn [trace].
  destruct (run_call op s) as [s' r]. intros [->|Hx]%elem_of_cons; [exists op; by left|].
  destruct (IH _ Hx) as [op' ?]. exists op'. by right.
Qed.

(** ** The invariant *)

(** What a goroutine is about to do or is doing, the call it is in, and what
    that will return. *)
Definition next (pl : place) : program :=
  match pl with Outside p => p | Announced op k | Inside op k _ _ => Call op k end.

Definition asking (pl : place) : list Op := match pl with Inside op _ _ _ => [op] | _ => [] end.

Definition pending (sh : St) (pl : place) : list Res :=
  match pl with Inside _ _ rest l => [result (finish rest l sh).1] | _ => [] end.

(** How goroutine [i] stands to the lock. *)
Definition lock_ok (rd : gset nat) (wt : option nat) (i : nat) (pl : place) : Prop :=
  match pl with
  | Outside _ => (i ∉ rd) /\ wt <> Some i
  | Announced op _ => (i ∉ rd) /\ wt = Some i /\ reads op = false
  | Inside op _ rest _ =>
      if reads op then i ∈ rd /\ wt <> Some i /\ (forall f, f ∈ rest -> f ∈ body op)
      else rd = ∅ /\ wt = Some i
  end.

(** The object when the writer that is inside will have left. *)
Definition settled (sh : St) (wt : option nat) (ths : list thread) : St :=
  match wt ≫= (fun i => ths !! i) with
  | Some (mkThread (Inside _ _ rest l) _) => (finish rest l sh).2
  | _ => sh
  end.

Record thread_ok (s0 : St) (c : conf) (i : nat) (P : program) (t : thread) : Prop := {
  ok_next : remains P (t_rets t) = next (t_at t);
  ok_own : own i (g_order c) = asked P (t_rets t) ++ asking (t_at t);
  ok_answers : answers i s0 (g_order c) = t_rets t ++ pending (g_shared c) (t_at t);
  ok_lock : lock_ok (g_readers c) (g_writer c) i (t_at t);
}.

Record Inv (s0 : St) (ps : list program) (c : conf) : Prop := {
  inv_threads i P : ps !! i = Some P -> exists t, g_threads c !! i = Some t /\ thread_ok s0 c i P t;
  inv_length : length (g_threads c) = length ps;
  inv_readers i : i ∈ g_readers c -> (i < length ps)%nat;
  inv_writer i : g_writer c = Some i -> (i < length ps)%nat;
  inv_settled : after s0 (g_order c) = settled (g_shared c) (g_writer c) (g_threads c);
}.

Lemma inv_thread s0 ps c i t :
  Inv s0 ps c -> g_threads c !! i = Some t -> exists P, ps !! i = Some P /\ thread_ok s0 c i P t.
Proof.
  intros HI Hi. destruct (lookup_lt_is_Some_2 ps i) as [P HP].
  { rewrite <- (inv_length _ _ _ HI). by eapply lookup_lt_Some. }
  exists P. split; [done|]. destruct (inv_threads _ _ _ HI _ _ HP) as (t' & Ht & ?). by simplify_eq.
Qed.

Lemma start_inv s ps : Inv s ps (start s ps).
Proof.
  split; cbn; [|by rewrite length_map|set_solver|done|done].
  intros i P HP. exists (mkThread (Outside P) []). split.
  - change (map ?f ps) with (f <$> ps). by rewrite list_lookup_fmap, HP.
  - by split; [destruct P|destruct P|..]; cbn; [..|set_solver].
Qed.

(** A move of goroutine [i] that the others do not notice. *)
Lemma update_inv s0 ps c i P t' c' :
  Inv s0 ps c -> ps !! i = Some P ->
  g_threads c' = <[i := t']> (g_threads c) -> thread_ok s0 c' i P t' ->
  (forall j, j <> i -> own j (g_order c') = own j (g_order c) /\
     answers j s0 (g_order c') = answers j s0 (g_order c)) ->
  (forall j t, j <> i -> g_threads c !! j = Some t -> lock_ok (g_readers c) (g_writer c) j (t_at t) ->
     lock_ok (g_readers c') (g_writer c') j (t_at t) /\
     pending (g_shared c') (t_at t) = pending (g_shared c) (t_at t)) ->
  g_readers c' ⊆ {[i]} ∪ g_readers c -> (forall j, g_writer c' = Some j -> j = i \/ g_writer c = Some j) ->
  after s0 (g_order c') = settled (g_shared c') (g_writer c') (g_threads c') ->
  Inv s0 ps c'.
Proof.
  intros HI HP Hths Hok Hord Hoth Hrd Hwt Hst.
  assert (i < length ps)%nat as Hi by (by eapply lookup_lt_Some).
  split; [|by rewrite Hths, length_insert; apply HI|..|done].
  - intros j Q HQ. destruct (decide (j = i)) as [->|Hne].
    + simplify_eq. exists t'. split; [|done]. rewrite Hths, list_lookup_insert_eq; [done|].
      by rewrite (inv_length _ _ _ HI).
    + destruct (inv_threads _ _ _ HI _ _ HQ) as (t & Ht & [H1 H2 H3 H4]). exists t.
      rewrite Hths, list_lookup_insert_ne by done. split; [done|].
      destruct (Hord _ Hne) as [Ho Ha]. destruct (Hoth _ _ Hne Ht H4) as [Hl Hp].
      split; [done| |..|done]; [by rewrite Ho|by rewrite Ha, Hp].
  - intros j Hj. apply Hrd, elem_of_union in Hj as [->%elem_of_singleton|Hj]; [done|by apply (inv_readers _ _ _ HI)].
  - intros j Hj. destruct (Hwt _ Hj) as [->|Hw]; [done|by apply (inv_writer _ _ _ HI)].
Qed.

Lemma run_call_finish op s :
  run_call op s = ((finish (body op) (enter op) s).2, result (finish (body op) (enter op) s).1).
Proof. unfold run_call. by destruct (finish _ _ _). Qed.

Lemma settled_other sh wt ths i t : wt <> Some i -> settled sh wt (<[i := t]> ths) = settled sh wt ths.
Proof.
  intros Hw. unfold settled. destruct wt as [j|]; [|done]. cbn. rewrite list_lookup_insert_ne; [done|congruence].
Qed.

Lemma settled_self sh ths i t :
  (i < length ths)%nat ->
  settled sh (Some i) (<[i := t]> ths) =
    match t_at t with Inside _ _ rest l => (finish rest l sh).2 | _ => sh end.
Proof.
  intros Hi. unfold settled. cbn. rewrite list_lookup_insert_eq by done. by destruct t as [[] ?].
Qed.

Lemma own_other i j ord op : j <> i -> own j (ord ++ [(i, op)]) = own j ord.
Proof. intros Hne. rewrite own_snoc, decide_False by done. apply app_nil_r. Qed.

Lemma answers_other i j s ord op : j <> i -> answers j s (ord ++ [(i, op)]) = answers j s ord.
Proof. intros Hne. rewrite answers_snoc, decide_False by done. apply app_nil_r. Qed.

(** The writer that is inside is alone. *)
Lemma alone rd i j pl : lock_ok rd (Some i) j pl -> rd = ∅ -> j <> i -> exists p, pl = Outside p.
Proof.
  intros Hl -> Hne. destruct pl as [p|op k|op k rest l]; cbn in Hl; [eauto|naive_solver|].
  destruct (reads op); [set_solver|naive_solver].
Qed.

#[local] Arguments own : simpl never.
#[local] Arguments answers : simpl never.
#[local] Arguments after : simpl never.

Section Step.
Variables (s0 : St) (ps : list program).

Lemma announce_inv sh rd ths ord i op k rets :
  let c := mkConf sh rd None ths ord in
  Inv s0 ps c -> ths !! i = Some (mkThread (Outside (Call op k)) rets) -> reads op = false ->
  Inv s0 ps (mkConf sh rd (Some i) (<[i := mkThread (Announced op k) rets]> ths) ord).
Proof.
  intros c HI Hi Hr. destruct (inv_thread _ _ _ _ _ HI Hi) as (P & HP & [H1 H2 H3 H4]).
  assert (i < length ths)%nat by (by eapply lookup_lt_Some).
  eapply (update_inv s0 ps c); [done|done|done|split; cbn in *; naive_solver|done|..]; cbn.
  - intros j [pl rs] Hne Hj Hl. split; [|done]. destruct pl as [|op' k'|op' k' rest' l']; cbn in *.
    + destruct Hl. split; [done|congruence].
    + naive_solver.
    + destruct (reads op'); [|naive_solver]. destruct Hl as (? & _ & ?). split_and!; [done|congruence|done].
  - set_solver.
  - intros j [= ->]. by left.
  - rewrite settled_self by done. apply (inv_settled _ _ _ HI).
Qed.

Lemma read_inv sh rd ths ord i op k rets :
  let c := mkConf sh rd None ths ord in
  Inv s0 ps c -> ths !! i = Some (mkThread (Outside (Call op k)) rets) -> reads op = true ->
  Inv s0 ps (mkConf sh ({[i]} ∪ rd) None (<[i := mkThread (Inside op k (body op) (enter op)) rets]> ths)
               (ord ++ [(i, op)])).
Proof.
  intros c HI Hi Hr. destruct (inv_thread _ _ _ _ _ HI Hi) as (P & HP & [H1 H2 H3 H4]).
  pose proof (inv_settled _ _ _ HI) as Hs. cbn in *.
  eapply (update_inv s0 ps c); [done|done|done|split; cbn|..]; cbn.
  - done.
  - by rewrite own_snoc, decide_True, H2, app_nil_r.
  - rewrite answers_snoc, decide_True, H3, app_nil_r, Hs, run_call_finish; done.
  - rewrite Hr. split_and!; [set_solver|done|done].
  - intros j Hne. split; [by apply own_other|by apply answers_other].
  - intros j [pl rs] Hne Hj Hl. split; [|done]. destruct pl as [|op' k'|op' k' rest' l']; cbn in *.
    + set_solver.
    + naive_solver.
    + destruct (reads op'); [set_solver|naive_solver].
  - done.
  - by left.
  - by rewrite after_snoc, run_call_reads, Hs.
Qed.

Lemma write_inv sh wt ths ord i op k rets :
  let c := mkConf sh ∅ wt ths ord in
  Inv s0 ps c -> ths !! i = Some (mkThread (Announced op k) rets) ->
  Inv s0 ps (mkConf sh ∅ wt (<[i := mkThread (Inside op k (body op) (enter op)) rets]> ths) (ord ++ [(i, op)])).
Proof.
  intros c HI Hi. destruct (inv_thread _ _ _ _ _ HI Hi) as (P & HP & [H1 H2 H3 H4]).
  cbn in H4. destruct H4 as (H4 & -> & Hr).
  assert (i < length ths)%nat by (by eapply lookup_lt_Some).
  assert (after s0 ord = sh) as Hs.
  { pose proof (inv_settled _ _ _ HI) as Hs. unfold settled in Hs. cbn in Hs. by rewrite Hi in Hs. }
  cbn in *. eapply (update_inv s0 ps c); [done|done|done|split; cbn|..]; cbn.
  - done.
  - by rewrite own_snoc, decide_True, H2, app_nil_r.
  - rewrite answers_snoc, decide_True, H3, app_nil_r, Hs, run_call_finish; done.
  - by rewrite Hr.
  - intros j Hne. split; [by apply own_other|by apply answers_other].
  - done.
  - set_solver.
  - intros j [= ->]. by left.
  - by rewrite after_snoc, Hs, run_call_finish, settled_self.
Qed.

Lemma micro_inv sh rd wt ths ord i op k f rest l rets :
  let c := mkConf sh rd wt ths ord in
  Inv s0 ps c -> ths !! i = Some (mkThread (Inside op k (f :: rest) l) rets) ->
  Inv s0 ps (mkConf (f l sh).2 rd wt (<[i := mkThread (Inside op k rest (f l sh).1) rets]> ths) ord).
Proof.
  intros c HI Hi. destruct (inv_thread _ _ _ _ _ HI Hi) as (P & HP & [H1 H2 H3 H4]).
  assert (i < length ths)%nat by (by eapply lookup_lt_Some). pose proof (inv_settled _ _ _ HI) as Hs.
  assert (finish (f :: rest) l sh = finish rest (f l sh).1 (f l sh).2) as Hf by (cbn; by destruct (f l sh)).
  cbn [g_shared g_readers g_writer g_threads g_order t_at t_rets c pending] in *. rewrite Hf in H3.
  assert (lock_ok rd wt i (Inside op k rest (f l sh).1)) as H4'.
  { cbn in *. destruct (reads op); [|done]. destruct H4 as (? & ? & Hin). split_and!; [done..|].
    intros g Hg. apply Hin. by right. }
  assert (wt <> Some i -> (f l sh).2 = sh) as Hkeep.
  { intros Hw. cbn in H4. destruct (reads op) eqn:Hr; [|naive_solver].
    destruct H4 as (_ & _ & Hin). apply (reads_keep op); [done|]. apply Hin. by left. }
  eapply (update_inv s0 ps c); [done|done|done|by split|done|..]; cbn.
  - intros j [pl rs] Hne Hj Hl. split; [done|]. destruct (decide (wt = Some i)) as [->|Hw]; [|by rewrite Hkeep].
    cbn in H4. destruct (reads op); [naive_solver|]. destruct H4 as [-> _].
    by destruct (alone _ _ _ _ Hl) as [p ->].
  - set_solver.
  - by right.
  - rewrite Hs. destruct (decide (wt = Some i)) as [->|Hw].
    + rewrite settled_self by done. unfold settled. cbn [mbind option_bind]. rewrite Hi. by rewrite Hf.
    + by rewrite settled_other, Hkeep.
Qed.

Lemma leave_inv sh rd wt ths ord i op k l rets rd' wt' :
  let c := mkConf sh rd wt ths ord in
  Inv s0 ps c -> ths !! i = Some (mkThread (Inside op k [] l) rets) ->
  (if reads op then rd' = rd ∖ {[i]} /\ wt' = wt else rd' = rd /\ wt' = None) ->
  Inv s0 ps (mkConf sh rd' wt' (<[i := mkThread (Outside (k (result l))) (rets ++ [result l])]> ths) ord).
Proof.
  intros c HI Hi Hlv. destruct (inv_thread _ _ _ _ _ HI Hi) as (P & HP & [H1 H2 H3 H4]).
  pose proof (inv_settled _ _ _ HI) as Hs. cbn in *.
  eapply (update_inv s0 ps c); [done|done|done|split; cbn|done|..]; cbn.
  - by eapply remains_snoc.
  - by rewrite (asked_snoc _ _ _ _ _ H1), app_nil_r.
  - by rewrite app_nil_r.
  - destruct (reads op), Hlv as [-> ->]; [set_solver|]. destruct H4 as [-> _]. set_solver.
  - intros j [pl rs] Hne Hj Hl. split; [|done]. destruct (reads op), Hlv as [-> ->].
    + destruct pl as [|op' k'|op' k' rest' l']; cbn in *; [set_solver..|]. destruct (reads op'); set_solver.
    + destruct H4 as [-> ->]. destruct (alone _ _ _ _ Hl) as [p Hp]; [done..|]. cbn in Hp. subst pl. cbn. set_solver.
  - destruct (reads op), Hlv as [-> ->]; set_solver.
  - intros j Hj. right. destruct (reads op), Hlv as [-> ->]; congruence.
  - rewrite Hs. destruct (reads op), Hlv as [-> ->].
    + by rewrite settled_other by naive_solver.
    + destruct H4 as [-> ->]. unfold settled. cbn. by rewrite Hi.
Qed.

Lemma move_inv i c c' : Inv s0 ps c -> move i c = Some c' -> Inv s0 ps c'.
Proof.
  destruct c as [sh rd wt ths ord]. cbn [move]. intros HI Hm.
  destruct (ths !! i) as [[pl rets]|] eqn:Hi; [|done]. cbn [mbind option_bind] in Hm.
  destruct pl as [[|op k]|op k|op k [|f rest] l].
  - done.
  - destruct wt as [|]; [done|]. destruct (reads op) eqn:Hr; simplify_eq.
    + by apply read_inv.
    + by apply announce_inv.
  - destruct (decide (rd = ∅)) as [->|]; [|done]. simplify_eq. by apply write_inv.
  - destruct (reads op) eqn:Hr; simplify_eq; eapply leave_inv; by rewrite ?Hr.
  - pose proof (micro_inv _ _ _ _ _ _ _ _ _ _ _ _ HI Hi) as HI'. destruct (f l sh) as [l' sh']. by simplify_eq.
Qed.

Lemma run_inv is_ c c' : Inv s0 ps c -> run is_ c = Some c' -> Inv s0 ps c'.
Proof.
  revert c. induction is_ as [|i is_ IH]; intros c HI; cbn; [by intros [= <-]|].
  destruct (move i c) as [c1|] eqn:E; [|done]. apply IH. by eapply move_inv.
Qed.
End Step.

(** ** The calls take effect one after the other *)

(** In the order in which they got the lock: a goroutine outside has been told
    what its calls return in that order, has called what it calls when told so,
    and goes on with what it does next then; without a writer, the object is
    what the calls made of it. *)
Lemma linearizable s ps is_ c :
  run is_ (start s ps) = Some c ->
  (forall i P p rets, ps !! i = Some P -> g_threads c !! i = Some (mkThread (Outside p) rets) ->
     rets = answers i s (g_order c) /\ own i (g_order c) = asked P rets /\ remains P rets = p) /\
  (g_writer c = None -> g_shared c = after s (g_order c)).
Proof.
  intros Hrun. pose proof (run_inv _ _ _ _ _ (start_inv s ps) Hrun) as HI. split.
  - intros i P p rets HP Hi. destruct (inv_threads _ _ _ HI _ _ HP) as (t & Ht & [H1 H2 H3 _]).
    rewrite Hi in Ht. simplify_eq. cbn in *. by rewrite H2, H3, !app_nil_r.
  - intros Hw. rewrite (inv_settled _ _ _ HI). unfold settled. by rewrite Hw.
Qed.

(** ** Every call returns *)

Definition finished (t : thread) : Prop := t_at t = Outside Done.

Lemma inside_moves c i op k rest l rets :
  g_threads c !! i = Some (mkThread (Inside op k rest l) rets) -> move i c <> None.
Proof.
  destruct c as [sh rd wt ths ord]. cbn. intros ->. cbn. destruct rest as [|f rest].
  - by destruct (reads op).
  - by destruct (f l sh).
Qed.

(** Someone can move until everyone is finished. *)
Lemma guarded_progress s0 ps c :
  Inv s0 ps c -> (forall i, move i c = None) -> forall i t, g_threads c !! i = Some t -> finished t.
Proof.
  intros HI Hstuck.
  assert (forall i, (i < length ps)%nat -> exists pl rets, g_threads c !! i = Some (mkThread pl rets) /\
            lock_ok (g_readers c) (g_writer c) i pl /\ forall op k rest l, pl <> Inside op k rest l) as Hth.
  { intros i Hi. destruct (lookup_lt_is_Some_2 ps i Hi) as [P HP].
    destruct (inv_threads _ _ _ HI _ _ HP) as ([pl rets] & Ht & [_ _ _ Hl]). exists pl, rets. split_and!; [done..|].
    intros op k rest l ->. by apply (inside_moves _ _ _ _ _ _ _ Ht). }
  assert (g_readers c = ∅) as Hrd.
  { apply leibniz_equiv, elem_of_equiv_empty. intros i Hi.
    destruct (Hth i (inv_readers _ _ _ HI _ Hi)) as ([p|op k|op k rest l] & rets & _ & Hl & Hno);
      [by destruct Hl|by destruct Hl|by edestruct Hno]. }
  assert (g_writer c = None) as Hwt.
  { destruct (g_writer c) as [i|] eqn:Hw; [|done]. destruct (Hth i (inv_writer _ _ _ HI _ Hw)) as (pl & rets & Hi & Hl & Hno).
    destruct pl as [p|op k|op k rest l]; [by destruct Hl| |by edestruct Hno].
    specialize (Hstuck i). destruct c as [sh rd wt ths ord]. cbn in *. rewrite Hi in Hstuck. cbn in Hstuck.
    by rewrite decide_True in Hstuck. }
  intros i [pl' rets'] Ht. destruct (Hth i) as (pl & rets & Hi & Hl & Hno).
  { rewrite <- (inv_length _ _ _ HI). by eapply lookup_lt_Some. }
  rewrite Ht in Hi. simplify_eq. unfold finished. cbn. rewrite Hwt in Hl.
  destruct pl as [[|op k]|op k|op k rest l]; [done| |naive_solver|by edestruct Hno].
  specialize (Hstuck i). destruct c as [sh rd wt ths ord]. cbn in *. subst wt. rewrite Ht in Hstuck. cbn in Hstuck.
  by destruct (reads op).
Qed.

(** How a goroutine comes closer to its end. *)
Inductive advance : thread -> thread -> Prop :=
| adv_announce op k rs : advance (mkThread (Announced op k) rs) (mkThread (Outside (Call op k)) rs)
| adv_read op k l rs : advance (mkThread (Inside op k (body op) l) rs) (mkThread (Outside (Call op k)) rs)
| adv_write op k l rs : advance (mkThread (Inside op k (body op) l) rs) (mkThread (Announced op k) rs)
| adv_micro op k f rest l l' rs :
    advance (mkThread (Inside op k rest l') rs) (mkThread (Inside op k (f :: rest) l) rs)
| adv_leave op k l r rs rs' : advance (mkThread (Outside (k r)) rs') (mkThread (Inside op k [] l) rs).

Lemma inside_ends op k rest :
  (forall r rs, Acc advance (mkThread (Outside (k r)) rs)) ->
  forall l rs, Acc advance (mkThread (Inside op k rest l) rs).
Proof.
  intros Hk. induction rest as [|f rest IH]; intros l rs; constructor; intros t Ht; inv Ht; auto.
Qed.

Lemma thread_ends p rs : Acc advance (mkThread (Outside p) rs).
Proof.
  revert rs. induction p as [|op k IH]; intros rs; constructor; intros t Ht; inv Ht.
  - constructor. intros t Ht. inv Ht. by apply inside_ends.
  - by apply inside_ends.
Qed.

(** A step of the whole. *)
Definition steps (c' c : conf) : Prop := exists i, move i c = Some c'.

Lemma steps_advance c' c : steps c' c -> insert_step advance (g_threads c') (g_threads c).
Proof.
  intros [i Hm]. destruct c as [sh rd wt ths ord]. cbn [move g_threads] in *.
  destruct (ths !! i) as [[pl rets]|] eqn:Hi; [|done]. cbn [mbind option_bind] in Hm.
  destruct pl as [[|op k]|op k|op k [|f rest] l]; [done|..].
  - destruct wt; [done|]. destruct (reads op); simplify_eq; cbn; eexists _, _, _; (split_and!; [done| |done]); constructor.
  - destruct (decide (rd = ∅)); [|done]. simplify_eq. eexists _, _, _. split_and!; [done| |done]. constructor.
  - destruct (reads op); simplify_eq; cbn; eexists _, _, _; (split_and!; [done| |done]); constructor.
  - destruct (f l sh) as [l' sh']. simplify_eq. eexists _, _, _. split_and!; [done| |done]. constructor.
Qed.

(** Every run comes to an end, and there everyone is finished. *)
Lemma calls_return s ps is_ c :
  run is_ (start s ps) = Some c ->
  Acc steps c /\ ((forall i, move i c = None) -> forall i t, g_threads c !! i = Some t -> finished t).
Proof.
  intros Hrun. split; [|by apply (guarded_progress s ps), (run_inv _ _ _ _ _ (start_inv s ps) Hrun)].
  assert (Acc steps (start s ps)) as Hacc.
  { eapply Acc_incl; [exact steps_advance|]. apply (Acc_inverse_image _ _ (insert_step advance) g_threads).
    apply insert_step_Acc, Forall_map, Forall_true. intros p. apply thread_ends. }
  revert Hacc Hrun. generalize (start s ps). induction is_ as [|i is_ IH]; intros c0 Hacc; cbn.
  - by intros [= <-].
  - destruct (move i c0) as [c1|] eqn:E; [|done]. apply IH. apply (Acc_inv Hacc). by exists i.
Qed.

(** When no goroutine can move, each one's calls, in the order they took
    effect, are those its program makes when told what they returned. *)
Lemma stuck_linearized s ps is_ c :
  run is_ (start s ps) = Some c -> (forall i, move i c = None) ->
  g_shared c = after s (g_order c) /\
  forall i P, ps !! i = Some P ->
    let rets := answers i s (g_order c) in
    g_threads c !! i = Some (mkThread (Outside Done) rets) /\
    own i (g_order c) = asked P rets /\ remains P rets = Done.
Proof.
  intros Hrun Hstuck. destruct (linearizable _ _ _ _ Hrun) as [Hth Hsh].
  destruct (calls_return _ _ _ _ Hrun) as [_ Hfin]. specialize (Hfin Hstuck).
  pose proof (run_inv _ _ _ _ _ (start_inv s ps) Hrun) as HI.
  assert (forall i P, ps !! i = Some P -> exists rets, g_threads c !! i = Some (mkThread (Outside Done) rets)) as Hdone.
  { intros i P HP. destruct (inv_threads _ _ _ HI _ _ HP) as ([pl rets] & Ht & _). exists rets.
    pose proof (Hfin _ _ Ht) as Hf. unfold finished in Hf. cbn in Hf. by rewrite Ht, Hf. }
  split.
  - apply Hsh. destruct (g_writer c) as [i|] eqn:Hw; [|done].
    destruct (lookup_lt_is_Some_2 ps i (inv_writer _ _ _ HI _ Hw)) as [P HP].
    destruct (Hdone _ _ HP) as [rets Ht]. destruct (inv_threads _ _ _ HI _ _ HP) as (t & Ht' & [_ _ _ Hl]).
    rewrite Ht in Ht'. simplify_eq. by destruct Hl.
  - intros i P HP rets. destruct (Hdone _ _ HP) as [rets' Ht]. destruct (Hth _ _ _ _ HP Ht) as (-> & Ho & Hr). done.
Qed.

(** What a program does when it is alone. *)
Fixpoint solo (p : program) (s : St) : St * list Res :=
  match p with
  | Done => (s, [])
  | Call op k =>
      let '(s, r) := run_call op s in
      let '(s, rs) := solo (k r) s in (s, r :: rs)
  end.

(** ** Lists of calls *)

Lemma calls_of_asked (ops : list Op) (rs : list Res) : remains (calls_of ops) rs = Done -> asked (calls_of ops) rs = ops.
Proof.
  revert rs. induction ops as [|op ops IH]; intros [|r rs]; try done. cbn. intros Hr. f_equal. by apply IH.
Qed.

(** The order of the calls only grows, by calls of the goroutines there are. *)
Lemma move_order i c c' :
  move i c = Some c' ->
  length (g_threads c') = length (g_threads c) /\
  exists new, g_order c' = g_order c ++ new /\ Forall (fun x => (x.1 < length (g_threads c))%nat) new.
Proof.
  destruct c as [sh rd wt ths ord]. cbn [move g_threads g_order]. intros Hm.
  destruct (ths !! i) as [[pl rets]|] eqn:Hi; [|done]. cbn [mbind option_bind] in Hm.
  assert (i < length ths)%nat as Hlt by (by eapply lookup_lt_Some).
  assert (exists new, ord = ord ++ new /\ Forall (fun x : nat * Op => (x.1 < length ths)%nat) new) as Hsame
    by (exists []; by rewrite app_nil_r).
  assert (forall op, exists new, ord ++ [(i, op)] = ord ++ new /\ Forall (fun x : nat * Op => (x.1 < length ths)%nat) new)
    as Hnew by (intros op; exists [(i, op)]; split; [done|]; by repeat constructor).
  destruct pl as [[|op k]|op k|op k [|f rest] l]; [done|..].
  - destruct wt; [done|]. destruct (reads op); simplify_eq; cbn; by rewrite length_insert.
  - destruct (decide (rd = ∅)); [|done]. simplify_eq. cbn. by rewrite length_insert.
  - destruct (reads op); simplify_eq; cbn; by rewrite length_insert.
  - destruct (f l sh) as [l' sh']. simplify_eq. cbn. by rewrite length_insert.
Qed.

Lemma run_order is_ c c' :
  run is_ c = Some c' ->
  exists new, g_order c' = g_order c ++ new /\ Forall (fun x => (x.1 < length (g_threads c))%nat) new.
Proof.
  revert c. induction is_ as [|i is_ IH]; intros c; cbn [run].
  - intros [= <-]. exists []. by rewrite app_nil_r.
  - destruct (move i c) as [c1|] eqn:E; [|done]. intros Hr. destruct (move_order _ _ _ E) as (Hl & n1 & Ho & Hn1).
    destruct (IH _ Hr) as (n2 & Ho2 & Hn2). exists (n1 ++ n2). rewrite Ho2, Ho, app_assoc. split; [done|].
    rewrite Hl in Hn2. by apply Forall_app.
Qed.

Lemma run_app is1 is2 c c' :
  run (is1 ++ is2) c = Some c' -> exists c1, run is1 c = Some c1 /\ run is2 c1 = Some c'.
Proof.
  revert c. induction is1 as [|i is1 IH]; intros c; cbn [run app]; [by exists c|].
  destruct (move i c) as [c1|]; [|done]. apply IH.
Qed.

(** A sequence of calls with their results explains a run of goroutines that
    make the calls of [opss]: it has the calls of these goroutines and no
    others, for each goroutine those it makes, in its order, with the results
    it got; and it respects time: at any moment of the run a prefix of the
    sequence has, for each goroutine, exactly the calls that have returned and
    the one it is inside of. *)
Record explains (s : St) (opss : list (list Op)) (is_ : list nat) (c : conf) (tr : list (nat * (Op * Res))) : Prop := {
  ex_goroutines x : x ∈ tr -> (x.1 < length opss)%nat;
  ex_calls i ops : opss !! i = Some ops ->
    map fst (calls_by i tr) = ops /\
    g_threads c !! i = Some (mkThread (Outside Done) (map snd (calls_by i tr)));
  ex_time is1 is2 c1 : is_ = is1 ++ is2 -> run is1 (start s (map calls_of opss)) = Some c1 ->
    exists tr1 tr2, tr = tr1 ++ tr2 /\
      forall i t, g_threads c1 !! i = Some t ->
        exists doing, map snd (calls_by i tr1) = t_rets t ++ doing /\
          match t_at t with Inside _ _ _ _ => length doing = 1%nat | _ => doing = [] end;
}.

(** Goroutines that each make the calls of a list. *)
Definition start_calls (s : St) (opss : list (list Op)) : conf := start s (map calls_of opss).

(** They come to an end; then the object and what the calls returned are those
    of the calls one after the other, in an order that explains the run. *)
Lemma calls_linearized s opss is_ c :
  run is_ (start_calls s opss) = Some c ->
  Acc steps c /\
  ((forall i, move i c = None) ->
   g_shared c = after s (g_order c) /\ explains s opss is_ c (trace s (g_order c))).
Proof.
  intros Hrun. split; [by eapply calls_return|]. intros Hstuck.
  destruct (stuck_linearized _ _ _ _ Hrun Hstuck) as [Hsh Hth]. split; [done|]. split.
  - intros x Hx. destruct (trace_ids _ _ _ Hx) as [op Hop]. destruct (run_order _ _ _ Hrun) as (new & Ho & Hnew).
    cbn in Ho, Hnew. rewrite length_map, length_map in Hnew. rewrite Ho in Hop.
    by apply (proj1 (Forall_forall _ _) Hnew _ Hop).
  - intros i ops Hi. destruct (Hth i (calls_of ops)) as (Ht & Ho & Hr).
    { change (map ?f opss) with (f <$> opss). by rewrite list_lookup_fmap, Hi. }
    destruct (trace_calls i s (g_order c)) as [H1 H2]. rewrite H1, H2. split; [|done].
    rewrite Ho. by apply calls_of_asked.
  - intros is1 is2 c1 -> Hr1. destruct (run_app _ _ _ _ Hrun) as (c1' & Hr1' & Hr2).
    unfold start_calls in Hr1'. simplify_eq. destruct (run_order _ _ _ Hr2) as (new & Ho & _).
    rewrite Ho, trace_app. eexists _, _. split; [done|]. intros i t Hi.
    destruct (inv_thread _ _ _ _ _ (run_inv _ _ _ _ _ (start_inv s (map calls_of opss)) Hr1) Hi) as (P & _ & Hok).
    rewrite (proj2 (trace_calls i s (g_order c1))), (ok_answers _ _ _ _ _ Hok).
    exists (pending (g_shared c1) (t_at t)). split; [done|]. by destruct (t_at t).
Qed.
End Guarded.
Arguments place : clear implicits. Arguments thread : clear implicits. Arguments conf : clear implicits.
