(* ===== verification/Stacktrace.v ===== *)
(** * Stacktrace

    [internal/stacktrace/stack.go].  The running goroutine's call stack, which
    [runtime.Callers] reads, is a list of frames, innermost first, starting with
    the caller of [Capture]; a program counter stands for its frame. *)
From S2P Require Import Prelude Strconv Utf8 Float GoTime Buffer.
Open Scope Z_scope.

Record Frame := mkFrame { fr_PC : Z; fr_Function : gostring; fr_File : gostring; fr_Line : Z }.

(** [runtime.Callers(skip+2, pcs)] with room for [room] counters. *)
Definition Callers (stack : list Frame) (skip room : nat) : list Frame := take room (drop skip stack).

Inductive Depth : Type := First | Full.

(** The captured frames and the storage kept for the next capture; the pool
    decides how much storage there is. *)
Record Stack := mkStack { pcs : list Frame; storage : nat }.

(** Double the room until it is not used up. *)
Fixpoint grow (fuel : nat) (stack : list Frame) (skip room : nat) : option Stack :=
  let got := Callers stack skip room in
  if Nat.eqb (length got) room then
    match fuel with
    | O => None
    | S f => grow f stack skip (room * 2)
    end
  else Some (mkStack got room).

(** [Capture], with one frame for each program counter. *)
Definition Capture (stack : list Frame) (skip : nat) (depth : Depth) (room : nat) : option Stack :=
  match depth with
  | First => Some (mkStack (Callers stack skip 1) room)
  | Full => grow (S (length stack)) stack skip room
  end.

Definition Count (st : Stack) : Z := Z.of_nat (length (pcs st)).

(** [frames.Next]: the next frame, whether there are more, and the rest. *)
Definition zeroFrame : Frame := mkFrame 0 [] [] 0.

Definition Next (fs : list Frame) : Frame * bool * list Frame :=
  match fs with
  | [] => (zeroFrame, false, [])
  | [f] => (f, false, [])
  | f :: r => (f, true, r)
  end.

(** ** Formatting *)

Record Formatter := mkFormatter { fm_b : Buffer; fm_nonEmpty : bool }.

Definition NewFormatter (b : Buffer) : Formatter := mkFormatter b false.

Definition FormatFrame (sf : Formatter) (f : Frame) : Formatter :=
  let b := fm_b sf in
  let b := if fm_nonEmpty sf then AppendByte b Byte.x0a else b in
  let b := AppendString b (fr_Function f) in
  let b := AppendByte b Byte.x0a in
  let b := AppendByte b Byte.x09 in
  let b := AppendString b (fr_File f) in
  let b := AppendByte b Byte.x3a in
  let b := AppendInt b (int64 (fr_Line f)) in
  mkFormatter b true.

(** The last frame, [runtime.main] or [runtime.goexit], is left out. *)
Fixpoint FormatStack (sf : Formatter) (fs : list Frame) : Formatter :=
  match fs with
  | [] | [_] => sf
  | f :: r => FormatStack (FormatFrame sf f) r
  end.

(** [Take(skip)], from the caller's point of view. *)
Definition Take (stack : list Frame) (skip room : nat) : option gostring :=
  match Capture stack skip Full room with
  | None => None
  | Some st => Some (String_ (fm_b (FormatStack (NewFormatter (mkBuffer [])) (pcs st))))
  end.

(** ** Properties *)

(** One line for the function, one for the position. *)
Definition frame_text (f : Frame) : gostring :=
  fr_Function f ++ [Byte.x0a; Byte.x09] ++ fr_File f ++ [Byte.x3a] ++ FormatInt (int64 (fr_Line f)).

Fixpoint frames_text (fs : list Frame) : gostring :=
  match fs with
  | [] => []
  | [f] => frame_text f
  | f :: r => frame_text f ++ [Byte.x0a] ++ frames_text r
  end.

Lemma grow_captures fuel stack skip room :
  (0 < room)%nat -> (length stack < room + fuel)%nat ->
  exists room', grow fuel stack skip room = Some (mkStack (drop skip stack) room') /\
    (length (drop skip stack) < room')%nat.
Proof.
  revert room. induction fuel as [|f IH]; intros room Hr Hf; cbn [grow];
    unfold Callers; rewrite length_take, length_drop.
  - rewrite (proj2 (Nat.eqb_neq _ _)) by lia. exists room. split; [|lia].
    rewrite take_ge; [done|]. rewrite length_drop. lia.
  - destruct (Nat.eqb_spec (Nat.min room (length stack - skip)) room).
    + destruct (IH (room * 2)%nat) as (room' & -> & Hlt); [lia|lia|]. rewrite length_drop in Hlt. eauto.
    + exists room. split; [|lia]. rewrite take_ge; [done|]. rewrite length_drop. lia.
Qed.

Lemma FormatFrame_text sf f :
  FormatFrame sf f =
    mkFormatter (mkBuffer (bs (fm_b sf) ++ (if fm_nonEmpty sf then [Byte.x0a] else []) ++ frame_text f)) true.
Proof.
  unfold FormatFrame, frame_text. unfold AppendByte, AppendString, AppendInt.
  destruct (fm_nonEmpty sf); cbn [bs]; do 2 f_equal; by app_norm.
Qed.

Lemma FormatStack_text sf fs :
  bs (fm_b (FormatStack sf fs)) =
    bs (fm_b sf) ++ match removelast fs with
                    | [] => []
                    | gs => (if fm_nonEmpty sf then [Byte.x0a] else []) ++ frames_text gs
                    end.
Proof.
  revert sf. induction fs as [|f [|g fs] IH]; intros sf; [by rewrite app_nil_r..|].
  change (FormatStack sf (f :: g :: fs)) with (FormatStack (FormatFrame sf f) (g :: fs)).
  change (removelast (f :: g :: fs)) with (f :: removelast (g :: fs)).
  rewrite IH, FormatFrame_text. cbn [fm_b bs fm_nonEmpty].
  destruct (removelast (g :: fs)) as [|h hs]; [by rewrite app_nil_r|].
  change (frames_text (f :: h :: hs)) with (frame_text f ++ [Byte.x0a] ++ frames_text (h :: hs)).
  by app_norm.
Qed.

Lemma Take_text stack skip room :
  (0 < room)%nat -> Take stack skip room = Some (frames_text (removelast (drop skip stack))).
Proof.
  intros Hroom. unfold Take, Capture.
  destruct (grow_captures (S (length stack)) stack skip room) as (r & -> & _); [lia..|].
  f_equal. unfold String_. cbn [pcs]. rewrite FormatStack_text. cbn. by destruct (removelast _).
Qed.

(** C36.  A stack trace is complete whatever storage the pool hands out: the
    doubling loop ends, captures every frame above the skipped ones, and prints
    all of them in order but the last, the runtime's own. *)
Theorem take_prints_all_frames stack skip room (Hroom : (0 < room)%nat) :
  Take stack skip room = Some (frames_text (removelast (drop skip stack))).
Proof. by apply Take_text. Qed.

Lemma take_prints_all_frames_witness :
  let f n := mkFrame n (go "pkg.F") (go "f.go") n in
  Take [f 1; f 2; f 3; f 4; f 5] 1 1 = Some (frames_text [f 2; f 3; f 4]).
Proof. apply take_prints_all_frames. lia. Defined.
