(* ===== verification/MockClock.v ===== *)
(** * MockClock

    [internal/ztest/clock.go]: a clock that moves only when told to, with the
    tickers that wait on it. *)
From stdpp Require Import sorting.
From S2P Require Import Prelude.
Open Scope Z_scope.

(** Times and durations are nanoseconds.  The only waiters are those of tickers:
    when one is resolved it offers its time to the channel of its ticker, which
    holds one time, and schedules the next. *)
Record waiter := mkWaiter { until : Z; w_ticker : nat; w_period : Z }.

(** The channels that hold a time, and the times each receiver has got. *)
Record clock := mkClock {
  now : Z;
  waiters : list waiter;
  chans : gmap nat Z;
  received : gmap nat (list Z);
}.

Definition NewMockClock (t : Z) : clock := mkClock t [] ∅ ∅.

Definition Now (c : clock) : Z := now c.

Definition runAt (w : waiter) (c : clock) : clock :=
  mkClock (now c) (waiters c ++ [w]) (chans c) (received c).

(** [tick]: schedule the tick after [t]. *)
Definition tick (i : nat) (d t : Z) (c : clock) : clock := runAt (mkWaiter (t + d) i d) c.

Definition NewTicker (i : nat) (d : Z) (c : clock) : clock := tick i d (Now c) c.

(** [case ch <- next: default:] *)
Definition offer (i : nat) (t : Z) (c : clock) : clock :=
  match chans c !! i with
  | Some _ => c
  | None => mkClock (now c) (waiters c) (<[i := t]> (chans c)) (received c)
  end.

(** What [w.fn] does. *)
Definition resolve (w : waiter) (c : clock) : clock :=
  tick (w_ticker w) (w_period w) (until w) (offer (w_ticker w) (until w) c).

(** The receiver of a ticker takes what its channel holds. *)
Definition receive (i : nat) (c : clock) : clock :=
  match chans c !! i with
  | Some t =>
      mkClock (now c) (waiters c) (delete i (chans c))
        (<[i := default [] (received c !! i) ++ [t]]> (received c))
  | None => c
  end.

Definition before (a b : waiter) : Prop := until a <= until b.
#[export] Instance before_dec : RelDecision before.
Proof. intros a b. unfold before. apply _. Defined.

Section Add.
(** [sort.Slice] by time, and the tickers whose receivers read while [Add]
    sleeps. *)
Variables (sort_Slice : list waiter -> list waiter) (ready : list nat).

(** The loop of [Add]; the waiters are sorted once, before it.  [None] is out of
    fuel. *)
Fixpoint add_loop (fuel : nat) (newTime : Z) (c : clock) : option clock :=
  match waiters c with
  | [] => Some c
  | w :: rest =>
      if newTime <? until w then Some c
      else
        match fuel with
        | O => None
        | S f =>
            let c := mkClock (until w) rest (chans c) (received c) in
            add_loop f newTime (fold_right receive (resolve w c) ready)
        end
  end.

(** A negative duration panics. *)
Definition Add (fuel : nat) (d : Z) (c : clock) : outcome (option clock) :=
  if d <? 0 then Panic (go "cannot add negative duration")
  else
    let c := mkClock (now c) (sort_Slice (waiters c)) (chans c) (received c) in
    let newTime := now c + d in
    Ret (c ← add_loop fuel newTime c; Some (mkClock newTime (waiters c) (chans c) (received c))).
End Add.

(** ** One ticker *)

(** The times [t], [t + d], ... *)
Definition ticks (t d : Z) (n : nat) : list Z := map (fun k => t + Z.of_nat k * d) (seq 0 n).

Lemma ticks_S t d n : ticks t d (S n) = t :: ticks (t + d) d n.
Proof.
  unfold ticks. cbn [seq map]. f_equal; [lia|]. rewrite <- seq_shift, map_map. apply map_ext. intros k. lia.
Qed.

(** The state of a clock with one ticker whose receiver keeps up. *)
Definition alone (i : nat) (t d : Z) (at_ : Z) (got : list Z) (c : clock) : Prop :=
  now c = at_ /\ waiters c = [mkWaiter t i d] /\ chans c !! i = None /\ default [] (received c !! i) = got.

Lemma step_alone i t d got (c : clock) :
  chans c !! i = None -> default [] (received c !! i) = got ->
  alone i (t + d) d t (got ++ [t])
    (fold_right receive (resolve (mkWaiter t i d) (mkClock t [] (chans c) (received c))) [i]).
Proof.
  intros Hch Hgot. cbn. unfold resolve, offer, tick, runAt, receive. cbn. rewrite Hch. cbn.
  rewrite lookup_insert_eq. unfold alone. cbn. rewrite lookup_delete_eq, lookup_insert_eq. cbn. by rewrite Hgot.
Qed.

Lemma loop_alone i d fuel n t at_ got newTime c :
  0 < d -> alone i t d at_ got c -> (n <= fuel)%nat ->
  t + Z.of_nat n * d > newTime -> (forall k, (k < n)%nat -> t + Z.of_nat k * d <= newTime) ->
  exists c', add_loop [i] fuel newTime c = Some c' /\
    waiters c' = [mkWaiter (t + Z.of_nat n * d) i d] /\ chans c' !! i = None /\
    default [] (received c' !! i) = got ++ ticks t d n.
Proof.
  intros Hd. revert fuel t at_ got c. induction n as [|n IH]; intros fuel t at_ got c (Hn & Hw & Hch & Hgot) Hf Hlate Hin.
  - exists c. destruct fuel; cbn [add_loop]; rewrite Hw; cbn [until];
      rewrite (proj2 (Z.ltb_lt newTime t)) by lia; rewrite Z.add_0_r, app_nil_r; done.
  - destruct fuel as [|fuel]; [lia|]. cbn [add_loop]. rewrite Hw. cbn [until].
    rewrite (proj2 (Z.ltb_ge newTime t)) by (specialize (Hin 0%nat); lia).
    destruct (IH fuel (t + d) t (got ++ [t]) (fold_right receive (resolve (mkWaiter t i d) (mkClock t [] (chans c) (received c))) [i]))
      as (c' & Hl & Hw' & Hch' & Hg'); [by apply step_alone|lia|lia|intros k Hk; specialize (Hin (S k)); lia|].
    exists c'. split_and!; [exact Hl| |done|]; [rewrite Hw'; do 2 f_equal; lia|].
    by rewrite Hg', ticks_S, <- app_assoc.
Qed.

Lemma ticks_app t d n m : ticks t d n ++ ticks (t + Z.of_nat n * d) d m = ticks t d (n + m).
Proof.
  unfold ticks. rewrite seq_app, map_app. f_equal. cbn [Nat.add].
  replace (seq n m) with (map (Nat.add n) (seq 0 m)) by (etransitivity; [apply (fmap_add_seq n 0 m)|f_equal; lia]).
  rewrite map_map. apply map_ext. intros k. lia.
Qed.

Section Ticker.
Variable sort_Slice : list waiter -> list waiter.
Hypothesis sort_perm : forall l, sort_Slice l ≡ₚ l.

(** The clock moved by the durations one after the other. *)
Fixpoint adds (ready : list nat) (fuel : nat) (ds : list Z) (c : clock) : option clock :=
  match ds with
  | [] => Some c
  | x :: ds =>
      match Add sort_Slice ready fuel x c with
      | Ret (Some c) => adds ready fuel ds c
      | _ => None
      end
  end.

(** [n] ticks of a ticker made at [t0] are received and the clock is before the
    next. *)
Definition ticked (i : nat) (t0 d : Z) (n : nat) (c : clock) : Prop :=
  alone i (t0 + (Z.of_nat n + 1) * d) d (now c) (ticks (t0 + d) d n) c /\
  t0 + Z.of_nat n * d <= now c < t0 + (Z.of_nat n + 1) * d.

Lemma add_ticked i t0 d n fuel x c :
  0 < d -> 0 <= x -> x / d + 1 <= Z.of_nat fuel -> ticked i t0 d n c ->
  exists c' m, Add sort_Slice [i] fuel x c = Ret (Some c') /\ now c' = now c + x /\ ticked i t0 d (n + m) c'.
Proof.
  intros Hd Hx Hfuel ((_ & Hw & Hch & Hgot) & Hnow).
  set (N := (now c + x - t0) / d). assert (t0 + N * d <= now c + x < t0 + (N + 1) * d) as HN
    by (unfold N; pose proof (Z.mul_div_le (now c + x - t0) d Hd); pose proof (Z.mul_succ_div_gt (now c + x - t0) d Hd); lia).
  assert (Z.of_nat n <= N) as HnN by nia. set (m := Z.to_nat (N - Z.of_nat n)).
  assert (Z.of_nat m = N - Z.of_nat n) as Hm by (unfold m; lia).
  assert (N - Z.of_nat n <= x / d + 1) as Hmf.
  { pose proof (Z.mul_succ_div_gt x d Hd). nia. }
  unfold Add. rewrite (proj2 (Z.ltb_ge x 0)) by lia. rewrite Hw.
  assert (sort_Slice [mkWaiter (t0 + (Z.of_nat n + 1) * d) i d] = [mkWaiter (t0 + (Z.of_nat n + 1) * d) i d]) as ->
    by (apply Permutation_singleton_r, sort_perm).
  destruct (loop_alone i d fuel m (t0 + (Z.of_nat n + 1) * d) (now c) (ticks (t0 + d) d n) (now c + x)
              (mkClock (now c) [mkWaiter (t0 + (Z.of_nat n + 1) * d) i d] (chans c) (received c)))
    as (c' & Hl & Hw' & Hch' & Hg'); [done|done|lia|nia|intros k Hk; nia|].
  cbn [now]. rewrite Hl. cbn. eexists _, m. split_and!; [done|done|]. split.
  - unfold alone. cbn. rewrite Hw', Hg'. split_and!; [done| |done|].
    + do 2 f_equal. lia.
    + rewrite <- ticks_app. do 2 f_equal. lia.
  - cbn. nia.
Qed.

(** C37.  The only ticker of a mock clock keeps time: however the time is
    advanced, in as many steps as one likes, every call of [Add] returns and a
    receiver that keeps up gets exactly the ticks that are due, in order, none
    twice and none left out.  (With more waiters than one the clock loses ticks:
    [mock_clock_loses_ticks].) *)
Theorem ticker_keeps_time i t0 d fuel ds
    (Hd : 0 < d) (Hds : Forall (fun x => 0 <= x /\ x / d + 1 <= Z.of_nat fuel) ds) :
  let total := fold_right Z.add 0 ds in
  exists c, adds [i] fuel ds (NewTicker i d (NewMockClock t0)) = Some c /\
    Now c = t0 + total /\ default [] (received c !! i) = ticks (t0 + d) d (Z.to_nat (total / d)).
Proof.
  intros total.
  assert (forall c n, ticked i t0 d n c -> exists c' n', adds [i] fuel ds c = Some c' /\
            now c' = now c + total /\ ticked i t0 d n' c') as Hall.
  { unfold total. clear total. induction Hds as [|x ds [Hx Hf] _ IH]; intros c n Hc; cbn [adds fold_right].
    - exists c, n. split_and!; [done|lia|done].
    - destruct (add_ticked i t0 d n fuel x c Hd Hx Hf Hc) as (c1 & m & -> & Hn & Ht).
      destruct (IH c1 (n + m)%nat Ht) as (c' & n' & Ha & Hn' & Ht'). exists c', n'. split_and!; [done|lia|done]. }
  destruct (Hall (NewTicker i d (NewMockClock t0)) 0%nat) as (c' & n' & Ha & Hn & ((_ & _ & _ & Hg) & Hb)).
  { split; [|cbn; lia]. unfold alone. cbn. split_and!; try done. do 2 f_equal. lia. }
  exists c'. split_and!; [done|done|]. rewrite Hg. f_equal. cbn in Hn. rewrite Hn in Hb.
  rewrite <- (Z.div_unique total d (Z.of_nat n') (total - d * Z.of_nat n')) by lia. lia.
Qed.
End Ticker.

(** ** Two tickers *)

Lemma ticker_keeps_time_witness :
  let total := 10 in
  exists c, adds (merge_sort before) [0%nat] 5 [3; 0; 7] (NewTicker 0 2 (NewMockClock 100)) = Some c /\
    Now c = 100 + total /\ default [] (received c !! 0%nat) = ticks (100 + 2) 2 (Z.to_nat (total / 2)).
Proof.
  apply (ticker_keeps_time (merge_sort before) (merge_sort_Permutation before) 0 100 2 5 [3; 0; 7]); [lia|].
  rewrite !Forall_cons, Forall_nil. split_and!; try exact I; vm_compute; discriminate.
Defined.

Definition two_tickers : clock := NewTicker 1 10 (NewTicker 0 1 (NewMockClock 0)).

(** With a second ticker the clock loses ticks: the waiters are sorted only
    before the loop, a tick scheduled in the loop comes after the slower ticker's,
    and that one, not being due, ends the loop.  After three seconds a ticker of
    one second has ticked once. *)
Theorem mock_clock_loses_ticks :
  match Add (merge_sort before) [0%nat; 1%nat] 100 3 two_tickers with
  | Ret (Some c) => Now c = 3 /\ received c !! 0%nat = Some [1] /\ waiters c = [mkWaiter 10 1 10; mkWaiter 2 0 1]
  | _ => False
  end.
Proof. vm_compute. split_and!; reflexivity. Qed.
