(* ===== verification/Effects.v ===== *)
(** * Effects

    What logging does besides returning: the heap the components share (atomic
    levels, write syncers, sampling counters, observed logs, lazy cores), the
    ways a call can end, and the monad that threads both. *)
From S2P Require Import Prelude Strconv Utf8 Level Float GoTime Entry Values Sampler WriteSyncer.
From S2P Require Import Stacktrace.
Open Scope Z_scope.

(** ** Results *)

(** A call returns, panics, ends its goroutine, ends the process, or never
    comes back. *)
Inductive res (A : Type) : Type :=
| ROk (a : A)
| RPanic (v : gostring)
| RGoexit
| RExit (code : Z)
| RHang.
Arguments ROk {A}. Arguments RPanic {A}. Arguments RGoexit {A}. Arguments RExit {A}.
Arguments RHang {A}.

(** ** The heap *)

(** An entry an observer recorded, with its fields. *)
Record LoggedEntry := mkLogged { l_Entry : Entry; l_Context : list field }.

(** Calls of user code worth recording: hooks of a core, decisions reported to
    a sampler's hook, hooks run after a write. *)
Inductive event : Type :=
| EvHook (id : nat) (ent : Entry)
| EvSample (id : nat) (ent : Entry) (decision : Z)
| EvOnWrite (id : nat) (ent : Entry) (fields : list field).

Record heap := mkHeap {
  h_cells : cells;
  h_world : world;
  h_counters : gmap nat counters;
  h_observed : gmap nat (list LoggedEntry);
  h_once : gmap nat bool; (* lazy cores initialized, and whether that succeeded *)
  h_events : list event;
  h_times : list gotime; (* what the clock will say *)
  h_frames : list Frame; (* the call stack, innermost frame first *)
}.

(** ** The monad *)

Definition M (A : Type) : Type := heap -> heap * res A.

Definition ret {A} (a : A) : M A := fun h => (h, ROk a).

Definition bind {A B} (m : M A) (k : A -> M B) : M B := fun h =>
  match m h with
  | (h, ROk a) => k a h
  | (h, RPanic v) => (h, RPanic v)
  | (h, RGoexit) => (h, RGoexit)
  | (h, RExit c) => (h, RExit c)
  | (h, RHang) => (h, RHang)
  end.

Definition halt {A} (r : res A) : M A := fun h => (h, r).

Declare Scope lad_scope.
Delimit Scope lad_scope with lad.
Notation "x <- m ;; k" := (bind m (fun x => k))
  (at level 100, m at next level, right associativity) : lad_scope.
Notation "m ;; k" := (bind m (fun _ => k)) (at level 100, right associativity) : lad_scope.
Open Scope lad_scope.

(** The outcome of code that only panics or returns. *)
Definition lift {A} (o : outcome A) : M A :=
  match o with Ret a => ret a | Panic v => halt (RPanic v) end.

Fixpoint mapM {A B} (f : A -> M B) (l : list A) : M (list B) :=
  match l with
  | [] => ret []
  | x :: r => y <- f x ;; ys <- mapM f r ;; ret (y :: ys)
  end.

Fixpoint foldM {A B} (f : B -> A -> M B) (l : list A) (b : B) : M B :=
  match l with
  | [] => ret b
  | x :: r => b <- f b x ;; foldM f r b
  end.

(** *** Reading and writing the heap *)

Definition get_heap : M heap := fun h => (h, ROk h).

Definition emit_event (e : event) : M unit := fun h =>
  (mkHeap (h_cells h) (h_world h) (h_counters h) (h_observed h) (h_once h) (h_events h ++ [e])
     (h_times h) (h_frames h), ROk tt).

Definition set_counters (i : nat) (cs : counters) : M unit := fun h =>
  (mkHeap (h_cells h) (h_world h) (<[i := cs]> (h_counters h)) (h_observed h) (h_once h)
     (h_events h) (h_times h) (h_frames h), ROk tt).

Definition set_once (i : nat) (b : bool) (h : heap) : heap :=
  mkHeap (h_cells h) (h_world h) (h_counters h) (h_observed h) (<[i := b]> (h_once h)) (h_events h)
    (h_times h) (h_frames h).

Definition observe (i : nat) (l : LoggedEntry) : M unit := fun h =>
  (mkHeap (h_cells h) (h_world h) (h_counters h)
     (<[i := default [] (h_observed h !! i) ++ [l]]> (h_observed h)) (h_once h) (h_events h)
     (h_times h) (h_frames h), ROk tt).

(** An operation of the write syncers. *)
Definition on_world {A} (f : world -> option (world * A)) : M A := fun h =>
  match f (h_world h) with
  | Some (w, a) =>
      (mkHeap (h_cells h) w (h_counters h) (h_observed h) (h_once h) (h_events h) (h_times h)
         (h_frames h), ROk a)
  | None => (h, RHang)
  end.

(** The clock. *)
Definition Now : M gotime := fun h =>
  match h_times h with
  | [] => (h, ROk zeroTime)
  | t :: r =>
      (mkHeap (h_cells h) (h_world h) (h_counters h) (h_observed h) (h_once h) (h_events h) r
         (h_frames h), ROk t)
  end.

(** The call stack.  [frame_of] is the frame the runtime reports for a call in
    progress of a function of the library. *)
Class Frames := { frame_of : gostring -> Frame }.

Definition set_frames (fs : list Frame) (h : heap) : heap :=
  mkHeap (h_cells h) (h_world h) (h_counters h) (h_observed h) (h_once h) (h_events h) (h_times h) fs.

(** The body [m] of the function [f]. *)
Definition call `{Frames} {A} (f : gostring) (m : M A) : M A := fun h =>
  let '(h', r) := m (set_frames (frame_of f :: h_frames h) h) in (set_frames (h_frames h) h', r).

(** ** Reasoning *)

Lemma call_ok `{Frames} {A} f (m : M A) h h' r :
  m (set_frames (frame_of f :: h_frames h) h) = (h', r) -> call f m h = (set_frames (h_frames h) h', r).
Proof. intros Hm. unfold call. by rewrite Hm. Qed.

Lemma call_inv `{Frames} {A} f (m : M A) h h' r :
  call f m h = (h', r) ->
  exists h1, m (set_frames (frame_of f :: h_frames h) h) = (h1, r) /\ h' = set_frames (h_frames h) h1.
Proof.
  unfold call. destruct (m _) as [h1 r1]. intros [= <- <-]. eauto.
Qed.


Lemma bind_ok {A B} (m : M A) (k : A -> M B) h h' a : m h = (h', ROk a) -> bind m k h = k a h'.
Proof. intros E. unfold bind. by rewrite E. Qed.

Lemma bind_ret {A B} (a : A) (k : A -> M B) h : bind (ret a) k h = k a h.
Proof. done. Qed.

Lemma bind_assoc {A B C} (m : M A) (f : A -> M B) (g : B -> M C) (h : heap) :
  bind (bind m f) g h = bind m (fun a => bind (f a) g) h.
Proof. unfold bind. by destruct (m h) as [h1 [a| | | | ]]. Qed.

Lemma bind_ext {A B} (m m' : M A) (k k' : A -> M B) h :
  m h = m' h -> (forall a h', m' h = (h', ROk a) -> k a h' = k' a h') -> bind m k h = bind m' k' h.
Proof.
  intros E Hk. unfold bind. rewrite E. destruct (m' h) as [h' [a| | | | ]] eqn:Em; auto.
Qed.

(** A result that satisfies [P] if it is one. *)
Definition yields {A} (P : A -> Prop) (r : res A) : Prop :=
  match r with ROk a => P a | _ => True end.

Lemma mapM_ext {A B} (f g : A -> M B) l h :
  (forall x h', In x l -> f x h' = g x h') -> mapM f l h = mapM g l h.
Proof.
  revert h. induction l as [|x l IH]; intros h Hfg; [done|]. cbn [mapM].
  apply bind_ext; [apply Hfg; by left|]. intros y h' _. apply bind_ext; [|done].
  apply IH. intros z h'' Hz. apply Hfg. by right.
Qed.

Lemma foldM_ext {A B} (f g : B -> A -> M B) l b h :
  (forall b x h', In x l -> f b x h' = g b x h') -> foldM f l b h = foldM g l b h.
Proof.
  revert b h. induction l as [|x l IH]; intros b h Hfg; [done|]. cbn [foldM].
  apply bind_ext; [apply Hfg; by left|]. intros y h' _.
  apply IH. intros b' z h'' Hz. apply Hfg. by right.
Qed.

Lemma bind_inv {A B} (m : M A) (k : A -> M B) (h h' : heap) b :
  bind m k h = (h', ROk b) -> exists h1 a, m h = (h1, ROk a) /\ k a h1 = (h', ROk b).
Proof. unfold bind. destruct (m h) as [h1 [a| | | | ]]; naive_solver. Qed.

Lemma mapM_inv {A B} (f : A -> M B) l h h' bs (Q : A -> B -> Prop) :
  (forall x h h' y, In x l -> f x h = (h', ROk y) -> Q x y) ->
  mapM f l h = (h', ROk bs) -> Forall2 Q l bs.
Proof.
  revert h bs. induction l as [|x l IH]; intros h bs HQ Hm.
  - by inv Hm.
  - apply bind_inv in Hm as (h1 & y & Hy & Hm). apply bind_inv in Hm as (h2 & ys & Hys & Hm).
    inv Hm. constructor; [eapply HQ; [by left|done]|]. eapply IH; [|done].
    intros z h3 h4 w Hz. apply HQ. by right.
Qed.
