(* ===== verification/Core.v ===== *)
(** * Core

    The cores of [ladcore]: [core.go], [tee.go], [hook.go],
    [increase_level.go], [sampler.go], [lazy_with.go], the observer of
    [ladtest/observer], and the checked entries of [entry.go] that carry an
    entry to them. *)
From S2P Require Import Prelude Strconv Buffer Utf8 Level Float GoTime Entry Values Field Sampler WriteSyncer.
From S2P Require Import Stacktrace Effects.
Open Scope Z_scope.
Open Scope lad_scope.
Set Warnings "-register-all".

(** ** What a core needs of an encoder *)

(** [enc_With] clones the encoder and adds fields to the clone;
    [enc_EncodeEntry] gives a line or an error. *)
Class EntryEncoder (E : Type) := {
  enc_With : E -> list field -> outcome E;
  enc_EncodeEntry : E -> Entry -> list field -> outcome (gostring + goerror);
}.

(** [good] encoders are those a logger can hold; adding fields to one and
    then encoding is encoding with the fields. *)
Class EncoderLaws (E : Type) `{EntryEncoder E} := {
  good : E -> Prop;
  good_With enc fs enc' : good enc -> enc_With enc fs = Ret enc' -> good enc';
  With_EncodeEntry enc fs enc' ent gs :
    good enc -> enc_With enc fs = Ret enc' ->
    enc_EncodeEntry enc' ent gs = enc_EncodeEntry enc ent (fs ++ gs);
}.

(** What [fmt] prints for the values internal errors mention. *)
Class Fmt := {
  fmt_time : gotime -> gostring;
  fmt_error : goerror -> gostring;
  fmt_entry : Entry -> gostring;
}.

(** ** Cores *)

(** A hook of [RegisterHooks]: a name for its calls and what it returns. *)
Record hookfn := mkHook { hf_id : nat; hf_fn : Entry -> error }.

Section Core.
Context {E : Type} `{EntryEncoder E} `{MultiErr} `{Fmt}.

(** [CLazy] and [CSampler] point to their state in the heap: whether the once
    ran, and the counters; a sampler's hook is a name for its calls. *)
Inductive core : Type :=
| CNop
| CIo (enab : LevelEnabler) (enc : E) (out : WriteSyncer)
| CMulti (cs : list core)
| CHooked (c : core) (funcs : list hookfn)
| CFilter (c : core) (level : LevelEnabler)
| CSampler (c : core) (s : sampling) (counts : nat) (hook : nat)
| CLazy (once : nat) (c : core) (fields : list field)
| CObserver (enab : LevelEnabler) (logs : nat) (context : list field).

Lemma core_nested_ind (P : core -> Prop)
    (Hnop : P CNop) (Hio : forall e c o, P (CIo e c o)) (Hmulti : forall cs, Forall P cs -> P (CMulti cs))
    (Hhook : forall c f, P c -> P (CHooked c f)) (Hfilter : forall c l, P c -> P (CFilter c l))
    (Hsampler : forall c s i k, P c -> P (CSampler c s i k))
    (Hlazy : forall i c f, P c -> P (CLazy i c f))
    (Hobs : forall e l x, P (CObserver e l x)) c : P c.
Proof.
  revert c. fix rec 1. intros [ |e c o|cs|c f|c l|c s i k|i c f|e l x].
  - exact Hnop.
  - apply Hio.
  - apply Hmulti. induction cs as [|c cs IH]; constructor; [exact (rec c)|exact IH].
  - apply Hhook, rec.
  - apply Hfilter, rec.
  - apply Hsampler, rec.
  - apply Hlazy, rec.
  - apply Hobs.
Qed.

(** *** Levels *)

(** The lazy core asks the core it wraps; that [With] changes no level is
    [With_Enabled]. *)
Fixpoint core_Enabled (h : cells) (c : core) (lvl : Z) : bool :=
  match c with
  | CNop => false
  | CIo enab _ _ | CObserver enab _ _ => Enabled h enab lvl
  | CMulti cs => existsb (fun c => core_Enabled h c lvl) cs
  | CHooked c _ | CSampler c _ _ _ | CLazy _ c _ => core_Enabled h c lvl
  | CFilter _ level => Enabled h level lvl
  end.

(** The [Level] methods, with [LevelOf] for the cores inside. *)
Definition multiCore_Level (LevelOf : core -> Z) (cs : list core) : Z :=
  fold_left (fun minLvl lvl => if lvl <? minLvl then lvl else minLvl) (map LevelOf cs) _maxLevel.
Definition hooked_Level (LevelOf : core -> Z) (c : core) : Z := LevelOf c.
Definition sampler_Level (LevelOf : core -> Z) (c : core) : Z := LevelOf c.
Definition levelFilterCore_Level (h : cells) (level : LevelEnabler) : Z := LevelOf h level.
Definition contextObserver_Level (h : cells) (enab : LevelEnabler) : Z := LevelOf h enab.
Definition ioCore_Level (h : cells) (enab : LevelEnabler) : Z := LevelOf h enab.

(** [LevelOf] on a core: its [Level] method, and the scan for [nopCore] and
    [lazyWithCore], which have none. *)
Fixpoint core_LevelOf (h : cells) (c : core) : Z :=
  match c with
  | CIo enab _ _ => ioCore_Level h enab
  | CObserver enab _ _ => contextObserver_Level h enab
  | CMulti cs => multiCore_Level (core_LevelOf h) cs
  | CHooked c _ => hooked_Level (core_LevelOf h) c
  | CSampler c _ _ _ => sampler_Level (core_LevelOf h) c
  | CFilter _ level => levelFilterCore_Level h level
  | CNop | CLazy _ _ _ => scan_levels (core_Enabled h c)
  end.

(** *** Construction *)

Definition NewNopCore : core := CNop.

Definition NewCore (enc : E) (ws : WriteSyncer) (enab : LevelEnabler) : core := CIo enab enc ws.

(** The hook of a sampler without one; it does nothing. *)
Definition nopSamplingHook : nat := 0.

(** A [SamplerOption], which can only set the hook. *)
Definition SamplerOption : Type := nat -> nat.
Definition SamplerHook (hook : nat) : SamplerOption := fun _ => hook.

(** The counters are a new cell of the heap. *)
Definition NewSamplerWithOptions (counts : nat) (c : core) (tick first thereafter : Z) (opts : list SamplerOption) :
    M core :=
  let hook := fold_left (fun hook (opt : SamplerOption) => opt hook) opts nopSamplingHook in
  set_counters counts newCounters ;; ret (CSampler c (NewSampling tick first thereafter) counts hook).

Definition NewSampler (counts : nat) (c : core) (tick first thereafter : Z) : M core :=
  NewSamplerWithOptions counts c tick first thereafter [].

(** [observer.New], with its empty logs. *)
Definition observer_New (logs : nat) (enab : LevelEnabler) : core := CObserver enab logs [].

Definition NewTee (cs : list core) : core :=
  match cs with
  | [] => CNop
  | [c] => c
  | _ => CMulti cs
  end.

Definition RegisterHooks (c : core) (hooks : list hookfn) : core := CHooked c hooks.

(** [NewIncreaseLevelCore]: the levels are tried from the highest; [inr] is the
    level that the new enabler admits and the core does not. *)
Fixpoint increase_loop (h : cells) (c : core) (level : LevelEnabler) (l : Z) (n : nat) : option Z :=
  match n with
  | O => None
  | S n =>
      if negb (core_Enabled h c l) && Enabled h level l then Some l
      else increase_loop h c level (l - 1) n
  end.

Definition NewIncreaseLevelCore (h : cells) (c : core) (level : LevelEnabler) : core + Z :=
  match increase_loop h c level _maxLevel level_count with
  | Some l => inr l
  | None => inl (CFilter c level)
  end.

Definition NewLazyWith (once : nat) (c : core) (fields : list field) : core := CLazy once c fields.

(** *** [With] *)

(** Each method is written over [rec], the same method of the cores inside; the
    recursion is tied by [height], because the core a lazy core becomes is no
    part of it. *)
Fixpoint height (c : core) : nat :=
  match c with
  | CNop | CIo _ _ _ | CObserver _ _ _ => 1
  | CMulti cs => S (max_list (map height cs))
  | CHooked c _ | CFilter c _ | CSampler c _ _ _ | CLazy _ c _ => S (height c)
  end.

Fixpoint tie {A : Type} (out_of_fuel : A) (body : (core -> A) -> core -> A) (n : nat) : core -> A :=
  match n with
  | O => fun _ => out_of_fuel
  | S n => body (tie out_of_fuel body n)
  end.

Definition fixed {A : Type} (out_of_fuel : A) (body : (core -> A) -> core -> A) (c : core) : A :=
  tie out_of_fuel body (height c) c.

(** [initOnce], given what [With] does: the wrapped core from now on.  When
    adding the fields panics, the once is spent and the fields are lost.  The
    heap keeps that the once is spent and how it went; the core it made is
    computed from the fields again ([CoreTheorems] shows that in every later
    state that is the core the first use made). *)
Definition initOnce (with_fields : M core) (once : nat) (c : core) : M core := fun h =>
  match h_once h !! once with
  | Some true => with_fields h
  | Some false => (h, ROk c)
  | None =>
      match with_fields h with
      | (h, ROk c') => (set_once once true h, ROk c')
      | (h, r) => (set_once once false h, r)
      end
  end.

(** The [With] methods, given [With] of the cores inside. *)
Definition ioCore_With (enab : LevelEnabler) (enc : E) (out : WriteSyncer) (fields : list field) : M core :=
  enc <- lift (enc_With enc fields) ;; ret (CIo enab enc out).

Definition multiCore_With (rec : core -> list field -> M core) (cs : list core) (fields : list field) : M core :=
  cs <- mapM (fun c => rec c fields) cs ;; ret (CMulti cs).

Definition hooked_With (rec : core -> list field -> M core) (c : core) (funcs : list hookfn)
    (fields : list field) : M core :=
  c <- rec c fields ;; ret (CHooked c funcs).

Definition levelFilterCore_With (rec : core -> list field -> M core) (c : core) (level : LevelEnabler)
    (fields : list field) : M core :=
  c <- rec c fields ;; ret (CFilter c level).

Definition sampler_With (rec : core -> list field -> M core) (c : core) (s : sampling)
    (counts hook : nat) (fields : list field) : M core :=
  c <- rec c fields ;; ret (CSampler c s counts hook).

Definition lazyWithCore_With (rec : core -> list field -> M core) (once : nat) (c : core)
    (fs fields : list field) : M core :=
  c <- initOnce (rec c fs) once c ;; rec c fields.

Definition contextObserver_With (enab : LevelEnabler) (logs : nat) (context fields : list field) : M core :=
  ret (CObserver enab logs (context ++ fields)).

(** [Core.With], with the methods written in. *)
Definition With_body : (core -> list field -> M core) -> core -> list field -> M core :=
  Eval cbv beta delta [ioCore_With multiCore_With hooked_With levelFilterCore_With sampler_With
                       lazyWithCore_With contextObserver_With] in
  fun rec c fields =>
  match c with
  | CNop => ret CNop
  | CIo enab enc out => ioCore_With enab enc out fields
  | CMulti cs => multiCore_With rec cs fields
  | CHooked c funcs => hooked_With rec c funcs fields
  | CFilter c level => levelFilterCore_With rec c level fields
  | CSampler c s counts hook => sampler_With rec c s counts hook fields
  | CLazy once c fs => lazyWithCore_With rec once c fs fields
  | CObserver enab logs context => contextObserver_With enab logs context fields
  end.

Definition With : core -> list field -> M core := fixed (fun _ => halt RHang) With_body.

(** ** Checked entries *)

Inductive CheckWriteAction : Type :=
| WriteThenNoop | WriteThenGoexit | WriteThenPanic | WriteThenFatal.

(** A [CheckWriteHook]: an action, or user code that ends in some way. *)
Inductive CheckWriteHook : Type :=
| HAction (a : CheckWriteAction)
| HCustom (id : nat) (f : Entry -> list field -> res unit).

Record CheckedEntry := mkCE {
  ce_Entry : Entry;
  ce_ErrorOutput : option WriteSyncer;
  ce_dirty : bool;
  ce_after : option CheckWriteHook;
  ce_cores : list core;
}.

Definition reset (ce : CheckedEntry) : CheckedEntry := mkCE zeroEntry None false None [].

(** What [getCheckedEntry] makes of an entry [x] from the pool. *)
Definition getCheckedEntry (x : CheckedEntry) : CheckedEntry := reset x.

(** A fresh entry of the pool. *)
(** [putCheckedEntry] *)
Definition putCheckedEntry (p : Pool.t CheckedEntry) (ce : option CheckedEntry) : Pool.t CheckedEntry :=
  match ce with None => p | Some ce => Pool.Put p ce end.

Definition newCheckedEntry : CheckedEntry := mkCE zeroEntry None false None [CNop; CNop; CNop; CNop].

(** The entry a nil pointer becomes. *)
Definition or_new (ce : option CheckedEntry) (ent : Entry) : CheckedEntry :=
  match ce with
  | Some ce => ce
  | None =>
      let ce := getCheckedEntry newCheckedEntry in
      mkCE ent (ce_ErrorOutput ce) (ce_dirty ce) (ce_after ce) (ce_cores ce)
  end.

Definition AddCore (ce : option CheckedEntry) (ent : Entry) (c : core) : CheckedEntry :=
  let ce := or_new ce ent in
  mkCE (ce_Entry ce) (ce_ErrorOutput ce) (ce_dirty ce) (ce_after ce) (ce_cores ce ++ [c]).

Definition After (ce : option CheckedEntry) (ent : Entry) (hook : CheckWriteHook) : CheckedEntry :=
  let ce := or_new ce ent in
  mkCE (ce_Entry ce) (ce_ErrorOutput ce) (ce_dirty ce) (Some hook) (ce_cores ce).

Definition Should (ce : option CheckedEntry) (ent : Entry) (a : CheckWriteAction) : CheckedEntry :=
  After ce ent (HAction a).

(** ** [Check], [Write] and [Sync] of the cores *)

(** The core a lazy core holds now: [initOnce] replaced it, or not yet. *)
Definition current (with_fields : M core) (once : nat) (c : core) : M core := fun h =>
  match h_once h !! once with
  | Some true => with_fields h
  | _ => (h, ROk c)
  end.

(** The sampler's decision, reported to its hook; [None] for a level outside
    the counters. *)
Definition sample (s : sampling) (counts hook : nat) (ent : Entry) : M (option Z) :=
  h <- get_heap ;;
  let '(d, cs) := decide_sample s (default newCounters (h_counters h !! counts)) ent in
  set_counters counts cs ;;
  match d with
  | Some n => emit_event (EvSample hook ent n) ;; ret d
  | None => ret d
  end.

(** The [Check] methods of the core [c]. *)
Definition ioCore_Check (cells : cells) (c : core) (ent : Entry) (ce : option CheckedEntry) :
    M (option CheckedEntry) :=
  if core_Enabled cells c (e_Level ent) then ret (Some (AddCore ce ent c)) else ret ce.

Definition contextObserver_Check (cells : cells) (c : core) (ent : Entry) (ce : option CheckedEntry) :
    M (option CheckedEntry) :=
  if core_Enabled cells c (e_Level ent) then ret (Some (AddCore ce ent c)) else ret ce.

Definition multiCore_Check (rec : core -> Entry -> option CheckedEntry -> M (option CheckedEntry))
    (cs : list core) (ent : Entry) (ce : option CheckedEntry) : M (option CheckedEntry) :=
  foldM (fun ce c => rec c ent ce) cs ce.

Definition hooked_Check (rec : core -> Entry -> option CheckedEntry -> M (option CheckedEntry))
    (c inner : core) (ent : Entry) (ce : option CheckedEntry) : M (option CheckedEntry) :=
  downstream <- rec inner ent ce ;;
  match downstream with
  | Some _ => ret (Some (AddCore downstream ent c))
  | None => ret ce
  end.

Definition levelFilterCore_Check (rec : core -> Entry -> option CheckedEntry -> M (option CheckedEntry))
    (cells : cells) (c inner : core) (ent : Entry) (ce : option CheckedEntry) : M (option CheckedEntry) :=
  if negb (core_Enabled cells c (e_Level ent)) then ret ce else rec inner ent ce.

Definition sampler_Check (rec : core -> Entry -> option CheckedEntry -> M (option CheckedEntry))
    (cells : cells) (c inner : core) (s : sampling) (counts hook : nat)
    (ent : Entry) (ce : option CheckedEntry) : M (option CheckedEntry) :=
  if negb (core_Enabled cells c (e_Level ent)) then ret ce
  else
    d <- sample s counts hook ent ;;
    match d with
    | Some n => if n =? LogDropped then ret ce else rec inner ent ce
    | None => rec inner ent ce
    end.

Definition lazyWithCore_Check (rec : core -> Entry -> option CheckedEntry -> M (option CheckedEntry))
    (once : nat) (inner : core) (fields : list field) (ent : Entry) (ce : option CheckedEntry) :
    M (option CheckedEntry) :=
  inner <- initOnce (With inner fields) once inner ;; rec inner ent ce.

Definition Check_body : (core -> Entry -> option CheckedEntry -> M (option CheckedEntry)) ->
    core -> Entry -> option CheckedEntry -> M (option CheckedEntry) :=
  Eval cbv beta delta [ioCore_Check contextObserver_Check multiCore_Check hooked_Check
                       levelFilterCore_Check sampler_Check lazyWithCore_Check] in
  fun rec c ent ce =>
  h <- get_heap ;;
  match c with
  | CNop => ret ce
  | CIo _ _ _ => ioCore_Check (h_cells h) c ent ce
  | CObserver _ _ _ => contextObserver_Check (h_cells h) c ent ce
  | CMulti cs => multiCore_Check rec cs ent ce
  | CHooked inner _ => hooked_Check rec c inner ent ce
  | CFilter inner _ => levelFilterCore_Check rec (h_cells h) c inner ent ce
  | CSampler inner s counts hook => sampler_Check rec (h_cells h) c inner s counts hook ent ce
  | CLazy once inner fields => lazyWithCore_Check rec once inner fields ent ce
  end.

(** [Core.Check]; a nil [*CheckedEntry] is [None]. *)
Definition core_Check : core -> Entry -> option CheckedEntry -> M (option CheckedEntry) :=
  fixed (fun _ _ => halt RHang) Check_body.

Definition run_hook (ent : Entry) (f : hookfn) : M error :=
  emit_event (EvHook (hf_id f) ent) ;; ret (hf_fn f ent).

(** [multierr.Append(err, m)] *)
Definition append_error (m : M error) (err : error) : M error :=
  e <- m ;; ret (multierr_Append err e).

(** [ioCore.Write] *)
Definition ioCore_Write (enc : E) (out : WriteSyncer) (ent : Entry) (fields : list field) : M error :=
  r <- lift (enc_EncodeEntry enc ent fields) ;;
  match r with
  | inr err => ret (Some err)
  | inl buf =>
      w <- on_world (WriteSyncer.Write out buf) ;;
      match w.2 with
      | Some err => ret (Some err)
      | None =>
          if e_Level ent >? ErrorLevel then on_world (WriteSyncer.Sync out) ;; ret None
          else ret None
      end
  end.

Definition multiCore_Write (rec : core -> Entry -> list field -> M error)
    (cs : list core) (ent : Entry) (fields : list field) : M error :=
  foldM (fun err c => append_error (rec c ent fields) err) cs None.

Definition hooked_Write (funcs : list hookfn) (ent : Entry) : M error :=
  foldM (fun err f => append_error (run_hook ent f) err) funcs None.

Definition contextObserver_Write (logs : nat) (context : list field) (ent : Entry) (fields : list field) : M error :=
  observe logs (mkLogged ent (context ++ fields)) ;; ret None.

(** Filters and samplers pass the entry on, and so does a lazy core, to the
    core it holds. *)
Definition Write_body : (core -> Entry -> list field -> M error) -> core -> Entry -> list field -> M error :=
  Eval cbv beta delta [multiCore_Write hooked_Write contextObserver_Write] in
  fun rec c ent fields =>
  match c with
  | CNop => ret None
  | CIo _ enc out => ioCore_Write enc out ent fields
  | CMulti cs => multiCore_Write rec cs ent fields
  | CHooked _ funcs => hooked_Write funcs ent
  | CFilter c _ | CSampler c _ _ _ => rec c ent fields
  | CLazy once c fs => c <- current (With c fs) once c ;; rec c ent fields
  | CObserver _ logs context => contextObserver_Write logs context ent fields
  end.

Definition core_Write : core -> Entry -> list field -> M error :=
  fixed (fun _ _ => halt RHang) Write_body.

Definition multiCore_Sync (rec : core -> M error) (cs : list core) : M error :=
  foldM (fun err c => append_error (rec c) err) cs None.

Definition Sync_body : (core -> M error) -> core -> M error :=
  Eval cbv beta delta [multiCore_Sync] in
  fun rec c =>
  match c with
  | CNop | CObserver _ _ _ => ret None
  | CIo _ _ out => on_world (WriteSyncer.Sync out)
  | CMulti cs => multiCore_Sync rec cs
  | CHooked c _ | CFilter c _ | CSampler c _ _ _ => rec c
  | CLazy once c fs => c <- current (With c fs) once c ;; rec c
  end.

Definition core_Sync : core -> M error := fixed (halt RHang) Sync_body.

(** ** Writing a checked entry *)

Definition OnWrite (hook : CheckWriteHook) (ent : Entry) (fields : list field) : M unit :=
  match hook with
  | HAction WriteThenNoop => ret tt
  | HAction WriteThenGoexit => halt RGoexit
  | HAction WriteThenPanic => halt (RPanic (e_Message ent))
  | HAction WriteThenFatal => halt (RExit 1)
  | HCustom id f => emit_event (EvOnWrite id ent fields) ;; halt (f ent fields)
  end.

(** A line for the error output, when there is one; its errors are ignored. *)
Definition report (out : option WriteSyncer) (line : gostring) : M unit :=
  match out with
  | Some ws => on_world (WriteSyncer.Write ws line) ;; on_world (WriteSyncer.Sync ws) ;; ret tt
  | None => ret tt
  end.

(** [CheckedEntry.Write]: the entry as it is left behind, which the pool owns
    when the call returns. *)
Definition ce_Write (ce : option CheckedEntry) (fields : list field) : M (option CheckedEntry) :=
  match ce with
  | None => ret None
  | Some ce =>
      let ent := ce_Entry ce in
      if ce_dirty ce then
        report (ce_ErrorOutput ce)
          (fmt_time (e_Time ent) ++ go " Unsafe CheckedEntry re-use near Entry " ++ fmt_entry ent
             ++ go "." ++ [Byte.x0a]) ;;
        ret (Some ce)
      else
        err <- foldM (fun err c => append_error (core_Write c ent fields) err) (ce_cores ce) None ;;
        match err with
        | Some err =>
            report (ce_ErrorOutput ce)
              (fmt_time (e_Time ent) ++ go " write error: " ++ fmt_error err ++ [Byte.x0a])
        | None => ret tt
        end ;;
        match ce_after ce with
        | Some hook => OnWrite hook ent fields
        | None => ret tt
        end ;;
        ret (Some (mkCE ent (ce_ErrorOutput ce) true (ce_after ce) (ce_cores ce)))
  end.
End Core.

Arguments core : clear implicits.
Arguments CheckedEntry : clear implicits.
