(* ===== verification/CoreProofs.v ===== *)
(** * CoreProofs

    The equations of the operations of a core, what [With] keeps, and what the
    operations may change of the heap. *)
From S2P Require Import Prelude Strconv Utf8 Level Float GoTime Entry Values Field Sampler WriteSyncer.
From S2P Require Import Stacktrace Effects Core.
Open Scope Z_scope.
Open Scope lad_scope.
Set Warnings "-register-all".

(** ** Tying the recursion *)

Section Tie.
Context {E A : Type} (dead : A) (body : (core E -> A) -> core E -> A).
Context (R : A -> A -> Prop) (P : (core E -> A) -> Prop).
Hypothesis P_tie : forall n, P (tie dead body n).
Hypothesis P_fixed : P (fixed dead body).
Hypothesis body_ext : forall c f g, P f -> P g ->
  (forall c', (height c' < height c)%nat -> R (f c') (g c')) -> R (body f c) (body g c).

Lemma height_pos (c : core E) : (0 < height c)%nat.
Proof. destruct c; cbn; lia. Qed.

Lemma tie_stable n m c :
  (height c <= n)%nat -> (height c <= m)%nat -> R (tie dead body n c) (tie dead body m c).
Proof.
  revert m c. induction n as [|n IH]; intros m c Hn Hm; pose proof (height_pos c); [lia|].
  destruct m as [|m]; [lia|]. cbn [tie]. apply body_ext; [apply P_tie..|].
  intros c' Hc. apply IH; lia.
Qed.

Lemma fixed_eq c : R (fixed dead body c) (body (fixed dead body) c).
Proof.
  unfold fixed at 1. pose proof (height_pos c). destruct (height c) as [|n] eqn:Hh; [lia|].
  cbn [tie]. apply body_ext; [apply P_tie|apply P_fixed|].
  intros c' Hc. apply tie_stable; lia.
Qed.
End Tie.

Lemma height_in {E} (c : core E) cs : In c cs -> (height c < height (CMulti cs))%nat.
Proof.
  intros Hc. cbn [height]. apply list_elem_of_In in Hc.
  apply Nat.lt_succ_r, max_list_elem_of_le. by apply list_elem_of_fmap_2.
Qed.

Ltac unbind Hm :=
  let h1 := fresh "h1" in let a := fresh "a" in let Ha := fresh "Ha" in
  apply bind_inv in Hm as (h1 & a & Ha & Hm).

(** ** The equations *)

Section Equations.
Context {E : Type} `{EntryEncoder E} `{MultiErr} `{Fmt}.
Implicit Types (c : core E) (fs : list field) (h : heap).

(** [With] never makes a core higher. *)
Definition shrinks (f : core E -> list field -> M (core E)) : Prop :=
  forall c fs h h' c', f c fs h = (h', ROk c') -> (height c' <= height c)%nat.

Lemma initOnce_inv (m : M (core E)) once c h h' c' :
  initOnce m once c h = (h', ROk c') -> c' = c \/ exists h1 h2, m h1 = (h2, ROk c').
Proof.
  unfold initOnce. destruct (h_once h !! once) as [[|]|]; [eauto|naive_solver|].
  destruct (m h) as [h1 [a| | | | ]] eqn:Hm; naive_solver.
Qed.

Lemma max_list_mono (l k : list nat) : Forall2 le k l -> (max_list k <= max_list l)%nat.
Proof. induction 1; cbn; lia. Qed.

Lemma With_body_shrinks f : shrinks f -> shrinks (With_body f).
Proof.
  intros Hf c fs h h' c' Hm. destruct c as [ |e enc o|cs|c fn|c l|c s i k|i c gs|e l x];
    cbn [With_body] in Hm; try (by inv Hm); unbind Hm.
  - by inv Hm.
  - inv Hm. cbn [height]. apply le_n_S, max_list_mono, Forall2_fmap_2.
    apply (mapM_inv _ _ _ _ _ (fun x y => height y <= height x)%nat) in Ha; [|eauto].
    by apply Forall2_flip.
  - inv Hm. apply Hf in Ha. cbn. lia.
  - inv Hm. apply Hf in Ha. cbn. lia.
  - inv Hm. apply Hf in Ha. cbn. lia.
  - apply Hf in Hm. cbn. apply initOnce_inv in Ha as [->|(h2 & h3 & Ha)]; [lia|].
    apply Hf in Ha. lia.
Qed.

Lemma With_tie_shrinks n : shrinks (tie (fun _ => halt RHang) With_body n).
Proof.
  induction n; [|by apply With_body_shrinks]. intros c fs h h' c' Hm. by inv Hm.
Qed.

Lemma With_shrinks : shrinks With.
Proof. intros c. apply With_tie_shrinks. Qed.

Lemma initOnce_ext (m m' : M (core E)) once c h :
  m h = m' h -> initOnce m once c h = initOnce m' once c h.
Proof. intros Hm. unfold initOnce. by rewrite Hm. Qed.

Lemma With_eq c fs h : With c fs h = With_body With c fs h.
Proof.
  apply (fixed_eq _ _ (fun a b => forall fs h, a fs h = b fs h) shrinks);
    [apply With_tie_shrinks|apply With_shrinks|].
  clear c fs h. intros c f g Hf Hg Hfg fs h.
  destruct c as [ |e enc o|cs|c fn|c l|c s i k|i c gs|e l x]; cbn [With_body]; try done.
  - apply bind_ext; [|done]. apply mapM_ext. intros c h' Hc. by apply Hfg, height_in.
  - apply bind_ext; [|done]. apply Hfg; cbn; lia.
  - apply bind_ext; [|done]. apply Hfg; cbn; lia.
  - apply bind_ext; [|done]. apply Hfg; cbn; lia.
  - apply bind_ext; [apply initOnce_ext, Hfg; cbn; lia|].
    intros a h' Ha. apply Hfg. cbn.
    apply initOnce_inv in Ha as [->|(h2 & h3 & Ha)]; [lia|]. apply Hg in Ha. lia.
Qed.

Lemma initOnce_height once c gs h h' a :
  initOnce (With c gs) once c h = (h', ROk a) -> (height a < height (CLazy once c gs))%nat.
Proof.
  intros Ha. cbn. apply initOnce_inv in Ha as [->|(h2 & h3 & Ha)]; [lia|].
  apply With_shrinks in Ha. lia.
Qed.

Lemma current_height once c gs h h' a :
  current (With c gs) once c h = (h', ROk a) -> (height a < height (CLazy once c gs))%nat.
Proof.
  unfold current. intros Ha. cbn. destruct (h_once h !! once) as [[|]|]; try (inv Ha; lia).
  apply With_shrinks in Ha. lia.
Qed.

Lemma Check_eq c ent ce h : core_Check c ent ce h = Check_body core_Check c ent ce h.
Proof.
  apply (fixed_eq _ _ (fun a b => forall ent ce h, a ent ce h = b ent ce h) (fun _ => True)); [done..|].
  clear c ent ce h. intros c f g _ _ Hfg ent ce h.
  unfold Check_body. apply bind_ext; [done|]. intros h0 h1 [= <- <-].
  destruct c as [ |e enc o|cs|c fn|c l|c s i k|i c gs|e l x]; try done.
  - apply foldM_ext. intros b c h' Hc. by apply Hfg, height_in.
  - apply bind_ext; [|done]. apply Hfg; cbn; lia.
  - destruct (negb _); [done|]. apply Hfg; cbn; lia.
  - destruct (negb _); [done|]. apply bind_ext; [done|]. intros [n|] h' _.
    + destruct (n =? LogDropped); [done|]. apply Hfg; cbn; lia.
    + apply Hfg; cbn; lia.
  - apply bind_ext; [done|]. intros a h' Ha. eapply Hfg, initOnce_height, Ha.
Qed.

Lemma append_error_ext (m m' : M error) err h : m h = m' h -> append_error m err h = append_error m' err h.
Proof. intros Hm. by apply bind_ext. Qed.

Lemma Write_eq c ent fs h : core_Write c ent fs h = Write_body core_Write c ent fs h.
Proof.
  apply (fixed_eq _ _ (fun a b => forall ent fs h, a ent fs h = b ent fs h) (fun _ => True)); [done..|].
  clear c ent fs h. intros c f g _ _ Hfg ent fs h.
  destruct c as [ |e enc o|cs|c fn|c l|c s i k|i c gs|e l x]; cbn [Write_body]; try done.
  - apply foldM_ext. intros b c h' Hc. by apply append_error_ext, Hfg, height_in.
  - apply Hfg; cbn; lia.
  - apply Hfg; cbn; lia.
  - apply bind_ext; [done|]. intros a h' Ha. eapply Hfg, current_height, Ha.
Qed.

Lemma Sync_eq c h : core_Sync c h = Sync_body core_Sync c h.
Proof.
  apply (fixed_eq _ _ (fun a b => forall h, a h = b h) (fun _ => True)); [done..|].
  clear c h. intros c f g _ _ Hfg h.
  destruct c as [ |e enc o|cs|c fn|c l|c s i k|i c gs|e l x]; cbn [Sync_body]; try done.
  - apply foldM_ext. intros b c h' Hc. by apply append_error_ext, Hfg, height_in.
  - apply Hfg; cbn; lia.
  - apply Hfg; cbn; lia.
  - apply Hfg; cbn; lia.
  - apply bind_ext; [done|]. intros a h' Ha. eapply Hfg, current_height, Ha.
Qed.
End Equations.

(** ** What [With] keeps *)

Lemma core_height_ind {E} (P : core E -> Prop) :
  (forall c, (forall c', (height c' < height c)%nat -> P c') -> P c) -> forall c, P c.
Proof.
  intros Hstep c. remember (height c) as n eqn:Hn. revert c Hn.
  induction (lt_wf n) as [n _ IH]. intros c ->. apply Hstep. eauto.
Qed.

Definition with_once (h : heap) (o : gmap nat bool) : heap :=
  mkHeap (h_cells h) (h_world h) (h_counters h) (h_observed h) o (h_events h) (h_times h) (h_frames h).

(** [h'] is [h] after some lazy cores were initialized. *)
Definition inits (h h' : heap) : Prop :=
  exists o, h' = with_once h o /\
    forall i, o !! i = h_once h !! i \/ h_once h !! i = None /\ o !! i = Some true.

#[global] Instance inits_preorder : PreOrder inits.
Proof.
  split.
  - intros h. exists (h_once h). split; [by destruct h|auto].
  - intros h h1 h2 (o1 & -> & Ho1) (o2 & -> & Ho2). exists o2. split; [done|]. cbn in *.
    intros i. destruct (Ho1 i) as [Hi|[Hi Hi']]; destruct (Ho2 i) as [Hj|[Hj Hj']];
      rewrite ?Hj, ?Hi; auto; right; split; congruence.
Qed.

Lemma inits_subseteq h h' : inits h h' -> h_once h ⊆ h_once h'.
Proof.
  intros (o & -> & Ho). apply map_subseteq_spec. intros i b Hi. cbn.
  destruct (Ho i) as [->|[? _]]; congruence.
Qed.

Lemma inits_set_once h h' i : h_once h !! i = None -> inits h h' -> inits h (set_once i true h').
Proof.
  intros Hi (o & -> & Ho). exists (<[i := true]> o). split; [done|]. intros j.
  destruct (decide (i = j)) as [<-|Hj].
  - right. by rewrite lookup_insert_eq.
  - rewrite lookup_insert_ne by done. apply Ho.
Qed.

Lemma set_once_grows h h' i :
  h_once h !! i = None -> inits h h' -> h_once h' ⊆ h_once (set_once i true h').
Proof.
  intros Hi (o & -> & Ho). cbn. destruct (Ho i) as [Hj|[_ Hj]].
  - apply insert_subseteq. congruence.
  - by rewrite insert_id.
Qed.

Section With.
Context {E : Type} `{EntryEncoder E} `{MultiErr} `{Fmt}.
Implicit Types (c : core E) (fs : list field) (h : heap).

Lemma mapM_inits {A B} (f : A -> M B) l h h' bs :
  (forall x h h' y, In x l -> f x h = (h', ROk y) -> inits h h') ->
  mapM f l h = (h', ROk bs) -> inits h h'.
Proof.
  revert h bs. induction l as [|x l IH]; intros h bs Hf Hm; [by inv Hm|].
  unbind Hm. unbind Hm. inv Hm. etransitivity; [eapply Hf; [by left|done]|].
  eapply IH; [|done]. intros z h3 h4 y Hz. apply Hf. by right.
Qed.

Lemma With_inits c fs h h' c' : With c fs h = (h', ROk c') -> inits h h'.
Proof.
  revert fs h h' c'. induction c as [c IH] using core_height_ind. intros fs h h' c' Hm.
  rewrite With_eq in Hm.
  destruct c as [ |e enc o|cs|c fn|c l|c s i k|i c gs|e l x]; cbn [With_body] in Hm;
    try (by inv Hm); unbind Hm.
  - inv Hm. unfold lift in Ha. destruct (enc_With enc fs); by inv Ha.
  - inv Hm. eapply mapM_inits; [|done]. intros c h1 h2 y Hc. apply IH. by apply height_in.
  - inv Hm. eapply IH, Ha. cbn; lia.
  - inv Hm. eapply IH, Ha. cbn; lia.
  - inv Hm. eapply IH, Ha. cbn; lia.
  - transitivity h1; [|eapply IH, Hm; by eapply initOnce_height].
    unfold initOnce in Ha. destruct (h_once h !! i) as [[|]|] eqn:Hi.
    + eapply IH, Ha. cbn; lia.
    + by inv Ha.
    + destruct (With c gs h) as [h2 [a'| | | | ]] eqn:Hw; inv Ha.
      apply inits_set_once; [done|]. eapply IH, Hw. cbn; lia.
Qed.

(** [With] decides no level. *)
Lemma With_Enabled c fs h h' c' cells lvl :
  With c fs h = (h', ROk c') -> core_Enabled cells c' lvl = core_Enabled cells c lvl.
Proof.
  revert fs h h' c'. induction c as [c IH] using core_height_ind. intros fs h h' c' Hm.
  rewrite With_eq in Hm.
  destruct c as [ |e enc o|cs|c fn|c l|c s i k|i c gs|e l x]; cbn [With_body] in Hm;
    try (by inv Hm); unbind Hm.
  - by inv Hm.
  - inv Hm. cbn [core_Enabled].
    apply (mapM_inv _ _ _ _ _ (fun x y => core_Enabled cells y lvl = core_Enabled cells x lvl)) in Ha.
    + induction Ha as [|x y xs ys Hxy _ IHa]; cbn; [done|]. rewrite Hxy. f_equal. apply IHa.
      intros c' Hc'. apply IH. cbn in *. lia.
    + intros x h2 h3 y Hx. apply IH. by apply height_in.
  - inv Hm. cbn [core_Enabled]. eapply IH, Ha. cbn; lia.
  - by inv Hm.
  - inv Hm. cbn [core_Enabled]. eapply IH, Ha. cbn; lia.
  - transitivity (core_Enabled cells a lvl); [eapply IH, Hm; by eapply initOnce_height|].
    cbn [core_Enabled]. apply initOnce_inv in Ha as [->|(h2 & h3 & Ha)]; [done|].
    eapply IH, Ha. cbn; lia.
Qed.

(** *** Running [With] again *)

Lemma mapM_again {A B} (f : A -> M B) l h h1 h2 bs :
  (forall x h h1 y, In x l -> f x h = (h1, ROk y) -> inits h h1) ->
  (forall x h h1 y, In x l -> f x h = (h1, ROk y) -> h_once h1 ⊆ h_once h2 -> f x h2 = (h2, ROk y)) ->
  mapM f l h = (h1, ROk bs) -> h_once h1 ⊆ h_once h2 -> mapM f l h2 = (h2, ROk bs).
Proof.
  revert h bs. induction l as [|x l IH]; intros h bs Hi Hf Hm Hs; [by inv Hm|].
  unbind Hm. unbind Hm. inv Hm. cbn [mapM].
  assert (inits h0 h1) as Hi1.
  { eapply mapM_inits; [|done]. intros z h3 h4 y Hz. apply Hi. by right. }
  rewrite (bind_ok _ _ _ h2 a).
  2: { eapply Hf; [by left|done|]. etransitivity; [by apply inits_subseteq|done]. }
  rewrite (bind_ok _ _ _ h2 a0); [done|]. eapply IH; [| |done..].
  - intros z h3 h4 y Hz. apply Hi. by right.
  - intros z h3 h4 y Hz. apply Hf. by right.
Qed.

(** Once [With] succeeded, running it later gives the same core and changes
    nothing: a lazy core that computes its core anew on every use behaves as one
    that stores it. *)
Lemma With_again c fs h h1 h2 c' :
  With c fs h = (h1, ROk c') -> h_once h1 ⊆ h_once h2 -> With c fs h2 = (h2, ROk c').
Proof.
  revert fs h h1 h2 c'. induction c as [c IH] using core_height_ind. intros fs h h1 h2 c' Hm Hs.
  rewrite With_eq in Hm |- *.
  destruct c as [ |e enc o|cs|c fn|c l|c s i k|i c gs|e l x]; cbn [With_body] in Hm |- *;
    try (by inv Hm); unbind Hm.
  - unfold lift in *. destruct (enc_With enc fs); inv Ha. by inv Hm.
  - inv Hm. rewrite (bind_ok _ _ _ h2 a); [done|]. eapply mapM_again; [| |done..].
    + intros x h3 h4 y _. apply With_inits.
    + intros x h3 h4 y Hx. apply IH. by apply height_in.
  - inv Hm. rewrite (bind_ok _ _ _ h2 a); [done|]. eapply IH; [|done..]. cbn; lia.
  - inv Hm. rewrite (bind_ok _ _ _ h2 a); [done|]. eapply IH; [|done..]. cbn; lia.
  - inv Hm. rewrite (bind_ok _ _ _ h2 a); [done|]. eapply IH; [|done..]. cbn; lia.
  - pose proof (inits_subseteq _ _ (With_inits _ _ _ _ _ Hm)) as Hsub.
    rewrite (bind_ok _ _ _ h2 a); [eapply IH; [by eapply initOnce_height|done..]|].
    unfold initOnce in *. destruct (h_once h !! i) as [[|]|] eqn:Hi.
    + pose proof (inits_subseteq _ _ (With_inits _ _ _ _ _ Ha)) as Hsub'.
      rewrite (lookup_weaken (h_once h) (h_once h2) i true) by (done || by do 2 etransitivity).
      eapply IH; [|done|by etransitivity]. cbn; lia.
    + inv Ha. by rewrite (lookup_weaken (h_once h0) (h_once h2) i false) by (done || by etransitivity).
    + destruct (With c gs h) as [h3 [a'| | | | ]] eqn:Hw; inv Ha.
      assert (h_once (set_once i true h3) ⊆ h_once h2) as Hsub' by (by etransitivity).
      rewrite (lookup_weaken _ (h_once h2) i true (lookup_insert_eq _ _ _) Hsub').
      eapply IH; [|done|]; [cbn; lia|]. etransitivity; [|exact Hsub'].
      apply (set_once_grows h); [done|by apply With_inits in Hw].
Qed.

(** An initialized lazy core has its core at hand from then on. *)
Lemma initOnce_again once c fs h h1 h2 a :
  initOnce (With c fs) once c h = (h1, ROk a) -> h_once h1 ⊆ h_once h2 ->
  initOnce (With c fs) once c h2 = (h2, ROk a) /\ current (With c fs) once c h2 = (h2, ROk a).
Proof.
  unfold initOnce, current. intros Ha Hs. destruct (h_once h !! once) as [[|]|] eqn:Hi.
  - pose proof (inits_subseteq _ _ (With_inits _ _ _ _ _ Ha)) as Hsub.
    rewrite (lookup_weaken (h_once h) (h_once h2) once true) by (done || by etransitivity).
    by split; eapply With_again.
  - inv Ha. by rewrite (lookup_weaken (h_once h1) (h_once h2) once false).
  - destruct (With c fs h) as [h3 [a'| | | | ]] eqn:Hw; inv Ha.
    rewrite (lookup_weaken _ (h_once h2) once true (lookup_insert_eq _ _ _) Hs).
    assert (h_once h3 ⊆ h_once h2) as Hs'.
    { etransitivity; [|exact Hs]. apply (set_once_grows h); [done|by apply With_inits in Hw]. }
    by split; eapply With_again.
Qed.
End With.

(** ** Lazy cores stay initialized *)

Definition keeps_once {A} (m : M A) (h : heap) : Prop := h_once h ⊆ h_once (m h).1.

#[local] Hint Extern 0 (keeps_once _ _) => (unfold keeps_once; reflexivity) : core.

Lemma keeps_bind {A B} (m : M A) (k : A -> M B) h :
  keeps_once m h -> (forall a h', m h = (h', ROk a) -> keeps_once (k a) h') -> keeps_once (bind m k) h.
Proof.
  unfold keeps_once. intros Hm Hk. unfold bind. destruct (m h) as [h' [a| | | | ]] eqn:Em; try done.
  cbn in Hm. etransitivity; [exact Hm|]. by apply Hk.
Qed.

Lemma keeps_mapM {A B} (f : A -> M B) l h :
  (forall x h, In x l -> keeps_once (f x) h) -> keeps_once (mapM f l) h.
Proof.
  revert h. induction l as [|x l IH]; intros h Hf; [done|]. cbn [mapM].
  apply keeps_bind; [apply Hf; by left|]. intros y h1 _.
  apply keeps_bind; [|done]. apply IH. intros z h2 Hz. apply Hf. by right.
Qed.

Lemma keeps_foldM {A B} (f : B -> A -> M B) l b h :
  (forall b x h, In x l -> keeps_once (f b x) h) -> keeps_once (foldM f l b) h.
Proof.
  revert b h. induction l as [|x l IH]; intros b h Hf; [done|]. cbn [foldM].
  apply keeps_bind; [apply Hf; by left|]. intros y h1 _. apply IH. intros. apply Hf. by right.
Qed.

Lemma keeps_lift {A} (o : outcome A) h : keeps_once (lift o) h.
Proof. by destruct o. Qed.

Lemma keeps_on_world {A} (f : world -> option (world * A)) h : keeps_once (on_world f) h.
Proof. unfold keeps_once, on_world. by destruct (f (h_world h)) as [[w a]|]. Qed.

Section Keeps.
Context {E : Type} `{EntryEncoder E} `{MultiErr} `{Fmt}.
Implicit Types (c : core E) (fs : list field) (h : heap).

Lemma keeps_initOnce (m : M (core E)) once c h : keeps_once m h -> keeps_once (initOnce m once c) h.
Proof.
  unfold keeps_once, initOnce. intros Hm. destruct (h_once h !! once) as [[|]|] eqn:Hi; try done.
  destruct (m h) as [h' [a| | | | ]]; cbn in *; apply insert_subseteq_r; done.
Qed.

Lemma keeps_With c fs h : keeps_once (With c fs) h.
Proof.
  revert fs h. induction c as [c IH] using core_height_ind. intros fs h.
  unfold keeps_once. rewrite With_eq. change (keeps_once (With_body With c fs) h).
  destruct c as [ |e enc o|cs|c fn|c l|c s i k|i c gs|e l x]; cbn [With_body]; try done;
    apply keeps_bind; try done.
  - apply keeps_lift.
  - apply keeps_mapM. intros c h' Hc. by apply IH, height_in.
  - apply IH. cbn; lia.
  - apply IH. cbn; lia.
  - apply IH. cbn; lia.
  - apply keeps_initOnce, IH. cbn; lia.
  - intros a h' Ha. by eapply IH, initOnce_height.
Qed.

Lemma keeps_current once c fs h : keeps_once (current (With c fs) once c) h.
Proof.
  unfold keeps_once, current. destruct (h_once h !! once) as [[|]|]; try done. apply keeps_With.
Qed.

Lemma keeps_append_error (m : M error) err h : keeps_once m h -> keeps_once (append_error m err) h.
Proof. intros Hm. by apply keeps_bind. Qed.

Lemma keeps_Write c ent fs h : keeps_once (core_Write c ent fs) h.
Proof.
  revert ent fs h. induction c as [c IH] using core_height_ind. intros ent fs h.
  unfold keeps_once. rewrite Write_eq. change (keeps_once (Write_body core_Write c ent fs) h).
  destruct c as [ |e enc o|cs|c fn|c l|c s i k|i c gs|e l x]; cbn [Write_body]; try done.
  - apply keeps_bind; [apply keeps_lift|]. intros [buf|err] h' _; [|done].
    apply keeps_bind; [apply keeps_on_world|]. intros [n [err|]] h'' _; [done|]. cbn.
    destruct (e_Level ent >? ErrorLevel); [|done]. apply keeps_bind; [apply keeps_on_world|done].
  - apply keeps_foldM. intros b c h' Hc. by apply keeps_append_error, IH, height_in.
  - apply keeps_foldM. done.
  - apply IH. cbn; lia.
  - apply IH. cbn; lia.
  - apply keeps_bind; [apply keeps_current|]. intros a h' Ha. by eapply IH, current_height.
Qed.

End Keeps.
