(* ===== verification/Frameless.v ===== *)
(** * Frameless

    Computations that do not look at the call stack: everything the cores and
    checked entries do. *)
From S2P Require Import Prelude Strconv Utf8 Level Float GoTime Buffer Entry Values Field Sampler.
From S2P Require Import WriteSyncer Stacktrace Effects Core CoreProofs.
Open Scope Z_scope.
Open Scope lad_scope.
Set Warnings "-register-all".

Definition frameless {A} (m : M A) : Prop :=
  forall fs h, m (set_frames fs h) = (set_frames fs (m h).1, (m h).2).

Create HintDb frames.

Lemma frameless_ret {A} (a : A) : frameless (ret a).
Proof. done. Qed.
Lemma frameless_halt {A} (r : res A) : frameless (halt r).
Proof. done. Qed.
Lemma frameless_lift {A} (o : outcome A) : frameless (lift o).
Proof. by destruct o. Qed.
Lemma frameless_emit e : frameless (emit_event e).
Proof. done. Qed.
Lemma frameless_set_counters i cs : frameless (set_counters i cs).
Proof. done. Qed.
Lemma frameless_observe i l : frameless (observe i l).
Proof. done. Qed.
Lemma frameless_on_world {A} (f : world -> option (world * A)) : frameless (on_world f).
Proof. intros fs h. unfold on_world. cbn. by destruct (f (h_world h)) as [[w a]|]. Qed.
Lemma frameless_Now : frameless Now.
Proof. intros fs h. unfold Now. cbn. by destruct (h_times h). Qed.

Lemma frameless_bind {A B} (m : M A) (k : A -> M B) :
  frameless m -> (forall a h h', m h = (h', ROk a) -> frameless (k a)) -> frameless (bind m k).
Proof.
  intros Hm Hk fs h. unfold bind. rewrite Hm. destruct (m h) as [h1 [a| | | | ]] eqn:Em; try done.
  cbn. by apply (Hk a h h1).
Qed.

(** Reading parts of the heap other than the stack. *)
Lemma frameless_get {A} (k : heap -> M A) :
  (forall fs h h', k (set_frames fs h) h' = k h h') -> (forall h, frameless (k h)) ->
  frameless (bind get_heap k).
Proof.
  intros Hk Hf fs h. rewrite !(bind_ok get_heap k _ _ _ eq_refl), Hk. apply Hf.
Qed.

Lemma frameless_mapM {A B} (f : A -> M B) l : (forall x, In x l -> frameless (f x)) -> frameless (mapM f l).
Proof.
  induction l as [|x l IH]; intros Hf; [done|]. cbn [mapM].
  apply frameless_bind; [apply Hf; by left|]. intros y h h' _.
  apply frameless_bind; [|done]. apply IH. intros z Hz. apply Hf. by right.
Qed.

Lemma frameless_foldM {A B} (f : B -> A -> M B) l b :
  (forall b x, In x l -> frameless (f b x)) -> frameless (foldM f l b).
Proof.
  revert b. induction l as [|x l IH]; intros b Hf; [done|]. cbn [foldM].
  apply frameless_bind; [apply Hf; by left|]. intros y h h' _. apply IH. intros. apply Hf. by right.
Qed.

Lemma frameless_ext {A} (m m' : M A) : (forall h, m h = m' h) -> frameless m' -> frameless m.
Proof. intros Hm Hf fs h. by rewrite !Hm. Qed.

#[export] Hint Resolve frameless_ret frameless_halt frameless_lift frameless_emit
  frameless_set_counters frameless_observe frameless_on_world frameless_Now : frames.

(** ** Calls *)

Lemma set_frames_same h : set_frames (h_frames h) h = h.
Proof. by destruct h. Qed.

Lemma frameless_frames {A} (m : M A) h : frameless m -> h_frames (m h).1 = h_frames h.
Proof. intros Hm. pose proof (Hm (h_frames h) h) as Hf. rewrite set_frames_same in Hf. by rewrite Hf. Qed.

Lemma call_frameless `{Frames} {A} f (m : M A) h : frameless m -> call f m h = m h.
Proof.
  intros Hm. unfold call. rewrite Hm. change (set_frames (h_frames h) (set_frames ?fs ?x)) with (set_frames (h_frames h) x).
  rewrite <- (frameless_frames m h Hm), set_frames_same. by destruct (m h).
Qed.

Lemma call_bind `{Frames} {A B} f (m : M A) (k : A -> M B) h :
  (forall a, frameless (k a)) -> call f (bind m k) h = bind (call f m) k h.
Proof.
  intros Hk. unfold call, bind. destruct (m _) as [h1 [a| | | | ]]; try done.
  rewrite (Hk a (h_frames h) h1). by destruct (k a h1).
Qed.

(** ** Cores *)

Section Cores.
Context {E : Type} `{EntryEncoder E} `{MultiErr} `{Fmt}.
Implicit Types (c : core E) (fs : list field).

Lemma frameless_initOnce (m : M (core E)) once c : frameless m -> frameless (initOnce m once c).
Proof.
  intros Hm fs h. unfold initOnce. cbn. rewrite Hm.
  destruct (h_once h !! once) as [[|]|]; try done. by destruct (m h) as [h1 [a| | | | ]].
Qed.

Lemma frameless_current (m : M (core E)) once c : frameless m -> frameless (current m once c).
Proof.
  intros Hm fs h. unfold current. cbn. rewrite Hm.
  by destruct (h_once h !! once) as [[|]|].
Qed.

Lemma frameless_With c fs : frameless (With c fs).
Proof.
  revert fs. induction c as [c IH] using core_height_ind. intros fs.
  apply (frameless_ext _ _ (With_eq c fs)).
  destruct c as [ |e enc o|cs|c fn|c l|c s i k|i c gs|e l x]; cbn [With_body]; auto with frames;
    apply frameless_bind; auto with frames.
  - apply frameless_mapM. intros c Hc. by apply IH, height_in.
  - apply frameless_initOnce, IH. cbn; lia.
  - intros a h h' Ha. by eapply IH, initOnce_height.
Qed.

Lemma frameless_sample s counts hook ent : frameless (sample s counts hook ent).
Proof.
  apply frameless_get; [done|]. intros h. destruct (decide_sample _ _ _) as [[n|] cs];
    repeat (apply frameless_bind; intros); auto with frames.
Qed.

Lemma frameless_Check c ent ce : frameless (core_Check c ent ce).
Proof.
  revert ce. induction c as [c IH] using core_height_ind. intros ce.
  apply (frameless_ext _ _ (Check_eq c ent ce)). apply frameless_get; [by destruct c|]. intros h.
  destruct c as [ |e enc o|cs|c fn|c l|c s i k|i c gs|e l x]; auto with frames.
  - destruct (core_Enabled _ _ _); auto with frames.
  - apply frameless_foldM. intros b c Hc. by apply IH, height_in.
  - apply frameless_bind; [apply IH; cbn; lia|]. intros [d|] h1 h2 _; auto with frames.
  - destruct (negb _); auto with frames.
  - destruct (negb _); auto with frames. apply frameless_bind; [apply frameless_sample|].
    intros [n|] h1 h2 _; [destruct (n =? LogDropped)|]; auto with frames.
  - apply frameless_bind; [apply frameless_initOnce, frameless_With|].
    intros a h1 h2 Ha. by eapply IH, initOnce_height.
  - destruct (core_Enabled _ _ _); auto with frames.
Qed.

Lemma frameless_append_error (m : M error) err : frameless m -> frameless (append_error m err).
Proof. intros Hm. apply frameless_bind; auto with frames. Qed.

Lemma frameless_Write c ent fs : frameless (core_Write c ent fs).
Proof.
  induction c as [c IH] using core_height_ind. apply (frameless_ext _ _ (Write_eq c ent fs)).
  destruct c as [ |e enc o|cs|c fn|c l|c s i k|i c gs|e l x]; cbn [Write_body]; auto with frames.
  - apply frameless_bind; auto with frames. intros [buf|err] h h' _; auto with frames.
    apply frameless_bind; auto with frames. intros [n [err|]] h1 h2 _; cbn [snd]; auto with frames.
    destruct (e_Level ent >? ErrorLevel); auto with frames. apply frameless_bind; auto with frames.
  - apply frameless_foldM. intros b c Hc. by apply frameless_append_error, IH, height_in.
  - apply frameless_foldM. done.
  - apply frameless_bind; [apply frameless_current, frameless_With|].
    intros a h1 h2 Ha. by eapply IH, current_height.
  - apply frameless_bind; auto with frames.
Qed.

Lemma frameless_OnWrite hook ent fs : frameless (OnWrite hook ent fs).
Proof. by destruct hook as [[]|]. Qed.

Lemma frameless_report out line : frameless (report out line).
Proof.
  destruct out; [|done]. repeat (apply frameless_bind; auto with frames; intros).
Qed.

Lemma frameless_ce_Write (ce : option (CheckedEntry E)) fs : frameless (ce_Write ce fs).
Proof.
  destruct ce as [ce|]; [|done]. cbn [ce_Write]. destruct (ce_dirty ce).
  - apply frameless_bind; [apply frameless_report|auto with frames].
  - apply frameless_bind; [apply frameless_foldM; intros; apply frameless_append_error, frameless_Write|].
    intros err h h' _. apply frameless_bind; [destruct err; [apply frameless_report|done]|].
    intros _ h1 h2 _. apply frameless_bind; [destruct (ce_after ce); [apply frameless_OnWrite|done]|done].
Qed.
End Cores.
