(* ===== verification/JsonCore.v ===== *)
(** * JsonCore

    The JSON encoder as the encoder of a core: it keeps the laws a core relies
    on. *)
From S2P Require Import Prelude Strconv Utf8 Level Float GoTime Buffer Entry Values Field Encoder.
From S2P Require Import Json JsonTree JsonEncoder JsonSpec JsonProofs JsonTheorems.
From S2P Require Import Sampler WriteSyncer Stacktrace Effects Core.
Open Scope Z_scope.

Section JsonCore.
Context `{TimeFormat} `{GoRuntime}.

(** The encoder pool and which of its elements is handed out; the results do
    not depend on them ([EncodeEntry_spec]). *)
Variables (p : Pool.t jsonEncoder) (choice : option nat).

(** [ioCore.With] on the encoder: [Clone], then [addFields]. *)
Definition json_With (enc : jsonEncoder) (fields : list field) : outcome jsonEncoder :=
  match JSON.run_obj (addFields fields) (fst (JSON.Clone p choice enc)) with
  | (e, Ret _) => Ret e
  | (_, Panic v) => Panic v
  end.

Definition json_EncodeEntry (enc : jsonEncoder) (ent : Entry) (fields : list field) :
    outcome (gostring + goerror) :=
  match fst (JSON.EncodeEntry p choice enc ent fields) with
  | Ret b => Ret (inl (Bytes b))
  | Panic v => Panic v
  end.

Definition jsonEntry : EntryEncoder jsonEncoder :=
  {| enc_With := json_With; enc_EncodeEntry := json_EncodeEntry |}.

Variables (dre : ReflectedEncoder) (c0 : EncoderConfig) (sp : bool) (re : ReflectedEncoder).
Hypothesis Hc : config_ok (effective dre c0 sp) re.
Hypothesis Hp : pool_ok p.

(** The encoders a logger can hold. *)
Definition good_json (enc : jsonEncoder) : Prop := exists x, built dre c0 sp re enc x.

Lemma json_With_inv enc fs enc' :
  json_With enc fs = Ret enc' ->
  exists e p' err, JSON.Clone p choice enc = (e, p') /\ JSON.run_obj (addFields fs) e = (enc', Ret err).
Proof.
  unfold json_With. destruct (JSON.Clone p choice enc) as [e p'] eqn:HC. cbn.
  destruct (JSON.run_obj (addFields fs) e) as [e' [err|v]] eqn:HR; naive_solver.
Qed.

Lemma good_json_With enc fs enc' : good_json enc -> json_With enc fs = Ret enc' -> good_json enc'.
Proof.
  intros [x Hx] Hw. apply json_With_inv in Hw as (e & p' & err & HC & HR).
  eexists. by eapply built_with.
Qed.

Definition jsonLaws : @EncoderLaws jsonEncoder jsonEntry.
Proof.
  refine (@Build_EncoderLaws _ jsonEntry good_json good_json_With _).
  intros enc fs enc' ent gs [x Hx] Hw. apply json_With_inv in Hw as (e & p' & err & HC & HR).
  cbn. unfold json_EncodeEntry. by rewrite (EncodeEntry_after_With dre c0 sp re enc x p choice e p' fs enc' err p choice ent gs).
Defined.
End JsonCore.
