(* ===== verification/Encoders.v ===== *)
(** * Encoders

    [encoder.go]: the encoders a configuration can name, and the encoder of a
    core as one of them: JSON, console, or one a user registered. *)
From S2P Require Import Prelude Strconv Utf8 Level Float GoTime Buffer Entry Values Field Encoder.
From S2P Require Import Json JsonTree JsonEncoder JsonSpec JsonProofs JsonTheorems Console.
From S2P Require Import Sampler WriteSyncer Stacktrace Effects Core JsonCore.
Open Scope Z_scope.

(** ["%q"] of [fmt] on a string. *)
Class Quoting := { fmt_q : gostring -> gostring }.

(** A [ladcore.Encoder]. *)
Inductive AnEncoder (U : Type) : Type :=
| EncJSON (e : jsonEncoder)
| EncConsole (e : jsonEncoder)
| EncUser (u : U).
Arguments EncJSON {U}. Arguments EncConsole {U}. Arguments EncUser {U}.

Section Encoders.
Context `{TimeFormat} `{GoRuntime} `{FprintElem} `{Quoting}.
Context {U : Type} {user : EntryEncoder U}.
Variables (p : Pool.t jsonEncoder) (choice : option nat) (dre : ReflectedEncoder).

(** ** Encoding *)

(** [consoleEncoder.Clone], then [addFields]. *)
Definition console_With (enc : jsonEncoder) (fields : list field) : outcome jsonEncoder :=
  json_With p choice enc fields.

Definition console_EncodeEntry (enc : jsonEncoder) (ent : Entry) (fields : list field) :
    outcome (gostring + goerror) :=
  match fst (Console.EncodeEntry p choice enc ent fields) with
  | Ret b => Ret (inl (Bytes b))
  | Panic v => Panic v
  end.

Definition map_outcome {A B} (f : A -> B) (o : outcome A) : outcome B :=
  match o with Ret a => Ret (f a) | Panic v => Panic v end.

Definition any_With (enc : AnEncoder U) (fields : list field) : outcome (AnEncoder U) :=
  match enc with
  | EncJSON e => map_outcome EncJSON (json_With p choice e fields)
  | EncConsole e => map_outcome EncConsole (console_With e fields)
  | EncUser u => map_outcome EncUser (enc_With u fields)
  end.

Definition any_EncodeEntry (enc : AnEncoder U) (ent : Entry) (fields : list field) : outcome (gostring + goerror) :=
  match enc with
  | EncJSON e => json_EncodeEntry p choice e ent fields
  | EncConsole e => console_EncodeEntry e ent fields
  | EncUser u => enc_EncodeEntry u ent fields
  end.

Definition anyEntry : EntryEncoder (AnEncoder U) :=
  {| enc_With := any_With; enc_EncodeEntry := any_EncodeEntry |}.

(** ** The registry *)

Definition errNoEncoderNameSpecified : goerror := newError (go "no encoder name specified").

Definition constructor_ := EncoderConfig -> AnEncoder U + goerror.

Definition _encoderNameToConstructor : gmap gostring constructor_ :=
  <[go "console" := fun c => inl (EncConsole (Console.NewConsoleEncoder dre c))]>
  (<[go "json" := fun c => inl (EncJSON (JSON.NewJSONEncoder dre c))]> ∅).

Definition RegisterEncoder (reg : gmap gostring constructor_) (name : gostring) (c : constructor_) :
    gmap gostring constructor_ * error :=
  if negb (nonempty name) then (reg, Some errNoEncoderNameSpecified)
  else
    match reg !! name with
    | Some _ => (reg, Some (newError (go "encoder already registered for name " ++ fmt_q name)))
    | None => (<[name := c]> reg, None)
    end.

Definition newEncoder (reg : gmap gostring constructor_) (name : gostring) (c : EncoderConfig) :
    AnEncoder U + goerror :=
  match nonempty (TimeKey c), EncodeTime c with
  | true, None => inr (newError (go "missing EncodeTime in EncoderConfig"))
  | _, _ =>
      if negb (nonempty name) then inr errNoEncoderNameSpecified
      else
        match reg !! name with
        | None => inr (newError (go "no encoder registered for name " ++ fmt_q name))
        | Some c' => c' c
        end
  end.

(** ** Laws *)

(** The encoders of this package a logger can hold. *)
Definition good_enc (sp : bool) (e : jsonEncoder) : Prop :=
  exists c0 re x, config_ok (effective dre c0 sp) re /\ built dre c0 sp re e x.

Definition good_any `{!EncoderLaws U} (enc : AnEncoder U) : Prop :=
  match enc with
  | EncJSON e => good_enc false e
  | EncConsole e => good_enc true e
  | EncUser u => good u
  end.

Lemma map_outcome_ret {A B} (f : A -> B) o b : map_outcome f o = Ret b -> exists a, o = Ret a /\ b = f a.
Proof. destruct o; cbn; [|done]. intros [= <-]. eauto. Qed.

Hypothesis Hp : pool_ok p.

Lemma good_enc_With sp e fs e' : good_enc sp e -> json_With p choice e fs = Ret e' -> good_enc sp e'.
Proof.
  intros (c0 & re & x & Hc & Hb) Hw.
  destruct (good_json_With p choice dre c0 sp re Hp e fs e') as [x' Hx']; [by exists x|done|].
  by exists c0, re, x'.
Qed.

Lemma json_law e fs e' ent gs :
  good_enc false e -> json_With p choice e fs = Ret e' ->
  json_EncodeEntry p choice e' ent gs = json_EncodeEntry p choice e ent (fs ++ gs).
Proof.
  intros (c0 & re & x & Hc & Hb) Hw.
  apply (@With_EncodeEntry _ _ (jsonLaws p choice dre c0 false re Hc Hp)); [by exists x|done].
Qed.

Lemma console_law e fs e' ent gs :
  good_enc true e -> json_With p choice e fs = Ret e' ->
  console_EncodeEntry e' ent gs = console_EncodeEntry e ent (fs ++ gs).
Proof.
  intros (c0 & re & x & Hc & Hb) Hw. apply json_With_inv in Hw as (e1 & p' & err & HC & HR).
  unfold console_EncodeEntry.
  by rewrite (Console.console_after_With dre c0 re e x p choice e1 p' fs e' err p choice ent gs Hc Hb Hp HC HR Hp).
Qed.

(** Any encoder keeps the laws a core relies on, when the user's do. *)
Definition anyLaws `{!EncoderLaws U} : @EncoderLaws (AnEncoder U) anyEntry.
Proof.
  refine (@Build_EncoderLaws _ anyEntry good_any _ _).
  - intros [e|e|u] fs enc' Hg Hw; apply map_outcome_ret in Hw as (a & Ha & ->); cbn in *;
      [by eapply good_enc_With..|exact (good_With u fs a Hg Ha)].
  - intros [e|e|u] fs enc' ent gs Hg Hw; apply map_outcome_ret in Hw as (a & Ha & ->); cbn in *;
      [by apply json_law|by apply console_law|exact (With_EncodeEntry u fs a ent gs Hg Ha)].
Defined.
End Encoders.
