(* ===== verification/Observer.v ===== *)
(** * Observer

    [ladtest/observer]: the logs an observing core has collected, queries of
    them, and the context of an entry as a map; with [Field.Equals] of
    [ladcore/field.go] behind the query for a field. *)
From S2P Require Import Prelude Strconv Utf8 Strings Level Float GoTime Buffer Entry Values Field Encoder.
From S2P Require Import Json Escape JsonTree Base64 JsonEncoder JsonSpec JsonProofs JsonTheorems Memory.
From S2P Require Import Sampler WriteSyncer Stacktrace Effects Core CoreProofs.
Open Scope Z_scope.
Open Scope lad_scope.

(** ** The collection *)

(** An [*ObservedLogs] is the place of its entries in the heap. *)
Definition ObservedLogs := nat.

Definition logs_of (o : ObservedLogs) (h : heap) : list LoggedEntry := default [] (h_observed h !! o).

Definition set_logs (o : ObservedLogs) (l : list LoggedEntry) : M unit := fun h =>
  (mkHeap (h_cells h) (h_world h) (h_counters h) (<[o := l]> (h_observed h)) (h_once h) (h_events h)
     (h_times h) (h_frames h), ROk tt).

(** [&ObservedLogs{logs: l}]: a place not in use. *)
Definition alloc_logs (l : list LoggedEntry) : M ObservedLogs :=
  h <- get_heap ;;
  let o := S (max_list (map fst (map_to_list (h_observed h)))) in
  set_logs o l ;; ret o.

Section Observer.
Context `{GoRuntime} `{GoCompare}.

Definition Len (o : ObservedLogs) : M Z := h <- get_heap ;; ret (Z.of_nat (length (logs_of o h))).

Definition All (o : ObservedLogs) : M (list LoggedEntry) := h <- get_heap ;; ret (logs_of o h).

Definition TakeAll (o : ObservedLogs) : M (list LoggedEntry) :=
  h <- get_heap ;;
  let l := logs_of o h in
  set_logs o [] ;; ret l.

Definition untimed (e : LoggedEntry) : LoggedEntry :=
  let ent := l_Entry e in
  mkLogged (mkEntry (e_Level ent) zeroTime (e_LoggerName ent) (e_Message ent) (e_Caller ent) (e_Stack ent))
    (l_Context e).

Definition AllUntimed (o : ObservedLogs) : M (list LoggedEntry) :=
  l <- All o ;; ret (map untimed l).

(** The loop of [Filter]. *)
Fixpoint filter_loop (keep : LoggedEntry -> outcome bool) (l : list LoggedEntry) : outcome (list LoggedEntry) :=
  match l with
  | [] => Ret []
  | entry :: l =>
      match keep entry with
      | Panic v => Panic v
      | Ret b =>
          match filter_loop keep l with
          | Panic v => Panic v
          | Ret filtered => Ret (if b then entry :: filtered else filtered)
          end
      end
  end.

Definition Filter (keep : LoggedEntry -> outcome bool) (o : ObservedLogs) : M ObservedLogs :=
  h <- get_heap ;;
  filtered <- lift (filter_loop keep (logs_of o h)) ;;
  alloc_logs filtered.

Definition FilterLevelExact (level : Z) : ObservedLogs -> M ObservedLogs :=
  Filter (fun e => Ret (e_Level (l_Entry e) =? level)).

Definition FilterMessage (msg : gostring) : ObservedLogs -> M ObservedLogs :=
  Filter (fun e => Ret (streq (e_Message (l_Entry e)) msg)).

Definition FilterLoggerName (name : gostring) : ObservedLogs -> M ObservedLogs :=
  Filter (fun e => Ret (streq (e_LoggerName (l_Entry e)) name)).

Definition FilterMessageSnippet (snippet : gostring) : ObservedLogs -> M ObservedLogs :=
  Filter (fun e => Ret (contains (e_Message (l_Entry e)) snippet)).

(** The loop of [FilterField]. *)
Fixpoint has_field (f : field) (context : list field) : outcome bool :=
  match context with
  | [] => Ret false
  | ctxField :: context =>
      match Equals ctxField f with
      | Panic v => Panic v
      | Ret true => Ret true
      | Ret false => has_field f context
      end
  end.

Definition FilterField (f : field) : ObservedLogs -> M ObservedLogs :=
  Filter (fun e => has_field f (l_Context e)).

Definition FilterFieldKey (key : gostring) : ObservedLogs -> M ObservedLogs :=
  Filter (fun e => Ret (existsb (fun f => streq (f_Key f) key) (l_Context e))).

(** [LoggedEntry.ContextMap] *)
Definition ContextMap (e : LoggedEntry) : outcome (list (gostring * mval)) :=
  match map_obj (addFields (l_Context e)) NewMapObjectEncoder with
  | (encoder, Ret _) => Ret (Fields encoder)
  | (_, Panic v) => Panic v
  end.
End Observer.

(** ** The context as a map *)

(** Assigning keeps the keys distinct. *)
Lemma assign_keys {A} k (v : A) l k' : In k' (map fst (assign k v l)) -> k' = k \/ In k' (map fst l).
Proof.
  induction l as [|[a w] l IH]; cbn; [intros [<-|[]]; auto|]. destruct (streq k a); cbn; intros [<-|Hk]; auto.
  destruct (IH Hk); auto.
Qed.

Lemma assign_nodup {A} k (v : A) l : List.NoDup (map fst l) -> List.NoDup (map fst (assign k v l)).
Proof.
  induction l as [|[a w] l IH]; cbn; [intros _; repeat constructor; by intros []|]. intros Hl. inversion_clear Hl as [|? ? Ha Hn].
  destruct (streq k a) eqn:Hk; cbn; constructor; auto; [by apply streq_true in Hk as ->|].
  intros Hin. apply assign_keys in Hin as [->|Hin]; [by rewrite streq_refl in Hk|done].
Qed.

Lemma find_assign {A} k (v : A) l k' :
  find k' (assign k v l) = if streq k' k then Some v else find k' l.
Proof.
  induction l as [|[a w] l IH]; cbn; [done|]. destruct (streq k a) eqn:Hk; cbn.
  - apply streq_true in Hk as ->. by destruct (streq k' a).
  - rewrite IH. destruct (streq k' a) eqn:Ha, (streq k' k) eqn:Hkk; try done.
    apply streq_true in Ha as ->, Hkk as ->. by rewrite streq_refl in Hk.
Qed.

Lemma merged_ind (P : members -> members -> Prop) :
  P [] [] -> (forall ms k t, P ms (merged ms) -> P (ms ++ [(k, t)]) (assign k (last_wins t) (merged ms))) ->
  forall ms, P ms (merged ms).
Proof.
  intros Hn Hs ms. induction ms as [|[k t] ms IH] using rev_ind; [done|]. rewrite merged_snoc. by apply Hs.
Qed.

Lemma merged_nodup ms : List.NoDup (map fst (merged ms)).
Proof. apply (merged_ind (fun _ m => List.NoDup (map fst m))); [constructor|intros; by apply assign_nodup]. Qed.

(** The value of the last member with the key. *)
Definition last_value (k : gostring) (ms : members) : option jtree := find k (rev ms).

Lemma find_merged k ms : find k (merged ms) = last_wins <$> last_value k ms.
Proof.
  apply (merged_ind (fun ms m => find k m = last_wins <$> last_value k ms)); [done|].
  intros ms' k' t IH. rewrite find_assign, IH. unfold last_value. rewrite rev_app_distr. cbn.
  by destruct (streq k k').
Qed.

Lemma find_members_of `{TimeFormat} c re k entries :
  find k (members_of c re entries) = tree_of c re <$> find k entries.
Proof. induction entries as [|[a v] l IH]; [done|]. cbn. destruct (streq k a); [done|apply IH]. Qed.

Lemma members_of_keys `{TimeFormat} c re entries : map fst (members_of c re entries) = map fst entries.
Proof. unfold members_of. rewrite map_map. apply map_ext. by intros [k v]. Qed.

(** A configuration that prints the fields and nothing else. *)
Definition bare (c : EncoderConfig) : Prop :=
  MessageKey c = [] /\ LevelKey c = [] /\ TimeKey c = [] /\ NameKey c = [] /\ CallerKey c = [] /\
  FunctionKey c = [] /\ StacktraceKey c = [].

Section Context.
Context `{TimeFormat} `{GoRuntime}.
Variables (dre : ReflectedEncoder) (c0 : EncoderConfig) (sp : bool) (re : ReflectedEncoder).
Local Abbreviation c := (effective dre c0 sp).

Lemma bare_members ent fields :
  bare c -> entry_members c re emptyCtx ent fields =
    match spec_obj c re (addFields fields) emptyCtx with (y, Ret _) => Ret (close y) | (_, Panic v) => Panic v end.
Proof.
  intros (Hm & Hl & Ht & Hn & Hca & Hf & Hs). unfold entry_members.
  assert (prepend (metadata c ent) emptyCtx = emptyCtx) as ->.
  { unfold prepend, metadata, level_member, time_member, name_member, caller_member, function_member, message_member.
    rewrite Hm, Hl, Ht, Hn, Hca, Hf. change (nonempty []) with false.
    destruct (EncodeLevel c), (EncodeCaller c); cbn; by rewrite ?andb_false_r. }
  rewrite Hs. change (nonempty []) with false. rewrite andb_false_r.
  destruct (spec_obj c re (addFields fields) emptyCtx) as [y [e|v]]; [|done]. by rewrite app_nil_r.
Qed.

(** C21.  The context of an observed entry, read as a map, is the object the
    JSON encoder prints for the same fields, read as a map: every key once, with
    the value of the last member that has it, at every depth and through
    namespaces, arrays and marshalers that fail; and both panic when a marshaler
    does.  The JSON encoder is one that prints the fields and nothing else, and
    it encodes the values that the fields of this entry reflect.  (Where it
    refuses one, as encoding/json does a channel, the two differ: the map keeps
    the value, the line has an error member instead.) *)
Theorem context_map_is_json p choice ent fields
    (Hc : config_ok c re) (Hre : encodes_obj re (addFields fields) NewMapObjectEncoder)
    (Hb : bare c) (Hp : pool_ok p) :
  let line := fst (JSON.EncodeEntry p choice (JSON.newJSONEncoder dre c0 sp) ent fields) in
  match ContextMap (mkLogged ent fields) with
  | Panic v => line = Panic v
  | Ret entries =>
      exists ms, line = Ret (mkBuffer (render sp (TObj ms) ++ LineEnding c)) /\
        List.NoDup (map fst entries) /\
        forall k, tree_of c re <$> find k entries = last_wins <$> last_value k ms
  end.
Proof.
  intros line.
  assert (line = match entry_members c re emptyCtx ent fields with
                 | Ret ms => Ret (mkBuffer (render sp (TObj ms) ++ LineEnding c))
                 | Panic v => Panic v
                 end) as ->.
  { apply EncodeEntry_spec; [done|done|]. apply built_holds; [done|]. constructor. }
  rewrite (bare_members ent fields Hb). unfold ContextMap. cbn [l_Context].
  destruct (proj1 (map_agrees c re) (addFields fields) NewMapObjectEncoder emptyCtx Hre (rel_new c re)) as [Hres Hret].
  destruct (map_obj (addFields fields) NewMapObjectEncoder) as [m r], (spec_obj c re (addFields fields) emptyCtx) as [y s].
  cbn [fst snd] in *. subst s. destruct r as [e|v]; [|done].
  pose proof (rel_close _ _ _ _ (Hret _ eq_refl)) as Hm.
  exists (close y). split_and!; [done| |].
  - rewrite <- (members_of_keys c re), Hm. apply merged_nodup.
  - intros k. by rewrite <- find_members_of, Hm, find_merged.
Qed.
End Context.

(** An encoder of structs that refuses channels, as encoding/json does: of the
    values without a method, [structVal] is one it encodes. *)
Definition structVal : goval := VUser (Dyn None None None None 0).
Definition structReflect : ReflectedEncoder := fun v =>
  match v with
  | VUser (Dyn None None None None 0) => (go "{}" ++ [Byte.x0a], None)
  | _ => ([], Some (newError (go "json: unsupported type: chan int")))
  end.

Definition bareConfig : EncoderConfig :=
  mkConfig [] [] [] [] [] [] [] false [] None None None None None None [].

Lemma bare_config_ok :
  @config_ok plainTime (effective structReflect bareConfig false) structReflect.
Proof.
  split; try done. intros v s Hv. destruct v as [| | | | | | | |[[] [] [] [] []]]; try done.
  injection Hv as <-. exact raw_ok_braces.
Qed.

(** Duplicate keys, a namespace, a key used again inside it, and a struct. *)
Definition duplicates : list field :=
  [Int (go "a") 1; Int (go "a") 2; Namespace (go "ns"); Int (go "a") 3; String_f (go "b") (go "x");
   Reflect (go "s") structVal].

Lemma context_map_is_json_witness :
  exists ms,
    fst (@JSON.EncodeEntry plainTime exampleRuntime JSON._jsonPool None
           (JSON.newJSONEncoder structReflect bareConfig false) exampleEntry duplicates) =
      Ret (mkBuffer (render false (TObj ms) ++ [Byte.x0a])) /\
    List.NoDup [go "a"; go "ns"] /\
    forall k,
      @tree_of plainTime (effective structReflect bareConfig false) structReflect <$>
        find k [(go "a", MPrim (PInt64 2));
                (go "ns", MMap [(go "a", MPrim (PInt64 3)); (go "b", MPrim (PString (go "x"))); (go "s", MReflected structVal)])] =
      last_wins <$> last_value k ms.
Proof.
  apply (@context_map_is_json plainTime exampleRuntime structReflect bareConfig false structReflect
           JSON._jsonPool None exampleEntry duplicates);
    [apply bare_config_ok|vm_compute; tauto|repeat split|apply json_pool_ok].
Defined.

(** ** Queries *)

Section Queries.
Context `{GoRuntime} `{GoCompare}.

Definition kept (keep : LoggedEntry -> outcome bool) (e : LoggedEntry) : bool :=
  match keep e with Ret b => b | Panic _ => false end.

Lemma filter_loop_ret keep l r : filter_loop keep l = Ret r -> r = List.filter (kept keep) l.
Proof.
  revert r. induction l as [|e l IH]; intros r; cbn; [by intros [= <-]|]. unfold kept at 1.
  destruct (keep e) as [b|v]; [|done]. destruct (filter_loop keep l) as [r'|v]; [|done].
  intros [= <-]. rewrite (IH _ eq_refl). by destruct b.
Qed.

Lemma alloc_logs_spec l h h' o : alloc_logs l h = (h', ROk o) ->
  h_observed h !! o = None /\ logs_of o h' = l /\ forall q, q <> o -> logs_of q h' = logs_of q h.
Proof.
  unfold alloc_logs. rewrite (bind_ok get_heap _ h h h) by done. intros Ha.
  unfold bind, set_logs, ret in Ha. simplify_eq. split_and!.
  - apply eq_None_not_Some. intros [x Hx]. apply elem_of_map_to_list in Hx.
    assert (max_list (map fst (map_to_list (h_observed h))) >= S (max_list (map fst (map_to_list (h_observed h)))))%nat; [|lia].
    apply max_list_elem_of_le. apply (list_elem_of_fmap_2 fst) in Hx. exact Hx.
  - unfold logs_of. cbn. by rewrite lookup_insert_eq.
  - intros q Hq. unfold logs_of. cbn. by rewrite lookup_insert_ne.
Qed.

(** A query makes a new collection of the entries kept, in order, and leaves
    every other collection as it was. *)
Lemma Filter_spec keep o h h' o' : Filter keep o h = (h', ROk o') ->
  h_observed h !! o' = None /\ logs_of o' h' = List.filter (kept keep) (logs_of o h) /\
  forall q, q <> o' -> logs_of q h' = logs_of q h.
Proof.
  unfold Filter. rewrite (bind_ok get_heap _ h h h) by done. intros Hf. unbind Hf.
  destruct (filter_loop keep (logs_of o h)) as [r|v] eqn:Hr; [|done]. cbn in Ha. injection Ha as <- <-.
  apply filter_loop_ret in Hr as <-. exact (alloc_logs_spec _ _ _ _ Hf).
Qed.
End Queries.
