(* ===== verification/CoreTheorems.v ===== *)
(** * CoreTheorems

    The properties of cores and checked entries. *)
From S2P Require Import Prelude Strconv Utf8 Level Float GoTime Entry Values Field Sampler WriteSyncer.
From S2P Require Import Stacktrace Effects Core CoreProofs.
From S2P Require Import Encoder JsonEncoder JsonSpec JsonProofs JsonTheorems JsonCore.
Open Scope Z_scope.
Open Scope lad_scope.
Set Warnings "-register-all".

Section Laws.
Context {E : Type} `{HE : EncoderLaws E} `{MultiErr} `{Fmt}.
Implicit Types (c : core E) (fs : list field) (h : heap).

Fixpoint good_core (c : core E) : Prop :=
  match c with
  | CNop | CObserver _ _ _ => True
  | CIo _ enc _ => good enc
  | CMulti cs => foldr (fun c P => good_core c /\ P) True cs
  | CHooked c _ | CFilter c _ | CSampler c _ _ _ | CLazy _ c _ => good_core c
  end.

Lemma good_multi cs : good_core (CMulti cs) <-> Forall good_core cs.
Proof.
  cbn [good_core]. induction cs as [|c cs IH]; cbn; [by split|]. rewrite IH.
  by rewrite Forall_cons.
Qed.

Lemma good_With_core c fs h h' c' : good_core c -> With c fs h = (h', ROk c') -> good_core c'.
Proof.
  revert fs h h' c'. induction c as [c IH] using core_height_ind. intros fs h h' c' Hg Hm.
  rewrite With_eq in Hm.
  destruct c as [ |e enc o|cs|c fn|c l|c s i k|i c gs|e l x]; cbn [With_body] in Hm;
    try (by inv Hm); unbind Hm.
  - inv Hm. unfold lift in Ha. destruct (enc_With enc fs) as [enc'|] eqn:He; inv Ha.
    by eapply (good_With enc fs).
  - inv Hm. apply good_multi in Hg. apply good_multi.
    rewrite List.Forall_forall in Hg.
    apply (mapM_inv _ _ _ _ _ (fun _ y => good_core y)) in Ha.
    + clear IH Hg. by induction Ha; constructor.
    + intros x h2 h3 y Hx. apply IH; [by apply height_in|auto].
  - inv Hm. cbn [good_core] in *. eapply (IH c); [cbn; lia|exact Hg|exact Ha].
  - inv Hm. cbn [good_core] in *. eapply (IH c); [cbn; lia|exact Hg|exact Ha].
  - inv Hm. cbn [good_core] in *. eapply (IH c); [cbn; lia|exact Hg|exact Ha].
  - eapply (IH a); [by eapply initOnce_height| |exact Hm].
    apply initOnce_inv in Ha as [->|(h2 & h3 & Ha)]; [done|].
    eapply (IH c); [cbn; lia|exact Hg|exact Ha].
Qed.

Lemma good_initOnce once c fs h h' a :
  good_core c -> initOnce (With c fs) once c h = (h', ROk a) -> good_core a.
Proof.
  intros Hg Ha. apply initOnce_inv in Ha as [->|(h2 & h3 & Ha)]; [done|]. by eapply good_With_core.
Qed.

(** Writing to the cores of [cs'] in turn is writing to those of [cs]. *)
Lemma foldM_write_ext cs cs' ent fs gs err h1 h :
  Forall2 (fun c c' => forall h, h_once h1 ⊆ h_once h ->
     core_Write c' ent gs h = core_Write c ent fs h) cs cs' ->
  h_once h1 ⊆ h_once h ->
  foldM (fun err c => append_error (core_Write c ent gs) err) cs' err h =
  foldM (fun err c => append_error (core_Write c ent fs) err) cs err h.
Proof.
  intros Hall. revert err h. induction Hall as [|c c' cs cs' Hc _ IH]; intros err h Hs; [done|].
  cbn [foldM]. apply bind_ext; [by apply append_error_ext, Hc|]. intros a h' Ha. apply IH.
  etransitivity; [exact Hs|].
  pose proof (keeps_append_error (core_Write c ent fs) err h (keeps_Write c ent fs h)) as Hk.
  unfold keeps_once in Hk. by rewrite Ha in Hk.
Qed.

(** What [With] did to the cores of a tee, as long as no lazy core forgets. *)
Lemma mapM_With_inv cs fs h h1 cs' :
  mapM (fun c => With c fs) cs h = (h1, ROk cs') ->
  Forall2 (fun c c' => exists ha hb, With c fs ha = (hb, ROk c') /\ h_once hb ⊆ h_once h1) cs cs'.
Proof.
  revert h cs'. induction cs as [|c cs IH]; intros h cs' Hm; [inv Hm; constructor|].
  cbn [mapM] in Hm. unbind Hm. unbind Hm. inv Hm. constructor; [|by eapply IH].
  eexists _, _. split; [exact Ha|].
  assert (keeps_once (mapM (fun c => With c fs) cs) h0) as Hk
    by (apply keeps_mapM; intros; apply keeps_With).
  unfold keeps_once in Hk. by rewrite Ha0 in Hk.
Qed.

(** C4.  Fields given to [With] and fields given to the call mean the same for
    every core, however it is composed of tees, hooks, filters, samplers, lazy
    cores and observers: writing to [core.With(fs)] with fields [gs] does to
    the outputs what writing to the core itself with [fs] and [gs] does, and
    reports the same error. *)
Theorem core_with_then_write c fs h h1 c' ent gs h2
    (Hg : good_core c) (Hw : With c fs h = (h1, ROk c')) (Hs : h_once h1 ⊆ h_once h2) :
  core_Write c' ent gs h2 = core_Write c ent (fs ++ gs) h2.
Proof.
  revert fs h h1 c' gs h2 Hg Hw Hs. induction c as [c IH] using core_height_ind.
  intros fs h h1 c' gs h2 Hg Hm Hs. rewrite With_eq in Hm. rewrite (Write_eq c).
  destruct c as [ |e enc o|cs|c fn|c l|c s i k|i c gs'|e l x]; cbn [With_body] in Hm;
    try unbind Hm; try (inv Hm; rewrite Write_eq; done).
  - inv Hm. rewrite Write_eq. cbn [Write_body]. unfold ioCore_Write.
    unfold lift in Ha. destruct (enc_With enc fs) as [enc'|] eqn:He; inv Ha.
    by rewrite (With_EncodeEntry enc fs).
  - inv Hm. rewrite Write_eq. cbn [Write_body]. apply foldM_write_ext with h1; [|done].
    apply good_multi in Hg. apply mapM_With_inv in Ha.
    assert (forall c, In c cs -> (height c < height (CMulti cs))%nat) as Hin
      by (intros; by apply height_in).
    revert Hin. generalize (CMulti cs), IH. clear -Ha Hg. intros c0 IH Hin.
    induction Ha as [|c c' cs cs' (ha & hb & Hw & Hb) _ IHa]; constructor.
    + intros h Hh. eapply IH; [apply Hin; by left|by apply Forall_inv in Hg|done|by etransitivity].
    + apply IHa; [by apply Forall_inv_tail in Hg|]. intros x Hx. apply Hin. by right.
  - inv Hm. rewrite Write_eq. cbn [Write_body]. eapply IH; [cbn; lia|exact Hg|exact Ha|done].
  - inv Hm. rewrite Write_eq. cbn [Write_body]. eapply IH; [cbn; lia|exact Hg|exact Ha|done].
  - cbn [Write_body].
    pose proof (keeps_With a fs h0) as Hk. unfold keeps_once in Hk. rewrite Hm in Hk. cbn in Hk.
    destruct (initOnce_again _ _ _ _ _ h2 _ Ha) as [_ Hcur]; [by etransitivity|].
    rewrite (bind_ok _ _ _ _ _ Hcur).
    eapply IH; [by eapply initOnce_height|exact (good_initOnce _ c _ _ _ _ Hg Ha)|exact Hm|done].
  - inv Hm. rewrite Write_eq. cbn [Write_body]. by rewrite (assoc_L (++)).
Qed.
End Laws.

(** ** Lazy cores *)

Section Cores.
Context {E : Type} `{EntryEncoder E} `{MultiErr} `{Fmt}.
Implicit Types (c : core E) (fs : list field) (h : heap).

(** C15.  [NewLazyWith] is [With], later.  The first use of a lazy core adds
    the fields exactly as [With] would have, and from then on every operation
    of the lazy core is that operation of the core [With] made, in every later
    state; the fields are not added a second time. *)
Theorem lazy_with_is_with once c gs h h1 c'
    (Hnew : h_once h !! once = None) (Hw : With c gs h = (h1, ROk c')) :
  (forall ent ce, core_Check (NewLazyWith once c gs) ent ce h =
     core_Check c' ent ce (set_once once true h1)) /\
  (forall fs, With (NewLazyWith once c gs) fs h = With c' fs (set_once once true h1)) /\
  forall h2, h_once (set_once once true h1) ⊆ h_once h2 ->
    (forall ent ce, core_Check (NewLazyWith once c gs) ent ce h2 = core_Check c' ent ce h2) /\
    (forall fs, With (NewLazyWith once c gs) fs h2 = With c' fs h2) /\
    (forall ent fs, core_Write (NewLazyWith once c gs) ent fs h2 = core_Write c' ent fs h2) /\
    core_Sync (NewLazyWith once c gs) h2 = core_Sync c' h2.
Proof.
  assert (initOnce (With c gs) once c h = (set_once once true h1, ROk c')) as Hi.
  { unfold initOnce. by rewrite Hnew, Hw. }
  unfold NewLazyWith. split_and!.
  - intros ent ce. rewrite Check_eq. cbn [Check_body]. unfold Check_body.
    by rewrite (bind_ok get_heap _ h h h), (bind_ok _ _ _ _ _ Hi).
  - intros fs. rewrite With_eq. cbn [With_body]. by rewrite (bind_ok _ _ _ _ _ Hi).
  - intros h2 Hs. destruct (initOnce_again _ _ _ _ _ h2 _ Hi Hs) as [Hi2 Hc2]. split_and!.
    + intros ent ce. rewrite Check_eq. unfold Check_body.
      by rewrite (bind_ok get_heap _ h2 h2 h2), (bind_ok _ _ _ _ _ Hi2).
    + intros fs. rewrite With_eq. cbn [With_body]. by rewrite (bind_ok _ _ _ _ _ Hi2).
    + intros ent fs. rewrite Write_eq. cbn [Write_body]. by rewrite (bind_ok _ _ _ _ _ Hc2).
    + rewrite Sync_eq. cbn [Sync_body]. by rewrite (bind_ok _ _ _ _ _ Hc2).
Qed.

(** ** Levels *)

Lemma initOnce_Enabled once c fs h h' a cells lvl :
  initOnce (With c fs) once c h = (h', ROk a) -> core_Enabled cells a lvl = core_Enabled cells c lvl.
Proof.
  intros Ha. apply initOnce_inv in Ha as [->|(h2 & h3 & Ha)]; [done|]. by eapply With_Enabled.
Qed.

(** A computation that leaves the atomic levels alone, and whose result, if it
    has one, is nil. *)
Definition declines (m : M (option (CheckedEntry E))) (h : heap) : Prop :=
  forall h' ce, m h = (h', ROk ce) -> ce = None /\ h_cells h' = h_cells h.

Lemma initOnce_cells once c fs h h' a :
  initOnce (With c fs) once c h = (h', ROk a) -> h_cells h' = h_cells h.
Proof.
  unfold initOnce. destruct (h_once h !! once) as [[|]|].
  - intros Ha. by apply With_inits in Ha as (o & -> & _).
  - congruence.
  - destruct (With c fs h) as [h1 [a'| | | | ]] eqn:Hw; intros Ha; inv Ha.
    by apply With_inits in Hw as (o & -> & _).
Qed.

Lemma foldM_declines cs ent h :
  (forall c h', In c cs -> h_cells h' = h_cells h -> declines (core_Check c ent None) h') ->
  declines (foldM (fun ce c => core_Check c ent ce) cs None) h.
Proof.
  revert h. induction cs as [|c cs IH]; intros h Hc h' ce Hm; [by inv Hm|].
  cbn [foldM] in Hm. unbind Hm. apply Hc in Ha as [-> Hh]; [|by left|done].
  apply IH in Hm as [-> Hh']; [split; [done|congruence]|].
  intros x h2 Hx Hh2. apply Hc; [by right|congruence].
Qed.

(** A core that is not enabled for an entry's level logs nothing:
    [Check] on a nil checked entry returns nil, whatever the core is composed
    of (unless adding the fields of a lazy core panics). *)
Theorem disabled_core_declines c ent h h' ce
    (Hdis : core_Enabled (h_cells h) c (e_Level ent) = false)
    (Hc : core_Check c ent None h = (h', ROk ce)) : ce = None.
Proof.
  cut (declines (core_Check c ent None) h); [intros Hd; by apply Hd in Hc as [-> _]|].
  clear h' ce Hc. revert h Hdis. induction c as [c IH] using core_height_ind.
  intros h Hdis h' ce Hc. rewrite Check_eq in Hc. unfold Check_body in Hc.
  rewrite (bind_ok get_heap _ h h h) in Hc by done.
  destruct c as [ |e enc o|cs|c fn|c l|c s i k|i c gs|e l x]; try rewrite Hdis in Hc;
    try (by inv Hc).
  - revert Hc. apply foldM_declines. intros c h1 Hin Hh. apply IH; [by apply height_in|].
    rewrite Hh. cbn [core_Enabled] in Hdis.
    destruct (core_Enabled (h_cells h) c (e_Level ent)) eqn:Hen; [|done].
    rewrite <- Hdis. symmetry. apply existsb_exists. eauto.
  - unbind Hc. apply IH in Ha as [-> Hh]; [by inv Hc|cbn; lia|done].
  - unbind Hc. pose proof (initOnce_cells _ _ _ _ _ _ Ha) as Hh.
    apply IH in Hc as [-> Hh']; [split; [done|congruence]|by eapply initOnce_height|].
    rewrite Hh, (initOnce_Enabled _ _ _ _ _ _ _ _ Ha). done.
Qed.

(** [r] is what a component that admits the levels of [en] should report: the
    least supported level, or no level below [FatalLevel] when there is none. *)
Definition reports (en : Z -> bool) (r : Z) : Prop :=
  (supported r /\ en r = true /\ forall k, supported k -> k < r -> en k = false) \/
  (FatalLevel <= r /\ forall k, supported k -> en k = false).

(** The enablers that decide for a core report their own levels rightly. *)
Fixpoint honest_core (cells : cells) (c : core E) : Prop :=
  match c with
  | CNop | CLazy _ _ _ => True
  | CIo e _ _ | CObserver e _ _ | CFilter _ e => reports (Enabled cells e) (Level.LevelOf cells e)
  | CMulti cs => foldr (fun c P => honest_core cells c /\ P) True cs
  | CHooked c _ | CSampler c _ _ _ => honest_core cells c
  end.

Lemma scan_reports en : reports en (scan_levels en).
Proof.
  destruct (scan_levels_least en) as [?|[-> ?]]; [by left|]. right. split; [done|auto].
Qed.

Lemma fold_min ls acc :
  let r := fold_left (fun m l => if l <? m then l else m) ls acc in
  r <= acc /\ (forall l, In l ls -> r <= l) /\ (r = acc \/ In r ls).
Proof.
  cbn. revert acc. induction ls as [|l ls IH]; intros acc; cbn [fold_left]; [cbn; lia || naive_solver lia|].
  destruct (IH (if l <? acc then l else acc)) as (Ha & Hl & Hr).
  destruct (Z.ltb_spec l acc).
  - split; [lia|]. split; [intros k [<-|Hk]; [lia|auto]|]. right. destruct Hr as [->|Hr]; [by left|by right].
  - split; [lia|]. split; [intros k [<-|Hk]; [lia|auto]|]. destruct Hr as [->|Hr]; [by left|right; by right].
Qed.

Lemma tee_reports (ens : list ((Z -> bool) * Z)) :
  Forall (fun '(en, r) => reports en r) ens ->
  reports (fun lvl => existsb (fun '(en, _) => en lvl) ens)
    (fold_left (fun m l => if l <? m then l else m) (map snd ens) _maxLevel).
Proof.
  intros Hall. rewrite List.Forall_forall in Hall.
  destruct (fold_min (map snd ens) _maxLevel) as (Hmax & Hle & Hr). cbn zeta in *.
  set (r := fold_left _ _ _) in *.
  assert (forall k, supported k -> k < r -> existsb (fun '(en, _) => en k) ens = false) as Hbelow.
  { intros k Hk Hkr. apply not_true_is_false. intros Hex.
    apply existsb_exists in Hex as ([en r'] & Hin & Hen).
    assert (r <= r') by (apply Hle; apply in_map_iff; by exists (en, r')).
    destruct (Hall _ Hin) as [(_ & _ & Hk')|(_ & Hk')].
    - rewrite Hk' in Hen; [done|done|lia].
    - by rewrite Hk' in Hen. }
  destruct (existsb (fun '(en, _) => en r) ens) eqn:Hen.
  - left. split; [|done]. unfold supported. split; [|done].
    destruct Hr as [->|Hin]; [done|]. apply in_map_iff in Hin as ([en r'] & Hr' & Hin). cbn in Hr'. subst r'.
    destruct (Hall _ Hin) as [([? _] & _)|[HF _]]; [done|].
    unfold _minLevel, DebugLevel, FatalLevel in *. lia.
  - right. assert (r = FatalLevel) as Hfatal.
    { destruct Hr as [->|Hin]; [done|]. apply in_map_iff in Hin as ([en r'] & Hr' & Hin). cbn in Hr'. subst r'.
      destruct (Hall _ Hin) as [(_ & Ht & _)|[HF _]].
      - assert (existsb (fun '(en, _) => en r) ens = true); [|congruence].
        apply existsb_exists. by exists (en, r).
      - unfold _maxLevel in *. lia. }
    split; [lia|]. intros k Hk. destruct (decide (k = r)) as [->|]; [done|]. apply Hbelow; [done|].
    unfold supported, _maxLevel in *. lia.
Qed.

(** [LevelOf] of a core is the least supported level the core admits, if
    it admits any; a tee takes the least of its cores, a wrapper that of the
    core inside, and a lazy core is asked level by level. *)
Theorem core_level_least cells c (Hh : honest_core cells c) :
  reports (core_Enabled cells c) (core_LevelOf cells c).
Proof.
  revert Hh. induction c as [ |e enc o|cs IH|c fn IH|c l IH|c s i k IH|i c gs IH|e l x]
    using core_nested_ind; intros Hh; cbn [core_Enabled core_LevelOf]; auto using scan_reports.
  - pose proof (tee_reports (map (fun c => (core_Enabled cells c, core_LevelOf cells c)) cs)) as Ht.
    rewrite map_map in Ht. cbn [snd] in Ht.
    assert (forall lvl, existsb (fun '(en, _) => en lvl)
              (map (fun c => (core_Enabled cells c, core_LevelOf cells c)) cs) =
            existsb (fun c => core_Enabled cells c lvl) cs) as Hex.
    { intros lvl. clear. induction cs as [|c cs IHcs]; cbn; [done|]. by rewrite IHcs. }
    unfold reports in *. setoid_rewrite Hex in Ht. apply Ht. apply Forall_fmap.
    clear Ht Hex. cbn [honest_core] in Hh.
    induction IH as [|c cs Hc _ IHcs]; [constructor|]. destruct Hh as [Hh1 Hh2].
    constructor; [by apply Hc|by apply IHcs].
Qed.

Lemma increase_loop_spec cells c e n l :
  match increase_loop cells c e l n with
  | Some k => l - Z.of_nat n < k <= l /\ Enabled cells e k = true /\ core_Enabled cells c k = false /\
      forall j, k < j <= l -> Enabled cells e j = true -> core_Enabled cells c j = true
  | None => forall j, l - Z.of_nat n < j <= l -> Enabled cells e j = true -> core_Enabled cells c j = true
  end.
Proof.
  revert l. induction n as [|n IH]; intros l; cbn [increase_loop]; [lia|].
  destruct (negb (core_Enabled cells c l) && Enabled cells e l) eqn:Hb.
  - apply andb_true_iff in Hb as [Hc He]. apply negb_true_iff in Hc. split_and!; try done; lia.
  - assert (Enabled cells e l = true -> core_Enabled cells c l = true) as Hl.
    { intros He. rewrite He, andb_true_r in Hb. by apply negb_false_iff. }
    specialize (IH (l - 1)). destruct (increase_loop cells c e (l - 1) n) as [k|].
    + destruct IH as (Hk & He & Hc & Hj). split_and!; try done; try lia.
      intros j Hjl. destruct (decide (j = l)) as [->|]; [done|]. apply Hj. lia.
    + intros j Hjl. destruct (decide (j = l)) as [->|]; [done|]. apply IH. lia.
Qed.

(** [NewIncreaseLevelCore] only narrows.  It succeeds exactly when every
    supported level the new enabler admits is admitted by the core, and then
    admits what the enabler admits; otherwise the error names the highest level
    that stands in the way. *)
Theorem increase_level_narrows cells c e :
  match NewIncreaseLevelCore cells c e with
  | inl c' =>
      (forall l, core_Enabled cells c' l = Enabled cells e l) /\
      forall l, supported l -> core_Enabled cells c' l = true -> core_Enabled cells c l = true
  | inr l =>
      supported l /\ Enabled cells e l = true /\ core_Enabled cells c l = false /\
      forall k, supported k -> l < k -> Enabled cells e k = true -> core_Enabled cells c k = true
  end.
Proof.
  unfold NewIncreaseLevelCore. pose proof (increase_loop_spec cells c e level_count _maxLevel) as Hs.
  change (_maxLevel - Z.of_nat level_count) with (_minLevel - 1) in Hs.
  destruct (increase_loop cells c e _maxLevel level_count) as [l|].
  - destruct Hs as (Hl & He & Hc & Hk). unfold supported. split_and!; try done; try lia.
    intros k Hk1 Hk2. apply Hk. lia.
  - split; [done|]. intros l Hl. apply Hs. unfold supported in Hl. lia.
Qed.

(** ** What [Check] collects *)

(** The cores of a tree that write entries, each with the enablers on the way
    to it. *)
Fixpoint leaves (c : core E) : list (list LevelEnabler * core E) :=
  match c with
  | CIo e _ _ | CObserver e _ _ => [([e], c)]
  | CMulti cs => concat (map leaves cs)
  | CFilter c e => map (fun x => (e :: x.1, x.2)) (leaves c)
  | _ => []
  end.

Definition admitted (cells : cells) (lvl : Z) (x : list LevelEnabler * core E) : bool :=
  forallb (fun e => Enabled cells e lvl) x.1.

(** Tees, filters, and cores that write. *)
Fixpoint stateless (c : core E) : bool :=
  match c with
  | CNop | CIo _ _ _ | CObserver _ _ _ => true
  | CMulti cs => forallb stateless cs
  | CFilter c _ => stateless c
  | _ => false
  end.

Definition add_all (ent : Entry) (ds : list (core E)) (ce : option (CheckedEntry E)) :
    option (CheckedEntry E) :=
  fold_left (fun ce c => Some (AddCore ce ent c)) ds ce.

Definition collected (cells : cells) (ent : Entry) (c : core E) : list (core E) :=
  map snd (List.filter (admitted cells (e_Level ent)) (leaves c)).

Lemma collected_filter cells ent c e :
  collected cells ent (CFilter c e) =
    if Enabled cells e (e_Level ent) then collected cells ent c else [].
Proof.
  unfold collected. cbn [leaves]. induction (leaves c) as [|[es x] ls IH]; cbn.
  - by destruct (Enabled _ _ _).
  - destruct (Enabled cells e (e_Level ent)); cbn; [|done].
    destruct (forallb _ es); cbn; by rewrite IH.
Qed.

Lemma collected_multi cells ent cs :
  collected cells ent (CMulti cs) = concat (map (collected cells ent) cs).
Proof.
  unfold collected. cbn [leaves]. induction cs as [|c cs IH]; cbn; [done|].
  by rewrite List.filter_app, map_app, IH.
Qed.

Lemma Check_collects c ent ce h :
  stateless c = true -> core_Check c ent ce h = (h, ROk (add_all ent (collected (h_cells h) ent c) ce)).
Proof.
  revert ce. induction c as [ |e enc o|cs IH|c fn IH|c l IH|c s i k IH|i c gs IH|e l x]
    using core_nested_ind; intros ce Hs; rewrite Check_eq; unfold Check_body;
    rewrite (bind_ok get_heap _ h h h) by done; try done.
  - unfold collected, admitted. cbn. by destruct (Enabled _ _ _).
  - rewrite collected_multi. cbn [stateless] in Hs. revert ce Hs.
    induction IH as [|c cs Hc _ IHcs]; intros ce Hs; [done|]. cbn in Hs.
    apply andb_true_iff in Hs as [Hs1 Hs2]. cbn [foldM].
    rewrite (bind_ok _ _ _ _ _ (Hc ce Hs1)), IHcs by done.
    unfold add_all. cbn [map concat]. by rewrite fold_left_app.
  - rewrite collected_filter. cbn [core_Enabled]. destruct (Enabled (h_cells h) l (e_Level ent)); cbn; [|done].
    by apply IH.
  - unfold collected, admitted. cbn. by destruct (Enabled _ _ _).
Qed.

(** C14.  Through tees and level filters an entry reaches exactly the cores it
    should: [Check] registers a writing core iff its own enabler and every
    filter above it admit the entry's level, in the order of the tee, once for
    each place in the tree, keeps what was registered before, and changes
    nothing else. *)
Theorem check_collects_admitted c ent ce h (Hs : stateless c = true) :
  core_Check c ent ce h = (h, ROk (add_all ent (collected (h_cells h) ent c) ce)).
Proof. by apply Check_collects. Qed.

(** ** Checked entries *)

(** Writing an entry to cores one after the other: the state after the last,
    and the error each returned; [None] when one of them does not return. *)
Fixpoint write_each (cs : list (core E)) (ent : Entry) (fs : list field) (h : heap) :
    option (heap * list error) :=
  match cs with
  | [] => Some (h, [])
  | c :: cs =>
      match core_Write c ent fs h with
      | (h, ROk e) => option_map (fun r => (r.1, e :: r.2)) (write_each cs ent fs h)
      | _ => None
      end
  end.

Lemma Append_is_Some e e' : is_Some (multierr_Append e e') <-> is_Some e \/ is_Some e'.
Proof.
  destruct e as [e|], e' as [e'|]; rewrite ?Append_nil_l, ?Append_nil_r.
  - split; [by eauto|]. intros _. apply Append_some.
  - naive_solver.
  - split; [by right|]. by intros [[? ?]|].
  - naive_solver.
Qed.

Lemma foldM_write_each cs ent fs err h h1 errs :
  write_each cs ent fs h = Some (h1, errs) ->
  exists err',
    foldM (fun err c => append_error (core_Write c ent fs) err) cs err h = (h1, ROk err') /\
    (is_Some err' <-> is_Some err \/ Exists is_Some errs).
Proof.
  revert err h errs. induction cs as [|c cs IH]; intros err h errs Hw; cbn [write_each foldM] in *.
  - inv Hw. exists err. split; [done|]. rewrite Exists_nil. naive_solver.
  - destruct (core_Write c ent fs h) as [h2 [e| | | | ]] eqn:Hc; try done.
    destruct (write_each cs ent fs h2) as [[h3 es]|] eqn:Hws; cbn in Hw; inv Hw.
    destruct (IH (multierr_Append err e) h2 es Hws) as (err' & Hf & Hiff). exists err'. split.
    + unfold append_error at 1. unfold bind at 1 2. by rewrite Hc.
    + rewrite Hiff, Append_is_Some, Exists_cons. tauto.
Qed.

(** C40.  [CheckedEntry.Write] writes the entry to every core that agreed to
    log it, in order, also after one of them failed; an error of any of them,
    and nothing else, is reported on the error output; then the entry's hook
    runs, and the entry is left marked as used. *)
Theorem checked_entry_writes_all ent out after cs fs h h1 errs
    (Hw : write_each cs ent fs h = Some (h1, errs)) :
  exists err, (is_Some err <-> Exists is_Some errs) /\
    ce_Write (Some (mkCE ent out false after cs)) fs h =
      (match err with
       | Some e => report out (fmt_time (e_Time ent) ++ go " write error: " ++ fmt_error e ++ [Byte.x0a])
       | None => ret tt
       end ;;
       match after with Some hook => OnWrite hook ent fs | None => ret tt end ;;
       ret (Some (mkCE ent out true after cs))) h1.
Proof.
  destruct (foldM_write_each cs ent fs None h h1 errs Hw) as (err & Hf & Hiff).
  exists err. split; [rewrite Hiff; split; [by intros [[? ?]|]|by right]|].
  cbn [ce_Write ce_dirty ce_cores ce_Entry ce_after ce_ErrorOutput].
  by rewrite (bind_ok _ _ _ _ _ Hf).
Qed.

Lemma report_only_world out line h h' r :
  report out line h = (h', r) -> h_observed h' = h_observed h /\ h_events h' = h_events h /\
    h_counters h' = h_counters h.
Proof.
  unfold report, bind, on_world, ret. intros Hr. by repeat case_match; simplify_eq.
Qed.

(** An entry is written once: a second [Write] of an entry that was
    written reaches no core and no hook; all it may do is complain on the
    error output. *)
Theorem checked_entry_written_once ce fs h h1 ce1 gs h2
    (Hdirty : ce_Write (Some ce) fs h = (h1, ROk (Some ce1))) :
  let h3 := fst (ce_Write (Some ce1) gs h2) in
  h_observed h3 = h_observed h2 /\ h_events h3 = h_events h2 /\ h_counters h3 = h_counters h2 /\
  (ce_ErrorOutput ce = None -> h3 = h2).
Proof.
  assert (ce_dirty ce1 = true /\ ce_ErrorOutput ce1 = ce_ErrorOutput ce) as [Hd Ho].
  { cbn [ce_Write] in Hdirty. destruct (ce_dirty ce) eqn:Hce; repeat unbind Hdirty; by inv Hdirty. }
  cbn [ce_Write]. rewrite Hd, Ho. set (m := report _ _).
  destruct (m h2) as [h3 r] eqn:Hr. pose proof (report_only_world _ _ _ _ _ Hr) as (? & ? & ?).
  assert (fst ((m ;; ret (Some ce1)) h2) = h3) as ->.
  { unfold bind. rewrite Hr. by destruct r. }
  split_and!; [done..|]. intros HN. subst m. rewrite HN in Hr. by inv Hr.
Qed.
End Cores.


(** ** An instance *)

Definition exampleFmt : Fmt :=
  {| fmt_time _ := go "time"; fmt_error _ := go "error"; fmt_entry _ := go "entry" |}.

Definition emptyHeap : heap := mkHeap ∅ (mkWorld ∅ ∅ ∅) ∅ ∅ ∅ [] [] [].

#[local] Existing Instance firstError.
#[local] Existing Instance exampleFmt.

Definition exampleJson : EntryEncoder jsonEncoder := @jsonEntry plainTime exampleRuntime JSON._jsonPool None.
#[local] Existing Instance exampleJson.

Definition exampleLaws : EncoderLaws jsonEncoder :=
  @jsonLaws plainTime exampleRuntime JSON._jsonPool None exampleReflect exampleConfig false
    exampleReflect example_config_ok json_pool_ok.
#[local] Existing Instance exampleLaws.

(** A JSON core, beside a filtered observer with a lazy field. *)
Definition exampleCore : core jsonEncoder :=
  NewTee [CIo (ELevel DebugLevel) exampleEncoder (WLocked (WDevice 0));
          CFilter (NewLazyWith 0 (CObserver (ELevel InfoLevel) 0 []) [Int (go "lazy") 1]) (ELevel InfoLevel)].

Definition result {A} (d : A) (r : heap * res A) : A := match r with (_, ROk a) => a | _ => d end.

Definition is_ok {A} (r : heap * res A) : bool := match snd r with ROk _ => true | _ => false end.

Lemma result_ok {A} (d : A) r : is_ok r = true -> r = (fst r, ROk (result d r)).
Proof. by destruct r as [h [a| | | | ]]. Qed.

Lemma core_with_then_write_witness :
  let r := With exampleCore exampleContext emptyHeap in
  core_Write (result CNop r) exampleEntry exampleFields (fst r) =
  core_Write exampleCore exampleEntry (exampleContext ++ exampleFields) (fst r).
Proof.
  cbv zeta. apply (core_with_then_write exampleCore exampleContext emptyHeap
    (fst (With exampleCore exampleContext emptyHeap))).
  - cbn. split; [exists exampleCtx; exact example_built|done].
  - apply result_ok. vm_compute. reflexivity.
  - reflexivity.
Defined.

Definition exampleInner : core jsonEncoder := CIo (ELevel DebugLevel) exampleEncoder (WDevice 0).

Lemma lazy_with_is_with_witness :
  let c' := result CNop (With exampleInner exampleContext emptyHeap) in
  core_Check (NewLazyWith 3 exampleInner exampleContext) exampleEntry None emptyHeap =
  core_Check c' exampleEntry None (set_once 3 true (fst (With exampleInner exampleContext emptyHeap))).
Proof.
  cbv zeta.
  apply (lazy_with_is_with 3 exampleInner exampleContext emptyHeap
    (fst (With exampleInner exampleContext emptyHeap))
    (result CNop (With exampleInner exampleContext emptyHeap))).
  - reflexivity.
  - apply result_ok. vm_compute. reflexivity.
Defined.

Lemma disabled_core_declines_witness :
  result (Some (getCheckedEntry newCheckedEntry))
    (core_Check (CFilter exampleCore (ELevel ErrorLevel)) exampleEntry None emptyHeap) = None.
Proof.
  eapply (disabled_core_declines (CFilter exampleCore (ELevel ErrorLevel)) exampleEntry emptyHeap
    (fst (core_Check (CFilter exampleCore (ELevel ErrorLevel)) exampleEntry None emptyHeap))).
  - reflexivity.
  - apply result_ok. vm_compute. reflexivity.
Defined.

Lemma core_level_least_witness :
  reports (core_Enabled ∅ exampleCore) (core_LevelOf ∅ exampleCore).
Proof.
  apply (core_level_least ∅ exampleCore). split; [|split; [|done]]; apply scan_reports.
Defined.

Lemma check_collects_admitted_witness :
  let c := CMulti [exampleInner; CFilter (CMulti [exampleInner; CNop]) (ELevel WarnLevel);
                   CObserver (ELevel InfoLevel) 0 []] in
  core_Check c exampleEntry None emptyHeap =
    (emptyHeap, ROk (add_all exampleEntry [exampleInner; CObserver (ELevel InfoLevel) 0 []] None)).
Proof.
  cbv zeta.
  apply (check_collects_admitted
    (CMulti [exampleInner; CFilter (CMulti [exampleInner; CNop]) (ELevel WarnLevel);
             CObserver (ELevel InfoLevel) 0 []]) exampleEntry None emptyHeap).
  reflexivity.
Defined.

(** A disk that fails, and an observer after it. *)
Definition failingHeap : heap := mkHeap ∅ (mkWorld {[0%nat := failing 2]} ∅ ∅) ∅ ∅ ∅ [] [] [].

Definition exampleWrites : option (heap * list error) :=
  write_each [exampleInner; CObserver (ELevel InfoLevel) 0 []] exampleEntry [] failingHeap.

Lemma checked_entry_writes_all_witness :
  exists err : error, (is_Some err <-> Exists (@is_Some goerror) [Some (newError (go "disk full")); None]) /\
    ce_Write (Some (mkCE exampleEntry (Some (WDevice 1)) false None
                      [exampleInner; CObserver (ELevel InfoLevel) 0 []])) [] failingHeap =
      (match err with
       | Some e => report (Some (WDevice 1)) (fmt_time (e_Time exampleEntry) ++ go " write error: "
                                                ++ fmt_error e ++ [Byte.x0a])
       | None => ret tt
       end ;;
       ret tt ;;
       ret (Some (mkCE exampleEntry (Some (WDevice 1)) true None
                    [exampleInner; CObserver (ELevel InfoLevel) 0 []]))) 
        (fst (default (emptyHeap, []) exampleWrites)).
Proof.
  apply (checked_entry_writes_all exampleEntry (Some (WDevice 1)) None
    [exampleInner; CObserver (ELevel InfoLevel) 0 []] [] failingHeap
    (fst (default (emptyHeap, []) exampleWrites)) [Some (newError (go "disk full")); None]).
  vm_compute. reflexivity.
Defined.

Lemma checked_entry_written_once_witness :
  let ce1 := mkCE exampleEntry None true None [CObserver (ELevel InfoLevel) 0 []] in
  fst (ce_Write (E := jsonEncoder) (Some ce1) [] emptyHeap) = emptyHeap.
Proof.
  cbv zeta.
  apply (checked_entry_written_once (E := jsonEncoder)
    (mkCE exampleEntry None false None [CObserver (ELevel InfoLevel) 0 []]) [] emptyHeap
    (fst (ce_Write (E := jsonEncoder) (Some (mkCE exampleEntry None false None [CObserver (ELevel InfoLevel) 0 []])) [] emptyHeap)));
    reflexivity.
Defined.

(** ** Two surprises *)

(** The hooks of a core run for entries the core declines, when another
    core of the tee before it agreed to log: [hooked.Check] takes any non-nil
    checked entry for the consent of the core it wraps. *)
Theorem hooks_run_for_declined_entry :
  let audited := RegisterHooks (E := jsonEncoder) (CObserver (ELevel ErrorLevel) 1 []) [mkHook 7 (fun _ => None)] in
  let tee := NewTee [CObserver (ELevel DebugLevel) 0 []; audited] in
  let log := (ce <- core_Check tee exampleEntry None ;; ce_Write ce []) in
  core_Enabled ∅ audited (e_Level exampleEntry) = false /\
  h_events (fst (log emptyHeap)) = [EvHook 7 exampleEntry] /\
  h_observed (fst (log emptyHeap)) !! 1%nat = None.
Proof. split_and!; vm_compute; reflexivity. Qed.

(** A tee that logs nothing says its level is [FatalLevel], which it does
    not admit, where [LevelOf] promises [InvalidLevel]. *)
Theorem silent_tee_reports_fatal cells :
  let tee := NewTee (E := jsonEncoder) [CNop; CNop] in
  core_LevelOf cells tee = FatalLevel /\ forall l, core_Enabled cells tee l = false.
Proof. done. Qed.
