(* ===== verification/Logger.v ===== *)
(** * Logger

    [logger.go] and [options.go]: the structured logger over a core. *)
From S2P Require Import Prelude Strconv Utf8 Level Float GoTime Buffer Entry Values Field Sampler.
From S2P Require Import WriteSyncer Stacktrace Effects Core.
Open Scope Z_scope.
Open Scope lad_scope.
Set Warnings "-register-all".

(** The devices behind [os.Stdout], [os.Stderr] and [io.Discard]. *)
Definition os_Stdout : nat := 1.
Definition os_Stderr : nat := 2.
Definition io_Discard : nat := 0.

Section Logger.
Context {E : Type} `{EntryEncoder E} `{MultiErr} `{Fmt} `{Frames}.

Record Logger := mkLogger {
  core_ : core E;
  development : bool;
  addCaller : bool;
  onPanic : option CheckWriteHook;
  onFatal : option CheckWriteHook;
  name : gostring;
  errorOutput : WriteSyncer;
  addStack : LevelEnabler;
  callerSkip : Z;
  clock : M gotime;
}.

Definition set_core (c : core E) (log : Logger) : Logger :=
  mkLogger c (development log) (addCaller log) (onPanic log) (onFatal log) (name log)
    (errorOutput log) (addStack log) (callerSkip log) (clock log).

(** ** Options *)

(** [Option.apply] *)
Definition Option := Logger -> M Logger.

Definition WrapCore (f : core E -> M (core E)) : Option := fun log =>
  c <- f (core_ log) ;; ret (set_core c log).

Definition Hooks (hooks : list hookfn) : Option := fun log =>
  ret (set_core (RegisterHooks (core_ log) hooks) log).

Definition Fields (fs : list field) : Option := fun log =>
  c <- Core.With (core_ log) fs ;; ret (set_core c log).

Definition ErrorOutput (w : WriteSyncer) : Option := fun log =>
  ret (mkLogger (core_ log) (development log) (addCaller log) (onPanic log) (onFatal log) (name log)
         w (addStack log) (callerSkip log) (clock log)).

Definition Development : Option := fun log =>
  ret (mkLogger (core_ log) true (addCaller log) (onPanic log) (onFatal log) (name log)
         (errorOutput log) (addStack log) (callerSkip log) (clock log)).

Definition WithCaller (enabled : bool) : Option := fun log =>
  ret (mkLogger (core_ log) (development log) enabled (onPanic log) (onFatal log) (name log)
         (errorOutput log) (addStack log) (callerSkip log) (clock log)).

Definition AddCaller : Option := WithCaller true.

Definition AddCallerSkip (skip : Z) : Option := fun log =>
  ret (mkLogger (core_ log) (development log) (addCaller log) (onPanic log) (onFatal log) (name log)
         (errorOutput log) (addStack log) (int64 (callerSkip log + skip)) (clock log)).

Definition AddStacktrace (lvl : LevelEnabler) : Option := fun log =>
  ret (mkLogger (core_ log) (development log) (addCaller log) (onPanic log) (onFatal log) (name log)
         (errorOutput log) lvl (callerSkip log) (clock log)).

(** The error of [NewIncreaseLevelCore]. *)
Definition increase_error (l : Z) : gostring :=
  go "invalid increase level, as level " ++ [Byte.x22] ++ Level_String l ++ [Byte.x22]
    ++ go " is allowed by increased level, but not by existing core".

Definition IncreaseLevel (lvl : LevelEnabler) : Option := fun log =>
  h <- get_heap ;;
  match NewIncreaseLevelCore (h_cells h) (core_ log) lvl with
  | inr l =>
      on_world (WriteSyncer.Write (errorOutput log)
        (go "failed to IncreaseLevel: " ++ increase_error l ++ [Byte.x0a])) ;;
      ret log
  | inl c => ret (set_core c log)
  end.

Definition WithPanicHook (hook : CheckWriteHook) : Option := fun log =>
  ret (mkLogger (core_ log) (development log) (addCaller log) (Some hook) (onFatal log) (name log)
         (errorOutput log) (addStack log) (callerSkip log) (clock log)).

Definition WithFatalHook (hook : CheckWriteHook) : Option := fun log =>
  ret (mkLogger (core_ log) (development log) (addCaller log) (onPanic log) (Some hook) (name log)
         (errorOutput log) (addStack log) (callerSkip log) (clock log)).

Definition OnFatal (action : CheckWriteAction) : Option := WithFatalHook (HAction action).

Definition WithClock (c : M gotime) : Option := fun log =>
  ret (mkLogger (core_ log) (development log) (addCaller log) (onPanic log) (onFatal log) (name log)
         (errorOutput log) (addStack log) (callerSkip log) c).

(** ** Loggers *)

(** A clone is the value itself. *)
Definition WithOptions (log : Logger) (opts : list Option) : M Logger :=
  foldM (fun log (opt : Option) => opt log) opts log.

Definition NewNop : Logger :=
  mkLogger CNop false false None None [] (AddSync io_Discard false) (ELevel (FatalLevel + 1)) 0 Now.

(** A nil core ignores the options. *)
Definition New (c : option (core E)) (options : list Option) : M Logger :=
  match c with
  | None => ret NewNop
  | Some c =>
      WithOptions
        (mkLogger c false false None None [] (Lock (AddSync os_Stderr true)) (ELevel (FatalLevel + 1)) 0 Now)
        options
  end.

Definition set_name (s : gostring) (log : Logger) : Logger :=
  mkLogger (core_ log) (development log) (addCaller log) (onPanic log) (onFatal log) s
    (errorOutput log) (addStack log) (callerSkip log) (clock log).

Definition Named (log : Logger) (s : gostring) : Logger :=
  if negb (nonempty s) then log
  else if negb (nonempty (name log)) then set_name s log
  else set_name (name log ++ go "." ++ s) log.

Definition With (log : Logger) (fields : list field) : M Logger :=
  match fields with
  | [] => ret log
  | _ => c <- Core.With (core_ log) fields ;; ret (set_core c log)
  end.

(** [once] names the new lazy core's [sync.Once]. *)
Definition WithLazy (once : nat) (log : Logger) (fields : list field) : M Logger :=
  match fields with
  | [] => ret log
  | _ => WithOptions log [WrapCore (fun c => ret (NewLazyWith once c fields))]
  end.

Definition Logger_Core (log : Logger) : core E := core_ log.
Definition Logger_Name (log : Logger) : gostring := name log.

Definition Logger_Level (log : Logger) : M Z :=
  h <- get_heap ;; ret (core_LevelOf (h_cells h) (core_ log)).

(** ** Logging *)

Definition terminalHookOverride (defaultHook : CheckWriteHook) (override : option CheckWriteHook) :
    CheckWriteHook :=
  match override with
  | None | Some (HAction WriteThenNoop) => defaultHook
  | Some hook => hook
  end.

(** What happens after an entry of this level is written. *)
Definition terminal (log : Logger) (ent : Entry) (ce : option (CheckedEntry E)) :
    option (CheckedEntry E) :=
  if e_Level ent =? PanicLevel then
    Some (After ce ent (terminalHookOverride (HAction WriteThenPanic) (onPanic log)))
  else if e_Level ent =? FatalLevel then
    Some (After ce ent (terminalHookOverride (HAction WriteThenFatal) (onFatal log)))
  else if (e_Level ent =? DPanicLevel) && development log then
    Some (After ce ent (terminalHookOverride (HAction WriteThenPanic) (onPanic log)))
  else ce.

Definition set_ErrorOutput (out : WriteSyncer) (ce : CheckedEntry E) : CheckedEntry E :=
  mkCE (ce_Entry ce) (Some out) (ce_dirty ce) (ce_after ce) (ce_cores ce).

Definition set_Caller (c : EntryCaller) (ce : CheckedEntry E) : CheckedEntry E :=
  let e := ce_Entry ce in
  mkCE (mkEntry (e_Level e) (e_Time e) (e_LoggerName e) (e_Message e) c (e_Stack e))
    (ce_ErrorOutput ce) (ce_dirty ce) (ce_after ce) (ce_cores ce).

Definition set_Stack (s : gostring) (ce : CheckedEntry E) : CheckedEntry E :=
  let e := ce_Entry ce in
  mkCE (mkEntry (e_Level e) (e_Time e) (e_LoggerName e) (e_Message e) (e_Caller e) s)
    (ce_ErrorOutput ce) (ce_dirty ce) (ce_after ce) (ce_cores ce).

Definition callerSkipOffset : Z := 2.

(** The end of [check]: the caller and the stack trace of an entry that will be
    written.  The stack pool hands out a stack with its first storage, of 64; a
    skip below the frames of [check] itself counts as zero. *)
Definition annotate (log : Logger) (ent : Entry) (ce : CheckedEntry E) : M (CheckedEntry E) :=
  h <- get_heap ;;
  let ce := set_ErrorOutput (errorOutput log) ce in
  let add_stack := Enabled (h_cells h) (addStack log) (e_Level (ce_Entry ce)) in
  if negb (addCaller log) && negb add_stack then ret ce
  else
    match Capture (h_frames h) (Z.to_nat (callerSkip log + callerSkipOffset))
            (if add_stack then Full else First) 64 with
    | None => halt RHang
    | Some stack =>
        if Count stack =? 0 then
          if addCaller log then
            on_world (WriteSyncer.Write (errorOutput log)
              (fmt_time (In_loc (e_Time ent) UTC) ++ go " Logger.check error: failed to get caller" ++ [Byte.x0a])) ;;
            on_world (WriteSyncer.Sync (errorOutput log)) ;;
            ret ce
          else ret ce
        else
          let '(frame, more, rest) := Next (pcs stack) in
          let ce :=
            if addCaller log then
              set_Caller (mkCaller (negb (fr_PC frame =? 0)) (fr_PC frame) (fr_File frame)
                            (fr_Line frame) (fr_Function frame)) ce
            else ce in
          if add_stack then
            let sf := FormatFrame (NewFormatter (mkBuffer [])) frame in
            let sf := if more then FormatStack sf rest else sf in
            ret (set_Stack (String_ (fm_b sf)) ce)
          else ret ce
    end.

Definition check_body (log : Logger) (lvl : Z) (msg : gostring) : M (option (CheckedEntry E)) :=
  h <- get_heap ;;
  if (lvl <? DPanicLevel) && negb (core_Enabled (h_cells h) (core_ log) lvl) then ret None
  else
    now <- clock log ;;
    let ent := mkEntry lvl now (name log) msg noCaller [] in
    ce <- core_Check (core_ log) ent None ;;
    match terminal log ent ce with
    | Some ce' =>
        match ce with
        | Some _ => ce' <- annotate log ent ce' ;; ret (Some ce')
        | None => ret (Some ce')
        end
    | None => ret None
    end.

Definition check (log : Logger) (lvl : Z) (msg : gostring) : M (option (CheckedEntry E)) :=
  call (go "Logger.check") (check_body log lvl msg).

Definition Check_ (log : Logger) (lvl : Z) (msg : gostring) : M (option (CheckedEntry E)) :=
  call (go "Logger.Check") (check log lvl msg).

(** The body of [Log] and of the methods for one level. *)
Definition log_body (log : Logger) (lvl : Z) (msg : gostring) (fields : list field) : M unit :=
  ce <- check log lvl msg ;;
  match ce with
  | Some _ => ce_Write ce fields ;; ret tt
  | None => ret tt
  end.

Definition Log (log : Logger) (lvl : Z) (msg : gostring) (fields : list field) : M unit :=
  call (go "Logger.Log") (log_body log lvl msg fields).
Definition Debug (log : Logger) (msg : gostring) (fields : list field) : M unit :=
  call (go "Logger.Debug") (log_body log DebugLevel msg fields).
Definition Info (log : Logger) (msg : gostring) (fields : list field) : M unit :=
  call (go "Logger.Info") (log_body log InfoLevel msg fields).
Definition Warn (log : Logger) (msg : gostring) (fields : list field) : M unit :=
  call (go "Logger.Warn") (log_body log WarnLevel msg fields).
Definition Error (log : Logger) (msg : gostring) (fields : list field) : M unit :=
  call (go "Logger.Error") (log_body log ErrorLevel msg fields).
Definition DPanic (log : Logger) (msg : gostring) (fields : list field) : M unit :=
  call (go "Logger.DPanic") (log_body log DPanicLevel msg fields).
Definition Panic_ (log : Logger) (msg : gostring) (fields : list field) : M unit :=
  call (go "Logger.Panic") (log_body log PanicLevel msg fields).
Definition Fatal (log : Logger) (msg : gostring) (fields : list field) : M unit :=
  call (go "Logger.Fatal") (log_body log FatalLevel msg fields).

Definition Logger_Sync (log : Logger) : M error := core_Sync (core_ log).
End Logger.

Arguments Logger : clear implicits.

(** ** [Stack] and [StackSkip] of [field.go] *)
Section StackField.
Context `{Frames}.

(** The frame of [StackSkip] itself is skipped; 64 is the storage a stack begins
    with. *)
Definition StackSkip_body (key : gostring) (skip : Z) : M field :=
  h <- get_heap ;;
  match Take (h_frames h) (Z.to_nat (skip + 1)) 64 with
  | None => halt RHang
  | Some s => ret (String_f key s)
  end.

Definition StackSkip (key : gostring) (skip : Z) : M field := call (go "lad.StackSkip") (StackSkip_body key skip).

Definition Stack_f (key : gostring) : M field := call (go "lad.Stack") (StackSkip key 1).

(** The trace begins at the caller, or as many frames further up. *)
Lemma StackSkip_trace key skip h : 0 <= skip ->
  StackSkip key skip h = (h, ROk (String_f key (frames_text (removelast (drop (Z.to_nat skip) (h_frames h)))))).
Proof.
  intros Hs. set (h1 := set_frames (frame_of (go "lad.StackSkip") :: h_frames h) h).
  assert (StackSkip_body key skip h1 =
          (h1, ROk (String_f key (frames_text (removelast (drop (Z.to_nat skip) (h_frames h))))))) as Hb.
  { unfold StackSkip_body. rewrite (bind_ok get_heap _ _ _ _ eq_refl), Take_text by lia. cbn [h_frames set_frames h1].
    by replace (Z.to_nat (skip + 1)) with (S (Z.to_nat skip)) by lia. }
  unfold StackSkip. rewrite (call_ok _ _ _ _ _ Hb). by destruct h.
Qed.

Lemma Stack_trace key h : Stack_f key h = (h, ROk (String_f key (frames_text (removelast (h_frames h))))).
Proof.
  unfold Stack_f. erewrite call_ok; [|apply StackSkip_trace; lia]. by destruct h.
Qed.
End StackField.
