(* ===== verification/LoggerTheorems.v ===== *)
(** * LoggerTheorems

    The properties of the logger. *)
From S2P Require Import Prelude Strconv Utf8 Level Float GoTime Buffer Entry Values Field Encoder.
From S2P Require Import Json JsonTree JsonEncoder JsonSpec JsonProofs JsonTheorems.
From S2P Require Import Sampler WriteSyncer Stacktrace Effects Core CoreProofs JsonCore CoreTheorems Logger.
Open Scope Z_scope.
Open Scope lad_scope.
Set Warnings "-register-all".

Section Logger.
Context {E : Type} `{EntryEncoder E} `{MultiErr} `{Fmt} `{Frames}.
Implicit Types (c : core E) (log : Logger E) (fs : list field) (h : heap).

(** ** Entries that end the program *)

(** A checked entry fresh from the pool with entry [ent], or none. *)
Definition fresh (ent : Entry) (ce : option (CheckedEntry E)) : Prop :=
  match ce with Some ce => ce_dirty ce = false /\ ce_Entry ce = ent | None => True end.

Lemma fresh_AddCore ce ent c : fresh ent ce -> fresh ent (Some (AddCore ce ent c)).
Proof. by destruct ce. Qed.

Lemma foldM_fresh cs ent ce h h' ce' :
  (forall c ce h h' ce', In c cs -> fresh ent ce -> core_Check c ent ce h = (h', ROk ce') -> fresh ent ce') ->
  fresh ent ce -> foldM (fun ce c => core_Check c ent ce) cs ce h = (h', ROk ce') -> fresh ent ce'.
Proof.
  revert ce h. induction cs as [|c cs IH]; intros ce h Hc Hce Hm; [by inv Hm|].
  cbn [foldM] in Hm. unbind Hm. eapply IH; [|eapply Hc; [by left|exact Hce|exact Ha]|exact Hm].
  intros c' ce1 h2 h3 ce2 Hin. apply Hc. by right.
Qed.

Lemma Check_fresh c ent ce h h' ce' : fresh ent ce -> core_Check c ent ce h = (h', ROk ce') -> fresh ent ce'.
Proof.
  revert ce h h' ce'. induction c as [c IH] using core_height_ind. intros ce h h' ce' Hce Hm.
  rewrite Check_eq in Hm. unfold Check_body in Hm. rewrite (bind_ok get_heap _ h h h) in Hm by done.
  destruct c as [ |e enc o|cs|c fn|c l|c s i k|i c gs|e l x].
  - by inv Hm.
  - destruct (core_Enabled _ _ _); inv Hm; [by apply fresh_AddCore|done].
  - eapply foldM_fresh; [|exact Hce|exact Hm]. intros c ce1 h2 h3 ce2 Hin. apply IH. by apply height_in.
  - unbind Hm. apply IH in Ha; [|cbn; lia|done]. destruct a as [d|]; inv Hm; [by apply (fresh_AddCore (Some d))|done].
  - destruct (negb _); [by inv Hm|]. eapply IH; [|exact Hce|exact Hm]. cbn; lia.
  - destruct (negb _); [by inv Hm|]. unbind Hm.
    destruct a as [n|]; [destruct (n =? LogDropped); [by inv Hm|]|];
      (eapply IH; [|exact Hce|exact Hm]; cbn; lia).
  - unbind Hm. eapply IH; [by eapply initOnce_height|exact Hce|exact Hm].
  - destruct (core_Enabled _ _ _); inv Hm; [by apply fresh_AddCore|done].
Qed.

(** The levels after which a logger does not return, and the hook a user may
    have set for them. *)
Definition terminal_level log (lvl : Z) : Prop :=
  lvl = FatalLevel \/ lvl = PanicLevel \/ lvl = DPanicLevel /\ development log = true.

Definition level_hook log (lvl : Z) : option CheckWriteHook :=
  if lvl =? FatalLevel then onFatal log else onPanic log.

(** The hook is user code, which was given the entry and returned. *)
Definition hook_returned (hook : option CheckWriteHook) (lvl : Z) (msg : gostring) (fs : list field) : Prop :=
  exists id f ent, hook = Some (HCustom id f) /\ e_Level ent = lvl /\ e_Message ent = msg /\ f ent fs = ROk tt.

(** A checked entry whose write returns only when its hook does. *)
Definition guarded_entry log (lvl : Z) (msg : gostring) (ce : CheckedEntry E) : Prop :=
  ce_dirty ce = false /\ e_Level (ce_Entry ce) = lvl /\ e_Message (ce_Entry ce) = msg /\
  exists a, (a = WriteThenPanic \/ a = WriteThenFatal) /\
    ce_after ce = Some (terminalHookOverride (HAction a) (level_hook log lvl)).

Lemma guarded_returns log lvl msg ce fs h h' r :
  guarded_entry log lvl msg ce -> ce_Write (Some ce) fs h = (h', ROk r) ->
  hook_returned (level_hook log lvl) lvl msg fs.
Proof.
  intros (Hd & Hl & Hm & act & Hact & Haft) Hw. cbn [ce_Write] in Hw. rewrite Hd, Haft in Hw.
  unbind Hw. unbind Hw. unbind Hw. rename Ha1 into Ho. unfold terminalHookOverride in Ho.
  destruct (level_hook log lvl) as [[[]|id f]|]; try (by destruct Hact as [-> | ->]); try done.
  cbn [OnWrite] in Ho. apply bind_inv in Ho as (h3 & [] & _ & Ho). injection Ho as _ Ho. destruct a1.
  by exists id, f, (ce_Entry ce).
Qed.

Lemma annotate_keeps log ent ce h h' ce' :
  annotate log ent ce h = (h', ROk ce') ->
  ce_after ce' = ce_after ce /\ ce_dirty ce' = ce_dirty ce /\
  e_Level (ce_Entry ce') = e_Level (ce_Entry ce) /\ e_Message (ce_Entry ce') = e_Message (ce_Entry ce).
Proof.
  unfold annotate. intros Hm. rewrite (bind_ok get_heap _ h h h) in Hm by done.
  repeat (case_match; try unbind Hm); by inv Hm.
Qed.

Lemma terminal_guarded log ent ce :
  terminal_level log (e_Level ent) -> fresh ent ce ->
  exists ce', terminal log ent ce = Some ce' /\ guarded_entry log (e_Level ent) (e_Message ent) ce'.
Proof.
  intros Hl Hf.
  assert (forall hook, ce_dirty (After ce ent hook) = false /\ ce_Entry (After ce ent hook) = ent /\
            ce_after (After ce ent hook) = Some hook) as Haft by (intros hook; by destruct ce as [ce|]; [destruct Hf|]).
  assert (exists a, (a = WriteThenPanic \/ a = WriteThenFatal) /\ terminal log ent ce =
            Some (After ce ent (terminalHookOverride (HAction a) (level_hook log (e_Level ent))))) as (a & Ha & Ht).
  { unfold terminal, level_hook. destruct Hl as [->|[->|[-> ->]]]; eexists; (split; [|reflexivity]); auto. }
  eexists. split; [exact Ht|]. destruct (Haft (terminalHookOverride (HAction a) (level_hook log (e_Level ent)))) as (H1' & H2' & H3').
  unfold guarded_entry. rewrite H1', H2', H3'. by split_and!; [..|exists a].
Qed.

(** At such a level [check] always gives such an entry. *)
Lemma check_guarded log lvl msg h h' ce :
  terminal_level log lvl -> check log lvl msg h = (h', ROk ce) ->
  exists ce', ce = Some ce' /\ guarded_entry log lvl msg ce'.
Proof.
  intros Hs Ha. apply call_inv in Ha as (h3 & Ha & _). unfold check_body in Ha.
  set (h4 := set_frames _ h) in Ha. rewrite (bind_ok get_heap _ h4 h4 h4) in Ha by done.
  assert (DPanicLevel <= lvl) as Hlvl.
  { unfold terminal_level, FatalLevel, PanicLevel, DPanicLevel in *. lia. }
  rewrite (proj2 (Z.ltb_ge _ _) Hlvl) in Ha. cbn in Ha. unbind Ha. unbind Ha.
  set (ent := mkEntry lvl a (name log) msg noCaller []) in *.
  destruct (terminal_guarded log ent a0 Hs (Check_fresh _ ent None _ _ _ I Ha1)) as (ce' & Ht & Hg).
  rewrite Ht in Ha. destruct a0 as [ce2|].
  - unbind Ha. inv Ha. apply annotate_keeps in Ha2 as (H1' & H2' & H3' & H4'). eexists. split; [reflexivity|].
    unfold guarded_entry. by rewrite H1', H2', H3', H4'.
  - inv Ha. by exists ce'.
Qed.

Lemma terminal_body fn log lvl msg fs h h' u :
  terminal_level log lvl -> call fn (log_body log lvl msg fs) h = (h', ROk u) ->
  hook_returned (level_hook log lvl) lvl msg fs.
Proof.
  intros Hs Hl. apply call_inv in Hl as (h1 & Hl & _). unfold log_body in Hl. unbind Hl.
  destruct (check_guarded _ _ _ _ _ _ Hs Ha) as (ce & -> & Hg). unbind Hl. by eapply guarded_returns.
Qed.

(** C23.  [Fatal], [Panic] and, in development, [DPanic] (and [Log] at their
    levels) return to their caller only when the user has set a hook of their
    own for the level and that hook, given the entry, has returned: whatever the
    core does, and also when no core logs the level.  Without a hook, or with
    an action such as [WriteThenNoop], they never return. *)
Theorem terminal_log_never_returns log msg fs h h' u :
  (Fatal log msg fs h = (h', ROk u) -> hook_returned (onFatal log) FatalLevel msg fs) /\
  (Panic_ log msg fs h = (h', ROk u) -> hook_returned (onPanic log) PanicLevel msg fs) /\
  (development log = true -> DPanic log msg fs h = (h', ROk u) -> hook_returned (onPanic log) DPanicLevel msg fs) /\
  (forall lvl, terminal_level log lvl -> Log log lvl msg fs h = (h', ROk u) ->
     hook_returned (level_hook log lvl) lvl msg fs).
Proof.
  split_and!.
  - apply (terminal_body _ log FatalLevel). by left.
  - apply (terminal_body _ log PanicLevel). right. by left.
  - intros Hd. apply (terminal_body _ log DPanicLevel). right. by right.
  - intros lvl. apply terminal_body.
Qed.

(** ** The call site *)

Lemma Capture_site pre f rest depth :
  exists room, Capture (pre ++ f :: rest) (length pre) depth 64 =
    Some (mkStack (f :: match depth with First => [] | Full => rest end) room).
Proof.
  unfold Capture. destruct depth.
  - unfold Callers. rewrite drop_app_length. by eexists.
  - destruct (grow_captures (S (length (pre ++ f :: rest))) (pre ++ f :: rest) (length pre) 64)
      as (r & -> & _); [lia..|]. rewrite drop_app_length. by eexists.
Qed.

Lemma first_and_rest f rest :
  rest <> [] ->
  bs (fm_b (FormatStack (FormatFrame (NewFormatter (mkBuffer [])) f) rest)) =
    frames_text (f :: removelast rest).
Proof.
  intros Hr. rewrite FormatStack_text, FormatFrame_text. cbn [fm_b bs fm_nonEmpty NewFormatter].
  destruct (removelast rest) as [|g gs]; [by rewrite app_nil_r|]. done.
Qed.

Definition caller_of (f : Frame) : EntryCaller :=
  mkCaller (negb (fr_PC f =? 0)) (fr_PC f) (fr_File f) (fr_Line f) (fr_Function f).

(** The frame [callerSkip] above the caller of the logging method is the
    entry's, and the stack trace starts there. *)
Lemma annotate_call_site log ent ce h pre f rest
    (Hst : h_frames h = pre ++ f :: rest)
    (Hpre : Z.of_nat (length pre) = callerSkip log + callerSkipOffset)
    (Hcaller : addCaller log = true) :
  let e := ce_Entry ce in
  annotate log ent ce h =
    (h, ROk (mkCE (mkEntry (e_Level e) (e_Time e) (e_LoggerName e) (e_Message e) (caller_of f)
                     (if Enabled (h_cells h) (addStack log) (e_Level e)
                      then frames_text (f :: removelast rest) else e_Stack e))
               (Some (errorOutput log)) (ce_dirty ce) (ce_after ce) (ce_cores ce))).
Proof.
  intros e. unfold annotate. rewrite (bind_ok get_heap _ h h h) by done.
  rewrite Hcaller, Hst, <- Hpre, Nat2Z.id. cbn [negb andb set_ErrorOutput ce_Entry]. fold e.
  destruct (Enabled (h_cells h) (addStack log) (e_Level e));
    [destruct (Capture_site pre f rest Full) as [room ->]|destruct (Capture_site pre f rest First) as [room ->]];
    unfold Count; cbn [pcs]; [|done].
  rewrite (proj2 (Z.eqb_neq _ 0)) by (cbn; lia). unfold String_.
  destruct rest as [|g rest]; cbn [Next]; [by rewrite FormatFrame_text|].
  by rewrite first_and_rest.
Qed.

(** ** Names *)

(** [strings.Join(l, sep)] *)
Fixpoint Join (l : list gostring) (sep : gostring) : gostring :=
  match l with
  | [] => []
  | [s] => s
  | s :: l => s ++ sep ++ Join l sep
  end.

Lemma Join_merge n s l : Join ((n ++ go "." ++ s) :: l) (go ".") = Join (n :: s :: l) (go ".").
Proof. destruct l as [|x l]; [done|]. cbn [Join]. by app_norm. Qed.

Lemma named_step log s l :
  Join (List.filter nonempty (name (Named log s) :: l)) (go ".") =
  Join (List.filter nonempty (name log :: s :: l)) (go ".").
Proof.
  unfold Named. destruct s as [|b s].
  - change (nonempty []) with false. cbn [negb List.filter]. change (nonempty []) with false. by destruct (nonempty _).
  - change (nonempty (b :: s)) with true. cbn [negb].
    destruct (name log) as [|x n] eqn:Hn; [done|].
    change (nonempty (x :: n)) with true. cbn [negb set_name name List.filter].
    change (nonempty (x :: n)) with true. change (nonempty (b :: s)) with true.
    change (nonempty ((x :: n) ++ go "." ++ b :: s)) with true. cbv iota. apply Join_merge.
Qed.

(** The name of a logger is the path of the non-empty names given to
    [Named] on the way to it, joined by periods. *)
Theorem named_path log segments :
  name (fold_left Named segments log) =
    Join (List.filter nonempty (name log :: segments)) (go ".").
Proof.
  revert log. induction segments as [|s l IH]; intros log; cbn [fold_left].
  - by destruct (name log).
  - by rewrite IH, named_step.
Qed.
End Logger.

(** ** From the call to the line *)

Section Line.
Context {E : Type} `{EntryEncoder E} `{MultiErr} `{Fmt} `{Frames}.

(** A logger with one core that writes to a locked device, without caller. *)
Definition plain_logger (enab : LevelEnabler) (enc : E) (d : nat) (nm : gostring) (out : WriteSyncer) :
    Logger E :=
  mkLogger (CIo enab enc (Lock (WDevice d))) false false None None nm out (ELevel (FatalLevel + 1)) 0 Now.

(** The heap after the clock was read and [line] written to device [d]. *)
Definition after_line (h : heap) (d : nat) (line : gostring) : heap :=
  let x := get_device (h_world h) d in
  mkHeap (h_cells h)
    (set_device (h_world h) d
       (mkDevice (d_chunks x ++ [line]) (d_syncs x) (d_write_plan x) (d_sync_plan x)))
    (h_counters h) (h_observed h) (h_once h) (h_events h) (tail (h_times h)) (h_frames h).

Definition after_tick (h : heap) : heap :=
  mkHeap (h_cells h) (h_world h) (h_counters h) (h_observed h) (h_once h) (h_events h)
    (tail (h_times h)) (h_frames h).

(** A core that registers itself. *)
Definition leaf (c : core E) : bool :=
  match c with CIo _ _ _ | CObserver _ _ _ => true | _ => false end.

Lemma check_leaf (log : Logger E) lvl msg h t ts :
  leaf (core_ log) = true -> clock log = Now -> h_times h = t :: ts ->
  core_Enabled (h_cells h) (core_ log) lvl = true -> lvl <= ErrorLevel ->
  let ent := mkEntry lvl t (name log) msg noCaller [] in
  check_body log lvl msg h =
    (ce <- annotate log ent (mkCE ent None false None [core_ log]) ;; ret (Some ce)) (after_tick h).
Proof.
  intros Hc Hclock Ht Hen Hlvl ent. unfold ErrorLevel in Hlvl. unfold check_body.
  rewrite (bind_ok get_heap _ h h h) by done. rewrite Hen, andb_false_r, Hclock.
  rewrite (bind_ok _ _ h (after_tick h) t) by (unfold Now, after_tick; by rewrite Ht).
  fold ent. set (h1 := after_tick h).
  rewrite (bind_ok _ _ h1 h1 (Some (mkCE ent None false None [core_ log]))).
  - unfold terminal. cbn [e_Level ent].
    rewrite (proj2 (Z.eqb_neq lvl PanicLevel)) by (unfold PanicLevel; lia).
    rewrite (proj2 (Z.eqb_neq lvl FatalLevel)) by (unfold FatalLevel; lia).
    rewrite (proj2 (Z.eqb_neq lvl DPanicLevel)) by (unfold DPanicLevel; lia). done.
  - rewrite Check_eq. unfold Check_body. rewrite (bind_ok get_heap _ h1 h1 h1) by done.
    destruct (core_ log) as [ |e enc o|cs|c fn|c l|c s i k|i c gs|e l x]; try done;
      change (h_cells h1) with (h_cells h); cbn [e_Level ent]; by rewrite Hen.
Qed.

Lemma annotate_plain (log : Logger E) ent ce h :
  addCaller log = false -> Enabled (h_cells h) (addStack log) (e_Level (ce_Entry ce)) = false ->
  annotate log ent ce h = (h, ROk (set_ErrorOutput (errorOutput log) ce)).
Proof.
  intros Hc Hs. unfold annotate. rewrite (bind_ok get_heap _ h h h) by done.
  cbn [set_ErrorOutput ce_Entry]. by rewrite Hc, Hs.
Qed.

(** Writing a checked entry with one core that succeeds. *)
Lemma ce_Write_one ent out c fs h h' :
  core_Write c ent fs h = (h', ROk None) ->
  ce_Write (Some (mkCE ent out false None [c])) fs h = (h', ROk (Some (mkCE ent out true None [c]))).
Proof.
  intros Hw. cbn [ce_Write ce_dirty ce_cores ce_Entry ce_after ce_ErrorOutput foldM].
  unfold bind, append_error, bind. rewrite Hw. cbn. by rewrite Append_nil_l.
Qed.

(** The heap after [line] was written to device [d]. *)
Definition with_line (h : heap) (d : nat) (line : gostring) : heap :=
  let x := get_device (h_world h) d in
  mkHeap (h_cells h)
    (set_device (h_world h) d
       (mkDevice (d_chunks x ++ [line]) (d_syncs x) (d_write_plan x) (d_sync_plan x)))
    (h_counters h) (h_observed h) (h_once h) (h_events h) (h_times h) (h_frames h).

Lemma io_writes_line enab (enc : E) d ent fs h line :
  d_write_plan (get_device (h_world h) d) = [] -> e_Level ent <= ErrorLevel ->
  enc_EncodeEntry enc ent fs = Ret (inl line) ->
  core_Write (CIo enab enc (Lock (WDevice d))) ent fs h = (with_line h d line, ROk None).
Proof.
  intros Hplan Hlvl Henc. rewrite Write_eq. cbn [Write_body]. unfold ioCore_Write, bind, lift.
  rewrite Henc. cbn [ret]. unfold on_world. cbn. unfold device_Write. rewrite Hplan. cbn [fst snd].
  rewrite firstn_all, Z.gtb_ltb, (proj2 (Z.ltb_ge _ _)) by lia. unfold with_line. by rewrite Hplan.
Qed.

Lemma log_body_ok (log : Logger E) lvl msg fs h h1 h2 ce r :
  check log lvl msg h = (h1, ROk (Some ce)) -> ce_Write (Some ce) fs h1 = (h2, ROk r) ->
  log_body log lvl msg fs h = (h2, ROk tt).
Proof. intros Hc Hw. unfold log_body. rewrite (bind_ok _ _ _ _ _ Hc). by rewrite (bind_ok _ _ _ _ _ Hw). Qed.

(** A logger over a core that registers itself, without caller or stack. *)
Lemma Log_leaf (log : Logger E) lvl msg fs h t ts h' :
  leaf (core_ log) = true -> clock log = Now -> addCaller log = false -> h_times h = t :: ts ->
  core_Enabled (h_cells h) (core_ log) lvl = true -> Enabled (h_cells h) (addStack log) lvl = false ->
  lvl <= ErrorLevel ->
  core_Write (core_ log) (mkEntry lvl t (name log) msg noCaller []) fs
    (after_tick (set_frames (frame_of (go "Logger.Log") :: h_frames h) h)) = (h', ROk None) ->
  Log log lvl msg fs h = (set_frames (h_frames h) h', ROk tt).
Proof.
  intros Hc Hclock Hcaller Ht Hen Hs Hlvl Hw. set (ent := mkEntry lvl t (name log) msg noCaller []) in *.
  set (h1 := set_frames (frame_of (go "Logger.Log") :: h_frames h) h) in *.
  assert (check log lvl msg h1 =
          (after_tick h1, ROk (Some (mkCE ent (Some (errorOutput log)) false None [core_ log])))) as Hcheck.
  { unfold check. erewrite call_ok.
    2: { erewrite check_leaf by done. erewrite bind_ok; [reflexivity|]. by apply annotate_plain. }
    done. }
  unfold Log. erewrite call_ok; [|eapply log_body_ok; [exact Hcheck|by apply ce_Write_one]]. done.
Qed.

(** A level that is not enabled is turned away before anything is done. *)
Lemma Log_disabled (log : Logger E) lvl msg fs h :
  core_Enabled (h_cells h) (core_ log) lvl = false -> lvl <= ErrorLevel -> Log log lvl msg fs h = (h, ROk tt).
Proof.
  intros Hen Hl. set (h1 := set_frames (frame_of (go "Logger.Log") :: h_frames h) h).
  assert (check log lvl msg h1 = (h1, ROk None)) as Hc.
  { unfold check. erewrite call_ok.
    2: { unfold check_body. rewrite (bind_ok get_heap _ _ _ _ eq_refl). cbn [h_cells set_frames h1].
         rewrite Hen, (proj2 (Z.ltb_lt lvl DPanicLevel)) by (unfold ErrorLevel, DPanicLevel in *; lia). reflexivity. }
    done. }
  unfold Log. erewrite call_ok; [|unfold log_body; fold h1; rewrite (bind_ok _ _ _ _ _ Hc); reflexivity].
  by destruct h.
Qed.

Lemma Log_plain enab enc d nm out lvl msg fs h t ts line :
  h_times h = t :: ts -> Enabled (h_cells h) enab lvl = true -> lvl <= ErrorLevel ->
  d_write_plan (get_device (h_world h) d) = [] ->
  enc_EncodeEntry enc (mkEntry lvl t nm msg noCaller []) fs = Ret (inl line) ->
  Log (plain_logger enab enc d nm out) lvl msg fs h = (after_line h d line, ROk tt).
Proof.
  intros Ht Hen Hlvl Hplan Henc.
  eapply eq_trans; [apply (Log_leaf (plain_logger enab enc d nm out) lvl msg fs h t ts); try done|].
  - cbn. unfold Level_Enabled. apply Z.leb_gt. cbn. unfold ErrorLevel, FatalLevel in *. lia.
  - cbn [core_ plain_logger name]. by apply io_writes_line.
  - done.
Qed.

(** What a logging method of a logger over an observer records. *)
Lemma call_records_site fn (log : Logger E) enab logs ctx lvl msg fs h t ts pre f rest
    (Hcore : core_ log = CObserver enab logs ctx) (Hcaller : addCaller log = true)
    (Hclock : clock log = Now) (Ht : h_times h = t :: ts)
    (Hen : Enabled (h_cells h) enab lvl = true) (Hlvl : lvl <= ErrorLevel)
    (Hst : h_frames h = pre ++ f :: rest) (Hpre : Z.of_nat (length pre) = callerSkip log) :
  let stack := if Enabled (h_cells h) (addStack log) lvl then frames_text (f :: removelast rest) else [] in
  exists h', call fn (log_body log lvl msg fs) h = (h', ROk tt) /\ h_frames h' = h_frames h /\
    h_world h' = h_world h /\
    h_observed h' = <[logs := default [] (h_observed h !! logs) ++
                       [mkLogged (mkEntry lvl t (name log) msg (caller_of f) stack) (ctx ++ fs)]]>
                      (h_observed h).
Proof.
  intros stack. set (ent := mkEntry lvl t (name log) msg noCaller []).
  set (h1 := set_frames (frame_of fn :: h_frames h) h).
  set (ent' := mkEntry lvl t (name log) msg (caller_of f) stack).
  assert (check log lvl msg h1 =
          (after_tick h1, ROk (Some (mkCE ent' (Some (errorOutput log)) false None [core_ log])))) as Hcheck.
  { unfold check. erewrite call_ok.
    2: { erewrite check_leaf; [|by rewrite Hcore|done..|by rewrite Hcore|done].
         erewrite bind_ok; [reflexivity|].
         apply (annotate_call_site _ _ _ _
                  (frame_of (go "Logger.check") :: frame_of fn :: pre) f rest);
           [cbn; by rewrite Hst|cbn [length]; unfold callerSkipOffset; lia|done]. }
    done. }
  eexists. split.
  - erewrite call_ok; [reflexivity|]. eapply log_body_ok; [exact Hcheck|].
    apply ce_Write_one. rewrite Write_eq, Hcore. reflexivity.
  - done.
Qed.

(** C24.  An entry names the place of the log call.  On a logger that adds
    callers, over an observer, [Log] at an enabled level up to Error records
    exactly one entry, whose caller is
    the frame [callerSkip] above the function that called [Log], with the stack
    from there outwards (without the runtime's last frame, however deep it is)
    when the level asks for one, and whose context is the core's followed by the
    call's fields. *)
Theorem log_records_call_site (log : Logger E) enab logs ctx lvl msg fs h t ts pre f rest
    (Hcore : core_ log = CObserver enab logs ctx) (Hcaller : addCaller log = true)
    (Hclock : clock log = Now) (Ht : h_times h = t :: ts)
    (Hen : Enabled (h_cells h) enab lvl = true) (Hlvl : lvl <= ErrorLevel)
    (Hst : h_frames h = pre ++ f :: rest) (Hpre : Z.of_nat (length pre) = callerSkip log) :
  let stack := if Enabled (h_cells h) (addStack log) lvl then frames_text (f :: removelast rest) else [] in
  exists h', Log log lvl msg fs h = (h', ROk tt) /\ h_frames h' = h_frames h /\
    h_world h' = h_world h /\
    h_observed h' = <[logs := default [] (h_observed h !! logs) ++
                       [mkLogged (mkEntry lvl t (name log) msg (caller_of f) stack) (ctx ++ fs)]]>
                      (h_observed h).
Proof. by apply (call_records_site (go "Logger.Log") log enab logs ctx lvl msg fs h t ts pre). Qed.
End Line.

Section JsonLine.
Context `{TimeFormat} `{GoRuntime} `{MultiErr} `{Fmt} `{Frames}.
Variables (p : Pool.t jsonEncoder) (choice : option nat).
Variables (dre : ReflectedEncoder) (c0 : EncoderConfig) (sp : bool) (re : ReflectedEncoder).
Local Abbreviation c := (effective dre c0 sp).
#[local] Instance line_json : EntryEncoder jsonEncoder := jsonEntry p choice.

(** C2.  From the call to the disk: one call of [Log], at an enabled level up
    to Error, on a logger that adds no caller or stack trace, over a JSON core
    whose output is healthy, makes exactly one [Write] to the output, whose bytes an RFC 8259
    parser reads as one object with the entry's metadata, the logger's context
    and the call's fields, and then the line ending; no other device, and
    nothing else the library keeps, is touched. *)
Theorem json_log_writes_one_line enc x enab d nm out lvl msg fs h t ts ms
    (Hc : config_ok c re) (Hp : pool_ok p) (Hb : built dre c0 sp re enc x)
    (Hl : delim (LineEnding c) = true)
    (Ht : h_times h = t :: ts) (Hen : Enabled (h_cells h) enab lvl = true) (Hlvl : lvl <= ErrorLevel)
    (Hdisk : d_write_plan (get_device (h_world h) d) = [])
    (Hms : entry_members c re x (mkEntry lvl t nm msg noCaller []) fs = Ret ms) :
  exists line,
    Log (plain_logger enab enc d nm out) lvl msg fs h = (after_line h d line, ROk tt) /\
    jparse line = Some (jsem (TObj ms), LineEnding c).
Proof.
  destruct (EncodeEntry_spec c re Hc sp p choice enc x (mkEntry lvl t nm msg noCaller []) fs Hp
              (built_holds _ _ _ _ Hc _ _ Hb)) as (HE & _ & Hw).
  rewrite Hms in HE. exists (render sp (TObj ms) ++ LineEnding c). split.
  - eapply Log_plain; [done..|]. cbn. unfold json_EncodeEntry. by rewrite HE.
  - apply jparse_render; [by apply Hw|done].
Qed.
End JsonLine.

(** ** Instances *)

#[local] Existing Instance firstError.
#[local] Existing Instance exampleFmt.
#[local] Existing Instance exampleJson.

Definition exampleFrames : Frames := {| frame_of f := mkFrame 100 f (go "/src/lad/logger.go") 1 |}.
#[local] Existing Instance exampleFrames.

Definition exampleLog : Logger jsonEncoder :=
  plain_logger (ELevel InfoLevel) exampleEncoder 3 (go "main") (WDevice 2).

(** A hook that returns lets [Fatal] return; without one it exits. *)
Definition returningHook : CheckWriteHook := HCustom 7 (fun _ _ => ROk tt).

Example fatal_with_returning_hook :
  let log := mkLogger (core_ exampleLog) false false None (Some returningHook) [] (WDevice 2)
               (ELevel (FatalLevel + 1)) 0 Now in
  snd (Fatal log (go "bye") [] emptyHeap) = ROk tt /\ snd (Fatal exampleLog (go "bye") [] emptyHeap) = RExit 1.
Proof. split; vm_compute; reflexivity. Qed.

Definition exampleFrame (n : Z) : Frame := mkFrame n (go "pkg.F") (go "/src/pkg/f.go") n.

Definition tracedLog : Logger jsonEncoder :=
  mkLogger (CObserver (ELevel InfoLevel) 9 []) false true None None [] (WDevice 2) (ELevel ErrorLevel) 1 Now.

Definition framedHeap : heap :=
  mkHeap ∅ (mkWorld ∅ ∅ ∅) ∅ ∅ ∅ [] [zeroTime] (map exampleFrame [1; 2; 3; 4; 5]).

Lemma log_records_call_site_witness :
  exists h', Log tracedLog ErrorLevel (go "x") [] framedHeap = (h', ROk tt) /\
    h_frames h' = h_frames framedHeap /\ h_world h' = h_world framedHeap /\
    h_observed h' = <[9%nat := [mkLogged (mkEntry ErrorLevel zeroTime [] (go "x")
        (mkCaller true 2 (go "/src/pkg/f.go") 2 (go "pkg.F"))
        (frames_text [exampleFrame 2; exampleFrame 3; exampleFrame 4])) []]]> ∅.
Proof.
  apply (log_records_call_site tracedLog (ELevel InfoLevel) 9 [] ErrorLevel (go "x") [] framedHeap
    zeroTime [] (map exampleFrame [1]) (exampleFrame 2) (map exampleFrame [3; 4; 5])); done.
Defined.

Definition timedHeap : heap := mkHeap ∅ (mkWorld ∅ ∅ ∅) ∅ ∅ ∅ [] [Unix0 1500000000] [].

Definition exampleMembers : list (gostring * jtree) :=
  match @entry_members plainTime (effective exampleReflect exampleConfig false) exampleReflect
          exampleRuntime exampleCtx (mkEntry InfoLevel (Unix0 1500000000) (go "main") (go "hi") noCaller [])
          exampleFields with
  | Ret ms => ms
  | Panic _ => []
  end.

Lemma json_log_writes_one_line_witness :
  exists line,
    Log exampleLog InfoLevel (go "hi") exampleFields timedHeap = (after_line timedHeap 3 line, ROk tt) /\
    jparse line = Some (jsem (TObj exampleMembers), [Byte.x0a]).
Proof.
  apply (@json_log_writes_one_line plainTime exampleRuntime firstError exampleFmt exampleFrames JSON._jsonPool None
    exampleReflect exampleConfig false exampleReflect exampleEncoder exampleCtx (ELevel InfoLevel) 3
    (go "main") (WDevice 2) InfoLevel (go "hi") exampleFields timedHeap (Unix0 1500000000) []);
    [apply example_config_ok|apply json_pool_ok|apply example_built|reflexivity|reflexivity|reflexivity
    |done|reflexivity|].
  vm_compute. reflexivity.
Defined.
