(* ===== verification/LastWords.v ===== *)
(** * LastWords

    What a program that ends itself leaves behind: a logger whose core writes
    to a [BufferedWriteSyncer], and a call of [Panic] or [Fatal] on it.
    [ioCore.Write] syncs the output before the hook of the entry runs. *)
From S2P Require Import Prelude Strconv Utf8 Level Float GoTime Buffer Entry Values Field Encoder.
From S2P Require Import Json JsonTree JsonEncoder JsonSpec JsonProofs JsonTheorems.
From S2P Require Import Sampler WriteSyncer Stacktrace Effects Core CoreProofs JsonCore CoreTheorems Logger.
From S2P Require Import LoggerTheorems.
Open Scope Z_scope.
Open Scope lad_scope.

Section LastWords.
Context {E : Type} `{EntryEncoder E} `{MultiErr} `{Fmt} `{Frames}.

(** A logger with one core that writes to buffered syncer [b] over device [d]. *)
Definition buffered_logger (enab : LevelEnabler) (enc : E) (b d : nat) (nm : gostring) (out : WriteSyncer) :
    Logger E :=
  mkLogger (CIo enab enc (WBuffered b (WDevice d))) false false None None nm out (ELevel (FatalLevel + 1)) 0 Now.

Definition set_world (w : world) (h : heap) : heap :=
  mkHeap (h_cells h) w (h_counters h) (h_observed h) (h_once h) (h_events h) (h_times h) (h_frames h).

(** How the program ends. *)
Definition last_words {A} (lvl : Z) (msg : gostring) : res A :=
  if lvl =? PanicLevel then RPanic msg else RExit 1.

Definition last_hook (lvl : Z) : CheckWriteHook :=
  HAction (if lvl =? PanicLevel then WriteThenPanic else WriteThenFatal).

(** A write above [ErrorLevel] that succeeds is followed by a sync, whatever
    that returns. *)
Lemma io_write_syncs enab (enc : E) out ent fs h line w n w' err :
  enc_EncodeEntry enc ent fs = Ret (inl line) -> ErrorLevel < e_Level ent ->
  WriteSyncer.Write out line (h_world h) = Some (w, (n, None)) -> WriteSyncer.Sync out w = Some (w', err) ->
  core_Write (CIo enab enc out) ent fs h = (set_world w' h, ROk None).
Proof.
  intros Henc Hlvl Hw Hs. rewrite Write_eq. cbn [Write_body]. unfold ioCore_Write, bind, lift.
  rewrite Henc. cbn [ret]. unfold on_world at 1. rewrite Hw. cbn [fst snd h_world].
  rewrite Z.gtb_ltb, (proj2 (Z.ltb_lt _ _)) by done. unfold on_world. cbn [h_world]. by rewrite Hs.
Qed.

(** A checked entry whose core succeeded ends as its hook does. *)
Lemma ce_Write_hook ent out c fs lvl h h' :
  core_Write c ent fs h = (h', ROk None) ->
  ce_Write (Some (mkCE ent out false (Some (last_hook lvl)) [c])) fs h =
    (h', last_words lvl (e_Message ent)).
Proof.
  intros Hw. cbn [ce_Write ce_dirty ce_cores ce_Entry ce_after ce_ErrorOutput foldM].
  unfold bind, append_error, bind. rewrite Hw. cbn. rewrite Append_nil_l. unfold last_hook, last_words.
  by destruct (lvl =? PanicLevel).
Qed.

Lemma terminal_hook (log : Logger E) ent ce :
  onPanic log = None -> onFatal log = None -> e_Level ent = PanicLevel \/ e_Level ent = FatalLevel ->
  terminal log ent (Some ce) = Some (After (Some ce) ent (last_hook (e_Level ent))).
Proof. unfold terminal. intros Hp Hf [-> | ->]; cbn; by rewrite ?Hp, ?Hf. Qed.

Lemma check_last (log : Logger E) lvl msg h t ts :
  leaf (core_ log) = true -> clock log = Now -> addCaller log = false -> onPanic log = None -> onFatal log = None ->
  h_times h = t :: ts -> core_Enabled (h_cells h) (core_ log) lvl = true ->
  Enabled (h_cells h) (addStack log) lvl = false -> lvl = PanicLevel \/ lvl = FatalLevel ->
  let ent := mkEntry lvl t (name log) msg noCaller [] in
  check log lvl msg h =
    (after_tick h, ROk (Some (mkCE ent (Some (errorOutput log)) false (Some (last_hook lvl)) [core_ log]))).
Proof.
  intros Hc Hclock Hcaller Hp Hf Ht Hen Hs Hlvl ent. unfold check.
  assert (check_body log lvl msg (set_frames (frame_of (go "Logger.check") :: h_frames h) h) =
    (after_tick (set_frames (frame_of (go "Logger.check") :: h_frames h) h),
     ROk (Some (mkCE ent (Some (errorOutput log)) false (Some (last_hook lvl)) [core_ log])))) as Hb.
  { unfold check_body. rewrite (bind_ok get_heap _ _ _ _ eq_refl). cbn [h_cells set_frames].
    rewrite Hen, andb_false_r, Hclock.
    rewrite (bind_ok _ _ _ (after_tick (set_frames (frame_of (go "Logger.check") :: h_frames h) h)) t)
      by (unfold Now, after_tick; cbn [h_times set_frames]; by rewrite Ht).
    set (h2 := after_tick _). rewrite (bind_ok _ _ h2 h2 (Some (mkCE ent None false None [core_ log]))).
    - fold ent. rewrite terminal_hook by done. erewrite bind_ok; [|by apply annotate_plain]. done.
    - fold ent. rewrite Check_eq. unfold Check_body. rewrite (bind_ok get_heap _ h2 h2 h2) by done.
      destruct (core_ log) as [ |e enc o|cs|c fn|c l|c s i k|i c gs|e l x]; try done;
        change (h_cells h2) with (h_cells h); cbn [e_Level ent]; by rewrite Hen. }
  by rewrite (call_ok _ _ _ _ _ Hb).
Qed.

(** C10.  Last words are not lost.  However a [BufferedWriteSyncer] over a
    working device has been used (writes, syncs, ticks of its flush loop, even
    stops), [Panic] or [Fatal] on a logger over it panics with the message or
    exits with status 1 only after everything still in the buffer and then the
    entry's own line have reached the device, in order and with nothing left
    behind. *)
Theorem last_words_reach_device b d size os rs w enab enc nm out lvl msg fs h t ts line
    (Hops : run_ops b d os (fresh_world b size) = Some (w, rs)) (Hw : h_world h = w)
    (Hlvl : lvl = PanicLevel \/ lvl = FatalLevel) (Hen : Enabled (h_cells h) enab lvl = true)
    (Ht : h_times h = t :: ts)
    (Henc : enc_EncodeEntry enc (mkEntry lvl t nm msg noCaller []) fs = Ret (inl line)) :
  exists h', Log (buffered_logger enab enc b d nm out) lvl msg fs h = (h', last_words lvl msg) /\
    d_data (get_device (h_world h') d) = concat (concat (map message os)) ++ line /\
    b_buf (writer (get_bws (h_world h') b)) = [].
Proof.
  set (log := buffered_logger enab enc b d nm out). set (ent := mkEntry lvl t nm msg noCaller []) in *.
  set (h1 := set_frames (frame_of (go "Logger.Log") :: h_frames h) h).
  destruct (run_ops_holds b d os _ _ _ (fresh_holds b d size)) as (w0 & rs0 & gs & ps & E0 & Hh & Hflat).
  rewrite Hops in E0. injection E0 as <- <-.
  destruct (Write_holds b d w gs ps line Hh) as (w1 & gs1 & ps1 & HW & Hh1 & Hf1).
  destruct (Sync_holds b d w1 gs1 ps1 Hh1) as (w2 & err & gs2 & ps2 & HS & Hh2 & Hf2 & Hd & _).
  assert (core_Write (core_ log) ent fs (after_tick h1) = (set_world w2 (after_tick h1), ROk None)) as Hcw.
  { eapply io_write_syncs; [exact Henc| |cbn; rewrite Hw; exact HW|exact HS].
    cbn. destruct Hlvl as [-> | ->]; unfold ErrorLevel, PanicLevel, FatalLevel; lia. }
  assert (check log lvl msg h1 =
    (after_tick h1, ROk (Some (mkCE ent (Some out) false (Some (last_hook lvl)) [core_ log])))) as Hck.
  { refine (check_last log lvl msg h1 t ts _ _ _ _ _ _ _ _ Hlvl); try done.
    destruct Hlvl as [-> | ->]; reflexivity. }
  eexists. split; [|split].
  - unfold Log. erewrite call_ok; [reflexivity|]. unfold log_body. fold h1. rewrite (bind_ok _ _ _ _ _ Hck).
    unfold bind. rewrite (ce_Write_hook _ _ _ _ _ _ _ Hcw). unfold last_words. by destruct (lvl =? PanicLevel).
  - cbn. rewrite (drained_data _ _ _ _ _ Hh2 Hd), Hf2, Hf1. change (flat [] []) with (@nil gostring) in Hflat.
    cbn [app] in Hflat. rewrite <- Hflat. unfold flat. rewrite app_assoc, concat_app. cbn. by rewrite app_nil_r.
  - exact Hd.
Qed.
End LastWords.

(** ** Instances *)

#[local] Existing Instance firstError.
#[local] Existing Instance exampleFmt.
#[local] Existing Instance exampleFrames.
#[local] Existing Instance plainTime.
#[local] Existing Instance exampleRuntime.
#[local] Instance last_json : EntryEncoder jsonEncoder := jsonEntry JSON._jsonPool None.

Definition exampleUse : list op := [OpWrite (go "a"); OpTick; OpWrite (go "b"); OpStop true; OpWrite (go "c")].

Definition exampleUsed : world :=
  match run_ops 1 3 exampleUse (fresh_world 1 0) with Some (w, _) => w | None => fresh_world 1 0 end.

Definition lastHeap : heap := mkHeap ∅ exampleUsed ∅ ∅ ∅ [] [Unix0 1500000000] [].

Definition lastLine : gostring :=
  match enc_EncodeEntry exampleEncoder (mkEntry FatalLevel (Unix0 1500000000) (go "main") (go "bye") noCaller [])
          exampleFields with
  | Ret (inl line) => line
  | _ => []
  end.

Lemma last_words_reach_device_witness :
  exists h', Log (buffered_logger (ELevel InfoLevel) exampleEncoder 1 3 (go "main") (WDevice 2)) FatalLevel
      (go "bye") exampleFields lastHeap = (h', RExit 1) /\
    d_data (get_device (h_world h') 3) = go "abc" ++ lastLine /\
    b_buf (writer (get_bws (h_world h') 1)) = [].
Proof.
  destruct (some_exists (run_ops 1 3 exampleUse (fresh_world 1 0))) as [[w rs] E]; [vm_compute; reflexivity|].
  apply (last_words_reach_device 1 3 0 exampleUse rs w (ELevel InfoLevel) exampleEncoder (go "main") (WDevice 2)
           FatalLevel (go "bye") exampleFields lastHeap (Unix0 1500000000) []); [exact E| |by right|done|done|].
  - cbn. unfold exampleUsed. by rewrite E.
  - vm_compute. reflexivity.
Defined.
