(* ===== verification/LadIO.v ===== *)
(** * LadIO

    [ladio/writer.go]: an [io.Writer] that logs the lines written to it. *)
From S2P Require Import Prelude Strconv Utf8 Level Float GoTime Buffer Entry Values Field Sampler.
From S2P Require Import WriteSyncer Stacktrace Effects Core CoreTheorems Logger LoggerTheorems.
From S2P Require Import JsonEncoder JsonCore.
Open Scope Z_scope.
Open Scope lad_scope.
Set Warnings "-register-all".

(** [bytes.IndexByte] *)
Fixpoint IndexByte (s : gostring) (c : byte) : option nat :=
  match s with
  | [] => None
  | b :: t => if beq b c then Some 0%nat else option_map S (IndexByte t c)
  end.

Section Writer.
Context {E : Type} `{EntryEncoder E} `{MultiErr} `{Fmt} `{Frames}.

Record Writer := mkWriter { w_Log : Logger E; w_Level : Z }.

(** The writer's buffer is passed along.  The frame of [log], which the logger
    takes for the call site, is the only one of the writer on the stack. *)
Definition w_log (w : Writer) (b : gostring) : M unit :=
  call (go "Writer.log")
    (ce <- Check_ (w_Log w) (w_Level w) b ;;
     match ce with
     | Some _ => ce_Write ce [] ;; ret tt
     | None => ret tt
     end).

Definition w_flush (w : Writer) (allowEmpty : bool) (buff : gostring) : M gostring :=
  (if allowEmpty || (0 <? Z.of_nat (length buff)) then w_log w buff else ret tt) ;;
  ret [].

(** The remaining bytes, and the buffer. *)
Definition writeLine (w : Writer) (line buff : gostring) : M (gostring * gostring) :=
  match IndexByte line Byte.x0a with
  | None => ret ([], buff ++ line)
  | Some idx =>
      let remaining := drop (S idx) line in
      let line := take idx line in
      if Nat.eqb (length buff) 0 then w_log w line ;; ret (remaining, buff)
      else buff <- w_flush w true (buff ++ line) ;; ret (remaining, buff)
  end.

(** Each round consumes a byte, so the length of the input is enough fuel. *)
Fixpoint write_lines (fuel : nat) (w : Writer) (bs buff : gostring) : M gostring :=
  match fuel with
  | O => match bs with [] => ret buff | _ => halt RHang end
  | S n =>
      match bs with
      | [] => ret buff
      | _ => r <- writeLine w bs buff ;; write_lines n w r.1 r.2
      end
  end.

Definition w_Write (w : Writer) (bs buff : gostring) : M (Z * error * gostring) :=
  h <- get_heap ;;
  if negb (core_Enabled (h_cells h) (core_ (w_Log w)) (w_Level w))
  then ret (Z.of_nat (length bs), None, buff)
  else buff <- write_lines (length bs) w bs buff ;; ret (Z.of_nat (length bs), None, buff).

Definition w_Sync (w : Writer) (buff : gostring) : M (error * gostring) :=
  buff <- w_flush w false buff ;; ret (None, buff).

Definition w_Close (w : Writer) (buff : gostring) : M (error * gostring) := w_Sync w buff.

(** ** Lines *)

(** The lines that end in [s], the first of them started with [cur], and the
    start of the next. *)
Fixpoint split_lines (cur s : gostring) : list gostring * gostring :=
  match s with
  | [] => ([], cur)
  | b :: t =>
      if beq b Byte.x0a then let '(ls, r) := split_lines [] t in (cur :: ls, r)
      else split_lines (cur ++ [b]) t
  end.

(** The lines of a stream; an unfinished last line counts if it has any text. *)
Definition lines (s : gostring) : list gostring :=
  let '(ls, r) := split_lines [] s in ls ++ match r with [] => [] | _ => [r] end.

Definition log_all (w : Writer) (ls : list gostring) : M unit := foldM (fun _ l => w_log w l) ls tt.

Lemma split_lines_app cur s t :
  split_lines cur (s ++ t) =
    let '(ls, r) := split_lines cur s in let '(ls', r') := split_lines r t in (ls ++ ls', r').
Proof.
  revert cur. induction s as [|b s IH]; intros cur; cbn [app split_lines].
  - by destruct (split_lines cur t).
  - destruct (beq b Byte.x0a); [|apply IH]. rewrite IH.
    destruct (split_lines [] s) as [ls r]. by destruct (split_lines r t).
Qed.

Lemma split_lines_index cur s :
  split_lines cur s =
    match IndexByte s Byte.x0a with
    | None => ([], cur ++ s)
    | Some idx =>
        let '(ls, r) := split_lines [] (drop (S idx) s) in ((cur ++ take idx s) :: ls, r)
    end.
Proof.
  revert cur. induction s as [|b s IH]; intros cur; cbn [split_lines IndexByte]; [by rewrite app_nil_r|].
  destruct (beq b Byte.x0a) eqn:Hb; cbn [drop take]; [by rewrite app_nil_r|].
  rewrite IH. destruct (IndexByte s Byte.x0a) as [idx|]; cbn [option_map drop take]; by rewrite <- app_assoc.
Qed.

Lemma IndexByte_lt s c i : IndexByte s c = Some i -> (i < length s)%nat.
Proof.
  revert i. induction s as [|b s IH]; intros i; cbn; [done|]. destruct (beq b c); [intros [= <-]; lia|].
  destruct (IndexByte s c) as [j|]; cbn; [|done]. intros [= <-]. specialize (IH j eq_refl). lia.
Qed.

Lemma log_all_cons w l ls {A} (k : M A) h : (log_all w (l :: ls) ;; k) h = (w_log w l ;; log_all w ls ;; k) h.
Proof.
  unfold log_all. cbn [foldM]. unfold bind. by destruct (w_log w l h) as [h' [[]| | | | ]].
Qed.

Lemma log_all_app w ls ls' {A} (k : M A) h :
  (log_all w (ls ++ ls') ;; k) h = (log_all w ls ;; log_all w ls' ;; k) h.
Proof.
  revert h. induction ls as [|l ls IH]; intros h; [done|]. cbn [app]. rewrite !log_all_cons.
  apply bind_ext; [done|]. intros _ h' _. apply IH.
Qed.

Lemma write_lines_spec fuel w bs buff h :
  (length bs <= fuel)%nat ->
  write_lines fuel w bs buff h =
    (log_all w (fst (split_lines buff bs)) ;; ret (snd (split_lines buff bs))) h.
Proof.
  revert bs buff h. induction fuel as [|n IH]; intros bs buff h Hn; destruct bs as [|b bs]; try done.
  - cbn in Hn. lia.
  - cbn [write_lines]. set (s := b :: bs) in *. rewrite split_lines_index. unfold writeLine.
    destruct (IndexByte s Byte.x0a) as [idx|] eqn:Hi.
    + apply IndexByte_lt in Hi.
      assert (length (drop (S idx) s) <= n)%nat as Hlen by (rewrite length_drop; lia).
      specialize (IH (drop (S idx) s)). destruct (split_lines [] (drop (S idx) s)) as [ls r] eqn:Hs.
      cbn [fst snd]. rewrite log_all_cons. destruct buff as [|x buff]; cbn [length Nat.eqb app].
      * rewrite bind_assoc. apply bind_ext; [done|]. intros _ h' _. rewrite bind_ret. cbn [fst snd].
        rewrite IH by done. by rewrite Hs.
      * rewrite bind_assoc. unfold w_flush. cbn [orb]. rewrite bind_assoc. apply bind_ext; [done|].
        intros _ h' _. rewrite !bind_ret. cbn [fst snd]. rewrite IH by done. by rewrite Hs.
    + rewrite bind_ret. cbn [fst snd]. rewrite IH by (cbn; lia). done.
Qed.

Lemma w_flush_last w buff h :
  w_flush w false buff h = (log_all w match buff with [] => [] | _ => [buff] end ;; ret []) h.
Proof.
  unfold w_flush. destruct buff as [|b buff]; [done|]. cbn [orb].
  rewrite (proj2 (Z.ltb_lt _ _)) by (cbn; lia). by rewrite log_all_cons.
Qed.

(** All the chunks, and then [Sync]. *)
Definition write_chunks (w : Writer) (chunks : list gostring) : M gostring :=
  foldM (fun buff bs => r <- w_Write w bs buff ;; ret r.2) chunks [].

Lemma write_chunks_spec w chunks buff h :
  (forall cells, core_Enabled cells (core_ (w_Log w)) (w_Level w) = true) ->
  foldM (fun buff bs => r <- w_Write w bs buff ;; ret r.2) chunks buff h =
    (log_all w (fst (split_lines buff (concat chunks))) ;;
     ret (snd (split_lines buff (concat chunks)))) h.
Proof.
  intros Hen. revert buff h. induction chunks as [|bs chunks IH]; intros buff h; [done|].
  cbn [foldM concat]. rewrite split_lines_app, bind_assoc. unfold w_Write.
  rewrite bind_assoc, (bind_ok get_heap _ h h h) by done. rewrite Hen. cbn [negb]. rewrite bind_assoc.
  rewrite (bind_ext _ _ _ _ h (write_lines_spec _ w bs buff h (le_n _)) (fun _ _ _ => eq_refl)).
  rewrite bind_assoc. destruct (split_lines buff bs) as [ls r]. cbn [fst snd].
  destruct (split_lines r (concat chunks)) as [ls' r'] eqn:Hs. cbn [fst snd].
  rewrite log_all_app. apply bind_ext; [done|]. intros _ h' _. rewrite !bind_ret. cbn [snd].
  rewrite IH, Hs. done.
Qed.

(** C35.  A [Writer] logs the lines of the stream, however it is cut into
    writes: writing any chunks and then [Sync] logs the lines of their
    concatenation, in order, each as one message, empty lines included, and a
    last line without newline if it has text; and the writer is empty again. *)
Theorem writer_logs_lines w chunks h
    (Hen : forall cells, core_Enabled cells (core_ (w_Log w)) (w_Level w) = true) :
  (buff <- write_chunks w chunks ;; w_Sync w buff) h =
    (log_all w (lines (concat chunks)) ;; ret (None, [])) h.
Proof.
  unfold write_chunks, lines.
  rewrite (bind_ext _ _ _ _ h (write_chunks_spec w chunks [] h Hen) (fun _ _ _ => eq_refl)).
  rewrite bind_assoc. destruct (split_lines [] (concat chunks)) as [ls r]. cbn [fst snd].
  rewrite log_all_app. apply bind_ext; [done|]. intros _ h' _. rewrite bind_ret. unfold w_Sync.
  rewrite (bind_ext _ _ _ _ h' (w_flush_last w r h') (fun _ _ _ => eq_refl)), bind_assoc. done.
Qed.
End Writer.

(** ** An instance *)

#[local] Existing Instance firstError.
#[local] Existing Instance exampleFmt.
#[local] Existing Instance exampleJson.
#[local] Existing Instance exampleFrames.

Lemma writer_logs_lines_witness :
  let w := mkWriter tracedLog WarnLevel in
  let nl := [Byte.x0a] in
  (buff <- write_chunks w [go "ab"; go "c" ++ nl ++ nl ++ go "d"; nl; go "e"] ;; w_Sync w buff) emptyHeap =
  (log_all w [go "abc"; []; go "d"; go "e"] ;; ret (None, [])) emptyHeap.
Proof.
  apply (writer_logs_lines (mkWriter tracedLog WarnLevel)
    [go "ab"; go "c" ++ [Byte.x0a] ++ [Byte.x0a] ++ go "d"; [Byte.x0a]; go "e"]).
  done.
Defined.
