(* ===== verification/Sugar.v ===== *)
(** * Sugar

    [sugar.go]: the loosely typed logger. *)
From S2P Require Import Prelude Strconv Utf8 Level Float GoTime Buffer Entry Values Field Sampler.
From S2P Require Import WriteSyncer Stacktrace Effects Core Logger.
Open Scope Z_scope.
Open Scope lad_scope.
Set Warnings "-register-all".

(** The functions of [fmt] that make a message of arguments; [Sprintln] always
    ends with a newline. *)
Class Sprint := {
  Sprintf : gostring -> list goval -> gostring;
  Sprint_ : list goval -> gostring;
  Sprintln : list goval -> gostring;
  Sprintln_newline args : exists s, Sprintln args = s ++ [Byte.x0a];
}.

Definition _oddNumberErrMsg : gostring := go "Ignored key without a value.".
Definition _nonStringKeyErrMsg : gostring := go "Ignored key-value pairs with non-string keys.".
Definition _multipleErrMsg : gostring := go "Multiple errors without a key.".

Definition as_Field (v : goval) : option field := match v with VField f => Some f | _ => None end.

Section Messages.
Context `{Sprint}.

Definition getMessage (template : gostring) (fmtArgs : list goval) : gostring :=
  match fmtArgs with
  | [] => template
  | _ =>
      if nonempty template then Sprintf template fmtArgs
      else
        match fmtArgs with
        | [VScalar KString str] => str
        | _ => Sprint_ fmtArgs
        end
  end.

Definition getMessageln (fmtArgs : list goval) : gostring :=
  let msg := Sprintln fmtArgs in take (length msg - 1) msg.
End Messages.

Section Sugar.
Context {E : Type} `{EntryEncoder E} `{MultiErr} `{Fmt} `{Frames} `{Sprint} `{GoRuntime}.

(** ** Pairs with keys that are no strings *)

Record invalidPair := mkInvalid { position : Z; ip_key : goval; ip_value : goval }.

Definition invalidPair_MarshalLogObject (p : invalidPair) : objm :=
  othen (AddPrim (go "position") (PInt64 (int64 (position p))))
    (obind (AddTo (Any (go "key") (ip_key p)))
       (fun _ => obind (AddTo (Any (go "value") (ip_value p))) (fun _ => ORet None))).

Fixpoint invalidPairs_loop (ps : list invalidPair) (err : error) : arrm :=
  match ps with
  | [] => ARet err
  | p :: ps =>
      ACall (AppendObject (invalidPair_MarshalLogObject p))
        (fun e => invalidPairs_loop ps (multierr_Append err e))
  end.

Definition invalidPairs_MarshalLogArray (ps : list invalidPair) : arrm := invalidPairs_loop ps None.

(** ** Loggers *)

Record SugaredLogger := mkSugared { base : Logger E }.

Definition add_skip (n : Z) (log : Logger E) : Logger E :=
  mkLogger (core_ log) (development log) (addCaller log) (onPanic log) (onFatal log) (name log)
    (errorOutput log) (addStack log) (int64 (callerSkip log + n)) (clock log).

(** [Logger.Sugar] *)
Definition Sugar (log : Logger E) : SugaredLogger := mkSugared (add_skip 2 log).

Definition Desugar (s : SugaredLogger) : Logger E := add_skip (-2) (base s).

Definition Sugar_Named (s : SugaredLogger) (nm : gostring) : SugaredLogger := mkSugared (Named (base s) nm).

Definition Sugar_WithOptions (s : SugaredLogger) (opts : list Option) : M SugaredLogger :=
  b <- WithOptions (base s) opts ;; ret (mkSugared b).

(** The loop of [sweetenFields], from position [i] on. *)
Fixpoint sweeten_loop (s : SugaredLogger) (args : list goval) (i : Z) (seenError : bool)
    (fields : list field) (invalid : list invalidPair) : M (list field * list invalidPair) :=
  match args with
  | [] => ret (fields, invalid)
  | arg :: rest =>
      match as_Field arg with
      | Some f => sweeten_loop s rest (i + 1) seenError (fields ++ [f]) invalid
      | None =>
          match as_error arg with
          | Some err =>
              if negb seenError then
                sweeten_loop s rest (i + 1) true (fields ++ [Field.Error (Some err)]) invalid
              else
                Logger.Error (base s) _multipleErrMsg [Field.Error (Some err)] ;;
                sweeten_loop s rest (i + 1) seenError fields invalid
          | None =>
              match rest with
              | [] =>
                  Logger.Error (base s) _oddNumberErrMsg [Any (go "ignored") arg] ;;
                  ret (fields, invalid)
              | val :: rest =>
                  match as_string arg with
                  | None =>
                      sweeten_loop s rest (i + 2) seenError fields (invalid ++ [mkInvalid i arg val])
                  | Some keyStr =>
                      sweeten_loop s rest (i + 2) seenError (fields ++ [Any keyStr val]) invalid
                  end
              end
          end
      end
  end.

Definition sweetenFields (s : SugaredLogger) (args : list goval) : M (list field) :=
  call (go "SugaredLogger.sweetenFields")
    match args with
    | [] => ret []
    | _ =>
        r <- sweeten_loop s args 0 false [] [] ;;
        match r.2 with
        | [] => ret r.1
        | invalid =>
            Logger.Error (base s) _nonStringKeyErrMsg
              [Array (go "invalid") (of_arrm (invalidPairs_MarshalLogArray invalid))] ;;
            ret r.1
        end
    end.

Definition Sugar_With (s : SugaredLogger) (args : list goval) : M SugaredLogger :=
  call (go "SugaredLogger.With")
    (fields <- sweetenFields s args ;; b <- Logger.With (base s) fields ;; ret (mkSugared b)).

Definition Sugar_WithLazy (once : nat) (s : SugaredLogger) (args : list goval) : M SugaredLogger :=
  call (go "SugaredLogger.WithLazy")
    (fields <- sweetenFields s args ;; b <- WithLazy once (base s) fields ;; ret (mkSugared b)).

Definition Sugar_Level (s : SugaredLogger) : M Z := Logger_Level (base s).

(** [log] and [logln] after the message is made. *)
Definition write_message (s : SugaredLogger) (lvl : Z) (msg : gostring) (context : list goval) : M unit :=
  ce <- Check_ (base s) lvl msg ;;
  match ce with
  | Some _ => fields <- sweetenFields s context ;; ce_Write ce fields ;; ret tt
  | None => ret tt
  end.

(** The test both make first. *)
Definition skips (s : SugaredLogger) (lvl : Z) (h : heap) : bool :=
  (lvl <? DPanicLevel) && negb (core_Enabled (h_cells h) (core_ (base s)) lvl).

Definition log_ (s : SugaredLogger) (lvl : Z) (template : gostring) (fmtArgs context : list goval) : M unit :=
  call (go "SugaredLogger.log")
    (h <- get_heap ;;
     if skips s lvl h then ret tt else write_message s lvl (getMessage template fmtArgs) context).

Definition logln (s : SugaredLogger) (lvl : Z) (fmtArgs context : list goval) : M unit :=
  call (go "SugaredLogger.logln")
    (h <- get_heap ;;
     if skips s lvl h then ret tt else write_message s lvl (getMessageln fmtArgs) context).

Definition Sugar_Log (s : SugaredLogger) (lvl : Z) (args : list goval) : M unit :=
  call (go "SugaredLogger.Log") (log_ s lvl [] args []).
Definition Logf (s : SugaredLogger) (lvl : Z) (template : gostring) (args : list goval) : M unit :=
  call (go "SugaredLogger.Logf") (log_ s lvl template args []).
Definition Logw (s : SugaredLogger) (lvl : Z) (msg : gostring) (keysAndValues : list goval) : M unit :=
  call (go "SugaredLogger.Logw") (log_ s lvl msg [] keysAndValues).
Definition Logln (s : SugaredLogger) (lvl : Z) (args : list goval) : M unit :=
  call (go "SugaredLogger.Logln") (logln s lvl args []).

(** The methods for one level. *)
Definition Sugar_Debug s args := call (go "SugaredLogger.Debug") (log_ s DebugLevel [] args []).
Definition Sugar_Info s args := call (go "SugaredLogger.Info") (log_ s InfoLevel [] args []).
Definition Sugar_Warn s args := call (go "SugaredLogger.Warn") (log_ s WarnLevel [] args []).
Definition Sugar_Error s args := call (go "SugaredLogger.Error") (log_ s ErrorLevel [] args []).
Definition Sugar_DPanic s args := call (go "SugaredLogger.DPanic") (log_ s DPanicLevel [] args []).
Definition Sugar_Panic s args := call (go "SugaredLogger.Panic") (log_ s PanicLevel [] args []).
Definition Sugar_Fatal s args := call (go "SugaredLogger.Fatal") (log_ s FatalLevel [] args []).

Definition Debugf s t args := call (go "SugaredLogger.Debugf") (log_ s DebugLevel t args []).
Definition Infof s t args := call (go "SugaredLogger.Infof") (log_ s InfoLevel t args []).
Definition Warnf s t args := call (go "SugaredLogger.Warnf") (log_ s WarnLevel t args []).
Definition Errorf s t args := call (go "SugaredLogger.Errorf") (log_ s ErrorLevel t args []).
Definition DPanicf s t args := call (go "SugaredLogger.DPanicf") (log_ s DPanicLevel t args []).
Definition Panicf s t args := call (go "SugaredLogger.Panicf") (log_ s PanicLevel t args []).
Definition Fatalf s t args := call (go "SugaredLogger.Fatalf") (log_ s FatalLevel t args []).

Definition Debugw s msg kvs := call (go "SugaredLogger.Debugw") (log_ s DebugLevel msg [] kvs).
Definition Infow s msg kvs := call (go "SugaredLogger.Infow") (log_ s InfoLevel msg [] kvs).
Definition Warnw s msg kvs := call (go "SugaredLogger.Warnw") (log_ s WarnLevel msg [] kvs).
Definition Errorw s msg kvs := call (go "SugaredLogger.Errorw") (log_ s ErrorLevel msg [] kvs).
Definition DPanicw s msg kvs := call (go "SugaredLogger.DPanicw") (log_ s DPanicLevel msg [] kvs).
Definition Panicw s msg kvs := call (go "SugaredLogger.Panicw") (log_ s PanicLevel msg [] kvs).
Definition Fatalw s msg kvs := call (go "SugaredLogger.Fatalw") (log_ s FatalLevel msg [] kvs).

Definition Debugln s args := call (go "SugaredLogger.Debugln") (logln s DebugLevel args []).
Definition Infoln s args := call (go "SugaredLogger.Infoln") (logln s InfoLevel args []).
Definition Warnln s args := call (go "SugaredLogger.Warnln") (logln s WarnLevel args []).
Definition Errorln s args := call (go "SugaredLogger.Errorln") (logln s ErrorLevel args []).
Definition DPanicln s args := call (go "SugaredLogger.DPanicln") (logln s DPanicLevel args []).
Definition Panicln s args := call (go "SugaredLogger.Panicln") (logln s PanicLevel args []).
Definition Fatalln s args := call (go "SugaredLogger.Fatalln") (logln s FatalLevel args []).

Definition Sugar_Sync (s : SugaredLogger) : M error := Logger_Sync (base s).
End Sugar.

Arguments SugaredLogger : clear implicits.
