(* ===== verification/SugarTheorems.v ===== *)
(** * SugarTheorems

    The properties of the sugared logger: what it makes of its arguments, and
    that it is the plain logger otherwise. *)
From S2P Require Import Prelude Strconv Utf8 Level Float GoTime Buffer Entry Values Field Sampler.
From S2P Require Import WriteSyncer Stacktrace Effects Core CoreProofs Frameless.
From S2P Require Import JsonEncoder JsonCore CoreTheorems Logger LoggerTheorems Sugar.
Open Scope Z_scope.
Open Scope lad_scope.
Set Warnings "-register-all".

(** ** Arguments *)

(** What a group of consecutive arguments is. *)
Inductive item : Type :=
| IField (f : field)
| IError (v : goval) (e : goerror)
| IPair (k : gostring) (v : goval)
| IBad (p : invalidPair)
| IOdd (v : goval).

Definition arguments (it : item) : list goval :=
  match it with
  | IField f => [VField f]
  | IError v _ => [v]
  | IPair k v => [VScalar KString k; v]
  | IBad p => [ip_key p; ip_value p]
  | IOdd v => [v]
  end.

Fixpoint items (args : list goval) (i : Z) : list item :=
  match args with
  | [] => []
  | arg :: rest =>
      match as_Field arg, as_error arg, rest with
      | Some f, _, _ => IField f :: items rest (i + 1)
      | None, Some e, _ => IError arg e :: items rest (i + 1)
      | None, None, [] => [IOdd arg]
      | None, None, val :: rest =>
          match as_string arg with
          | Some k => IPair k val :: items rest (i + 2)
          | None => IBad (mkInvalid i arg val) :: items rest (i + 2)
          end
      end
  end.

Section Sweeten.
Context `{MultiErr} `{GoRuntime}.

(** The fields the arguments give; only the first error counts. *)
Fixpoint kept (seen : bool) (its : list item) : list field :=
  match its with
  | [] => []
  | IField f :: its => f :: kept seen its
  | IError _ e :: its => if seen then kept seen its else Field.Error (Some e) :: kept true its
  | IPair k v :: its => Any k v :: kept seen its
  | (IBad _ | IOdd _) :: its => kept seen its
  end.

(** The misuses reported while the arguments are read, with their fields. *)
Fixpoint complaints (seen : bool) (its : list item) : list (gostring * list field) :=
  match its with
  | [] => []
  | IError _ e :: its =>
      if seen then (_multipleErrMsg, [Field.Error (Some e)]) :: complaints seen its else complaints true its
  | IOdd v :: its => (_oddNumberErrMsg, [Any (go "ignored") v]) :: complaints seen its
  | (IField _ | IPair _ _ | IBad _) :: its => complaints seen its
  end.

Fixpoint bad_pairs (its : list item) : list invalidPair :=
  match its with
  | [] => []
  | IBad p :: its => p :: bad_pairs its
  | _ :: its => bad_pairs its
  end.

(** All misuses; the pairs with bad keys come last, together. *)
Definition misuses (its : list item) : list (gostring * list field) :=
  complaints false its ++
  match bad_pairs its with
  | [] => []
  | ps => [(_nonStringKeyErrMsg, [Array (go "invalid") (of_arrm (invalidPairs_MarshalLogArray ps))])]
  end.
End Sweeten.

(** The pairs of arguments are read two at a time. *)
Lemma args_ind (P : list goval -> Prop) :
  P [] -> (forall a, P [a]) -> (forall a b l, P l -> P (b :: l) -> P (a :: b :: l)) -> forall l, P l.
Proof.
  intros H0 H1 H2 l. cut (P l /\ forall a, P (a :: l)); [tauto|].
  induction l as [|b l [IH1 IH2]]; auto.
Qed.

Lemma items_cons arg rest i :
  items (arg :: rest) i =
    match as_Field arg, as_error arg, rest with
    | Some f, _, _ => IField f :: items rest (i + 1)
    | None, Some e, _ => IError arg e :: items rest (i + 1)
    | None, None, [] => [IOdd arg]
    | None, None, val :: rest =>
        match as_string arg with
        | Some k => IPair k val :: items rest (i + 2)
        | None => IBad (mkInvalid i arg val) :: items rest (i + 2)
        end
    end.
Proof. reflexivity. Qed.

Lemma as_Field_inv v f : as_Field v = Some f -> v = VField f.
Proof. destruct v; cbn; congruence. Qed.

Lemma as_string_inv v k : as_string v = Some k -> v = VScalar KString k.
Proof. destruct v as [ |[] | | | | | | | ]; cbn; congruence. Qed.

Lemma items_arguments args i : concat (map arguments (items args i)) = args.
Proof.
  revert i. induction args as [|a|a b l IH1 IH2] using args_ind; intros i;
    [done|rewrite items_cons..];
    (destruct (as_Field a) as [f|] eqn:Hf; [apply as_Field_inv in Hf as ->|]).
  - done.
  - by destruct (as_error a).
  - cbn [map concat arguments]. by rewrite IH2.
  - destruct (as_error a) as [e|]; [cbn [map concat arguments]; by rewrite IH2|].
    destruct (as_string a) as [k|] eqn:Hk; cbn [map concat arguments ip_key ip_value]; rewrite IH1; [|done].
    by apply as_string_inv in Hk as ->.
Qed.

Section Sugar.
Context {E : Type} `{EntryEncoder E} `{MultiErr} `{Fmt} `{Frames} `{Sprint} `{GoRuntime}.
Implicit Types (log : Logger E) (s : SugaredLogger E).

Definition complain s (ms : list (gostring * list field)) : M unit :=
  foldM (fun _ m => Logger.Error (base s) m.1 m.2) ms tt.

Lemma complain_app s ms ns h : complain s (ms ++ ns) h = (complain s ms ;; complain s ns) h.
Proof.
  revert h. induction ms as [|m ms IH]; intros h; [done|]. unfold complain in *. cbn [app foldM].
  rewrite bind_assoc. apply bind_ext; [done|]. intros [] h' _. apply IH.
Qed.

Lemma sweeten_loop_cons s arg rest i seen fields invalid :
  sweeten_loop s (arg :: rest) i seen fields invalid =
    match as_Field arg with
    | Some f => sweeten_loop s rest (i + 1) seen (fields ++ [f]) invalid
    | None =>
        match as_error arg with
        | Some err =>
            if negb seen then
              sweeten_loop s rest (i + 1) true (fields ++ [Field.Error (Some err)]) invalid
            else
              Logger.Error (base s) _multipleErrMsg [Field.Error (Some err)] ;;
              sweeten_loop s rest (i + 1) seen fields invalid
        | None =>
            match rest with
            | [] =>
                Logger.Error (base s) _oddNumberErrMsg [Any (go "ignored") arg] ;; ret (fields, invalid)
            | val :: rest =>
                match as_string arg with
                | None => sweeten_loop s rest (i + 2) seen fields (invalid ++ [mkInvalid i arg val])
                | Some keyStr => sweeten_loop s rest (i + 2) seen (fields ++ [Any keyStr val]) invalid
                end
            end
        end
    end.
Proof. reflexivity. Qed.

Lemma sweeten_loop_spec s args i seen fields invalid h :
  sweeten_loop s args i seen fields invalid h =
    (complain s (complaints seen (items args i)) ;;
     ret (fields ++ kept seen (items args i), invalid ++ bad_pairs (items args i))) h.
Proof.
  revert i seen fields invalid h.
  induction args as [|a|a b l IH1 IH2] using args_ind; intros i seen fields invalid h;
    [cbn; by rewrite !app_nil_r|rewrite items_cons, sweeten_loop_cons..];
    (destruct (as_Field a) as [f|]; [|destruct (as_error a) as [e|]; [destruct seen|]]); cbn [negb].
  - cbn. by rewrite app_nil_r.
  - cbn. unfold complain. cbn [foldM]. rewrite bind_assoc. apply bind_ext; [done|].
    intros [] h' _. cbn. by rewrite !app_nil_r.
  - cbn. by rewrite app_nil_r.
  - cbn. unfold complain. cbn [foldM]. rewrite bind_assoc. apply bind_ext; [done|].
    intros [] h' _. cbn. by rewrite !app_nil_r.
  - rewrite IH2. cbn [kept complaints bad_pairs]. by rewrite <- app_assoc.
  - cbn [kept complaints bad_pairs]. unfold complain. cbn [foldM]. rewrite bind_assoc. apply bind_ext; [done|].
    intros [] h' _. apply IH2.
  - rewrite IH2. cbn [kept complaints bad_pairs]. by rewrite <- app_assoc.
  - destruct (as_string a) as [k|]; rewrite IH1; cbn [kept complaints bad_pairs]; by rewrite <- app_assoc.
Qed.

(** C33.  No argument of a sugared call is lost: the arguments split, in order,
    into fields, errors, pairs and misuses; the call adds the fields, the first
    error and the pairs with string keys, in their order, and logs an error for
    each further error and a key without value, and one for all the keys that
    are no strings. *)
Theorem sweeten_accounts_for_all s args h :
  concat (map arguments (items args 0)) = args /\
  sweetenFields s args h =
    call (go "SugaredLogger.sweetenFields")
      (complain s (misuses (items args 0)) ;; ret (kept false (items args 0))) h.
Proof.
  split; [apply items_arguments|]. unfold sweetenFields, call. set (h1 := set_frames _ h).
  destruct args as [|a args]; [done|]. generalize (a :: args) as l. intros l.
  rewrite (bind_ext _ _ _ _ h1 (sweeten_loop_spec s l 0 false [] [] h1) (fun _ _ _ => eq_refl)).
  set (its := items l 0). rewrite bind_assoc. unfold misuses. cbn [app].
  rewrite (bind_ext _ _ _ (fun _ => ret (kept false its)) h1 (complain_app s (complaints false its) _ h1)
             (fun _ _ _ => eq_refl)), bind_assoc.
  erewrite (bind_ext (complain s (complaints false its)) _ _ _ h1 eq_refl); [reflexivity|].
  intros [] h2 _. rewrite bind_ret. cbn [fst snd]. destruct (bad_pairs its) as [|p ps]; [done|].
  unfold complain. cbn [foldM fst snd]. rewrite bind_assoc. apply bind_ext; [done|]. by intros [] h3 _.
Qed.

(** ** The same call site *)

(** Two computations that differ in the stack they run on. *)
Definition twins {A} (m1 m2 : M A) (F1 F2 : list Frame) (h : heap) : Prop :=
  exists h' r, m1 (set_frames F1 h) = (set_frames F1 h', r) /\ m2 (set_frames F2 h) = (set_frames F2 h', r).

Lemma twins_frameless {A} (m : M A) F1 F2 h : frameless m -> twins m m F1 F2 h.
Proof. intros Hm. exists (m h).1, (m h).2. split; apply Hm. Qed.

Lemma twins_bind {A B} (m1 m2 : M A) (k1 k2 : A -> M B) F1 F2 h :
  twins m1 m2 F1 F2 h -> (forall a h, twins (k1 a) (k2 a) F1 F2 h) ->
  twins (bind m1 k1) (bind m2 k2) F1 F2 h.
Proof.
  intros (h' & r & H1' & H2') Hk. unfold twins, bind. rewrite H1', H2'.
  destruct r as [a|v| |x| ]; [apply Hk|by eexists _, _..].
Qed.

Lemma Capture_pcs stack skip depth :
  exists st, Capture stack skip depth 64 = Some st /\
    pcs st = match depth with First => take 1 (drop skip stack) | Full => drop skip stack end.
Proof.
  unfold Capture. destruct depth; [by eexists|].
  destruct (grow_captures (S (length stack)) stack skip 64) as (r & -> & _); [lia..|]. by eexists.
Qed.

Lemma twins_annotate log ent (ce : CheckedEntry E) F1 F2 h :
  drop (Z.to_nat (callerSkip log + callerSkipOffset)) F1 =
  drop (Z.to_nat (callerSkip (add_skip 2 log) + callerSkipOffset)) F2 ->
  twins (annotate log ent ce) (annotate (add_skip 2 log) ent ce) F1 F2 h.
Proof.
  intros Hdrop. unfold twins, annotate.
  rewrite !(bind_ok get_heap _ _ _ _ eq_refl). cbn [h_cells set_frames].
  change (addStack (add_skip 2 log)) with (addStack log). change (addCaller (add_skip 2 log)) with (addCaller log).
  change (errorOutput (add_skip 2 log)) with (errorOutput log).
  destruct (negb (addCaller log) && _); [by eexists h, _|]. cbn [h_frames set_frames].
  set (d := if Enabled _ _ _ then Full else First).
  destruct (Capture_pcs F1 (Z.to_nat (callerSkip log + callerSkipOffset)) d) as (st1 & -> & Hp1).
  destruct (Capture_pcs F2 (Z.to_nat (callerSkip (add_skip 2 log) + callerSkipOffset)) d) as (st2 & -> & Hp2).
  unfold Count. rewrite <- Hdrop in Hp2. rewrite Hp1, Hp2.
  refine (twins_frameless _ F1 F2 h _). clear.
  destruct (Z.of_nat _ =? 0); [destruct (addCaller log); auto with frames|].
  - repeat (apply frameless_bind; auto with frames; intros).
  - destruct (Next _) as [[frame more] rest]. destruct (Enabled _ _ _); auto with frames.
Qed.

Lemma terminal_add_skip n log ent ce : terminal (add_skip n log) ent ce = terminal log ent ce.
Proof. done. Qed.

Lemma twins_check log lvl msg F1 F2 h :
  drop (Z.to_nat (callerSkip log + callerSkipOffset)) F1 =
  drop (Z.to_nat (callerSkip (add_skip 2 log) + callerSkipOffset)) F2 ->
  frameless (clock log) ->
  twins (check_body log lvl msg) (check_body (add_skip 2 log) lvl msg) F1 F2 h.
Proof.
  intros Hdrop Hclock. unfold check_body, twins.
  rewrite !(bind_ok get_heap _ _ _ _ eq_refl). cbn [h_cells set_frames].
  change (core_ (add_skip 2 log)) with (core_ log). change (clock (add_skip 2 log)) with (clock log).
  change (name (add_skip 2 log)) with (name log).
  destruct ((lvl <? DPanicLevel) && _); [by eexists h, _|].
  apply twins_bind; [by apply twins_frameless|]. intros now h1.
  apply twins_bind; [by apply twins_frameless, frameless_Check|]. intros ce h2.
  rewrite terminal_add_skip. destruct (terminal log _ ce) as [ce'|]; [|by apply twins_frameless].
  destruct ce as [ce|]; [|by apply twins_frameless].
  apply twins_bind; [by apply twins_annotate|]. intros ce1 h3. by apply twins_frameless.
Qed.

(** What both loggers do once the entry is checked. *)
Definition finish (fields : list field) (ce : option (CheckedEntry E)) : M unit :=
  match ce with
  | Some _ => ce_Write ce fields ;; ret tt
  | None => ret tt
  end.

Lemma frameless_finish fields ce : frameless (finish fields ce).
Proof.
  destruct ce as [ce|]; [|done]. apply frameless_bind; [apply frameless_ce_Write|done].
Qed.

Lemma sweeten_well_formed s args h :
  misuses (items args 0) = [] -> sweetenFields s args h = (h, ROk (kept false (items args 0))).
Proof.
  intros Hm. destruct args as [|a args]; [by destruct h|]. unfold sweetenFields, call.
  set (h1 := set_frames _ h). unfold misuses in Hm. apply app_eq_nil in Hm as [Hc Hb].
  rewrite (bind_ok _ _ _ h1 (kept false (items (a :: args) 0), bad_pairs (items (a :: args) 0))).
  - cbn [snd fst]. destruct (bad_pairs (items (a :: args) 0)); [|done]. cbn. by destruct h.
  - rewrite sweeten_loop_spec, Hc. done.
Qed.

Lemma sugared_check log lvl msg h :
  0 <= callerSkip log < 2 ^ 62 -> frameless (clock log) ->
  call (go "Logger.Log") (check log lvl msg) h =
    call (go "SugaredLogger.Logw") (call (go "SugaredLogger.log") (Check_ (add_skip 2 log) lvl msg)) h.
Proof.
  intros Hskip Hclock.
  assert (callerSkip (add_skip 2 log) = callerSkip log + 2) as Hcs.
  { cbn. apply wrapS_id; [lia|unfold inS; lia]. }
  unfold Check_, check.
  destruct (twins_check log lvl msg
    (frame_of (go "Logger.check") :: frame_of (go "Logger.Log") :: h_frames h)
    (frame_of (go "Logger.check") :: frame_of (go "Logger.Check") :: frame_of (go "SugaredLogger.log")
       :: frame_of (go "SugaredLogger.Logw") :: h_frames h) h) as (h' & r & Ht1 & Ht2); [|done|].
  - rewrite Hcs. unfold callerSkipOffset.
    replace (Z.to_nat (callerSkip log + 2)) with (2 + Z.to_nat (callerSkip log))%nat by lia.
    by replace (Z.to_nat (callerSkip log + 2 + 2)) with (4 + Z.to_nat (callerSkip log))%nat by lia.
  - unfold call, set_frames in *.
    cbn [h_frames h_cells h_world h_counters h_observed h_once h_events h_times] in *.
    by rewrite Ht1, Ht2.
Qed.

(** C7.  Sugar changes nothing but the syntax.  With well formed arguments
    [Logw] on [logger.Sugar()] is [Log] on the logger with the fields the
    arguments denote: same entries, same outputs, same panics, and the same
    call site and stack trace, whatever the core and the options. *)
Theorem sugared_is_plain log lvl msg kvs h
    (Hargs : misuses (items kvs 0) = []) (Hskip : 0 <= callerSkip log < 2 ^ 62)
    (Hclock : frameless (clock log)) :
  Logw (Sugar log) lvl msg kvs h = Log log lvl msg (kept false (items kvs 0)) h.
Proof.
  set (fields := kept false (items kvs 0)). set (log2 := add_skip 2 log).
  assert (forall h, write_message (Sugar log) lvl msg kvs h = (ce <- Check_ log2 lvl msg ;; finish fields ce) h) as Hw.
  { clear h. intros h. unfold write_message. apply bind_ext; [done|]. intros [ce|] h' _; [|done].
    by rewrite (bind_ok _ _ _ _ _ (sweeten_well_formed _ kvs h' Hargs)). }
  pose proof (sugared_check log lvl msg h Hskip Hclock) as Hcheck. fold log2 in Hcheck.
  unfold Log, log_body. change (fun ce => match ce with Some _ => _ | None => _ end) with (finish fields).
  rewrite (call_bind (go "Logger.Log") (check log lvl msg) (finish fields)) by apply frameless_finish.
  destruct (skips (Sugar log) lvl h) eqn:Hs.
  - unfold Logw, log_. transitivity (h, ROk tt).
    + unfold call. rewrite (bind_ok get_heap _ _ _ _ eq_refl).
      assert (forall F x, skips (Sugar log) lvl (set_frames F x) = skips (Sugar log) lvl x) as Hsk by done.
      rewrite !Hsk, Hs. by destruct h.
    + unfold skips in Hs. cbn [base Sugar] in Hs. change (core_ (add_skip 2 log)) with (core_ log) in Hs.
      unfold check, call, check_body, bind. cbn [get_heap h_cells set_frames]. rewrite Hs. by destruct h.
  - rewrite (bind_ext _ _ (finish fields) (finish fields) h Hcheck (fun _ _ _ => eq_refl)).
    rewrite <- call_bind by apply frameless_finish. unfold Logw, log_.
    unfold call at 1 3.
    set (h1 := set_frames _ h). rewrite <- call_bind by apply frameless_finish.
    unfold call at 1 2. set (h2 := set_frames _ h1).
    rewrite (bind_ok get_heap _ h2 h2 h2 eq_refl). change (skips (Sugar log) lvl h2) with (skips (Sugar log) lvl h).
    rewrite Hs. change (getMessage msg []) with msg. by rewrite Hw.
Qed.
End Sugar.

(** ** Instances *)

Definition exampleSprint : Sprint.
Proof.
  refine {| Sprintf t _ := t; Sprint_ _ := go "text"; Sprintln _ := go "text" ++ [Byte.x0a] |}.
  by eexists.
Defined.

#[local] Existing Instance firstError.
#[local] Existing Instance exampleFmt.
#[local] Existing Instance exampleJson.
#[local] Existing Instance exampleFrames.
#[local] Existing Instance exampleSprint.
#[local] Existing Instance exampleRuntime.

Lemma sugared_is_plain_witness :
  Logw (Sugar tracedLog) ErrorLevel (go "x") [VScalar KString (go "k"); VScalar KInt 1] framedHeap =
  Log tracedLog ErrorLevel (go "x") [Int (go "k") 1] framedHeap.
Proof.
  apply (sugared_is_plain tracedLog ErrorLevel (go "x") [VScalar KString (go "k"); VScalar KInt 1]).
  - reflexivity.
  - cbn. lia.
  - apply frameless_Now.
Defined.

(** A program of two functions over the runtime's. *)
Definition mainFrames : list Frame :=
  [mkFrame 1 (go "main.serve") (go "/app/main.go") 7; mkFrame 2 (go "main.main") (go "/app/main.go") 3;
   mkFrame 3 (go "runtime.goexit") (go "asm.s") 1].

Definition calledLog : Logger jsonEncoder :=
  mkLogger (CObserver (ELevel InfoLevel) 9 []) false true None None [] (WDevice 2)
    (ELevel (FatalLevel + 1)) 0 Now.

Definition callers (h : heap) : list gostring :=
  map (fun l => Function_ (e_Caller (l_Entry l))) (default [] (h_observed h !! 9%nat)).

(** The report of a misused logging call blames the library: for a key
    without a value given to [Infow], the entry itself names the function that
    called [Infow] as its caller, but the error about the key names [Infow],
    because [sweetenFields] runs one call deeper there than the skip allows
    for; given to [With], the error names the right function. *)
Theorem misuse_report_blames_infow :
  let h := mkHeap ∅ (mkWorld ∅ ∅ ∅) ∅ ∅ ∅ [] [] mainFrames in
  callers (fst (Infow (Sugar calledLog) (go "hi") [VScalar KString (go "key")] h)) =
    [go "SugaredLogger.Infow"; go "main.serve"] /\
  callers (fst (Sugar_With (Sugar calledLog) [VScalar KString (go "key")] h)) = [go "main.serve"].
Proof. split; vm_compute; reflexivity. Qed.
