(* ===== verification/Sinks.v ===== *)
(** * Sinks

    [sink.go] and [writer.go]: from URLs to the write syncers of a logger.  The
    files and other sinks opened, and which of them were closed, are a state of
    their own. *)
From S2P Require Import Prelude Strconv Utf8 Level Float GoTime Buffer Entry Values Field Encoder.
From S2P Require Import WriteSyncer Sampler Stacktrace Effects Core Logger Encoders.
Open Scope Z_scope.

(** ** URLs *)

(** A [*url.URL]: what the code reads of it.  [u_Hostname] and [u_Port] are what
    the methods return, [u_User] whether there is user information. *)
Record URL := mkURL {
  u_Scheme : gostring;
  u_User : bool;
  u_Hostname : gostring;
  u_Port : gostring;
  u_Path : gostring;
  u_RawQuery : gostring;
  u_Fragment : gostring;
}.

(** [url.Parse] of [net/url], and ["%v"] on a URL. *)
Class UrlLib := {
  url_Parse : gostring -> URL + goerror;
  fmt_url : URL -> gostring;
}.

(** ["%q"] on a byte. *)
Class QuotingByte := { fmt_qc : byte -> gostring }.

(** [filepath.IsAbs] on Unix *)
Definition IsAbs (path : gostring) : bool := match path with b :: _ => beq b Byte.x2f | [] => false end.

(** ** The open sinks *)

(** Every sink but the standard streams has a handle, which is closed or not. *)
Record files := mkFiles { f_opened : list (nat * gostring); f_closed : list nat }.

Definition next_handle (fl : files) : nat := 3 + length (f_opened fl).

Definition opening (path : gostring) (fl : files) : files :=
  mkFiles (f_opened fl ++ [(next_handle fl, path)]) (f_closed fl).

(** A [Sink]; [nopCloserSink] has nothing to close. *)
Record Sink := mkSink { sk_ws : WriteSyncer; sk_closer : option nat }.

Definition Close (s : Sink) (fl : files) : files :=
  match sk_closer s with
  | Some n => mkFiles (f_opened fl) (f_closed fl ++ [n])
  | None => fl
  end.

Definition schemeFile : gostring := go "file".

(** The factory for files is a method of the registry; a user's makes a write
    syncer of a URL, or fails. *)
Inductive factory : Type :=
| FFile
| FUser (f : URL -> WriteSyncer + goerror).

(** [openFile] says which paths the system refuses to open. *)
Record sinkRegistry := mkRegistry {
  factories : gmap gostring factory;
  openFile : gostring -> error;
}.

Section Sinks.
Context `{UnicodeTables} `{UrlLib} `{Quoting} `{QuotingByte} `{Fmt} `{MultiErr}.

Definition errSinkNotFound (scheme : gostring) : goerror :=
  newError (go "no sink found for scheme " ++ fmt_q scheme).

(** ** Schemes *)

Definition scheme_letter (c : byte) : bool := (97 <=? bz c) && (bz c <=? 122).
Definition scheme_digit (c : byte) : bool := (48 <=? bz c) && (bz c <=? 57).
Definition scheme_mark (c : byte) : bool := beq c Byte.x2e || beq c Byte.x2b || beq c Byte.x2d.

(** The loop over the bytes after the first: the first byte not allowed. *)
Fixpoint bad_byte (s : gostring) : option byte :=
  match s with
  | [] => None
  | c :: s => if scheme_letter c || scheme_digit c || scheme_mark c then bad_byte s else Some c
  end.

(** The first byte is indexed without a check. *)
Definition normalizeScheme (s : gostring) : outcome (gostring + goerror) :=
  let s := ToLower s in
  match s with
  | [] => Panic (go "runtime error: index out of range [0] with length 0")
  | first :: rest =>
      if negb (scheme_letter first) then Ret (inr (newError (go "must start with a letter")))
      else
        match bad_byte rest with
        | Some c => Ret (inr (newError (go "may not contain " ++ fmt_qc c)))
        | None => Ret (inl s)
        end
  end.

Definition sr_RegisterSink (sr : sinkRegistry) (scheme : gostring) (f : factory) : outcome (sinkRegistry * error) :=
  if negb (nonempty scheme) then
    Ret (sr, Some (newError (go "can't register a sink factory for empty string")))
  else
    match normalizeScheme scheme with
    | Panic v => Panic v
    | Ret (inr err) =>
        Ret (sr, Some (newError (fmt_q scheme ++ go " is not a valid scheme: " ++ fmt_error err)))
    | Ret (inl normalized) =>
        match factories sr !! normalized with
        | Some _ =>
            Ret (sr, Some (newError (go "sink factory already registered for scheme " ++ fmt_q normalized)))
        | None => Ret (mkRegistry (<[normalized := f]> (factories sr)) (openFile sr), None)
        end
    end.

(** The error of registering the file factory is dropped. *)
Definition newSinkRegistry (os_OpenFile : gostring -> error) : sinkRegistry :=
  let sr := mkRegistry ∅ os_OpenFile in
  match sr_RegisterSink sr schemeFile FFile with Ret (sr, _) => sr | Panic _ => sr end.

(** ** Opening *)

Definition newFileSinkFromPath (sr : sinkRegistry) (path : gostring) (fl : files) : files * (Sink + goerror) :=
  if streq path (go "stdout") then (fl, inl (mkSink (WDevice os_Stdout) None))
  else if streq path (go "stderr") then (fl, inl (mkSink (WDevice os_Stderr) None))
  else
    match openFile sr path with
    | Some err => (fl, inr err)
    | None => (opening path fl, inl (mkSink (WDevice (next_handle fl)) (Some (next_handle fl))))
    end.

(** What a file URL must not have. *)
Definition file_url_error (u : URL) : error :=
  let bad what := Some (newError (what ++ go ": got " ++ fmt_url u)) in
  if u_User u then bad (go "user and password not allowed with file URLs")
  else if nonempty (u_Fragment u) then bad (go "fragments not allowed with file URLs")
  else if nonempty (u_RawQuery u) then bad (go "query parameters not allowed with file URLs")
  else if nonempty (u_Port u) then bad (go "ports not allowed with file URLs")
  else if nonempty (u_Hostname u) && negb (streq (u_Hostname u) (go "localhost"))
       then bad (go "file URLs must leave host empty or use localhost")
  else None.

Definition newFileSinkFromURL (sr : sinkRegistry) (u : URL) (fl : files) : files * (Sink + goerror) :=
  match file_url_error u with
  | Some err => (fl, inr err)
  | None => newFileSinkFromPath sr (u_Path u) fl
  end.

(** A factory of a user opens something of its own for the URL, or fails. *)
Definition run_factory (sr : sinkRegistry) (f : factory) (u : URL) (fl : files) : files * (Sink + goerror) :=
  match f with
  | FFile => newFileSinkFromURL sr u fl
  | FUser f =>
      match f u with
      | inl ws => (opening (fmt_url u) fl, inl (mkSink ws (Some (next_handle fl))))
      | inr err => (fl, inr err)
      end
  end.

Definition set_scheme (s : gostring) (u : URL) : URL :=
  mkURL s (u_User u) (u_Hostname u) (u_Port u) (u_Path u) (u_RawQuery u) (u_Fragment u).

Definition newSink (sr : sinkRegistry) (rawURL : gostring) (fl : files) : files * (Sink + goerror) :=
  if IsAbs rawURL then newFileSinkFromPath sr rawURL fl
  else
    match url_Parse rawURL with
    | inr err =>
        (fl, inr (newError (go "can't parse " ++ fmt_q rawURL ++ go " as a URL: " ++ fmt_error err)))
    | inl u =>
        let u := if nonempty (u_Scheme u) then u else set_scheme schemeFile u in
        match factories sr !! u_Scheme u with
        | None => (fl, inr (errSinkNotFound (u_Scheme u)))
        | Some f => run_factory sr f u fl
        end
    end.

Definition closeAll (closers : list Sink) (fl : files) : files := fold_left (fun fl c => Close c fl) closers fl.

(** The loop of [open]: the sinks so far and the errors so far. *)
Fixpoint open_loop (sr : sinkRegistry) (paths : list gostring) (sinks : list Sink) (openErr : error) (fl : files) :
    files * (list Sink * error) :=
  match paths with
  | [] => (fl, (sinks, openErr))
  | path :: paths =>
      match newSink sr path fl with
      | (fl, inr err) =>
          open_loop sr paths sinks
            (multierr_Append openErr
               (Some (newError (go "open sink " ++ fmt_q path ++ go ": " ++ fmt_error err)))) fl
      | (fl, inl s) => open_loop sr paths (sinks ++ [s]) openErr fl
      end
  end.

(** [open]: the writers, which are also the closers. *)
Definition open_ (sr : sinkRegistry) (paths : list gostring) (fl : files) : files * (list Sink + goerror) :=
  let '(fl, (sinks, openErr)) := open_loop sr paths [] None fl in
  match openErr with
  | Some err => (closeAll sinks fl, inr err)
  | None => (fl, inl sinks)
  end.

Definition CombineWriteSyncers (writers : list WriteSyncer) : WriteSyncer :=
  match writers with
  | [] => AddSync io_Discard false
  | _ => Lock (NewMultiWriteSyncer writers)
  end.

(** [Open]: the writer and what [closeAll] will close. *)
Definition Open (sr : sinkRegistry) (paths : list gostring) (fl : files) :
    files * (WriteSyncer * list Sink + goerror) :=
  match open_ sr paths fl with
  | (fl, inr err) => (fl, inr err)
  | (fl, inl sinks) => (fl, inl (CombineWriteSyncers (map sk_ws sinks), sinks))
  end.
End Sinks.

(** ** Properties *)

Section OpenProofs.
Context `{UnicodeTables} `{UrlLib} `{Quoting} `{QuotingByte} `{Fmt} `{MultiErr}.

Definition noFiles : files := mkFiles [] [].

(** Whether a path can be opened. *)
Definition openable (sr : sinkRegistry) (path : gostring) : bool :=
  match snd (newSink sr path noFiles) with inl _ => true | inr _ => false end.

(** What opening a path does, whatever is open already. *)
Inductive opens (m : files -> files * (Sink + goerror)) : bool -> Prop :=
| opens_error e : (forall fl, m fl = (fl, inr e)) -> opens m false
| opens_std ws : (forall fl, m fl = (fl, inl (mkSink ws None))) -> opens m true
| opens_new path ws :
    (forall fl, m fl = (opening path fl, inl (mkSink (ws fl) (Some (next_handle fl))))) -> opens m true.

Local Ltac opens_by c := eexists; eapply c; intros ?; reflexivity.

Lemma path_opens sr path : exists b, opens (newFileSinkFromPath sr path) b.
Proof.
  unfold newFileSinkFromPath. destruct (streq path (go "stdout")); [opens_by opens_std|].
  destruct (streq path (go "stderr")); [opens_by opens_std|].
  destruct (openFile sr path); [opens_by opens_error|]. exists true.
  by apply opens_new with (path := path) (ws := fun fl => WDevice (next_handle fl)).
Qed.

Lemma factory_opens sr f u : exists b, opens (run_factory sr f u) b.
Proof.
  unfold run_factory, newFileSinkFromURL. destruct f as [|f].
  - destruct (file_url_error u); [opens_by opens_error|apply path_opens].
  - destruct (f u) as [ws|e]; [|opens_by opens_error]. exists true.
    by apply opens_new with (path := fmt_url u) (ws := fun _ => ws).
Qed.

Lemma newSink_opens sr raw : opens (newSink sr raw) (openable sr raw).
Proof.
  assert (exists b, opens (newSink sr raw) b) as [b Hb].
  { unfold newSink. destruct (IsAbs raw); [apply path_opens|]. destruct (url_Parse raw) as [u|e]; [|opens_by opens_error].
    set (u' := if nonempty (u_Scheme u) then u else set_scheme schemeFile u).
    destruct (factories sr !! u_Scheme u'); [apply factory_opens|opens_by opens_error]. }
  destruct Hb as [e He|ws Hs|path ws Hn]; unfold openable; [rewrite He|rewrite Hs|rewrite Hn]; cbn;
    [by eapply opens_error|by eapply opens_std|by eapply opens_new].
Qed.

(** The sink is what [newSink] made of the path at some moment. *)
Definition sink_of (sr : sinkRegistry) (path : gostring) (s : Sink) : Prop :=
  exists fl, snd (newSink sr path fl) = inl s.

Lemma open_loop_spec sr paths sinks openErr fl :
  let '(fl', (sinks', openErr')) := open_loop sr paths sinks openErr fl in
  exists opened news,
    f_opened fl' = f_opened fl ++ opened /\ f_closed fl' = f_closed fl /\ sinks' = sinks ++ news /\
    omap sk_closer news = map fst opened /\
    (openErr' = None <-> openErr = None /\ forallb (openable sr) paths = true) /\
    (forallb (openable sr) paths = true -> Forall2 (sink_of sr) paths news).
Proof.
  revert sinks openErr fl. induction paths as [|path paths IH]; intros sinks openErr fl.
  - exists [], []. cbn. rewrite !app_nil_r. split_and!; [done..|tauto|constructor].
  - cbn [open_loop forallb]. destruct (newSink_opens sr path) as [e He|ws Hs|pth ws Hn];
      [rewrite He|rewrite Hs|rewrite Hn]; cbn [andb].
    + set (openErr1 := multierr_Append openErr _).
      assert (openErr1 <> None) as Hne.
      { unfold openErr1. destruct openErr as [a|]; [|by rewrite Append_nil_l].
        destruct (Append_some a (newError (go "open sink " ++ fmt_q path ++ go ": " ++ fmt_error e))) as [x Hx].
        by rewrite Hx. }
      specialize (IH sinks openErr1 fl). destruct (open_loop sr paths sinks openErr1 fl) as [fl' [sinks' err']].
      destruct IH as (opened & news & Ho & Hc & Hs & Hcl & Hi & _). exists opened, news.
      split_and!; try done. rewrite Hi. split; [by intros [? _]|by intros [_ ?]].
    + specialize (IH (sinks ++ [mkSink ws None]) openErr fl).
      destruct (open_loop sr paths _ openErr fl) as [fl' [sinks' err']].
      destruct IH as (opened & news & Ho & Hc & Hss & Hcl & Hi & Hf). exists opened, (mkSink ws None :: news).
      split_and!; try done; [by rewrite Hss, <- app_assoc|]. intros Hall. constructor; [|by apply Hf].
      exists fl. by rewrite Hs.
    + specialize (IH (sinks ++ [mkSink (ws fl) (Some (next_handle fl))]) openErr (opening pth fl)).
      destruct (open_loop sr paths _ openErr (opening pth fl)) as [fl' [sinks' err']].
      destruct IH as (opened & news & Ho & Hc & Hss & Hcl & Hi & Hf).
      exists ((next_handle fl, pth) :: opened), (mkSink (ws fl) (Some (next_handle fl)) :: news).
      split_and!; try done; [by rewrite Ho; cbn; rewrite <- app_assoc|by rewrite Hss, <- app_assoc|by cbn; f_equal|].
      intros Hall. constructor; [|by apply Hf]. exists fl. by rewrite Hn.
Qed.

Lemma closeAll_closed sinks fl :
  closeAll sinks fl = mkFiles (f_opened fl) (f_closed fl ++ omap sk_closer sinks).
Proof.
  unfold closeAll. revert fl. induction sinks as [|[ws [n|]] sinks IH]; intros fl; cbn [fold_left].
  - cbn. rewrite app_nil_r. by destruct fl.
  - rewrite IH. cbn. by rewrite <- app_assoc.
  - rewrite IH. by destruct fl.
Qed.

Lemma Open_spec sr paths fl :
  let '(fl', r) := Open sr paths fl in
  exists opened, f_opened fl' = f_opened fl ++ opened /\
    match r with
    | inl (ws, sinks) =>
        forallb (openable sr) paths = true /\ Forall2 (sink_of sr) paths sinks /\
        ws = CombineWriteSyncers (map sk_ws sinks) /\ f_closed fl' = f_closed fl /\
        f_closed (closeAll sinks fl') = f_closed fl ++ map fst opened
    | inr _ => forallb (openable sr) paths = false /\ f_closed fl' = f_closed fl ++ map fst opened
    end.
Proof.
  unfold Open, open_. pose proof (open_loop_spec sr paths [] None fl) as Hl.
  destruct (open_loop sr paths [] None fl) as [fl' [sinks [err|]]];
    destruct Hl as (opened & news & Ho & Hc & -> & Hcl & Hi & Hf); exists opened; cbn [app];
    rewrite closeAll_closed; cbn [f_opened f_closed]; rewrite Hcl, Hc; (split; [done|]).
  - split; [|done]. destruct (forallb (openable sr) paths); [|done]. by specialize (proj2 Hi (conj eq_refl eq_refl)).
  - destruct (proj1 Hi eq_refl) as [_ Hall]. split_and!; auto.
Qed.

(** C31.  [Open] opens everything or leaves nothing open.  When every path can be
    opened it returns a writer over one sink per path, in order, with nothing
    closed, and the function it returns closes exactly what it opened; when some
    path cannot, it fails, and everything it had opened is closed. *)
Theorem open_all_or_nothing sr paths fl :
  let '(fl', r) := Open sr paths fl in
  exists opened, f_opened fl' = f_opened fl ++ opened /\
    match r with
    | inl (ws, sinks) =>
        forallb (openable sr) paths = true /\ Forall2 (sink_of sr) paths sinks /\
        ws = CombineWriteSyncers (map sk_ws sinks) /\ f_closed fl' = f_closed fl /\
        f_closed (closeAll sinks fl') = f_closed fl ++ map fst opened
    | inr _ => forallb (openable sr) paths = false /\ f_closed fl' = f_closed fl ++ map fst opened
    end.
Proof. apply Open_spec. Qed.
End OpenProofs.

Section Registry.
Context `{UnicodeTables} `{UrlLib} `{Quoting} `{QuotingByte} `{Fmt} `{MultiErr}.

Lemma ToLower_nonempty s : nonempty s = true -> ToLower s <> [].
Proof.
  destruct s as [|b s]; [done|]. intros _. unfold ToLower. destruct (is_ascii (b :: s)); [done|].
  rewrite runes_unfold by done. unfold utf8_encode. cbn [map concat].
  intros Hnil. apply app_eq_nil in Hnil as [Hnil _]. by apply EncodeRune_nonempty in Hnil.
Qed.

(** RFC 3986, section 3.1, in lower case. *)
Definition rfc_scheme (s : gostring) : bool :=
  match s with
  | [] => false
  | c :: s => scheme_letter c && forallb (fun c => scheme_letter c || scheme_digit c || scheme_mark c) s
  end.

Lemma bad_byte_none s :
  forallb (fun c => scheme_letter c || scheme_digit c || scheme_mark c) s =
  match bad_byte s with None => true | Some _ => false end.
Proof. induction s as [|c s IH]; cbn; [done|]. by destruct (scheme_letter c || scheme_digit c || scheme_mark c). Qed.

Lemma normalizeScheme_rfc s : nonempty s = true ->
  if rfc_scheme (ToLower s) then normalizeScheme s = Ret (inl (ToLower s))
  else exists err, normalizeScheme s = Ret (inr err).
Proof.
  intros Hs. pose proof (ToLower_nonempty s Hs) as Hne. unfold normalizeScheme.
  destruct (ToLower s) as [|c l]; [done|]. cbn [rfc_scheme].
  destruct (scheme_letter c); cbn [negb andb]; [|by eexists]. rewrite bad_byte_none. destruct (bad_byte l); [by eexists|done].
Qed.

(** Registering a sink never panics.  It succeeds exactly for a name that is
    a scheme of RFC 3986 once in lower case and that is still free, and then
    every URL of that scheme goes to the new factory and all others where they
    went; otherwise it returns an error and changes nothing. *)
Theorem register_sink_exact sr scheme f :
  let s := ToLower scheme in
  exists sr' err, sr_RegisterSink sr scheme f = Ret (sr', err) /\
    if nonempty scheme && rfc_scheme s && bool_decide (factories sr !! s = None)
    then err = None /\
      forall raw u fl, IsAbs raw = false -> url_Parse raw = inl u -> nonempty (u_Scheme u) = true ->
        newSink sr' raw fl =
          if streq (u_Scheme u) s then run_factory sr' f u fl
          else match factories sr !! u_Scheme u with
               | Some g => run_factory sr' g u fl
               | None => (fl, inr (errSinkNotFound (u_Scheme u)))
               end
    else is_Some err /\ sr' = sr.
Proof.
  intros s. unfold sr_RegisterSink. destruct (nonempty scheme) eqn:Hn; cbn [negb andb]; [|by eexists _, _].
  pose proof (normalizeScheme_rfc scheme Hn) as Hs. fold s in Hs.
  destruct (rfc_scheme s); [rewrite Hs|destruct Hs as [err ->]; by eexists _, _]. cbn [andb].
  destruct (factories sr !! s) eqn:Hf; [by eexists _, _|]. eexists _, _. split; [done|].
  rewrite bool_decide_eq_true_2 by done. split; [done|].
  intros raw u fl Ha Hp Hu. unfold newSink. rewrite Ha, Hp, Hu. cbn [factories].
  destruct (streq (u_Scheme u) s) eqn:Heq.
  - apply streq_true in Heq. by rewrite <- Heq, lookup_insert_eq.
  - rewrite lookup_insert_ne; [done|]. intros Hne. by rewrite <- Hne, streq_refl in Heq.
Qed.

(** The registry the package starts with knows the file scheme. *)
Lemma newSinkRegistry_file os_OpenFile :
  newSinkRegistry os_OpenFile = mkRegistry {[ go "file" := FFile ]} os_OpenFile.
Proof. reflexivity. Qed.
End Registry.

(** A letter outside ASCII whose lower case is ASCII is taken: KELVIN SIGN
    becomes [k]. *)
Definition kelvinUnicode : UnicodeTables :=
  {| unicode_lower r := if r =? 0x212A then 0x6B else r |}.

Example kelvin_scheme `{QuotingByte} :
  @normalizeScheme kelvinUnicode _ [Byte.xe2; Byte.x84; Byte.xaa] = Ret (inl (go "k")).
Proof. reflexivity. Qed.
