(* ===== verification/LockedSink.v ===== *)
(** * LockedSink

    [ladcore.Lock] at work: goroutines that write entries through cores over
    one locked sink ([lockedWriteSyncer] of [ladcore/write_syncer.go] around a
    [multiWriteSyncer] or a single destination, as [lad.CombineWriteSyncers]
    builds them).  The sink is an object of [Guarded]: its critical sections
    make one call of a destination per step. *)
From S2P Require Import Prelude Strconv Utf8 Strings Level Float GoTime Buffer Entry Values Field Encoder.
From S2P Require Import Json JsonTree JsonEncoder JsonSpec JsonProofs JsonTheorems.
From S2P Require Import Sampler Testing WriteSyncer Guarded Stacktrace Effects Core JsonCore Sinks.
Open Scope Z_scope.

(** ** The sink *)

(** The calls of a locked sink. *)
Inductive sink_op : Type :=
| LWrite (bs : gostring)
| LSync.

(** A destination, and whether it has [Sync]. *)
Definition dest : Type := nat * bool.
Definition dest_ws (x : dest) : WriteSyncer := AddSync x.1 x.2.

Section LockedSink.
Context `{MultiErr}.
Variable ds : list dest.

(** The sink the cores share. *)
Definition the_sink : WriteSyncer := Lock (NewMultiWriteSyncer (map dest_ws ds)).

(** [n] and [err], as [multiWriteSyncer] and [lockedWriteSyncer] return them. *)
Abbreviation vars := (Z * error)%type.

(** One round of the loop of [multiWriteSyncer.Write]. *)
Definition multi_write_round (p : gostring) (x : dest) (l : vars) (w : world) : vars * world :=
  let '(nWritten, writeErr) := l in
  let '(dev, (n, err)) := device_Write (get_device w x.1) p in
  (((if (nWritten =? 0) && negb (n =? 0) then n else if n <? nWritten then n else nWritten),
    multierr_Append writeErr err), set_device w x.1 dev).

(** [Sync] of a destination; [writerWrapper] has nothing to do. *)
Definition dest_sync (x : dest) (w : world) : world * error :=
  if x.2 then let '(dev, err) := device_Sync (get_device w x.1) in (set_device w x.1 dev, err) else (w, None).

(** One round of the loop of [multiWriteSyncer.Sync]. *)
Definition multi_sync_round (x : dest) (l : vars) (w : world) : vars * world :=
  let '(w, err) := dest_sync x w in ((0, multierr_Append l.2 err), w).

(** A single destination is called directly. *)
Definition single_write (p : gostring) (x : dest) (l : vars) (w : world) : vars * world :=
  let '(dev, r) := device_Write (get_device w x.1) p in (r, set_device w x.1 dev).

Definition single_sync (x : dest) (l : vars) (w : world) : vars * world :=
  let '(w, err) := dest_sync x w in ((0, err), w).

(** The critical sections of [lockedWriteSyncer]. *)
Definition sink_steps (op : sink_op) : list (vars -> world -> vars * world) :=
  match op, ds with
  | LWrite p, [x] => [single_write p x]
  | LWrite p, _ => map (multi_write_round p) ds
  | LSync, [x] => [single_sync x]
  | LSync, _ => map multi_sync_round ds
  end.

#[export, refine] Instance lockedWriteSyncer : Guarded world vars sink_op vars :=
  {| reads _ := false; enter _ := (0, None); body := sink_steps; result l := l |}.
Proof. done. Defined.

(** ** A critical section is a call of the sequential model *)

Lemma multi_write_finish p xs w n e :
  multi_Write (fun ws => Write ws p) (map dest_ws xs) w n e =
    let '(l, w) := finish (map (multi_write_round p) xs) (n, e) w in Some (w, l).
Proof.
  revert w n e. induction xs as [|[d b] xs IH]; intros w n e; [done|]. cbn [map multi_Write finish].
  unfold multi_write_round at 1. cbn [fst]. destruct (device_Write (get_device w d) p) as [x [m err]] eqn:E.
  rewrite <- IH. by destruct b; cbn [dest_ws AddSync fst snd Write]; rewrite E.
Qed.

Lemma dest_Sync x w : Sync (dest_ws x) w = Some (dest_sync x w).
Proof. destruct x as [d []]; [|done]. unfold dest_sync. cbn. by destruct (device_Sync _). Qed.

Lemma multi_sync_finish xs w n e :
  multi_Sync Sync (map dest_ws xs) w e =
    let '(l, w) := finish (map multi_sync_round xs) (n, e) w in Some (w, l.2).
Proof.
  revert w n e. induction xs as [|x xs IH]; intros w n e; [done|]. cbn [map multi_Sync finish].
  rewrite dest_Sync. unfold multi_sync_round at 1. destruct (dest_sync x w) as [w' err]. apply IH.
Qed.

Lemma locked_write p w : Write the_sink p w = Some (run_call (LWrite p) w).
Proof.
  unfold the_sink, run_call. cbn [body enter result lockedWriteSyncer]. unfold sink_steps.
  destruct ds as [|x [|y xs]]; [done| |].
  - cbn. unfold single_write. destruct x as [d []]; cbn; by destruct (device_Write _ _) as [? []].
  - change (Lock _) with (WLocked (WMulti (map dest_ws (x :: y :: xs)))). cbn [Write].
    rewrite multi_write_finish. by destruct (finish _ _ _).
Qed.

Lemma locked_sync w : Sync the_sink w = (let '(w, r) := run_call LSync w in Some (w, r.2)).
Proof.
  unfold the_sink, run_call. cbn [body enter result lockedWriteSyncer]. unfold sink_steps.
  destruct ds as [|x [|y xs]]; [done| |].
  - unfold single_sync. cbn [map NewMultiWriteSyncer finish].
    replace (Sync (Lock (dest_ws x)) w) with (Sync (dest_ws x) w) by (by destruct x as [d []]).
    rewrite dest_Sync. by destruct (dest_sync x w).
  - change (Lock _) with (WLocked (WMulti (map dest_ws (x :: y :: xs)))). cbn [Sync].
    rewrite (multi_sync_finish _ _ 0). by destruct (finish _ _ _).
Qed.

(** ** Goroutines that write entries *)

Section Goroutines.
Context {E : Type} `{EntryEncoder E}.

(** What a core is given to write: its encoder, the entry, the fields. *)
Definition job : Type := E * Entry * list field.

(** [ioCore.Write] over the sink, and then [k].  The entry is encoded before
    the lock is taken; [Sync] takes the lock again.  A marshaler that panics
    ends the goroutine. *)
Definition ioCore_Write_prog (j : job) (k : error -> prog sink_op (Z * error)) : prog sink_op (Z * error) :=
  let '(enc, ent, fields) := j in
  match enc_EncodeEntry enc ent fields with
  | Panic _ => Done
  | Ret (inr err) => k (Some err)
  | Ret (inl buf) =>
      Call (LWrite buf) (fun r =>
        match r.2 with
        | Some err => k (Some err)
        | None => if e_Level ent >? ErrorLevel then Call LSync (fun _ => k None) else k None
        end)
  end.

(** The entries one after the other, whatever [Write] returns. *)
Definition goroutine (js : list job) : prog sink_op (Z * error) :=
  fold_right (fun j p => ioCore_Write_prog j (fun _ => p)) Done js.

(** The lines it makes of them, up to a panic. *)
Fixpoint lines (js : list job) : list gostring :=
  match js with
  | [] => []
  | (enc, ent, fields) :: js =>
      match enc_EncodeEntry enc ent fields with
      | Panic _ => []
      | Ret (inr _) => lines js
      | Ret (inl buf) => buf :: lines js
      end
  end.

Definition sink_message (op : sink_op) : option gostring := match op with LWrite p => Some p | LSync => None end.

Lemma goroutine_lines js rs :
  remains (goroutine js) rs = Done -> omap sink_message (asked (goroutine js) rs) = lines js.
Proof.
  revert rs. induction js as [|[[enc ent] fields] js IH]; intros rs; [done|]. cbn [goroutine fold_right lines].
  fold (goroutine js). unfold ioCore_Write_prog. destruct (enc_EncodeEntry enc ent fields) as [[buf|err]|v]; [|apply IH|done].
  destruct rs as [|[n [err|]] rs]; [done| |]; cbn [remains asked omap list_omap sink_message snd].
  - intros Hr. f_equal. by apply IH.
  - destruct (e_Level ent >? ErrorLevel); [|intros Hr; f_equal; by apply IH].
    destruct rs as [|r rs]; [done|]. cbn [remains asked omap list_omap sink_message]. intros Hr. f_equal. by apply IH.
Qed.

(** Alone, a goroutine's [Write] is [ioCore.Write] of the sequential model. *)
Lemma solo_ioCore_Write enc ent fields h h' err :
  ioCore_Write enc the_sink ent fields h = (h', ROk err) ->
  exists rs, solo (ioCore_Write_prog (enc, ent, fields) (fun _ => Done)) (h_world h) = (h_world h', rs) /\
    forall k, remains (ioCore_Write_prog (enc, ent, fields) k) rs = remains (k err) [].
Proof.
  unfold ioCore_Write, ioCore_Write_prog, lift. unfold bind at 1.
  destruct (enc_EncodeEntry enc ent fields) as [[buf|e]|v]; [| |done].
  - unfold bind at 1, on_world at 1. cbn [ret]. rewrite locked_write. cbn [solo].
    destruct (run_call (LWrite buf) (h_world h)) as [w [n [e|]]]; cbn [snd].
    + intros [= <- <-]. eexists. split; [done|]. intros k. cbn. by destruct (k _).
    + destruct (e_Level ent >? ErrorLevel).
      * unfold bind at 1, on_world at 1. cbn [h_world]. rewrite locked_sync. cbn [solo].
        destruct (run_call LSync w) as [w' r]. intros [= <- <-]. eexists. split; [done|]. intros k. cbn.
        by destruct (k None).
      * intros [= <- <-]. eexists. split; [done|]. intros k. cbn. by destruct (k None).
  - intros [= <- <-]. eexists. split; [done|]. intros k. cbn. by destruct (k _).
Qed.
End Goroutines.

(** ** What a destination gets *)

Lemma get_set_device_ne w d d' x : d' <> d -> get_device (set_device w d x) d' = get_device w d'.
Proof. intros Hne. unfold get_device, set_device. cbn. by rewrite lookup_insert_ne. Qed.

Lemma write_rounds p xs l w d :
  NoDup (map fst xs) ->
  get_device (finish (map (multi_write_round p) xs) l w).2 d =
    if decide (d ∈ map fst xs) then (device_Write (get_device w d) p).1 else get_device w d.
Proof.
  revert l w. induction xs as [|[d' b] xs IH]; intros [n e] w Hnd; cbn [map finish].
  { rewrite decide_False; [done|]. apply not_elem_of_nil. }
  inv Hnd. unfold multi_write_round at 1. cbn [fst].
  destruct (device_Write (get_device w d') p) as [x [m err]] eqn:Ex. rewrite IH by done.
  destruct (decide (d = d')) as [->|Hne].
  - rewrite decide_False, decide_True by set_solver. by rewrite get_set_device, Ex.
  - rewrite get_set_device_ne by done. destruct (decide (d ∈ map fst xs)).
    + rewrite decide_True; [done|]. by right.
    + rewrite decide_False; [done|]. by rewrite not_elem_of_cons.
Qed.

(** What [Sync] leaves alone. *)
Definition contents (w : world) (d : nat) : list gostring * list (option (nat * goerror)) :=
  (d_chunks (get_device w d), d_write_plan (get_device w d)).

Lemma dest_sync_contents x w d : contents (dest_sync x w).1 d = contents w d.
Proof.
  destruct x as [d' []]; [|done]. unfold dest_sync, contents. cbn.
  destruct (device_Sync (get_device w d')) as [dev err] eqn:Ex. cbn.
  destruct (decide (d = d')) as [->|Hne]; [|by rewrite get_set_device_ne].
  rewrite get_set_device. unfold device_Sync in Ex. by destruct (d_sync_plan _); simplify_eq.
Qed.

Lemma sync_rounds xs l w d : contents (finish (map multi_sync_round xs) l w).2 d = contents w d.
Proof.
  revert l w. induction xs as [|x xs IH]; intros l w; [done|]. cbn [map finish]. unfold multi_sync_round at 1.
  pose proof (dest_sync_contents x w d) as Hx. destruct (dest_sync x w) as [w' err]. cbn in Hx. by rewrite IH.
Qed.

(** Every destination that works gets every message, whole, in the order of the
    calls. *)
Lemma call_contents op w d :
  NoDup (map fst ds) -> d ∈ map fst ds -> d_write_plan (get_device w d) = [] ->
  contents (run_call op w).1 d = (d_chunks (get_device w d) ++ option_list (sink_message op), []).
Proof.
  intros Hnd Hd Hp. rewrite run_call_finish. cbn [fst body enter result lockedWriteSyncer]. unfold sink_steps.
  destruct op as [p|]; cbn [sink_message option_list].
  - assert (contents (finish (map (multi_write_round p) ds) (0, None) w).2 d =
      (d_chunks (get_device w d) ++ [p], [])) as Hm.
    { unfold contents. rewrite write_rounds, decide_True by done. unfold device_Write. rewrite Hp. cbn.
      by rewrite firstn_all. }
    revert Hm. destruct ds as [|x [|y xs]]; [done| |done]. cbn. unfold multi_write_round, single_write.
    by destruct (device_Write _ _) as [dev [n err]].
  - rewrite app_nil_r.
    assert (contents (finish (map multi_sync_round ds) (0, None) w).2 d = (d_chunks (get_device w d), [])) as Hm.
    { rewrite sync_rounds. unfold contents. by rewrite Hp. }
    revert Hm. destruct ds as [|x [|y xs]]; [done| |done]. cbn. unfold multi_sync_round, single_sync.
    by destruct (dest_sync x w).
Qed.

Definition order_message (e : nat * sink_op) : option gostring := sink_message e.2.

Lemma order_contents w ord d :
  NoDup (map fst ds) -> d ∈ map fst ds -> d_write_plan (get_device w d) = [] ->
  contents (after w ord) d = (d_chunks (get_device w d) ++ omap order_message ord, []).
Proof.
  intros Hnd Hd. revert w. induction ord as [|[i op] ord IH]; intros w Hp.
  - cbn. rewrite app_nil_r. unfold contents. by rewrite Hp.
  - cbn [after omap list_omap]. pose proof (call_contents op w d Hnd Hd Hp) as Hc.
    assert (d_write_plan (get_device (run_call op w).1 d) = []) as Hp' by (by injection Hc).
    assert (d_chunks (get_device (run_call op w).1 d) =
      d_chunks (get_device w d) ++ option_list (sink_message op)) as Hch by (by injection Hc).
    rewrite IH by done. rewrite Hch, <- app_assoc. unfold order_message. cbn [snd]. by destruct op.
Qed.

(** ** Whole lines *)

(** Who wrote what, in the order of the sink; and what goroutine [i] wrote. *)
Definition said (ord : list (nat * sink_op)) : list (nat * gostring) :=
  omap (fun '(i, op) => (fun p => (i, p)) <$> sink_message op) ord.

Definition said_by {A} (i : nat) (l : list (nat * A)) : list A :=
  omap (fun '(j, p) => if decide (j = i) then Some p else None) l.

Lemma said_messages ord : map snd (said ord) = omap order_message ord.
Proof. induction ord as [|[i [p|]] ord IH]; [done| |done]; cbn. by rewrite <- IH. Qed.

Lemma said_ids ord x : x ∈ said ord -> exists op, (x.1, op) ∈ ord.
Proof.
  intros ([i op] & Hop & Hx)%list_elem_of_omap. exists op. destruct op; cbn in Hx; by simplify_eq.
Qed.

Lemma said_own i ord : said_by i (said ord) = omap sink_message (own i ord).
Proof.
  induction ord as [|[j [p|]] ord IH]; [done| |]; cbn; unfold own in *; cbn;
    destruct (decide (j = i)); cbn; rewrite <- IH; done.
Qed.

(** The goroutines over the sink come to their end; then every destination
    that works holds, after what it held, the same lines, each whole, and the
    lines of each goroutine are there in its order. *)
Lemma goroutines_write_lines {E} `{EntryEncoder E} (gs : list (list (job (E := E)))) w is_ c :
  NoDup (map fst ds) -> run is_ (start w (map goroutine gs)) = Some c -> (forall i, move i c = None) ->
  exists out : list (nat * gostring),
    (forall d, d ∈ map fst ds -> d_write_plan (get_device w d) = [] ->
       d_chunks (get_device (g_shared c) d) = d_chunks (get_device w d) ++ map snd out) /\
    (forall x, x ∈ out -> (x.1 < length gs)%nat) /\
    (forall i js, gs !! i = Some js -> said_by i out = lines js).
Proof.
  intros Hnd Hrun Hstuck. destruct (stuck_linearized _ _ _ _ Hrun Hstuck) as [Hsh Hth].
  exists (said (g_order c)). split_and!.
  - intros d Hd Hp. rewrite Hsh, said_messages.
    pose proof (order_contents w (g_order c) d Hnd Hd Hp) as Hc. by injection Hc.
  - intros x Hx. destruct (said_ids _ _ Hx) as [op Hop]. destruct (run_order _ _ _ Hrun) as (new & Ho & Hnew).
    cbn in Ho, Hnew. rewrite !length_map in Hnew. rewrite Ho in Hop. by apply (proj1 (Forall_forall _ _) Hnew _ Hop).
  - intros i js Hi. destruct (Hth i (goroutine js)) as (_ & Ho & Hr).
    { change (map ?f gs) with (f <$> gs). by rewrite list_lookup_fmap, Hi. }
    rewrite said_own, Ho. by apply goroutine_lines.
Qed.
End LockedSink.

Section JsonLines.
Context `{TimeFormat} `{GoRuntime} `{MultiErr}.
Variables (p : Pool.t jsonEncoder) (choice : option nat).
Variables (dre : ReflectedEncoder) (c0 : EncoderConfig) (sp : bool) (re : ReflectedEncoder).
Local Abbreviation cfg := (effective dre c0 sp).
#[local] Instance lines_json : EntryEncoder jsonEncoder := jsonEntry p choice.

(** A job of a JSON core whose entry has these members. *)
Definition json_job (j : job (E := jsonEncoder)) (ms : list (gostring * jtree)) : Prop :=
  let '(enc, ent, fields) := j in
  exists x, built dre c0 sp re enc x /\ entry_members cfg re x ent fields = Ret ms.

Lemma json_lines js mss :
  config_ok cfg re -> pool_ok p -> delim (LineEnding cfg) = true -> Forall2 json_job js mss ->
  Forall2 (fun ms line => jparse line = Some (jsem (TObj ms), LineEnding cfg)) mss (lines js).
Proof.
  intros Hc Hp Hl. induction 1 as [|[[enc ent] fields] ms js mss (x & Hb & Hms) _ IH]; [constructor|].
  destruct (EncodeEntry_spec cfg re Hc sp p choice enc x ent fields Hp (built_holds _ _ _ _ Hc _ _ Hb))
    as (HE & _ & Hw).
  rewrite Hms in HE. cbn [lines enc_EncodeEntry jsonEntry lines_json]. unfold json_EncodeEntry. rewrite HE.
  constructor; [|done]. apply jparse_render; [by apply Hw|done].
Qed.

(** C5.  Goroutines that log through JSON cores over one locked sink never tear
    or mix lines: however they are scheduled, between any two calls of a
    destination too, every run comes to an end, and then each destination that
    works holds, after what it held, the same sequence of writes: those of these
    goroutines and no others, one per entry, each goroutine's in its order, and
    an RFC 8259 parser reads each write as the object of its entry and the line
    ending.  Other destinations may fail. *)
Theorem locked_sink_keeps_lines ds gs msss w is_ c
    (Hc : config_ok cfg re) (Hp : pool_ok p) (Hl : delim (LineEnding cfg) = true)
    (Hnd : NoDup (map fst ds)) (Hgs : Forall2 (Forall2 json_job) gs msss)
    (Hrun : run (G := lockedWriteSyncer ds) is_ (start w (map goroutine gs)) = Some c) :
  Acc (steps (G := lockedWriteSyncer ds)) c /\
  ((forall i, move (G := lockedWriteSyncer ds) i c = None) ->
   exists out : list (nat * gostring),
     (forall d, d ∈ map fst ds -> d_write_plan (get_device w d) = [] ->
        d_chunks (get_device (g_shared c) d) = d_chunks (get_device w d) ++ map snd out) /\
     (forall x, x ∈ out -> (x.1 < length gs)%nat) /\
     (forall i mss, msss !! i = Some mss ->
        Forall2 (fun ms line => jparse line = Some (jsem (TObj ms), LineEnding cfg)) mss (said_by i out))).
Proof.
  split; [by eapply calls_return|]. intros Hstuck.
  destruct (goroutines_write_lines ds gs w is_ c Hnd Hrun Hstuck) as (out & Hdev & Hids & Hby).
  exists out. split_and!; [done..|]. intros i mss Hi.
  destruct (Forall2_lookup_r _ _ _ _ _ Hgs Hi) as (js & Hj & Hjs). rewrite (Hby _ _ Hj). by apply json_lines.
Qed.
End JsonLines.

(** ** Instances *)

#[local] Existing Instance firstError.
#[local] Existing Instance plainTime.
#[local] Existing Instance exampleRuntime.

Definition exampleJob (lvl : Z) (msg : gostring) : job (E := jsonEncoder) :=
  (exampleEncoder, mkEntry lvl (Unix0 1500000000) (go "main") msg noCaller [], exampleFields).

Definition exampleJobMembers (lvl : Z) (msg : gostring) : list (gostring * jtree) :=
  match entry_members (effective exampleReflect exampleConfig false) exampleReflect exampleCtx
          (mkEntry lvl (Unix0 1500000000) (go "main") msg noCaller []) exampleFields with
  | Ret ms => ms
  | Panic _ => []
  end.

Definition exampleDests : list dest := [(0%nat, true); (1%nat, false)].
Definition exampleJobs : list (list (job (E := jsonEncoder))) :=
  [[exampleJob InfoLevel (go "one")]; [exampleJob DPanicLevel (go "two"); exampleJob InfoLevel (go "three")]].
Definition exampleDisks : world :=
  mkWorld {[1%nat := mkDevice [] 0 [None; None; Some (2%nat, newError (go "disk full"))] []]} ∅ ∅.
Definition exampleSchedule : list nat := (repeat 1 5 ++ repeat 0 5 ++ repeat 1 10)%nat.
Local Abbreviation exampleRun :=
  (run (G := lockedWriteSyncer exampleDests) exampleSchedule
    (start exampleDisks
       (map (goroutine (H0 := lines_json JSON._jsonPool None)) exampleJobs))).

Definition exampleObjects : list (list (list (gostring * jtree))) :=
  [[exampleJobMembers InfoLevel (go "one")];
   [exampleJobMembers DPanicLevel (go "two"); exampleJobMembers InfoLevel (go "three")]].

Lemma example_jobs :
  Forall2 (Forall2 (json_job exampleReflect exampleConfig false exampleReflect)) exampleJobs exampleObjects.
Proof.
  assert (forall lvl msg, match entry_members (effective exampleReflect exampleConfig false) exampleReflect exampleCtx
            (mkEntry lvl (Unix0 1500000000) (go "main") msg noCaller []) exampleFields with
            Ret _ => true | Panic _ => false end = true ->
            json_job exampleReflect exampleConfig false exampleReflect (exampleJob lvl msg) (exampleJobMembers lvl msg)) as Hj.
  { intros lvl msg Hm. exists exampleCtx. split; [apply example_built|]. unfold exampleJobMembers.
    by destruct (entry_members _ _ _ _ _). }
  repeat (constructor; [repeat (constructor; [apply Hj; vm_compute; reflexivity|]); constructor|]). constructor.
Qed.

Lemma example_dests : NoDup (map fst exampleDests).
Proof. repeat constructor; set_solver. Qed.

Lemma locked_sink_keeps_lines_witness :
  exists c, exampleRun = Some c /\
    (Acc (steps (G := lockedWriteSyncer exampleDests)) c /\
     ((forall i, move (G := lockedWriteSyncer exampleDests) i c = None) ->
      exists out : list (nat * gostring),
        (forall d, d ∈ map fst exampleDests -> d_write_plan (get_device exampleDisks d) = [] ->
           d_chunks (get_device (g_shared c) d) = d_chunks (get_device exampleDisks d) ++ map snd out) /\
        (forall x, x ∈ out -> (x.1 < length exampleJobs)%nat) /\
        (forall i mss, exampleObjects !! i = Some mss ->
           Forall2 (fun ms line => jparse line =
             Some (jsem (TObj ms), LineEnding (effective exampleReflect exampleConfig false))) mss (said_by i out)))).
Proof.
  destruct (some_exists exampleRun) as [c E]; [vm_compute; reflexivity|]. exists c. split; [exact E|].
  exact (locked_sink_keeps_lines JSON._jsonPool None exampleReflect exampleConfig false exampleReflect
           exampleDests exampleJobs exampleObjects exampleDisks exampleSchedule c
           example_config_ok json_pool_ok eq_refl example_dests example_jobs E).
Defined.
