(* ===== verification/Config.v ===== *)
(** * Config

    [config.go], and the presets of [logger.go]: from a declarative
    configuration to a logger. *)
From stdpp Require Import sorting.
From S2P Require Import Prelude Strconv Utf8 Level Float GoTime Buffer Entry Values Field Encoder.
From S2P Require Import JsonEncoder Console WriteSyncer Sampler Stacktrace Effects Core CoreProofs Logger.
From S2P Require Import Encoders Sinks.
Open Scope Z_scope.
Open Scope lad_scope.

Record SamplingConfig := mkSamplingConfig {
  Initial : Z;
  Thereafter : Z;
  sc_Hook : option nat; (* a name for the hook's calls *)
}.

(** A nil [AtomicLevel] is [None]. *)
Record Config := mkLoggerConfig {
  c_Level : AtomicLevel.t;
  c_Development : bool;
  c_DisableCaller : bool;
  c_DisableStacktrace : bool;
  c_Sampling : option SamplingConfig;
  c_Encoding : gostring;
  c_EncoderConfig : EncoderConfig;
  c_OutputPaths : list gostring;
  c_ErrorOutputPaths : list gostring;
  c_InitialFields : gmap gostring goval;
}.

(** ** Sorting the initial fields *)

(** Strings are ordered by their bytes. *)
Fixpoint str_leb (a b : gostring) : bool :=
  match a, b with
  | [], _ => true
  | _ :: _, [] => false
  | x :: a, y :: b => (bz x <? bz y) || (bz x =? bz y) && str_leb a b
  end.

Definition str_le (a b : gostring) : Prop := str_leb a b = true.

#[export] Instance str_le_dec : RelDecision str_le.
Proof. intros a b. unfold str_le. apply _. Defined.

(** [sort.Strings] *)
Definition sort_Strings (l : list gostring) : list gostring := merge_sort str_le l.

Section Presets.
Context `{TimeFormat}.

Definition NewProductionEncoderConfig : EncoderConfig :=
  mkConfig (go "msg") (go "level") (go "ts") (go "logger") (go "caller") OmitKey (go "stacktrace")
    false DefaultLineEnding (Some LowercaseLevelEncoder) (Some EpochTimeEncoder)
    (Some SecondsDurationEncoder) (Some ShortCallerEncoder) None None [].

Definition NewDevelopmentEncoderConfig : EncoderConfig :=
  mkConfig (go "M") (go "L") (go "T") (go "N") (go "C") OmitKey (go "S")
    false DefaultLineEnding (Some CapitalLevelEncoder) (Some ISO8601TimeEncoder)
    (Some StringDurationEncoder) (Some ShortCallerEncoder) None None [].

(** [NewAtomicLevelAt] *)
Definition NewAtomicLevelAt (l : Z) : M nat := fun h =>
  let '(a, cells) := AtomicLevel.NewAt (h_cells h) l in
  (mkHeap cells (h_world h) (h_counters h) (h_observed h) (h_once h) (h_events h) (h_times h) (h_frames h), ROk a).

Definition NewProductionConfig : M Config :=
  a <- NewAtomicLevelAt InfoLevel ;;
  ret (mkLoggerConfig (Some a) false false false (Some (mkSamplingConfig 100 100 None)) (go "json")
         NewProductionEncoderConfig [go "stderr"] [go "stderr"] ∅).

Definition NewDevelopmentConfig : M Config :=
  a <- NewAtomicLevelAt DebugLevel ;;
  ret (mkLoggerConfig (Some a) true false false None (go "console") NewDevelopmentEncoderConfig
         [go "stderr"] [go "stderr"] ∅).

(** The configuration of [NewExample]. *)
Definition exampleEncoderCfg : EncoderConfig :=
  mkConfig (go "msg") (go "level") [] (go "logger") [] [] [] false [] (Some LowercaseLevelEncoder)
    (Some ISO8601TimeEncoder) (Some StringDurationEncoder) None None None [].
End Presets.

Section Build.
Context `{UnicodeTables} `{UrlLib} `{Quoting} `{QuotingByte} `{TimeFormat} `{GoRuntime} `{FprintElem}.
Context {U : Type} `{EntryEncoder (AnEncoder U)} `{MultiErr} `{Fmt} `{Frames}.
Abbreviation E := (AnEncoder U).

(** The fields of [InitialFields], in the order of their keys. *)
Definition initial_fields (cfg : Config) : list field :=
  omap (fun k => Any k <$> c_InitialFields cfg !! k) (sort_Strings (map fst (map_to_list (c_InitialFields cfg)))).

(** The option that wraps the core in a sampler; [counts] names its counters. *)
Definition sampling_option (counts : nat) (scfg : SamplingConfig) : Option (E := E) :=
  WrapCore (fun c =>
    let samplerOpts := match sc_Hook scfg with Some hook => [SamplerHook hook] | None => [] end in
    NewSamplerWithOptions counts c Second (Initial scfg) (Thereafter scfg) samplerOpts).

Definition buildOptions (cfg : Config) (counts : nat) (errSink : WriteSyncer) : list (Option (E := E)) :=
  let opts := [ErrorOutput errSink] in
  let opts := if c_Development cfg then opts ++ [Development] else opts in
  let opts := if negb (c_DisableCaller cfg) then opts ++ [AddCaller] else opts in
  let stackLevel := if c_Development cfg then WarnLevel else ErrorLevel in
  let opts := if negb (c_DisableStacktrace cfg) then opts ++ [AddStacktrace (ELevel stackLevel)] else opts in
  let opts := match c_Sampling cfg with
              | Some scfg => opts ++ [sampling_option counts scfg]
              | None => opts
              end in
  if negb (Nat.eqb (size (c_InitialFields cfg)) 0) then opts ++ [Fields (initial_fields cfg)] else opts.

Definition openSinks (sr : sinkRegistry) (cfg : Config) (fl : files) :
    files * (WriteSyncer * WriteSyncer + goerror) :=
  match Open sr (c_OutputPaths cfg) fl with
  | (fl, inr err) => (fl, inr err)
  | (fl, inl (sink, closeOut)) =>
      match Open sr (c_ErrorOutputPaths cfg) fl with
      | (fl, inr err) => (closeAll closeOut fl, inr err)
      | (fl, inl (errSink, _)) => (fl, inl (sink, errSink))
      end
  end.

Definition buildEncoder (reg : gmap gostring constructor_) (cfg : Config) : E + goerror :=
  newEncoder reg (c_Encoding cfg) (c_EncoderConfig cfg).

Definition Build (reg : gmap gostring constructor_) (sr : sinkRegistry) (counts : nat) (cfg : Config)
    (opts : list (Option (E := E))) (fl : files) : M (files * (Logger E + goerror)) :=
  match buildEncoder reg cfg with
  | inr err => ret (fl, inr err)
  | inl enc =>
      match openSinks sr cfg fl with
      | (fl, inr err) => ret (fl, inr err)
      | (fl, inl (sink, errSink)) =>
          match c_Level cfg with
          | None => ret (fl, inr (newError (go "missing Level")))
          | Some a =>
              log <- New (Some (NewCore enc sink (EAtomic a))) (buildOptions cfg counts errSink) ;;
              match opts with
              | [] => ret (fl, inl log)
              | _ => log <- WithOptions log opts ;; ret (fl, inl log)
              end
          end
      end
  end.

Definition NewProduction reg sr counts opts fl : M (files * (Logger E + goerror)) :=
  cfg <- NewProductionConfig ;; Build reg sr counts cfg opts fl.

Definition NewDevelopment reg sr counts opts fl : M (files * (Logger E + goerror)) :=
  cfg <- NewDevelopmentConfig ;; Build reg sr counts cfg opts fl.

(** [panic(err)] prints the error. *)
Definition Must (r : Logger E + goerror) : M (Logger E) :=
  match r with
  | inr err => halt (RPanic (fmt_error err))
  | inl log => ret log
  end.

Definition NewExample (dre : ReflectedEncoder) (options : list (Option (E := E))) : M (Logger E) :=
  log <- New (Some (NewCore (EncJSON (JSON.NewJSONEncoder dre exampleEncoderCfg)) (WDevice os_Stdout)
                      (ELevel DebugLevel))) [] ;;
  WithOptions log options.
End Build.
