(* ===== verification/ConfigTheorems.v ===== *)
(** * ConfigTheorems

    What building a logger from a configuration leaves behind, and what the
    logger it builds does. *)
From S2P Require Import Prelude Strconv Utf8 Level Float GoTime Buffer Entry Values Field Encoder.
From S2P Require Import Json JsonTree JsonEncoder JsonSpec JsonProofs JsonTheorems Console.
From S2P Require Import WriteSyncer Sampler Stacktrace Effects Core CoreProofs JsonCore CoreTheorems.
From S2P Require Import Logger LoggerTheorems Encoders Sinks Config.
From stdpp Require Import sorting.
Open Scope Z_scope.
Open Scope lad_scope.

(** ** Sorting *)

Lemma str_leb_cons x a y b : str_leb (x :: a) (y :: b) = true <-> bz x < bz y \/ x = y /\ str_leb a b = true.
Proof.
  cbn. rewrite orb_true_iff, andb_true_iff, Z.ltb_lt, Z.eqb_eq.
  split; (intros [?|[Hx ?]]; [by left|right]); [apply bz_inj in Hx; done|by subst].
Qed.

#[global] Instance str_le_trans : Transitive str_le.
Proof.
  intros a. unfold str_le. induction a as [|x a IH]; intros b c; [done|]. destruct b as [|y b]; [done|].
  destruct c as [|z c]; [done|]. rewrite !str_leb_cons. intros [?|[-> Hab]] [?|[-> Hbc]]; try (left; lia). right. eauto.
Qed.

#[global] Instance str_le_antisymm : AntiSymm (=) str_le.
Proof.
  intros a. unfold str_le. induction a as [|x a IH]; intros b; destruct b as [|y b]; try done.
  rewrite !str_leb_cons. intros [?|[-> Hab]] [?|[Hx Hba]]; try (subst; lia). f_equal. by apply IH.
Qed.

#[global] Instance str_le_total : Total str_le.
Proof.
  intros a. unfold str_le. induction a as [|x a IH]; intros b; [by left|]. destruct b as [|y b]; [by right|].
  rewrite !str_leb_cons. destruct (Z.lt_trichotomy (bz x) (bz y)) as [?|[Hx|?]]; [by left; left| |by right; left].
  apply bz_inj in Hx as ->. destruct (IH b); [left|right]; by right.
Qed.

(** The order in which the map gives its keys does not matter. *)
Lemma sort_Strings_unique l k : l ≡ₚ k -> sort_Strings l = sort_Strings k.
Proof.
  intros Hp. apply (StronglySorted_unique str_le); [apply StronglySorted_merge_sort; apply _..|].
  unfold sort_Strings. by rewrite !merge_sort_Permutation.
Qed.

(** ** A build that fails *)

Section Failure.
Context `{UnicodeTables} `{UrlLib} `{Quoting} `{QuotingByte} `{TimeFormat} `{GoRuntime} `{FprintElem}.
Context {U : Type} `{EntryEncoder (AnEncoder U)} `{MultiErr} `{Fmt} `{Frames}.

Lemma openSinks_spec sr cfg fl :
  let '(fl', r) := openSinks sr cfg fl in
  exists opened, f_opened fl' = f_opened fl ++ opened /\
    match r with
    | inl _ => f_closed fl' = f_closed fl
    | inr _ => f_closed fl' ≡ₚ f_closed fl ++ map fst opened
    end.
Proof.
  unfold openSinks. pose proof (Open_spec sr (c_OutputPaths cfg) fl) as Ho.
  destruct (Open sr (c_OutputPaths cfg) fl) as [fl1 [[sink closeOut]|err]].
  - destruct Ho as (o1 & Ho1 & _ & _ & _ & Hc1 & Hcl). pose proof (Open_spec sr (c_ErrorOutputPaths cfg) fl1) as He.
    rewrite closeAll_closed in Hcl. cbn [f_closed] in Hcl. rewrite Hc1 in Hcl. apply app_inv_head in Hcl.
    destruct (Open sr (c_ErrorOutputPaths cfg) fl1) as [fl2 [[errSink c2]|err]].
    + destruct He as (o2 & Ho2 & _ & _ & _ & Hc2 & _). exists (o1 ++ o2).
      by rewrite Ho2, Ho1, Hc2, Hc1, app_assoc.
    + destruct He as (o2 & Ho2 & _ & Hc2). exists (o1 ++ o2). rewrite closeAll_closed. cbn [f_opened f_closed].
      rewrite Ho2, Ho1, Hc2, Hc1, Hcl, app_assoc. split; [done|]. rewrite map_app, <- app_assoc.
      by rewrite (Permutation_app_comm (map fst o1)).
  - destruct Ho as (o1 & Ho1 & _ & Hc1). exists o1. by rewrite Hc1.
Qed.

(** C27.  A [Build] that fails leaves nothing open: whether the encoder, the
    outputs or the error outputs were at fault, everything opened on the way is
    closed, once, and nothing else is changed, provided the configuration has a
    level. *)
Theorem failed_build_leaves_nothing_open reg sr counts cfg opts fl h h' fl' err
    (Hlevel : c_Level cfg <> None)
    (Hb : Build (U := U) reg sr counts cfg opts fl h = (h', ROk (fl', inr err))) :
  h' = h /\
  exists opened, f_opened fl' = f_opened fl ++ opened /\ f_closed fl' ≡ₚ f_closed fl ++ map fst opened.
Proof.
  unfold Build in Hb. destruct (buildEncoder reg cfg) as [enc|e].
  - pose proof (openSinks_spec sr cfg fl) as Ho. destruct (openSinks sr cfg fl) as [fl1 [[sink errSink]|e]].
    + destruct (c_Level cfg) as [a|]; [|done]. unbind Hb. destruct opts; [by inv Hb|]. unbind Hb. by inv Hb.
    + by inv Hb.
  - inv Hb. split; [done|]. exists []. by rewrite !app_nil_r.
Qed.

Lemma openSinks_openable sr cfg fl :
  forallb (openable sr) (c_OutputPaths cfg ++ c_ErrorOutputPaths cfg) = true ->
  exists fl' sinks, openSinks sr cfg fl = (fl', inl sinks).
Proof.
  rewrite forallb_app, andb_true_iff. intros [Ho He]. unfold openSinks.
  pose proof (Open_spec sr (c_OutputPaths cfg) fl) as Hos.
  destruct (Open sr (c_OutputPaths cfg) fl) as [fl1 [[sink closeOut]|err]];
    [|destruct Hos as (? & _ & ? & _); congruence].
  pose proof (Open_spec sr (c_ErrorOutputPaths cfg) fl1) as Hes.
  destruct (Open sr (c_ErrorOutputPaths cfg) fl1) as [fl2 [[errSink c2]|err]];
    [by eauto|destruct Hes as (? & _ & ? & _); congruence].
Qed.

(** A configuration without a level is refused only after its outputs were
    opened, and nobody closes them: whenever its encoding is known and its paths
    can be opened, [Build] fails with everything [openSinks] opened left open. *)
Theorem missing_level_leaks_output reg sr counts cfg opts fl h enc
    (Hlevel : c_Level cfg = None) (Henc : buildEncoder (U := U) reg cfg = inl enc)
    (Hopen : forallb (openable sr) (c_OutputPaths cfg ++ c_ErrorOutputPaths cfg) = true) :
  exists fl' sinks, openSinks sr cfg fl = (fl', inl sinks) /\
    Build (U := U) reg sr counts cfg opts fl h = (h, ROk (fl', inr (newError (go "missing Level")))) /\
    f_closed fl' = f_closed fl.
Proof.
  destruct (openSinks_openable sr cfg fl Hopen) as (fl' & [sink errSink] & Ho). exists fl', (sink, errSink).
  pose proof (openSinks_spec sr cfg fl) as Hs. unfold Build. rewrite Henc, Ho, Hlevel in *.
  destruct Hs as (opened & _ & Hc). done.
Qed.
End Failure.

(** ** The production logger *)

Section Check.
Context {E : Type} `{EntryEncoder E} `{MultiErr} `{Fmt} `{Frames}.

(** A core that agrees to log an entry below the levels that end the program. *)
Lemma check_body_admitted (log : Logger E) lvl msg h t ts h2 ce :
  clock log = Now -> h_times h = t :: ts ->
  core_Enabled (h_cells h) (core_ log) lvl = true -> lvl <= ErrorLevel ->
  let ent := mkEntry lvl t (name log) msg noCaller [] in
  core_Check (core_ log) ent None (after_tick h) = (h2, ROk (Some ce)) ->
  check_body log lvl msg h = (ce <- annotate log ent ce ;; ret (Some ce)) h2.
Proof.
  intros Hclock Ht Hen Hlvl ent Hc. unfold ErrorLevel in Hlvl. unfold check_body.
  rewrite (bind_ok get_heap _ h h h) by done. rewrite Hen, andb_false_r, Hclock.
  rewrite (bind_ok _ _ h (after_tick h) t) by (unfold Now, after_tick; by rewrite Ht). fold ent.
  rewrite (bind_ok _ _ _ _ _ Hc). unfold terminal. cbn [e_Level ent].
  rewrite (proj2 (Z.eqb_neq lvl PanicLevel)) by (unfold PanicLevel; lia).
  rewrite (proj2 (Z.eqb_neq lvl FatalLevel)) by (unfold FatalLevel; lia).
  rewrite (proj2 (Z.eqb_neq lvl DPanicLevel)) by (unfold DPanicLevel; lia). done.
Qed.

(** The first entry of its kind passes a sampler with [first > 0]. *)
Lemma sample_first (s : sampling) counts hook ent h :
  h_counters h !! counts = Some newCounters -> 1 <= first s -> supported (e_Level ent) ->
  exists h', sample s counts hook ent h = (h', ROk (Some LogSampled)) /\
    h_cells h' = h_cells h /\ h_world h' = h_world h /\ h_frames h' = h_frames h /\ h_times h' = h_times h.
Proof.
  intros Hc Hf [Hlo Hhi]. unfold sample. rewrite (bind_ok get_heap _ h h h) by done. rewrite Hc.
  change (default newCounters (Some newCounters)) with newCounters.
  unfold decide_sample. rewrite (proj2 (Z.leb_le _ _) Hlo), (proj2 (Z.leb_le _ _) Hhi). cbn [andb].
  assert (exists c, IncCheckReset (get newCounters (e_Level ent) (e_Message ent)) (e_Time ent) (tick s) = (1, c)) as [c ->].
  { unfold IncCheckReset. assert (get newCounters (e_Level ent) (e_Message ent) = zeroCounter) as ->.
    { unfold get, newCounters. by rewrite lookup_empty. }
    destruct (_ <? _); cbn; by eexists. }
  assert (drops s 1 = false) as ->.
  { unfold drops. by rewrite (proj2 (Z.ltb_ge _ _)) by lia. }
  eexists. split; [reflexivity|]. done.
Qed.
End Check.

Section Production.
Context `{UnicodeTables} `{UrlLib} `{Quoting} `{QuotingByte} `{TimeFormat} `{GoRuntime} `{FprintElem}.
Context {U : Type} {user : EntryEncoder U} `{MultiErr} `{Fmt} `{Frames}.
Variables (p : Pool.t jsonEncoder) (choice : option nat) (dre : ReflectedEncoder).
#[local] Instance production_any : EntryEncoder (AnEncoder U) := anyEntry p choice.

Definition prod_enc : jsonEncoder := JSON.NewJSONEncoder dre NewProductionEncoderConfig.

Definition prod_core (a : nat) : core (AnEncoder U) :=
  CIo (EAtomic a) (EncJSON prod_enc) (WLocked (WDevice os_Stderr)).

(** What [NewProduction] builds. *)
Definition prod_logger (a counts : nat) : Logger (AnEncoder U) :=
  mkLogger (CSampler (prod_core a) (NewSampling Second 100 100) counts nopSamplingHook)
    false true None None [] (WLocked (WDevice os_Stderr)) (ELevel ErrorLevel) 0 Now.

Definition with_level (h : heap) : heap :=
  mkHeap (AtomicLevel.NewAt (h_cells h) InfoLevel).2 (h_world h) (h_counters h) (h_observed h) (h_once h)
    (h_events h) (h_times h) (h_frames h).

Definition with_counters (counts : nat) (h : heap) : heap :=
  mkHeap (h_cells h) (h_world h) (<[counts := newCounters]> (h_counters h)) (h_observed h) (h_once h)
    (h_events h) (h_times h) (h_frames h).

(** How [net/url] reads the name of the stream. *)
Definition stderr_url : URL := mkURL [] false [] [] (go "stderr") [] [].

Lemma Open_stderr sr fl :
  url_Parse (go "stderr") = inl stderr_url -> factories sr !! schemeFile = Some FFile ->
  Open sr [go "stderr"] fl = (fl, inl (WLocked (WDevice os_Stderr), [mkSink (WDevice os_Stderr) None])).
Proof.
  intros Hu Hf. unfold Open, open_. cbn [open_loop]. unfold newSink. change (IsAbs (go "stderr")) with false.
  rewrite Hu. change (nonempty (u_Scheme stderr_url)) with false. cbn [set_scheme u_Scheme]. by rewrite Hf.
Qed.

Lemma NewProduction_ok sr counts fl h :
  url_Parse (go "stderr") = inl stderr_url -> factories sr !! schemeFile = Some FFile ->
  NewProduction (_encoderNameToConstructor dre) sr counts [] fl h =
    (with_counters counts (with_level h),
     ROk (fl, inl (prod_logger (AtomicLevel.NewAt (h_cells h) InfoLevel).1 counts))).
Proof.
  intros Hu Hf. unfold NewProduction.
  rewrite (bind_ok _ _ h (with_level h) (mkLoggerConfig (Some (AtomicLevel.NewAt (h_cells h) InfoLevel).1) false false
     false (Some (mkSamplingConfig 100 100 None)) (go "json") NewProductionEncoderConfig [go "stderr"] [go "stderr"] ∅)).
  2: { unfold NewProductionConfig, NewAtomicLevelAt, bind, with_level.
       by destruct (AtomicLevel.NewAt (h_cells h) InfoLevel) as [a cells]. }
  unfold Build, openSinks. cbn [c_OutputPaths c_ErrorOutputPaths]. rewrite (Open_stderr sr fl Hu Hf), (Open_stderr sr fl Hu Hf).
  reflexivity.
Qed.
(** The level of the logger's atomic level is [InfoLevel]. *)
Lemma with_level_info h : AtomicLevel_Level (h_cells (with_level h)) (AtomicLevel.NewAt (h_cells h) InfoLevel).1 = InfoLevel.
Proof.
  unfold with_level, AtomicLevel.NewAt, AtomicLevel.New, AtomicLevel.SetLevel, AtomicLevel_Level, load. cbn [h_cells fst snd].
  by rewrite lookup_insert_eq.
Qed.

Lemma prod_check a counts h ent :
  AtomicLevel_Level (h_cells h) a = InfoLevel -> e_Level ent = InfoLevel ->
  h_counters h !! counts = Some newCounters ->
  exists h', core_Check (core_ (prod_logger a counts)) ent None h =
      (h', ROk (Some (mkCE ent None false None [prod_core a]))) /\
    h_cells h' = h_cells h /\ h_world h' = h_world h /\ h_frames h' = h_frames h.
Proof.
  intros Ha Hl Hc.
  assert (core_Enabled (h_cells h) (prod_core a) (e_Level ent) = true) as Hen by (cbn; by rewrite Ha, Hl).
  destruct (sample_first (NewSampling Second 100 100) counts nopSamplingHook ent h Hc) as (h' & Hs & Hcl & Hw & Hf & _);
    [by cbn|rewrite Hl; by split|].
  exists h'. split_and!; [|done..]. cbn [core_ prod_logger]. rewrite Check_eq. unfold Check_body at 1.
  rewrite (bind_ok get_heap _ h h h) by done.
  change (core_Enabled (h_cells h) (CSampler ?[c] ?[s] counts nopSamplingHook) (e_Level ent))
    with (core_Enabled (h_cells h) (prod_core a) (e_Level ent)).
  rewrite Hen. cbn [negb]. rewrite (bind_ok _ _ _ _ _ Hs). change (LogSampled =? LogDropped) with false. cbv iota.
  rewrite Check_eq. unfold Check_body at 1. rewrite (bind_ok get_heap _ h' h' h') by done. unfold prod_core at 1.
  fold (prod_core a). rewrite Hcl, Hen. reflexivity.
Qed.
Local Abbreviation c := (effective dre NewProductionEncoderConfig false).

Lemma prod_config_ok : reflect_ok dre -> config_ok c dre.
Proof.
  intros Hre. split; try done; intros e x; cbn; intros [= <-]; (split; [cbn; lia|repeat constructor]).
Qed.

(** One [Info] call on the new logger. *)
Lemma prod_info a counts h t ts f rest msg fs line :
  AtomicLevel_Level (h_cells h) a = InfoLevel -> h_counters h !! counts = Some newCounters ->
  h_times h = t :: ts -> h_frames h = f :: rest -> d_write_plan (get_device (h_world h) os_Stderr) = [] ->
  json_EncodeEntry p choice prod_enc (mkEntry InfoLevel t [] msg (caller_of f) []) fs = Ret (inl line) ->
  exists h2, Info (prod_logger a counts) msg fs h = (h2, ROk tt) /\ h_world h2 = h_world (with_line h os_Stderr line).
Proof.
  intros Ha Hc Ht Hst Hdisk Henc. set (log := prod_logger a counts).
  set (ent := mkEntry InfoLevel t [] msg noCaller []). set (ent' := mkEntry InfoLevel t [] msg (caller_of f) []) in *.
  set (h1 := set_frames (frame_of (go "Logger.Info") :: h_frames h) h).
  set (h2 := set_frames (frame_of (go "Logger.check") :: h_frames h1) h1).
  destruct (prod_check a counts (after_tick h2) ent Ha eq_refl Hc) as (h3 & Hcheck & Hcl & Hw & Hf).
  assert (check log InfoLevel msg h1 =
    (set_frames (h_frames h1) h3, ROk (Some (mkCE ent' (Some (errorOutput log)) false None [prod_core a])))) as Hchk.
  { unfold check. erewrite call_ok; [reflexivity|]. fold h2.
    rewrite (check_body_admitted log InfoLevel msg h2 t ts h3 (mkCE ent None false None [prod_core a]) eq_refl Ht);
      [|cbn; by rewrite Ha|done|exact Hcheck].
    rewrite (bind_ok _ _ h3 h3 (mkCE ent' (Some (errorOutput log)) false None [prod_core a])); [done|].
    rewrite (annotate_call_site log ent _ h3 [frame_of (go "Logger.check"); frame_of (go "Logger.Info")] f rest);
      [done|rewrite Hf; cbn; by rewrite Hst|done|done]. }
  eexists. split.
  - unfold Info. erewrite call_ok; [reflexivity|]. fold h1. eapply log_body_ok; [exact Hchk|].
    apply ce_Write_one. apply (io_writes_line (EAtomic a) (EncJSON prod_enc : AnEncoder U) os_Stderr ent' fs _ line);
      [cbn; by rewrite Hw|done|exact Henc].
  - cbn. by rewrite Hw.
Qed.

(** C25.  The production preset does what it says: [NewProduction] succeeds, opens
    nothing, and the first [Info] on its logger, with sampling on, makes one
    write to standard error and no other, whose bytes an RFC 8259 parser reads
    as one object with the level, the time, the caller of [Info], the message and
    the fields, followed by a newline. *)
Theorem production_logs_json sr counts fl h t ts f rest msg fs ms
    (Hurl : url_Parse (go "stderr") = inl stderr_url) (Hfile : factories sr !! schemeFile = Some FFile)
    (Hre : reflect_ok dre) (Hp : pool_ok p)
    (Ht : h_times h = t :: ts) (Hst : h_frames h = f :: rest)
    (Hdisk : d_write_plan (get_device (h_world h) os_Stderr) = [])
    (Hms : entry_members c dre emptyCtx (mkEntry InfoLevel t [] msg (caller_of f) []) fs = Ret ms) :
  exists log h1 h2 line,
    NewProduction (_encoderNameToConstructor dre) sr counts [] fl h = (h1, ROk (fl, inl log)) /\
    Info log msg fs h1 = (h2, ROk tt) /\ h_world h2 = h_world (with_line h os_Stderr line) /\
    jparse line = Some (jsem (TObj ms), [Byte.x0a]).
Proof.
  pose proof (prod_config_ok Hre) as Hc.
  destruct (EncodeEntry_spec c dre Hc false p choice prod_enc emptyCtx (mkEntry InfoLevel t [] msg (caller_of f) []) fs Hp
              (built_holds _ _ _ _ Hc _ _ (built_new _ _ _ _))) as (HE & _ & Hw).
  rewrite Hms in HE. set (line := render false (TObj ms) ++ [Byte.x0a]).
  set (a := (AtomicLevel.NewAt (h_cells h) InfoLevel).1).
  destruct (prod_info a counts (with_counters counts (with_level h)) t ts f rest msg fs line) as (h2 & Hi & Hh);
    [exact (with_level_info h)|apply lookup_insert_eq|exact Ht|exact Hst|exact Hdisk|unfold json_EncodeEntry; by rewrite HE|].
  exists (prod_logger a counts), (with_counters counts (with_level h)), h2, line.
  split_and!; [by apply NewProduction_ok|exact Hi|exact Hh|]. apply jparse_render; [by apply Hw|done].
Qed.
End Production.

(** ** Instances *)

#[local] Existing Instance firstError.
#[local] Existing Instance exampleFmt.
#[local] Existing Instance exampleFrames.
#[local] Existing Instance exampleRuntime.
#[local] Existing Instance exampleUnicode.
#[local] Existing Instance exampleFprint.
#[local] Existing Instance plainTime.

(** Every text is the path of a URL. *)
Definition exampleUrl : UrlLib :=
  {| url_Parse s := inl (mkURL [] false [] [] s [] []); fmt_url u := u_Path u |}.
#[local] Existing Instance exampleUrl.

Definition exampleQuoting : Quoting := {| fmt_q s := s |}.
#[local] Existing Instance exampleQuoting.

Definition exampleQuotingByte : QuotingByte := {| fmt_qc c := [c] |}.
#[local] Existing Instance exampleQuotingByte.

(** No encoders of a user. *)
Definition noUser : EntryEncoder Empty_set :=
  {| enc_With (u : Empty_set) _ := match u with end; enc_EncodeEntry (u : Empty_set) _ _ := match u with end |}.

Definition exampleAny : EntryEncoder (AnEncoder Empty_set) := @anyEntry _ _ _ _ noUser JSON._jsonPool None.
#[local] Existing Instance exampleAny.

(** A system where ["/b"] cannot be opened. *)
Definition exampleRegistry : sinkRegistry :=
  newSinkRegistry (fun path => if streq path (go "/b") then Some (newError (go "permission denied")) else None).

Definition fileConfig (level : AtomicLevel.t) (paths : list gostring) : Config :=
  mkLoggerConfig level false false false None (go "json") exampleEncoderCfg paths [go "stderr"] ∅.

Lemma failed_build_leaves_nothing_open_witness :
  emptyHeap = emptyHeap /\
  exists opened, [(3%nat, go "/a")] = [] ++ opened /\ [3%nat] ≡ₚ [] ++ map fst opened.
Proof.
  apply (failed_build_leaves_nothing_open (U := Empty_set) (_encoderNameToConstructor exampleReflect) exampleRegistry 0
    (fileConfig (Some 0%nat) [go "/a"; go "/b"]) [] noFiles emptyHeap emptyHeap
    (mkFiles [(3%nat, go "/a")] [3%nat]) (newError (go "open sink /b: error"))); [done|reflexivity].
Defined.

Definition productionMembers : list (gostring * jtree) :=
  match @entry_members plainTime (effective exampleReflect NewProductionEncoderConfig false) exampleReflect
          exampleRuntime emptyCtx (mkEntry InfoLevel zeroTime [] (go "hi") (caller_of (exampleFrame 1)) [])
          [Int (go "n") 1] with
  | Ret ms => ms
  | Panic _ => []
  end.

Lemma example_reflect_ok : reflect_ok exampleReflect.
Proof. intros v s [= <-]. exact raw_ok_braces. Qed.

Lemma production_logs_json_witness :
  exists log h1 h2 line,
    NewProduction (U := Empty_set) (_encoderNameToConstructor exampleReflect) exampleRegistry 0 [] noFiles framedHeap =
      (h1, ROk (noFiles, inl log)) /\
    Info log (go "hi") [Int (go "n") 1] h1 = (h2, ROk tt) /\
    h_world h2 = h_world (with_line framedHeap os_Stderr line) /\
    jparse line = Some (jsem (TObj productionMembers), [Byte.x0a]).
Proof.
  apply (production_logs_json (user := noUser) JSON._jsonPool None exampleReflect
    exampleRegistry 0 noFiles framedHeap zeroTime [] (exampleFrame 1) (map exampleFrame [2; 3; 4; 5]) (go "hi")
    [Int (go "n") 1] productionMembers);
    [done|done|apply example_reflect_ok|apply json_pool_ok|done|done|done|reflexivity].
Defined.

Lemma missing_level_leaks_output_witness :
  exists fl' sinks,
    openSinks exampleRegistry (fileConfig None [go "/var/log/app"]) noFiles = (fl', inl sinks) /\
    Build (U := Empty_set) (_encoderNameToConstructor exampleReflect) exampleRegistry 0
      (fileConfig None [go "/var/log/app"]) [] noFiles emptyHeap =
      (emptyHeap, ROk (fl', inr (newError (go "missing Level")))) /\
    f_closed fl' = [].
Proof.
  apply (missing_level_leaks_output (U := Empty_set) (_encoderNameToConstructor exampleReflect) exampleRegistry 0
    (fileConfig None [go "/var/log/app"]) [] noFiles emptyHeap
    (EncJSON (JSON.NewJSONEncoder exampleReflect exampleEncoderCfg))); reflexivity.
Defined.

Example missing_level_leaves_file_open :
  snd (Build (U := Empty_set) (_encoderNameToConstructor exampleReflect) exampleRegistry 0
         (fileConfig None [go "/var/log/app"]) [] noFiles emptyHeap) =
  ROk (mkFiles [(3%nat, go "/var/log/app")] [], inr (newError (go "missing Level"))).
Proof. reflexivity. Qed.
