(* ===== verification/TestLogger.v ===== *)
(** * TestLogger

    [ladtest/logger.go]: a logger for tests.  Its entries become the log of the
    test, and its own errors fail the test. *)
From S2P Require Import Prelude Strconv Utf8 Strings Level Float GoTime Buffer Entry Values Field Encoder.
From S2P Require Import Json JsonTree JsonEncoder JsonSpec JsonProofs JsonTheorems Console Testing.
From S2P Require Import WriteSyncer Sampler Stacktrace Effects Core CoreProofs JsonCore CoreTheorems.
From S2P Require Import Logger LoggerTheorems Encoders Config ConfigTheorems.
Open Scope Z_scope.
Open Scope lad_scope.

Module TestLogger.
Section TestLogger.
Context `{TimeFormat} `{GoRuntime} `{FprintElem} `{Quoting} `{MultiErr} `{Fmt} `{Frames}.
Context {U : Type} {user : EntryEncoder U}.
Variables (p : Pool.t jsonEncoder) (choice : option nat) (dre : ReflectedEncoder).
Local Abbreviation E := (AnEncoder U).
#[local] Instance enc : EntryEncoder E := anyEntry p choice.

Record loggerOptions := mkLoggerOptions { lo_Level : LevelEnabler; ladOptions : list (Option (E := E)) }.

Definition LoggerOption := loggerOptions -> loggerOptions.

Definition Level (enab : LevelEnabler) : LoggerOption := fun opts => mkLoggerOptions enab (ladOptions opts).

Definition WrapOptions (ladOpts : list (Option (E := E))) : LoggerOption := fun opts =>
  mkLoggerOptions (lo_Level opts) ladOpts.

(** [t] is the test, in the world. *)
Definition NewLogger (t : nat) (opts : list LoggerOption) : M (Logger E) :=
  let cfg := fold_left (fun cfg (o : LoggerOption) => o cfg) opts (mkLoggerOptions (ELevel DebugLevel) []) in
  let writer := NewTestingWriter in
  let ladOptions := ErrorOutput (WTesting t (WithMarkFailed true writer)) :: ladOptions cfg in
  New (Some (NewCore (EncConsole (Console.NewConsoleEncoder dre NewDevelopmentEncoderConfig)) (WTesting t writer)
               (lo_Level cfg)))
    ladOptions.

(** ** What the test sees *)

Local Abbreviation cfg := (effective dre (Console.with_separator NewDevelopmentEncoderConfig) true).

Definition test_logger (t : nat) (enab : LevelEnabler) : Logger E :=
  mkLogger (CIo enab (EncConsole (Console.NewConsoleEncoder dre NewDevelopmentEncoderConfig))
              (WTesting t (mkTestingWriter false)))
    false false None None [] (WTesting t (mkTestingWriter true)) (ELevel (FatalLevel + 1)) 0 Now.

(** The last level given, [DebugLevel] without one. *)
Lemma fold_levels enabs c :
  fold_left (fun cfg (o : LoggerOption) => o cfg) (map Level enabs) c =
    mkLoggerOptions (List.last enabs (lo_Level c)) (ladOptions c).
Proof.
  revert c. induction enabs as [|e enabs IH]; intros c; [by destruct c|]. cbn [map fold_left]. rewrite IH. cbn.
  destruct enabs; [done|]. f_equal. clear. generalize l. induction enabs as [|e' enabs IH]; intros l0; [done|]. apply IH.
Qed.

Definition reported_to (t : nat) (text : gostring) (failed : bool) (w : world) : world :=
  set_test w t (mkT (t_logs (get_test w t) ++ [trim_newlines text]) (t_failed (get_test w t) || failed)).

(** Times in the ISO 8601 layout need no escaping. *)
Definition iso_plain : Prop := forall t, plain (time_Format t (go "2006-01-02T15:04:05.000Z0700")).

Lemma dev_config_ok : iso_plain -> reflect_ok dre -> config_ok cfg dre.
Proof.
  intros Hiso Hre. split; try done; intros e x; cbn; intros [= <-]; (split; [cbn; lia|]); repeat constructor. apply Hiso.
Qed.

Lemma dev_encodes ent fs y err :
  iso_plain -> reflect_ok dre -> pool_ok p -> spec_obj cfg dre (addFields fs) emptyCtx = (y, Ret err) ->
  enc_EncodeEntry (EncConsole (Console.NewConsoleEncoder dre NewDevelopmentEncoderConfig) : E) ent fs =
    Ret (inl (Console.console_line cfg ent (close y))).
Proof.
  intros Hiso Hre Hp Hy.
  change (enc_EncodeEntry _ _ _) with
    (console_EncodeEntry p choice (Console.NewConsoleEncoder dre NewDevelopmentEncoderConfig) ent fs).
  unfold console_EncodeEntry.
  rewrite (Console.EncodeEntry_line dre (Console.with_separator NewDevelopmentEncoderConfig) dre _ emptyCtx p choice ent fs
             (dev_config_ok Hiso Hre) (built_new _ _ _ _) Hp).
  by rewrite Hy.
Qed.

(** The heap with another world. *)
Definition in_world (w : world) (h : heap) : heap :=
  mkHeap (h_cells h) w (h_counters h) (h_observed h) (h_once h) (h_events h) (h_times h) (h_frames h).

Lemma test_core_writes t enab ent fs h y err :
  iso_plain -> reflect_ok dre -> pool_ok p -> spec_obj cfg dre (addFields fs) emptyCtx = (y, Ret err) ->
  e_Level ent <= ErrorLevel ->
  core_Write (core_ (test_logger t enab)) ent fs h =
    (in_world (reported_to t (Console.console_line cfg ent (close y)) false (h_world h)) h, ROk None).
Proof.
  intros Hiso Hre Hp Hy Hl. cbn [core_ test_logger]. rewrite Write_eq. cbn [Write_body].
  unfold ioCore_Write, bind, lift. rewrite (dev_encodes ent fs y err Hiso Hre Hp Hy). cbn [ret]. unfold on_world. cbn.
  by rewrite Z.gtb_ltb, (proj2 (Z.ltb_ge _ _)) by lia.
Qed.

Lemma report_to_test t tw line h :
  report (Some (WTesting t tw)) line h = (in_world (reported_to t line (tw_markFailed tw) (h_world h)) h, ROk tt).
Proof. unfold report, bind, on_world. cbn. done. Qed.

(** C26.  The logger [ladtest.NewLogger] makes for a test with [Level] options.
    It logs at the last level given, and at every level without one.  An entry up
    to Error that is logged becomes
    one line of the test's log: the console line of the entry without the
    newline at its end, and nothing else happens.  An entry below the level does
    nothing.  When a core fails to write an entry, the error goes to the log of
    the same test, and the test is marked as failed. *)
Theorem test_logger_reports t enabs h0 (Hiso : iso_plain) (Hre : reflect_ok dre) (Hp : pool_ok p) :
  let enab := List.last enabs (ELevel DebugLevel) in
  exists log, NewLogger t (map Level enabs) h0 = (h0, ROk log) /\
    (forall lvl msg fs h tm ts y err, h_times h = tm :: ts -> lvl <= ErrorLevel ->
       Enabled (h_cells h) enab lvl = true -> spec_obj cfg dre (addFields fs) emptyCtx = (y, Ret err) ->
       let line := Console.console_line cfg (mkEntry lvl tm [] msg noCaller []) (close y) in
       Log log lvl msg fs h = (in_world (reported_to t line false (h_world h)) (after_tick h), ROk tt)) /\
    (forall lvl msg fs h, lvl <= ErrorLevel -> Enabled (h_cells h) enab lvl = false ->
       Log log lvl msg fs h = (h, ROk tt)) /\
    (forall ent cs fs h h1 errs, write_each cs ent fs h = Some (h1, errs) -> Exists is_Some errs ->
       exists err, ce_Write (Some (mkCE ent (Some (errorOutput log)) false None cs)) fs h =
         (in_world (reported_to t (fmt_time (e_Time ent) ++ go " write error: " ++ fmt_error err ++ [Byte.x0a]) true
                      (h_world h1)) h1,
          ROk (Some (mkCE ent (Some (errorOutput log)) true None cs)))).
Proof.
  intros enab. exists (test_logger t enab). split; [|split; [|split]].
  - unfold NewLogger. by rewrite fold_levels.
  - intros lvl msg fs h tm ts y err Ht Hl Hen Hy line.
    eapply eq_trans; [apply (Log_leaf (test_logger t enab) lvl msg fs h tm ts); try done|].
    + cbn. unfold Level_Enabled. apply Z.leb_gt. cbn. unfold ErrorLevel, FatalLevel in *. lia.
    + by apply (test_core_writes t enab _ fs _ y err).
    + done.
  - intros lvl msg fs h Hl Hen. by apply Log_disabled.
  - intros ent cs fs h h1 errs Hw Herr. destruct (foldM_write_each cs ent fs None h h1 errs Hw) as (err & Hf & Hiff).
    destruct err as [err|]; [|by destruct (proj2 Hiff (or_intror Herr))]. exists err.
    cbn [ce_Write ce_dirty ce_cores ce_Entry ce_after ce_ErrorOutput errorOutput test_logger].
    rewrite (bind_ok _ _ _ _ _ Hf). by rewrite (bind_ok _ _ _ _ _ (report_to_test _ _ _ _)).
Qed.
End TestLogger.
End TestLogger.

(** ** An instance *)

#[local] Existing Instance plainTime.
#[local] Existing Instance exampleRuntime.
#[local] Existing Instance exampleFprint.
#[local] Existing Instance exampleQuoting.
#[local] Existing Instance firstError.
#[local] Existing Instance exampleFmt.
#[local] Existing Instance exampleFrames.

Lemma example_iso_plain : @TestLogger.iso_plain plainTime.
Proof. intros t. by repeat constructor. Qed.

#[local] Existing Instance noUser.
#[local] Instance exampleTestEncoder : EntryEncoder (AnEncoder Empty_set) := TestLogger.enc JSON._jsonPool None.

Lemma test_logger_reports_witness :
  exists log, TestLogger.NewLogger (U := Empty_set) exampleReflect 7 (map TestLogger.Level [ELevel InfoLevel]) timedHeap =
      (timedHeap, ROk log) /\
    t_logs (get_test (h_world (fst (Log log InfoLevel (go "hi") [Int (go "n") 1] timedHeap))) 7) =
      [time_Format (Unix0 1500000000) (go "2006-01-02T15:04:05.000Z0700") ++ [Byte.x09] ++ go "INFO" ++ [Byte.x09] ++
       go "hi" ++ [Byte.x09] ++ goq "{'n': 1}"] /\
    Log log DebugLevel (go "low") [] timedHeap = (timedHeap, ROk tt).
Proof.
  destruct (TestLogger.test_logger_reports (U := Empty_set) JSON._jsonPool None exampleReflect 7
    [ELevel InfoLevel] timedHeap example_iso_plain example_reflect_ok json_pool_ok) as (log & Hnew & Hlog & Hlow & _).
  exists log. split; [exact Hnew|]. split.
  - pose proof (Hlog InfoLevel (go "hi") [Int (go "n") 1] timedHeap (Unix0 1500000000) [] _ _ eq_refl
      ltac:(unfold InfoLevel, ErrorLevel; lia) eq_refl eq_refl) as Hl.
    etransitivity; [exact (f_equal (fun r => t_logs (get_test (h_world (fst r)) 7)) Hl)|]. vm_compute. reflexivity.
  - apply Hlow; [unfold DebugLevel, ErrorLevel; lia|reflexivity].
Defined.
