(* ===== verification/Global.v ===== *)
(** * Global

    [global.go]: the global loggers, and the bridge from the standard library's
    [log] package to a logger. *)
From S2P Require Import Prelude Strconv Utf8 Strings Level Float GoTime Buffer Entry Values Field Sampler.
From S2P Require Import JsonEncoder WriteSyncer Stacktrace Effects Core CoreProofs CoreTheorems Logger LoggerTheorems Sugar.
Open Scope Z_scope.
Open Scope lad_scope.

(** ** The standard library's [log] *)

(** What [log] writes before a message, given its flags and prefix: nothing when
    it has neither. *)
Class StdLog := {
  log_header : Z -> gostring -> gostring;
  log_header_none : log_header 0 [] = [];
}.

Definition LstdFlags : Z := 3.

Section Global.
Context {E : Type} `{EntryEncoder E} `{MultiErr} `{Fmt} `{Frames} `{StdLog}.

(** A [loggerWriter] with the method it calls, by its level. *)
Record loggerWriter := mkLoggerWriter { lw_logger : Logger E; lw_level : Z }.

Inductive log_output : Type :=
| OutStderr
| OutLogger (w : loggerWriter).

(** A [*log.Logger]. *)
Record log_Logger := mkStdLogger { sl_flags : Z; sl_prefix : gostring; sl_out : log_output }.

(** The logger of the package [log] when the program starts. *)
Definition std : log_Logger := mkStdLogger LstdFlags [] OutStderr.

(** The method of a logger for a level. *)
Definition method (logger : Logger E) (lvl : Z) : gostring -> list field -> M unit :=
  if lvl =? DebugLevel then Debug logger
  else if lvl =? InfoLevel then Info logger
  else if lvl =? WarnLevel then Warn logger
  else if lvl =? ErrorLevel then Error logger
  else if lvl =? DPanicLevel then DPanic logger
  else if lvl =? PanicLevel then Panic_ logger
  else Fatal logger.

(** [loggerWriter.Write]: how many bytes it says it wrote. *)
Definition lw_Write (w : loggerWriter) (p : gostring) : M (Z * error) :=
  call (go "loggerWriter.Write")
    (let p := TrimSpace p in
     method (lw_logger w) (lw_level w) p [] ;; ret (Z.of_nat (length p), None)).

Definition ends_newline (s : gostring) : bool := match rev s with b :: _ => beq b Byte.x0a | [] => false end.

(** [log.Print(s)]: [output] adds the header and a newline if there is none,
    and ignores what [Write] returns. *)
Definition std_Print (sl : log_Logger) (s : gostring) : M unit :=
  call (go "log.Print")
    (call (go "log.Logger.output")
       (let line := log_header (sl_flags sl) (sl_prefix sl) ++ s ++ (if ends_newline s then [] else [Byte.x0a]) in
        match sl_out sl with
        | OutStderr => on_world (WriteSyncer.Write (WDevice os_Stderr) line) ;; ret tt
        | OutLogger w => lw_Write w line ;; ret tt
        end)).

(** ** The bridge *)

Definition _stdLogDefaultDepth : Z := 1.
Definition _loggerWriterDepth : Z := 2.

(** [l.WithOptions(AddCallerSkip(...))] *)
Definition skipping (l : Logger E) : M (Logger E) :=
  WithOptions l [AddCallerSkip (_stdLogDefaultDepth + _loggerWriterDepth)].

Definition levelToFunc (logger : Logger E) (lvl : Z) : loggerWriter + gostring :=
  if (_minLevel <=? lvl) && (lvl <=? _maxLevel) then inl (mkLoggerWriter logger lvl)
  else inr (go "unrecognized level: " ++ [Byte.x22] ++ Level_String lvl ++ [Byte.x22]).

Definition NewStdLog (l : Logger E) : M log_Logger :=
  logger <- skipping l ;; ret (mkStdLogger 0 [] (OutLogger (mkLoggerWriter logger InfoLevel))).

Definition NewStdLogAt (l : Logger E) (level : Z) : M (log_Logger + gostring) :=
  logger <- skipping l ;;
  match levelToFunc logger level with
  | inr err => ret (inr err)
  | inl w => ret (inl (mkStdLogger 0 [] (OutLogger w)))
  end.

(** The flags and the prefix are cleared first; the result has the global logger
    and the function that restores it. *)
Definition redirectStdLogAt (sl : log_Logger) (l : Logger E) (level : Z) :
    M (log_Logger * ((log_Logger -> log_Logger) + gostring)) :=
  let flags := sl_flags sl in
  let prefix := sl_prefix sl in
  let sl := mkStdLogger 0 [] (sl_out sl) in
  logger <- skipping l ;;
  match levelToFunc logger level with
  | inr err => ret (sl, inr err)
  | inl w => ret (mkStdLogger 0 [] (OutLogger w), inl (fun _ => mkStdLogger flags prefix OutStderr))
  end.

Definition RedirectStdLogAt := redirectStdLogAt.

(** [_programmerErrorTemplate] *)
Definition programmer_error (err : gostring) : gostring :=
  go "You've found a bug in lad! Please file a bug at https://github.com/uber-go/lad/issues/new and reference this error: "
    ++ err.

Definition RedirectStdLog (sl : log_Logger) (l : Logger E) : M (log_Logger * (log_Logger -> log_Logger)) :=
  r <- redirectStdLogAt sl l InfoLevel ;;
  match r with
  | (_, inr err) => halt (RPanic (programmer_error err))
  | (sl, inl f) => ret (sl, f)
  end.

(** ** The global loggers *)

Record globals := mkGlobals { _globalL : Logger E; _globalS : SugaredLogger E }.

Definition initial_globals : globals := mkGlobals NewNop (Sugar NewNop).

Definition L (g : globals) : Logger E := _globalL g.
Definition S_ (g : globals) : SugaredLogger E := _globalS g.

(** [ReplaceGlobals]: the logger the returned function will put back. *)
Definition ReplaceGlobals (logger : Logger E) (g : globals) : globals * Logger E :=
  (mkGlobals logger (Sugar logger), _globalL g).

Definition restore (prev : Logger E) (g : globals) : globals := fst (ReplaceGlobals prev g).

(** Replacements one after the other, with the functions to undo them, the
    latest first. *)
Fixpoint replace_all (loggers : list (Logger E)) (g : globals) : globals * list (Logger E) :=
  match loggers with
  | [] => (g, [])
  | l :: loggers =>
      let '(g, prev) := ReplaceGlobals l g in
      let '(g, undo) := replace_all loggers g in (g, undo ++ [prev])
  end.

Definition restore_all (undo : list (Logger E)) (g : globals) : globals :=
  fold_left (fun g prev => restore prev g) undo g.
End Global.

Arguments globals : clear implicits.

(** ** Properties *)

Section Bridge.
Context {E : Type} `{EntryEncoder E} `{MultiErr} `{Fmt} `{Frames} `{StdLog}.

(** The method of a level is [log_body] under a name of its own. *)
Lemma method_body (logger : Logger E) lvl :
  supported lvl -> exists fn, method logger lvl = fun msg fs => call fn (log_body logger lvl msg fs).
Proof.
  intros Hl. unfold method.
  destruct (supported_cases lvl Hl) as [->|[->|[->|[->|[->|[->| ->]]]]]]; by eexists.
Qed.

Lemma skipping_ok (l : Logger E) h : skipping l h = (h, ROk (add_skip 3 l)).
Proof. reflexivity. Qed.

Lemma levelToFunc_ok (l : Logger E) lvl : supported lvl -> levelToFunc l lvl = inl (mkLoggerWriter l lvl).
Proof.
  intros [Hlo Hhi]. unfold levelToFunc. by rewrite (proj2 (Z.leb_le _ _) Hlo), (proj2 (Z.leb_le _ _) Hhi).
Qed.

Definition line_of (text : gostring) : gostring := text ++ (if ends_newline text then [] else [Byte.x0a]).

(** C32.  The standard library's log reaches the logger: after
    [RedirectStdLogAt], [log.Print] records one entry at the level, with the text
    without surrounding space, and with the place that called [log.Print] as its
    caller; and the function returned puts the flags and the prefix back. *)
Theorem std_log_reaches_logger (l : Logger E) enab logs ctx sl lvl text h t ts pre f rest
    (Hcore : core_ l = CObserver enab logs ctx) (Hcaller : addCaller l = true) (Hclock : clock l = Now)
    (Ht : h_times h = t :: ts) (Hen : Enabled (h_cells h) enab lvl = true)
    (Hsup : supported lvl) (Hlvl : lvl <= ErrorLevel)
    (Hst : h_frames h = pre ++ f :: rest) (Hpre : Z.of_nat (length pre) = callerSkip l)
    (Hskip : callerSkip l + 3 < 2 ^ 63) :
  let stack := if Enabled (h_cells h) (addStack l) lvl then frames_text (f :: removelast rest) else [] in
  exists sl' back h',
    RedirectStdLogAt sl l lvl h = (h, ROk (sl', inl back)) /\
    std_Print sl' text h = (h', ROk tt) /\ h_world h' = h_world h /\
    h_observed h' = <[logs := default [] (h_observed h !! logs) ++
      [mkLogged (mkEntry lvl t (name l) (TrimSpace (line_of text)) (caller_of f) stack) ctx]]> (h_observed h) /\
    back sl' = mkStdLogger (sl_flags sl) (sl_prefix sl) OutStderr.
Proof.
  intros stack. eexists _, _. unfold RedirectStdLogAt, redirectStdLogAt.
  rewrite (bind_ok _ _ _ _ _ (skipping_ok l h)), (levelToFunc_ok _ _ Hsup).
  set (h1 := set_frames (frame_of (go "log.Print") :: h_frames h) h).
  set (h2 := set_frames (frame_of (go "log.Logger.output") :: h_frames h1) h1).
  set (h3 := set_frames (frame_of (go "loggerWriter.Write") :: h_frames h2) h2).
  destruct (method_body (add_skip 3 l) lvl Hsup) as [fn Hfn].
  destruct (call_records_site fn (add_skip 3 l) enab logs ctx lvl (TrimSpace (line_of text)) [] h3 t ts
              (frame_of (go "loggerWriter.Write") :: frame_of (go "log.Logger.output") :: frame_of (go "log.Print") :: pre)
              f rest) as (h' & Hlog & _ & Hw & Ho); try done.
  { cbn. by rewrite Hst. }
  { cbn [add_skip callerSkip length]. rewrite wrapS_id by (unfold inS; lia). lia. }
  exists (set_frames (h_frames h) (set_frames (h_frames h1) (set_frames (h_frames h2) h'))).
  split_and!; [reflexivity| |exact Hw| |reflexivity].
  - unfold std_Print. erewrite call_ok; [reflexivity|]. fold h1. erewrite call_ok; [reflexivity|]. fold h2.
    cbn [sl_flags sl_prefix sl_out]. rewrite log_header_none. cbn [app]. fold (line_of text).
    rewrite (bind_ok _ _ h2 (set_frames (h_frames h2) h') (Z.of_nat (length (TrimSpace (line_of text))), None)); [done|].
    unfold lw_Write. erewrite call_ok; [reflexivity|]. fold h3. cbn [lw_logger lw_level]. rewrite Hfn.
    by rewrite (bind_ok _ _ _ _ _ Hlog).
  - cbn [set_frames h_observed]. rewrite Ho. cbn. by rewrite app_nil_r.
Qed.

(** [ReplaceGlobals] keeps the sugared logger that of the logger, and the
    functions it returns undo nested replacements, the latest first. *)
Theorem replace_globals_restores loggers (g : globals E) (Hg : S_ g = Sugar (L g)) :
  let '(g', undo) := replace_all loggers g in
  S_ g' = Sugar (L g') /\ L g' = default (L g) (last loggers) /\ restore_all undo g' = g.
Proof.
  revert g Hg. induction loggers as [|l ls IH]; intros g Hg; [done|]. cbn [replace_all ReplaceGlobals].
  specialize (IH (mkGlobals l (Sugar l)) eq_refl). destruct (replace_all ls (mkGlobals l (Sugar l))) as [g' undo].
  destruct IH as (Hs & Hl & Hu). split_and!; [done| |].
  - rewrite Hl, last_cons. by destruct (last ls).
  - unfold restore_all in *. rewrite fold_left_app, Hu. unfold L, S_ in *. cbn. rewrite <- Hg. by destruct g.
Qed.
End Bridge.

(** ** Instances *)

#[local] Existing Instance firstError.
#[local] Existing Instance exampleFmt.
#[local] Existing Instance exampleJson.
#[local] Existing Instance exampleFrames.

Definition exampleStdLog : StdLog.
Proof. refine {| log_header flags prefix := if flags =? 0 then prefix else prefix ++ go "2009/01/23 " |}. done. Defined.
#[local] Existing Instance exampleStdLog.

Lemma std_log_reaches_logger_witness :
  exists sl' back h',
    RedirectStdLogAt std tracedLog InfoLevel framedHeap = (framedHeap, ROk (sl', inl back)) /\
    std_Print sl' (go " hello ") framedHeap = (h', ROk tt) /\ h_world h' = h_world framedHeap /\
    h_observed h' = <[9%nat := [mkLogged (mkEntry InfoLevel zeroTime [] (go "hello")
        (mkCaller true 2 (go "/src/pkg/f.go") 2 (go "pkg.F")) []) []]]> ∅ /\
    back sl' = mkStdLogger LstdFlags [] OutStderr.
Proof.
  apply (std_log_reaches_logger tracedLog (ELevel InfoLevel) 9 [] std InfoLevel (go " hello ") framedHeap
    zeroTime [] (map exampleFrame [1]) (exampleFrame 2) (map exampleFrame [3; 4; 5])); done.
Defined.

Lemma replace_globals_restores_witness :
  let '(g', undo) := replace_all [tracedLog; exampleLog] initial_globals in
  S_ g' = Sugar (L g') /\ L g' = exampleLog /\ restore_all undo g' = initial_globals.
Proof. exact (replace_globals_restores [tracedLog; exampleLog] initial_globals eq_refl). Defined.

(** A redirection that fails has already cleared the flags. *)
Example failed_redirect_clears_flags :
  snd (RedirectStdLogAt std exampleLog 42 emptyHeap) =
    ROk (mkStdLogger 0 [] OutStderr, inr (go "unrecognized level: " ++ [Byte.x22] ++ go "Level(42)" ++ [Byte.x22])).
Proof. reflexivity. Qed.

(** What [loggerWriter.Write] reports is less than what it was given. *)
Example logger_writer_short_count :
  snd (lw_Write (mkLoggerWriter NewNop InfoLevel) (go "hello" ++ [Byte.x0a]) emptyHeap) = ROk (5, None).
Proof. reflexivity. Qed.
