(* ===== verification/SharedState.v ===== *)
(** * SharedState

    State that goroutines share behind a lock: the logs of an observer
    ([ladtest/observer/observer.go]), the global loggers ([global.go]) and the
    registry of encoders ([encoder.go]).  Each is an object of [Guarded], its
    critical sections in the steps of the code, and a section run to its end is
    the operation of the sequential model. *)
From S2P Require Import Prelude Strconv Utf8 Strings Level Float GoTime Buffer Entry Values Field Encoder.
From S2P Require Import Json JsonTree JsonEncoder JsonSpec JsonTheorems Console Sampler WriteSyncer.
From S2P Require Import Stacktrace Effects Core Encoders Observer CoreTheorems Logger LoggerTheorems Sugar.
From S2P Require Import ConfigTheorems Global Guarded.
Open Scope Z_scope.

(** ** Observed logs *)

Inductive ob_op : Type :=
| ObAdd (log : LoggedEntry)
| ObLen
| ObAll
| ObTakeAll
| ObFilter (keep : LoggedEntry -> bool).

Inductive ob_res : Type :=
| ObNone
| ObCount (n : Z)
| ObLogs (l : list LoggedEntry).

(** The steps between lock and unlock; the variables are what has been computed
    so far.  [All] makes a slice of the length it read and then copies; [TakeAll]
    reads the slice and then drops it. *)
Definition ob_steps (op : ob_op) : list (ob_res -> list LoggedEntry -> ob_res * list LoggedEntry) :=
  match op with
  | ObAdd log => [fun l logs => (l, logs ++ [log])]
  | ObLen => [fun _ logs => (ObCount (Z.of_nat (length logs)), logs)]
  | ObAll =>
      [fun _ logs => (ObCount (Z.of_nat (length logs)), logs);
       fun l logs => (match l with ObCount n => ObLogs (take (Z.to_nat n) logs) | _ => l end, logs)]
  | ObTakeAll => [fun _ logs => (ObLogs logs, logs); fun l _ => (l, [])]
  | ObFilter keep => [fun _ logs => (ObLogs (List.filter keep logs), logs)]
  end.

Definition ob_reads (op : ob_op) : bool :=
  match op with ObAdd _ | ObTakeAll => false | ObLen | ObAll | ObFilter _ => true end.

#[export, refine] Instance ObservedLogs_mu : Guarded (list LoggedEntry) ob_res ob_op ob_res :=
  {| reads := ob_reads; enter _ := ObNone; body := ob_steps; result l := l |}.
Proof. intros [log| | | |keep] f l s; cbn; try done; set_solver. Defined.

Lemma ob_call op logs :
  run_call op logs =
    match op with
    | ObAdd log => (logs ++ [log], ObNone)
    | ObLen => (logs, ObCount (Z.of_nat (length logs)))
    | ObAll => (logs, ObLogs logs)
    | ObTakeAll => ([], ObLogs logs)
    | ObFilter keep => (logs, ObLogs (List.filter keep logs))
    end.
Proof. destruct op; try done. unfold run_call. cbn. by rewrite Nat2Z.id, firstn_all. Qed.

(** The sections are the operations of [Observer] and the [add] behind
    [contextObserver.Write]. *)
Lemma ob_call_sequential `{GoRuntime} `{GoCompare} o h :
  (forall log, run_call (ObAdd log) (logs_of o h) = (logs_of o (observe o log h).1, ObNone)) /\
  (forall n h', Len o h = (h', ROk n) -> run_call ObLen (logs_of o h) = (logs_of o h', ObCount n)) /\
  (forall l h', All o h = (h', ROk l) -> run_call ObAll (logs_of o h) = (logs_of o h', ObLogs l)) /\
  (forall l h', TakeAll o h = (h', ROk l) -> run_call ObTakeAll (logs_of o h) = (logs_of o h', ObLogs l)).
Proof.
  split_and!; intros *; rewrite ob_call.
  - unfold logs_of, observe. cbn. by rewrite lookup_insert_eq.
  - by intros [= <- <-].
  - by intros [= <- <-].
  - intros [= <- <-]. unfold logs_of. cbn. by rewrite lookup_insert_eq.
Qed.

(** The entries that were logged, and the collections that were taken. *)
Definition ob_added (x : nat * (ob_op * ob_res)) : option LoggedEntry :=
  match x.2 with (ObAdd log, _) => Some log | _ => None end.

Definition ob_taken (x : nat * (ob_op * ob_res)) : option (list LoggedEntry) :=
  match x.2 with (ObTakeAll, ObLogs l) => Some l | _ => None end.

Lemma ob_balance logs ord :
  logs ++ omap ob_added (trace logs ord) = concat (omap ob_taken (trace logs ord)) ++ after logs ord.
Proof.
  revert logs. induction ord as [|[i op] ord IH]; intros logs; [apply app_nil_r|].
  cbn [trace after]. rewrite ob_call. destruct op; cbn [omap list_omap ob_added ob_taken snd fst concat].
  - by rewrite <- IH, <- app_assoc.
  - apply IH.
  - apply IH.
  - rewrite <- app_assoc, <- IH. done.
  - apply IH.
Qed.

(** C18.  However goroutines that log to an observer, query it and empty it are
    scheduled, they all come to their end, and then a sequence of exactly their
    calls explains the run: each goroutine's in its order, with the results it
    got, and none before a call that had returned when it began.  In it every
    entry that was logged is in exactly one collection that was taken, or still
    there, in the order of logging; and [Len], [All], [TakeAll] and [Filter]
    answer for exactly the entries logged before them and not yet taken. *)
Theorem observed_entries_taken_once opss is_ c (Hrun : run is_ (start_calls [] opss) = Some c) :
  Acc steps c /\
  ((forall i, move i c = None) ->
   exists tr,
     explains [] opss is_ c tr /\
     omap ob_added tr = concat (omap ob_taken tr) ++ g_shared c /\
     (forall tr1 i op r tr2, tr = tr1 ++ (i, (op, r)) :: tr2 ->
        exists l, omap ob_added tr1 = concat (omap ob_taken tr1) ++ l /\
          r = match op with
              | ObAdd _ => ObNone
              | ObLen => ObCount (Z.of_nat (length l))
              | ObAll | ObTakeAll => ObLogs l
              | ObFilter keep => ObLogs (List.filter keep l)
              end)).
Proof.
  destruct (calls_linearized _ _ _ _ Hrun) as [Hacc Hend]. split; [done|]. intros Hstuck.
  destruct (Hend Hstuck) as [Hsh Hby]. exists (trace [] (g_order c)). split_and!.
  - exact Hby.
  - rewrite Hsh. apply (ob_balance []).
  - intros tr1 i op r tr2 Htr. destruct (trace_middle _ _ _ _ _ _ _ Htr) as (ord1 & -> & ->).
    eexists. split; [apply (ob_balance [])|]. rewrite ob_call. by destruct op.
Qed.

(** ** Global loggers *)

Section Globals.
Context {E : Type} `{EntryEncoder E} `{MultiErr} `{Fmt} `{Frames} `{StdLog}.

Inductive global_op : Type :=
| GL
| GS
| GReplace (logger : Logger E).

Inductive global_res : Type :=
| GotNothing
| GotLogger (l : Logger E)
| GotSugar (s : SugaredLogger E)
| GotPrev (prev : Logger E).

(** [ReplaceGlobals] writes the two variables one after the other. *)
Definition global_steps (op : global_op) : list (global_res -> globals E -> global_res * globals E) :=
  match op with
  | GL => [fun _ g => (GotLogger (_globalL g), g)]
  | GS => [fun _ g => (GotSugar (_globalS g), g)]
  | GReplace logger =>
      [fun _ g => (GotPrev (_globalL g), g);
       fun l g => (l, mkGlobals logger (_globalS g));
       fun l g => (l, mkGlobals (_globalL g) (Sugar logger))]
  end.

Definition global_reads (op : global_op) : bool := match op with GReplace _ => false | _ => true end.

#[export, refine] Instance _globalMu : Guarded (globals E) global_res global_op global_res :=
  {| reads := global_reads; enter _ := GotNothing; body := global_steps; result l := l |}.
Proof. intros [| |logger] f l g; cbn; try done; set_solver. Defined.

(** The sections are [L], [S] and [ReplaceGlobals] of the sequential model. *)
Lemma global_call op g :
  run_call op g =
    match op with
    | GL => (g, GotLogger (L g))
    | GS => (g, GotSugar (S_ g))
    | GReplace logger => let '(g, prev) := ReplaceGlobals logger g in (g, GotPrev prev)
    end.
Proof. by destruct op. Qed.

(** The logger the last replacement installed, [l] before the first one. *)
Definition installed (tr : list (nat * (global_op * global_res))) (l : Logger E) : Logger E :=
  fold_left (fun l x => match x.2.1 with GReplace logger => logger | _ => l end) tr l.

Lemma installed_after g ord :
  S_ g = Sugar (L g) ->
  L (after g ord) = installed (trace g ord) (L g) /\ S_ (after g ord) = Sugar (L (after g ord)).
Proof.
  revert g. induction ord as [|[i op] ord IH]; intros g Hg; [done|]. cbn [after trace].
  rewrite global_call. destruct op; by apply IH.
Qed.

(** C17.  The two global loggers never disagree: however calls of [L], [S] and
    [ReplaceGlobals] are scheduled, they all return, and a sequence of exactly
    these calls explains the run (each goroutine's in its order, with the
    results it got, and none before a call that had returned when it began) in
    which [L] returns the logger installed last, [S] the sugared form of that
    logger, and [ReplaceGlobals] the one it replaced, though it writes the two
    variables one after the other. *)
Theorem globals_never_disagree g opss is_ c (Hg : S_ g = Sugar (L g))
    (Hrun : run is_ (start_calls g opss) = Some c) :
  Acc steps c /\
  ((forall i, move i c = None) ->
   exists tr,
     explains g opss is_ c tr /\
     (forall tr1 i op r tr2, tr = tr1 ++ (i, (op, r)) :: tr2 ->
        r = match op with
            | GL => GotLogger (installed tr1 (L g))
            | GS => GotSugar (Sugar (installed tr1 (L g)))
            | GReplace _ => GotPrev (installed tr1 (L g))
            end) /\
     L (g_shared c) = installed tr (L g) /\ S_ (g_shared c) = Sugar (L (g_shared c))).
Proof.
  destruct (calls_linearized _ _ _ _ Hrun) as [Hacc Hend]. split; [done|]. intros Hstuck.
  destruct (Hend Hstuck) as [Hsh Hby]. exists (trace g (g_order c)). split_and!.
  - exact Hby.
  - intros tr1 i op r tr2 Htr. destruct (trace_middle _ _ _ _ _ _ _ Htr) as (ord1 & -> & ->).
    destruct (installed_after g ord1 Hg) as [HL HS]. rewrite global_call.
    destruct op; cbn; [by rewrite HL|by rewrite HS, HL|by f_equal].
  - rewrite Hsh. by apply installed_after.
  - rewrite Hsh. by apply installed_after.
Qed.
End Globals.

(** ** The encoder registry *)

Section Registry.
Context `{TimeFormat} `{GoRuntime} `{FprintElem} `{Quoting} {U : Type} {user : EntryEncoder U}.

Abbreviation registry := (gmap gostring (constructor_ (U := U))).

(** [RegNew] is what [newEncoder] does after it has looked at [EncodeTime]. *)
Inductive reg_op : Type :=
| RegEncoder (name : gostring) (constructor : constructor_ (U := U))
| RegNew (name : gostring) (cfg : EncoderConfig).

(** What is known so far: nothing, that the name is free, what [RegisterEncoder]
    returns, the constructor found, or what [newEncoder] returns. *)
Inductive reg_res : Type :=
| RegNone
| RegError (err : error)
| RegFound (constructor : constructor_ (U := U))
| RegBuilt (enc : AnEncoder U + goerror).

Definition already (name : gostring) : goerror :=
  newError (go "encoder already registered for name " ++ fmt_q name).
Definition notRegistered (name : gostring) : goerror :=
  newError (go "no encoder registered for name " ++ fmt_q name).

(** The checks, which may return, and then the update; [newEncoder] calls the
    constructor before it lets go of the lock. *)
Definition reg_steps (op : reg_op) : list (reg_res -> registry -> reg_res * registry) :=
  match op with
  | RegEncoder name constructor =>
      [fun l reg => if nonempty name then (l, reg) else (RegError (Some errNoEncoderNameSpecified), reg);
       fun l reg => match l, reg !! name with
                    | RegNone, Some _ => (RegError (Some (already name)), reg)
                    | _, _ => (l, reg)
                    end;
       fun l reg => match l with
                    | RegNone => (RegError None, <[name := constructor]> reg)
                    | _ => (l, reg)
                    end]
  | RegNew name cfg =>
      [fun l reg => if nonempty name then (l, reg) else (RegBuilt (inr errNoEncoderNameSpecified), reg);
       fun l reg => match l with
                    | RegNone => match reg !! name with
                                 | Some constructor => (RegFound constructor, reg)
                                 | None => (RegBuilt (inr (notRegistered name)), reg)
                                 end
                    | _ => (l, reg)
                    end;
       fun l reg => match l with RegFound constructor => (RegBuilt (constructor cfg), reg) | _ => (l, reg) end]
  end.

Definition reg_reads (op : reg_op) : bool := match op with RegNew _ _ => true | RegEncoder _ _ => false end.

#[export, refine] Instance _encoderMutex : Guarded registry reg_res reg_op reg_res :=
  {| reads := reg_reads; enter _ := RegNone; body := reg_steps; result l := l |}.
Proof.
  intros [name k|name cfg] f l reg; cbn; [done|]. intros _ Hf.
  repeat (apply elem_of_cons in Hf as [->|Hf]); [| | |by apply elem_of_nil in Hf].
  - by destruct (nonempty name).
  - destruct l; [|done..]. by destruct (reg !! name).
  - by destruct l.
Defined.

(** The sections are [RegisterEncoder] and [newEncoder] of the sequential
    model. *)
Lemma reg_call_register name k reg :
  run_call (RegEncoder name k) reg =
    let '(reg, err) := RegisterEncoder reg name k in (reg, RegError err).
Proof.
  unfold run_call, RegisterEncoder. cbn. destruct (nonempty name); cbn; [|done]. by destruct (reg !! name).
Qed.

Lemma reg_call_new name cfg reg :
  TimeKey cfg = [] \/ EncodeTime cfg <> None ->
  run_call (RegNew name cfg) reg = (reg, RegBuilt (newEncoder reg name cfg)).
Proof.
  intros Hcfg. unfold run_call, newEncoder. cbn.
  assert (match nonempty (TimeKey cfg), EncodeTime cfg with true, None => false | _, _ => true end = true) as Ht.
  { destruct (EncodeTime cfg); [by destruct (nonempty _)|]. destruct Hcfg as [->|]; done. }
  destruct (nonempty (TimeKey cfg)), (EncodeTime cfg); try done;
    (destruct (nonempty name); cbn; [|done]); by destruct (reg !! name).
Qed.

(** The constructor of the first registration of [name]. *)
Fixpoint first_registered (name : gostring) (tr : list (nat * (reg_op * reg_res))) : option (constructor_ (U := U)) :=
  match tr with
  | [] => None
  | (_, (RegEncoder n k, _)) :: tr => if streq n name then Some k else first_registered name tr
  | _ :: tr => first_registered name tr
  end.

Lemma registered_after name reg ord :
  nonempty name = true ->
  after reg ord !! name = match reg !! name with Some k => Some k | None => first_registered name (trace reg ord) end.
Proof.
  intros Hn. revert reg. induction ord as [|[i op] ord IH]; intros reg; cbn [after trace]; [by destruct (reg !! name)|].
  destruct op as [n k|n cfg].
  - rewrite reg_call_register. unfold RegisterEncoder. destruct (streq n name) eqn:Es.
    + apply streq_true in Es as ->. rewrite Hn. cbn. destruct (reg !! name) as [k'|] eqn:Er; cbn [fst].
      * by rewrite IH, Er.
      * rewrite IH, lookup_insert_eq. cbn. by rewrite streq_refl.
    + assert (n <> name) as Hne by (intros ->; by rewrite streq_refl in Es).
      destruct (negb (nonempty n)); [|destruct (reg !! n)]; cbn [fst first_registered]; rewrite Es, IH; [done..|].
      by rewrite lookup_insert_ne.
  - pose proof (run_call_reads (RegNew n cfg) reg eq_refl) as Hr. destruct (run_call (RegNew n cfg) reg) as [reg' r].
    cbn in Hr. subst reg'. apply IH.
Qed.

End Registry.

(** ** Instances *)

Definition exampleObserved (msg : gostring) : LoggedEntry :=
  mkLogged (mkEntry InfoLevel zeroTime [] msg noCaller []) [].

Local Abbreviation exampleObserving :=
  [[ObAdd (exampleObserved (go "one")); ObAdd (exampleObserved (go "two"))]; [ObTakeAll; ObAll]; [ObLen]].
Definition exampleObserverSchedule : list nat := [0; 0; 0; 0; 1; 1; 1; 1; 1; 2; 1; 2; 1; 1; 2; 1; 0; 0; 0; 0]%nat.
Local Abbreviation exampleObserver :=
  (run exampleObserverSchedule (start_calls [] exampleObserving)).

Lemma observed_entries_taken_once_witness :
  exists c, exampleObserver = Some c /\
  (Acc steps c /\
   ((forall i, move i c = None) ->
    exists tr,
     explains [] exampleObserving exampleObserverSchedule c tr /\
     omap ob_added tr = concat (omap ob_taken tr) ++ g_shared c /\
     (forall tr1 i op r tr2, tr = tr1 ++ (i, (op, r)) :: tr2 ->
        exists l, omap ob_added tr1 = concat (omap ob_taken tr1) ++ l /\
          r = match op with
              | ObAdd _ => ObNone
              | ObLen => ObCount (Z.of_nat (length l))
              | ObAll | ObTakeAll => ObLogs l
              | ObFilter keep => ObLogs (List.filter keep l)
              end))).
Proof.
  destruct (some_exists exampleObserver) as [c E]; [vm_compute; reflexivity|].
  exists c. split; [exact E|]. exact (observed_entries_taken_once _ _ _ E).
Defined.

#[local] Existing Instance firstError.
#[local] Existing Instance exampleFmt.
#[local] Existing Instance exampleFrames.
#[local] Existing Instance plainTime.
#[local] Existing Instance exampleRuntime.
#[local] Existing Instance exampleFprint.
#[local] Existing Instance exampleQuoting.
#[local] Existing Instance noUser.

Local Abbreviation exampleReplacing :=
  [[GReplace tracedLog; GS]; [GL; GS; GReplace exampleLog]].
Definition exampleGlobalsSchedule : list nat := [1; 0; 1; 1; 0; 0; 0; 0; 0; 0; 1; 0; 1; 0; 1; 1; 1; 1; 1; 1; 1]%nat.
Local Abbreviation exampleGlobals :=
  (run exampleGlobalsSchedule (start_calls initial_globals exampleReplacing)).

Lemma globals_never_disagree_witness :
  exists c, exampleGlobals = Some c /\
  (Acc steps c /\
   ((forall i, move i c = None) ->
    exists tr,
     explains initial_globals exampleReplacing exampleGlobalsSchedule c tr /\
     (forall tr1 i op r tr2, tr = tr1 ++ (i, (op, r)) :: tr2 ->
        r = match op with
            | GL => GotLogger (installed tr1 NewNop)
            | GS => GotSugar (Sugar (installed tr1 NewNop))
            | GReplace _ => GotPrev (installed tr1 NewNop)
            end) /\
     L (g_shared c) = installed tr NewNop /\ S_ (g_shared c) = Sugar (L (g_shared c)))).
Proof.
  destruct (some_exists exampleGlobals) as [c E]; [vm_compute; reflexivity|].
  exists c. split; [exact E|]. exact (globals_never_disagree initial_globals _ _ _ eq_refl E).
Defined.

(** Two encoders nobody can build, told apart by their errors. *)
Definition exampleConstructor (text : gostring) : constructor_ (U := Empty_set) := fun _ => inr (newError text).

Local Abbreviation exampleRegistering :=
  [[RegEncoder (go "x") (exampleConstructor (go "a")); RegNew (go "x") exampleConfig];
   [RegEncoder (go "x") (exampleConstructor (go "b"))]].
Definition exampleRegistrySchedule : list nat := (repeat 1 6 ++ repeat 0 11)%nat.
Local Abbreviation exampleRegistry :=
  (run exampleRegistrySchedule
     (start_calls (_encoderNameToConstructor exampleReflect) exampleRegistering)).

