(* ===== verification/Ladkit.v ===== *)
(** * Ladkit

    [ladkit/ladkit.go]: a global logger over a console and files. *)
From S2P Require Import Prelude Strconv Utf8 Level Float GoTime Buffer Entry Values Field Encoder.
From S2P Require Import JsonEncoder Console WriteSyncer Sampler Stacktrace Effects Core CoreProofs CoreTheorems Logger Sugar.
From S2P Require Import Encoders Sinks Config Global.
Open Scope Z_scope.
Open Scope lad_scope.

Module Ladkit.

Record FileConfig := mkFileConfig {
  fc_Level : Z;
  Filename : gostring;
  MaxSizeMB : Z;
  MaxBackups : Z;
  MaxAgeDays : Z;
  Compress : bool;
}.

Section Ladkit.
Context `{TimeFormat} `{GoRuntime} `{FprintElem}.
Context {U : Type} `{EntryEncoder (AnEncoder U)} `{MultiErr} `{Fmt} `{Frames}.
Abbreviation E := (AnEncoder U).

(** The default [ReflectedEncoder], and the writer a [lumberjack.Logger] with the
    settings is; it has no [Sync] method. *)
Variables (dre : ReflectedEncoder) (lumberjack : FileConfig -> nat).

Record Config := mkKit { cores : list (core E); caller : bool }.

Definition Option := Config -> Config.

Definition default_time_format : gostring := go "2006-01-02 15:04:05.000".

(** The production configuration with another time and level. *)
Definition enc_config (tf : gostring) (lvl : LevelEncoder) : EncoderConfig :=
  let c := NewProductionEncoderConfig in
  mkConfig (MessageKey c) (LevelKey c) (TimeKey c) (NameKey c) (CallerKey c) (FunctionKey c) (StacktraceKey c)
    (SkipLineEnding c) (LineEnding c) (Some lvl) (Some (fun t => CString (time_Format t tf)))
    (EncodeDuration c) (EncodeCaller c) (EncodeName c) (NewReflectedEncoder c) (ConsoleSeparator c).

Definition console_core (level : Z) (enableColor : bool) (timeFormat : gostring) : core E :=
  let tf := if nonempty timeFormat then timeFormat else default_time_format in
  let lvl := if enableColor then CapitalColorLevelEncoder else LowercaseLevelEncoder in
  NewCore (EncConsole (Console.NewConsoleEncoder dre (enc_config tf lvl))) (AddSync os_Stdout true) (ELevel level).

Definition WithConsole (level : Z) (enableColor : bool) (timeFormat : gostring) : Option := fun cfg =>
  mkKit (cores cfg ++ [console_core level enableColor timeFormat]) (caller cfg).

Definition file_core (fc : FileConfig) : core E :=
  NewCore (EncConsole (Console.NewConsoleEncoder dre (enc_config default_time_format CapitalLevelEncoder)))
    (AddSync (lumberjack fc) false) (ELevel (fc_Level fc)).

Definition WithFile (fc : FileConfig) : Option := fun cfg => mkKit (cores cfg ++ [file_core fc]) (caller cfg).

Definition WithCaller : Option := fun cfg => mkKit (cores cfg) true.

(** The options applied, and a console when they gave no core. *)
Definition configure (opts : list Option) : Config :=
  let cfg := fold_left (fun cfg (opt : Option) => opt cfg) opts (mkKit [] false) in
  match cores cfg with [] => WithConsole DebugLevel true [] cfg | _ => cfg end.

Definition New (opts : list Option) (g : globals E) : M (globals E) :=
  let cfg := configure opts in
  logger <- Logger.New (Some (NewTee (cores cfg))) (if caller cfg then [AddCaller] else []) ;;
  ret (fst (ReplaceGlobals logger g)).

(** ** Where messages go *)

(** What an option asks for. *)
Inductive request : Type :=
| RConsole (level : Z) (enableColor : bool) (timeFormat : gostring)
| RFile (fc : FileConfig)
| RCaller.

Definition option_of (r : request) : Option :=
  match r with
  | RConsole l c t => WithConsole l c t
  | RFile fc => WithFile fc
  | RCaller => WithCaller
  end.

(** The destinations asked for, with their levels. *)
Definition destination (r : request) : option (Z * core E) :=
  match r with
  | RConsole l c t => Some (l, console_core l c t)
  | RFile fc => Some (fc_Level fc, file_core fc)
  | RCaller => None
  end.

Definition destinations (rs : list request) : list (Z * core E) :=
  match omap destination rs with
  | [] => [(DebugLevel, console_core DebugLevel true [])]
  | ds => ds
  end.

Lemma fold_cores rs cfg :
  cores (fold_left (fun cfg (opt : Option) => opt cfg) (map option_of rs) cfg) = cores cfg ++ map snd (omap destination rs).
Proof.
  revert cfg. induction rs as [|[l c t|fc|] rs IH]; intros cfg; cbn [map fold_left]; [by rewrite app_nil_r|..];
    rewrite IH; cbn; by rewrite <- ?app_assoc.
Qed.

Lemma configure_cores rs : cores (configure (map option_of rs)) = map snd (destinations rs).
Proof.
  unfold configure, destinations. pose proof (fold_cores rs (mkKit [] false)) as Hf.
  destruct (fold_left _ _ _) as [cs cl]. cbn [cores app] in *. subst cs.
  by destruct (omap destination rs) as [|d ds].
Qed.

Definition wants_caller (r : request) : bool := match r with RCaller => true | _ => false end.

Lemma configure_caller rs : caller (configure (map option_of rs)) = existsb wants_caller rs.
Proof.
  assert (forall cfg, caller (fold_left (fun cfg (opt : Option) => opt cfg) (map option_of rs) cfg) =
            caller cfg || existsb wants_caller rs) as Hf.
  { induction rs as [|[l c t|fc|] rs IH]; intros cfg; cbn [map fold_left existsb]; [by rewrite orb_false_r|..];
      rewrite IH; cbn; [done..|by rewrite orb_true_r]. }
  unfold configure. specialize (Hf (mkKit [] false)). by destruct (fold_left _ _ _) as [[|c cs] cl].
Qed.

Lemma destinations_io rs : Forall (fun d => exists enc out, d.2 = CIo (ELevel d.1) enc out) (destinations rs).
Proof.
  assert (Forall (fun d => exists enc out, d.2 = CIo (ELevel d.1) enc out) (omap destination rs)) as Hall.
  { induction rs as [|[l c t|fc|] rs IH]; cbn; [constructor|..]; try constructor; eauto; by eexists _, _. }
  unfold destinations. destruct (omap destination rs); [|done]. repeat constructor. by eexists _, _.
Qed.

Lemma collected_tee cells ent (ds : list (Z * core E)) :
  Forall (fun d => exists enc out, d.2 = CIo (ELevel d.1) enc out) ds ->
  stateless (NewTee (map snd ds)) = true /\
  collected cells ent (NewTee (map snd ds)) = map snd (List.filter (fun d => d.1 <=? e_Level ent) ds).
Proof.
  intros Hds.
  assert (forallb stateless (map snd ds) = true /\
          concat (map (collected cells ent) (map snd ds)) = map snd (List.filter (fun d => d.1 <=? e_Level ent) ds)) as [Hs Hc].
  { induction Hds as [|[l c] ds (enc & out & Hd) _ [IHs IHc]]; [done|]. cbn [snd fst] in Hd. subst c.
    cbn [map forallb stateless concat List.filter fst snd]. rewrite IHs, IHc. split; [done|].
    unfold collected, admitted. cbn. unfold Level_Enabled. by destruct (l <=? e_Level ent). }
  destruct ds as [|[l c] [|d ds]]; [done| |].
  - cbn in *. rewrite andb_true_r in Hs. split; [done|]. by rewrite app_nil_r in Hc.
  - split; [done|]. change (NewTee _) with (CMulti (map snd ((l, c) :: d :: ds))). by rewrite collected_multi.
Qed.

(** The global logger [New] installs reaches every destination asked for:
    whatever consoles and files the options name, in any order, or the default
    console when they name none, an entry is accepted by exactly those whose
    level it reaches, in order; and the caller is recorded when an option asks
    for it. *)
Theorem ladkit_reaches_destinations rs g h ent :
  exists g', New (map option_of rs) g h = (h, ROk g') /\ S_ g' = Sugar (L g') /\
    addCaller (L g') = existsb wants_caller rs /\
    core_Check (core_ (L g')) ent None h =
      (h, ROk (add_all ent (map snd (List.filter (fun d => d.1 <=? e_Level ent) (destinations rs))) None)).
Proof.
  unfold New. rewrite <- configure_caller. pose proof (configure_cores rs) as Hc. destruct (configure (map option_of rs)) as [cs cl].
  cbn [cores caller] in *. subst cs. destruct (collected_tee (h_cells h) ent _ (destinations_io rs)) as [Hs Hcol].
  pose proof (Check_collects (NewTee (map snd (destinations rs))) ent None h Hs) as Hk. rewrite Hcol in Hk.
  destruct cl; (eexists; split; [reflexivity|]; split_and!; [done|done|exact Hk]).
Qed.
End Ladkit.
End Ladkit.
