(* ===== verification/Grpc.v ===== *)
(** * Grpc

    [ladgrpc/zapgrpc.go]: a logger for gRPC over a sugared logger. *)
From S2P Require Import Prelude Strconv Utf8 Level Float GoTime Buffer Entry Values Field Sampler.
From S2P Require Import JsonEncoder WriteSyncer Stacktrace Effects Core CoreProofs CoreTheorems Logger LoggerTheorems Sugar.
From S2P Require Import SugarTheorems.
Open Scope Z_scope.
Open Scope lad_scope.

Module Grpc.

Definition grpcLvlInfo : Z := 0.
Definition grpcLvlWarn : Z := 1.
Definition grpcLvlError : Z := 2.
Definition grpcLvlFatal : Z := 3.

Definition _grpcToladLevel : gmap Z Z :=
  <[grpcLvlInfo := InfoLevel]> (<[grpcLvlWarn := WarnLevel]>
  (<[grpcLvlError := ErrorLevel]> (<[grpcLvlFatal := FatalLevel]> ∅))).

Section Grpc.
Context {E : Type} `{EntryEncoder E} `{MultiErr} `{Fmt} `{Frames} `{Sprint} `{GoRuntime}.

(** The newline [Sprintln] adds is dropped. *)
Definition sprintln (args : list goval) : gostring :=
  let s := Sprintln args in take (length s - 1) s.

Definition str (s : gostring) : list goval := [VScalar KString s].

(** A printer: the core that says which levels are on, and two methods of the
    sugared logger. *)
Record printer := mkPrinter {
  enab : core E;
  level : Z;
  print : list goval -> M unit;
  printf : gostring -> list goval -> M unit;
}.

Definition enabled (c : core E) (lvl : Z) : M bool := h <- get_heap ;; ret (core_Enabled (h_cells h) c lvl).

Definition printer_Print (v : printer) (args : list goval) : M unit :=
  call (go "printer.Print") (print v args).

Definition printer_Printf (v : printer) (format : gostring) (args : list goval) : M unit :=
  call (go "printer.Printf") (printf v format args).

Definition printer_Println (v : printer) (args : list goval) : M unit :=
  call (go "printer.Println")
    (b <- enabled (enab v) (level v) ;; if b then print v (str (sprintln args)) else ret tt).

Record Logger := mkGrpc {
  delegate : SugaredLogger E;
  levelEnabler : core E;
  print_ : printer;
  fatal_ : printer;
}.

Definition Option := Logger -> Logger.

Definition WithDebug : Option := fun l =>
  mkGrpc (delegate l) (levelEnabler l)
    (mkPrinter (levelEnabler l) DebugLevel (Sugar_Debug (delegate l)) (Debugf (delegate l))) (fatal_ l).

Definition withWarn : Option := fun l =>
  mkGrpc (delegate l) (levelEnabler l) (print_ l)
    (mkPrinter (levelEnabler l) WarnLevel (Sugar_Warn (delegate l)) (Warnf (delegate l))).

Definition NewLogger (l : Logger.Logger E) (options : list Option) : Logger :=
  let delegate := Sugar l in
  let levelEnabler := core_ l in
  fold_left (fun lg (option : Option) => option lg) options
    (mkGrpc delegate levelEnabler
       (mkPrinter levelEnabler InfoLevel (Sugar_Info delegate) (Infof delegate))
       (mkPrinter levelEnabler FatalLevel (Sugar_Fatal delegate) (Fatalf delegate))).

Definition Print (l : Logger) (args : list goval) : M unit :=
  call (go "grpc.Print") (printer_Print (print_ l) args).
Definition Printf (l : Logger) (format : gostring) (args : list goval) : M unit :=
  call (go "grpc.Printf") (printer_Printf (print_ l) format args).
Definition Println (l : Logger) (args : list goval) : M unit :=
  call (go "grpc.Println") (printer_Println (print_ l) args).

Definition Info (l : Logger) (args : list goval) : M unit :=
  call (go "grpc.Info") (Sugar_Info (delegate l) args).
Definition Infoln (l : Logger) (args : list goval) : M unit :=
  call (go "grpc.Infoln")
    (b <- enabled (levelEnabler l) InfoLevel ;; if b then Sugar_Info (delegate l) (str (sprintln args)) else ret tt).
Definition Infof (l : Logger) (format : gostring) (args : list goval) : M unit :=
  call (go "grpc.Infof") (Sugar.Infof (delegate l) format args).

Definition Warning (l : Logger) (args : list goval) : M unit :=
  call (go "grpc.Warning") (Sugar_Warn (delegate l) args).
Definition Warningln (l : Logger) (args : list goval) : M unit :=
  call (go "grpc.Warningln")
    (b <- enabled (levelEnabler l) WarnLevel ;; if b then Sugar_Warn (delegate l) (str (sprintln args)) else ret tt).
Definition Warningf (l : Logger) (format : gostring) (args : list goval) : M unit :=
  call (go "grpc.Warningf") (Warnf (delegate l) format args).

Definition Error (l : Logger) (args : list goval) : M unit :=
  call (go "grpc.Error") (Sugar_Error (delegate l) args).
Definition Errorln (l : Logger) (args : list goval) : M unit :=
  call (go "grpc.Errorln")
    (b <- enabled (levelEnabler l) ErrorLevel ;; if b then Sugar_Error (delegate l) (str (sprintln args)) else ret tt).
Definition Errorf (l : Logger) (format : gostring) (args : list goval) : M unit :=
  call (go "grpc.Errorf") (Sugar.Errorf (delegate l) format args).

Definition Fatal (l : Logger) (args : list goval) : M unit :=
  call (go "grpc.Fatal") (printer_Print (fatal_ l) args).
Definition Fatalln (l : Logger) (args : list goval) : M unit :=
  call (go "grpc.Fatalln") (printer_Println (fatal_ l) args).
Definition Fatalf (l : Logger) (format : gostring) (args : list goval) : M unit :=
  call (go "grpc.Fatalf") (printer_Printf (fatal_ l) format args).

(** A level the table does not have is the zero level, [InfoLevel]. *)
Definition V (l : Logger) (lvl : Z) : M bool :=
  enabled (levelEnabler l) (default 0 (_grpcToladLevel !! lvl)).

(** ** Fatal messages *)

Lemma sugar_fatal_stops (s : SugaredLogger E) template args context h h' u :
  (forall id f, onFatal (base s) <> Some (HCustom id f)) -> log_ s FatalLevel template args context h <> (h', ROk u).
Proof.
  intros Hs Hl. apply call_inv in Hl as (h1 & Hl & _).
  set (h2 := set_frames _ h) in Hl. rewrite (bind_ok get_heap _ h2 h2 h2) in Hl by done.
  assert (skips s FatalLevel h2 = false) as Hskip by done.
  rewrite Hskip in Hl. unfold write_message in Hl. unbind Hl. apply call_inv in Ha as (h4 & Ha & _).
  destruct (check_guarded _ FatalLevel _ _ _ _ ltac:(by left) Ha) as (ce & -> & Hg).
  unbind Hl. unbind Hl. destruct (guarded_returns _ _ _ _ _ _ _ _ Hg Ha1) as (id & f & _ & Hh & _). by apply (Hs id f).
Qed.

(** When no core logs [FatalLevel], [Fatal] and [Fatalf] still end the
    program, as the logger beneath does, but [Fatalln] asks for the level first
    and returns to its caller as if nothing had happened. *)
Theorem grpc_fatalln_returns (l : Logger.Logger E) format args h
    (Hs : forall id f, onFatal l <> Some (HCustom id f)) (Hd : core_Enabled (h_cells h) (core_ l) FatalLevel = false) :
  (forall h' u, Fatal (NewLogger l []) args h <> (h', ROk u)) /\
  (forall h' u, Fatalf (NewLogger l []) format args h <> (h', ROk u)) /\
  Fatalln (NewLogger l []) args h = (h, ROk tt).
Proof.
  split_and!.
  - intros h' u Hf. apply call_inv in Hf as (h1 & Hf & _). apply call_inv in Hf as (h2 & Hf & _).
    apply call_inv in Hf as (h3 & Hf & _). revert Hf. by apply sugar_fatal_stops.
  - intros h' u Hf. apply call_inv in Hf as (h1 & Hf & _). apply call_inv in Hf as (h2 & Hf & _).
    apply call_inv in Hf as (h3 & Hf & _). revert Hf. by apply sugar_fatal_stops.
  - unfold Fatalln, printer_Println. erewrite call_ok; [|erewrite call_ok; [reflexivity|]; unfold enabled, bind, get_heap, ret;
      cbn; by rewrite Hd]. by destruct h.
Qed.
End Grpc.
End Grpc.

(** ** Instances *)

#[local] Existing Instance firstError.
#[local] Existing Instance exampleFmt.
#[local] Existing Instance exampleJson.
#[local] Existing Instance exampleFrames.
#[local] Existing Instance exampleSprint.
#[local] Existing Instance exampleRuntime.

Lemma grpc_fatalln_returns_witness :
  let l := NewNop (E := jsonEncoder) in
  (forall h' u, Grpc.Fatal (Grpc.NewLogger l []) [] emptyHeap <> (h', ROk u)) /\
  (forall h' u, Grpc.Fatalf (Grpc.NewLogger l []) [] [] emptyHeap <> (h', ROk u)) /\
  Grpc.Fatalln (Grpc.NewLogger l []) [] emptyHeap = (emptyHeap, ROk tt).
Proof. apply (Grpc.grpc_fatalln_returns NewNop [] [] emptyHeap); done. Defined.

(** A verbosity level gRPC does not have is taken for information. *)
Example grpc_unknown_level :
  snd (Grpc.V (Grpc.NewLogger exampleLog []) 42 emptyHeap) = ROk true.
Proof. reflexivity. Qed.
