(* ===== verification/Http.v ===== *)
(** * Http

    [http_handler.go] and [flag.go]: reading and changing an atomic level over
    HTTP, and a level as a command line flag. *)
From S2P Require Import Prelude Strconv Utf8 Level Float GoTime Values Encoders.
Open Scope Z_scope.

(** ** Requests and responses *)

(** What a request body is for [json.Decoder.Decode] into a struct with a
    [*Level] under ["level"]: malformed, without a level (or with [null]), or
    with a string, which is given to [UnmarshalText]. *)
Inductive body_level : Type :=
| BodyMalformed (err : gostring)
| BodyNoLevel
| BodyLevel (text : gostring).

(** [encoding/json]: reading a level, and a string as JSON; text without
    characters to escape is only quoted. *)
Class JsonLib := {
  decode_body : gostring -> body_level;
  json_string : gostring -> gostring;
}.

Record request := mkRequest {
  rq_Method : gostring;
  rq_ContentType : gostring; (* r.Header.Get("Content-Type") *)
  rq_FormLevel : gostring; (* r.FormValue("level") *)
  rq_Body : gostring;
}.

(** An [http.ResponseWriter]: the status, 200 unless set before, the body, and
    the error its [Write] returns. *)
Record response := mkResponse { rs_status : option Z; rs_body : gostring; rs_fail : error }.

Definition newResponse : response := mkResponse None [] None.

(** Only the first status counts. *)
Definition WriteHeader (code : Z) (w : response) : response :=
  mkResponse (Some (default code (rs_status w))) (rs_body w) (rs_fail w).

Definition w_Write (s : gostring) (w : response) : response * error :=
  let status := Some (default 200 (rs_status w)) in
  match rs_fail w with
  | Some err => (mkResponse status (rs_body w) (rs_fail w), Some err)
  | None => (mkResponse status (rs_body w ++ s) None, None)
  end.

Definition StatusBadRequest : Z := 400.
Definition StatusMethodNotAllowed : Z := 405.
Definition StatusInternalServerError : Z := 500.

Section Http.
Context `{UnicodeTables} `{JsonLib} `{Quoting}.

(** [json.Encoder.Encode] of the two payloads, with the newline it adds. *)
Definition payload (l : Z) : gostring :=
  [Byte.x7b] ++ json_string (go "level") ++ [Byte.x3a] ++ json_string (Level_MarshalText l) ++ [Byte.x7d; Byte.x0a].

Definition errorResponse (err : gostring) : gostring :=
  [Byte.x7b] ++ json_string (go "error") ++ [Byte.x3a] ++ json_string err ++ [Byte.x7d; Byte.x0a].

Definition level_error_text (e : level_error) : gostring :=
  match e with
  | errUnmarshalNilLevel => go "can't unmarshal a nil *Level"
  | errUnrecognizedLevel text => go "unrecognized level: " ++ fmt_q text
  end.

(** ** The handler *)

Definition mustSpecify : gostring := go "must specify logging level".

Definition decodePutURL (r : request) : Z + gostring :=
  let lvl := rq_FormLevel r in
  if negb (nonempty lvl) then inr mustSpecify
  else
    match Level_UnmarshalText (Some 0) lvl with
    | (_, Some err) => inr (level_error_text err)
    | (l, None) => inl (default 0 l)
    end.

Definition decodePutJSON (body : gostring) : Z + gostring :=
  match decode_body body with
  | BodyMalformed err => inr (go "malformed request body: " ++ err)
  | BodyNoLevel => inr mustSpecify
  | BodyLevel text =>
      match Level_UnmarshalText (Some 0) text with
      | (_, Some err) => inr (go "malformed request body: " ++ level_error_text err)
      | (l, None) => inl (default 0 l)
      end
  end.

Definition decodePutRequest (contentType : gostring) (r : request) : Z + gostring :=
  if streq contentType (go "application/x-www-form-urlencoded") then decodePutURL r
  else decodePutJSON (rq_Body r).

Definition serveHTTP (cells : cells) (a : nat) (w : response) (r : request) : Level.cells * response * error :=
  if streq (rq_Method r) (go "GET") then
    let '(w, err) := w_Write (payload (AtomicLevel_Level cells a)) w in (cells, w, err)
  else if streq (rq_Method r) (go "PUT") then
    match decodePutRequest (rq_ContentType r) r with
    | inr err =>
        let w := WriteHeader StatusBadRequest w in
        let '(w, err) := w_Write (errorResponse err) w in (cells, w, err)
    | inl requestedLvl =>
        let cells := AtomicLevel.SetLevel cells a requestedLvl in
        let '(w, err) := w_Write (payload (AtomicLevel_Level cells a)) w in (cells, w, err)
    end
  else
    let w := WriteHeader StatusMethodNotAllowed w in
    let '(w, err) := w_Write (errorResponse (go "Only GET and PUT are supported.")) w in (cells, w, err).

Definition error_text (e : goerror) : gostring := match err_msg e with Ret s => s | Panic s => s end.

Definition ServeHTTP (cells : cells) (a : nat) (w : response) (r : request) : Level.cells * response :=
  match serveHTTP cells a w r with
  | (cells, w, Some err) =>
      let w := WriteHeader StatusInternalServerError w in
      (cells, fst (w_Write (go "internal error: " ++ error_text err) w))
  | (cells, w, None) => (cells, w)
  end.

(** ** Flags *)

(** A flag set by [flag.Var]: its current level; parsing calls [Set]. *)
Definition LevelFlag (defaultLevel : Z) (args : list gostring) : Z * option level_error :=
  fold_left (fun '(l, err) s =>
    match err with
    | Some _ => (l, err)
    | None => let '(l', err) := Level_Set (Some l) s in (default l l', err)
    end) args (defaultLevel, None).

(** ** Properties *)

(** The level a request asks for, if it asks for one. *)
Definition asks (r : request) : option Z :=
  if streq (rq_Method r) (go "PUT") && negb (streq (rq_Method r) (go "GET")) then
    match decodePutRequest (rq_ContentType r) r with inl l => Some l | inr _ => None end
  else None.

Lemma unmarshal_supported text l : Level_UnmarshalText (Some 0) text = (Some l, None) -> supported l.
Proof.
  unfold Level_UnmarshalText. destruct (unmarshalText text) eqn:E.
  - intros [= <-]. by eapply unmarshalText_supported.
  - destruct (unmarshalText (ToLower text)) eqn:E2; [|done]. intros [= <-]. by eapply unmarshalText_supported.
Qed.

Lemma unmarshal_default text r : Level_UnmarshalText (Some 0) text = (r, None) -> supported (default 0 r).
Proof.
  intros Hu. destruct r as [l|]; [by eapply unmarshal_supported|].
  unfold Level_UnmarshalText in Hu. by repeat case_match.
Qed.

Lemma decode_supported ct r l : decodePutRequest ct r = inl l -> supported l.
Proof.
  unfold decodePutRequest, decodePutURL, decodePutJSON.
  destruct (streq ct _); [destruct (negb _); [done|]|destruct (decode_body _); try done];
    destruct (Level_UnmarshalText (Some 0) _) as [x [e|]] eqn:Hu; try done; intros [= <-]; by eapply unmarshal_default.
Qed.

Lemma serve_cells cells a w r :
  fst (ServeHTTP cells a w r) = match asks r with Some l => AtomicLevel.SetLevel cells a l | None => cells end.
Proof.
  unfold ServeHTTP, serveHTTP, asks. destruct (streq (rq_Method r) (go "GET")) eqn:Hg.
  - rewrite andb_false_r. by destruct (w_Write _ w) as [w' [err|]].
  - destruct (streq (rq_Method r) (go "PUT")); cbn [andb negb]; [|by destruct (w_Write _ _) as [w' [err|]]].
    destruct (decodePutRequest _ r); by destruct (w_Write _ _) as [w' [err|]].
Qed.

Lemma asks_supported r l : asks r = Some l -> supported l.
Proof.
  unfold asks. destruct (_ && _); [|done]. destruct (decodePutRequest _ _) eqn:Hd; [|done].
  intros [= <-]. by eapply decode_supported.
Qed.

Definition serve_all (a : nat) (rs : list (response * request)) (c : cells) : cells :=
  fold_left (fun c wr => fst (ServeHTTP c a wr.1 wr.2)) rs c.

Lemma serve_all_level c a rs :
  AtomicLevel_Level (serve_all a rs c) a =
    default (AtomicLevel_Level c a) (last (omap (fun wr => asks wr.2) rs)).
Proof.
  unfold serve_all. induction rs as [|[w r] rs IH] using rev_ind; [done|].
  rewrite fold_left_app, omap_app. cbn [fold_left fst snd]. rewrite serve_cells. cbn.
  destruct (asks r) as [l|] eqn:Ha; [|by rewrite app_nil_r]. rewrite last_snoc. cbn.
  apply load_SetLevel. by eapply asks_supported.
Qed.

(** C38.  After any sequence of requests, whatever their methods, bodies and
    response writers, the level is the one the last [PUT] with a level in it
    asked for, and else the level there was; it is a supported level if it was
    one before; no other level changes; and a [GET] reports it. *)
Theorem http_level_is_last_put c a rs ct form body :
  let c' := serve_all a rs c in
  AtomicLevel_Level c' a = default (AtomicLevel_Level c a) (last (omap (fun wr => asks wr.2) rs)) /\
  (supported (AtomicLevel_Level c a) -> supported (AtomicLevel_Level c' a)) /\
  (forall b, b <> a -> load c' b = load c b) /\
  ServeHTTP c' a newResponse (mkRequest (go "GET") ct form body) =
    (c', mkResponse (Some 200) (payload (AtomicLevel_Level c' a)) None).
Proof.
  intros c'. split_and!; [apply serve_all_level| | |reflexivity].
  - intros Hc. unfold c'. rewrite serve_all_level. destruct (last _) as [l|] eqn:Hl; [|done]. cbn.
    apply last_Some_elem_of, list_elem_of_omap in Hl as (wr & _ & Ha). by eapply asks_supported.
  - intros b Hb. unfold c', serve_all. induction rs as [|[w r] rs IH] using rev_ind; [done|].
    rewrite fold_left_app. cbn [fold_left fst snd]. rewrite serve_cells. destruct (asks r) as [l|]; [|done].
    rewrite <- IH. unfold load, AtomicLevel.SetLevel. by rewrite lookup_insert_ne.
Qed.

(** The body of a [GET] put back sets the level it shows, given that the decoder
    reads what the encoder writes. *)
Lemma http_payload_roundtrip c a b l ct form :
  (forall l, supported l -> decode_body (payload l) = BodyLevel (Level_MarshalText l)) ->
  streq ct (go "application/x-www-form-urlencoded") = false ->
  supported l -> AtomicLevel_Level c a = l ->
  let shown := rs_body (snd (ServeHTTP c a newResponse (mkRequest (go "GET") ct form []))) in
  AtomicLevel_Level (fst (ServeHTTP c b newResponse (mkRequest (go "PUT") ct form shown))) b = l.
Proof.
  intros Hdec Hct Hl Ha shown. rewrite serve_cells. unfold asks.
  change (streq (rq_Method _) (go "PUT") && negb (streq (rq_Method _) (go "GET"))) with true. cbv iota.
  unfold decodePutRequest. cbn [rq_ContentType rq_Body]. rewrite Hct. unfold decodePutJSON.
  change shown with (payload (AtomicLevel_Level c a)). rewrite Ha, Hdec by done.
  destruct (supported_cases l Hl) as [->|[->|[->|[->|[->|[->| ->]]]]]]; cbn; by apply load_SetLevel.
Qed.
End Http.
