(* ===== verification/Slog.v ===== *)
(** * Slog

    [exp/zapslog]: a handler for [log/slog] over a core.  Groups are kept until
    an attribute needs them. *)
From S2P Require Import Prelude Strconv Utf8 Level Float GoTime Buffer Entry Values Field Sampler.
From S2P Require Import JsonEncoder WriteSyncer Stacktrace Effects Core CoreProofs CoreTheorems Logger LoggerTheorems.
Open Scope Z_scope.
Open Scope lad_scope.
Set Warnings "-register-all".

(** ** Values of [log/slog] *)

(** A [slog.Value] by its kind.  [SLogValuer] has what its [LogValue] method
    returns, or nothing when it panics. *)
Inductive slog_value : Type :=
| SBool (v : bool)
| SDuration (v : Z)
| SFloat64 (bits : Z)
| SInt64 (v : Z)
| SString (v : gostring)
| STime (v : gotime)
| SUint64 (v : Z)
| SGroup (attrs : list (gostring * slog_value))
| SLogValuer (log_value : option slog_value)
| SAny (v : goval).

Definition Attr : Type := gostring * slog_value.

(** The levels of [log/slog]. *)
Definition slog_LevelDebug : Z := -4.
Definition slog_LevelInfo : Z := 0.
Definition slog_LevelWarn : Z := 4.
Definition slog_LevelError : Z := 8.

(** A [slog.Record]. *)
Record Record_ := mkRecord {
  r_Time : gotime;
  r_Message : gostring;
  r_Level : Z;
  r_PC : Z;
  r_attrs : list Attr;
}.

(** The texts of the errors [Resolve] makes, and the frame the runtime has for
    a program counter. *)
Class SlogRuntime := {
  panicked_text : gostring;
  too_many_text : gostring;
  frame_at : Z -> Frame;
}.

Section Convert.
Context `{GoRuntime} `{SlogRuntime}.

Definition maxLogValues : nat := 100.

(** [Value.Resolve]: at most [maxLogValues] calls of [LogValue]; a panic, or one
    call too many, becomes an error. *)
Fixpoint resolve_loop (n : nat) (v : slog_value) : slog_value :=
  match n with
  | O => SAny (of_error (newError too_many_text))
  | S n =>
      match v with
      | SLogValuer (Some v) => resolve_loop n v
      | SLogValuer None => SAny (of_error (newError panicked_text))
      | _ => v
      end
  end.

Definition Resolve (v : slog_value) : slog_value := resolve_loop maxLogValues v.

(** [attr.Equal(slog.Attr{})] *)
Definition is_empty_attr (key : gostring) (v : slog_value) : bool :=
  negb (nonempty key) && match v with SAny VNil => true | _ => false end.

(** [convertAttrToField].  The loop of [Resolve] is written into the case of a
    [LogValuer]; [convert_resolve] says that it is [Resolve]. *)
Fixpoint convert (key : gostring) (v : slog_value) : field :=
  if is_empty_attr key v then Skip
  else
    match v with
    | SBool v => Bool key v
    | SDuration v => Duration key v
    | SFloat64 v => Float64 key v
    | SInt64 v => Int64 key v
    | SString v => String_f key v
    | STime v => Time key v
    | SUint64 v => Uint64 key v
    | SGroup attrs =>
        let group := of_objm (addFields (map (fun a : Attr => let '(k, w) := a in convert k w) attrs)) in
        if negb (nonempty key) then Inline group else Object key group
    | SLogValuer None => Any key (of_error (newError panicked_text))
    | SLogValuer (Some v) =>
        (fix loop (v : slog_value) (n : nat) : field :=
           match n with
           | O => Any key (of_error (newError too_many_text))
           | S n =>
               match v with
               | SLogValuer (Some v) => loop v n
               | SLogValuer None => Any key (of_error (newError panicked_text))
               | _ => convert key v
               end
           end) v 99%nat
    | SAny v => Any key v
    end.

Definition convertAttrToField (attr : Attr) : field := convert attr.1 attr.2.

(** [groupObject.MarshalLogObject] *)
Definition groupObject (gs : list Attr) : objm := addFields (map convertAttrToField gs).

(** [f != lad.Skip()] *)
Definition is_skip (f : field) : bool :=
  match f with mkField [] SkipType 0 [] VNil => true | _ => false end.

Definition convertSlogLevel (l : Z) : Z :=
  if slog_LevelError <=? l then ErrorLevel
  else if slog_LevelWarn <=? l then WarnLevel
  else if slog_LevelInfo <=? l then InfoLevel
  else DebugLevel.
End Convert.

(** ** The handler *)

Section Handler.
Context {E : Type} `{EntryEncoder E} `{MultiErr} `{Fmt} `{Frames} `{GoRuntime} `{SlogRuntime}.

Record Handler := mkHandler {
  hd_core : core E;
  hd_name : gostring;
  hd_addCaller : bool;
  hd_addStackAt : Z;
  hd_callerSkip : Z;
  hd_groups : list gostring;
}.

Definition HandlerOption := Handler -> Handler.

Definition WithName (nm : gostring) : HandlerOption := fun h =>
  mkHandler (hd_core h) nm (hd_addCaller h) (hd_addStackAt h) (hd_callerSkip h) (hd_groups h).
Definition WithCaller (enabled : bool) : HandlerOption := fun h =>
  mkHandler (hd_core h) (hd_name h) enabled (hd_addStackAt h) (hd_callerSkip h) (hd_groups h).
Definition WithCallerSkip (skip : Z) : HandlerOption := fun h =>
  mkHandler (hd_core h) (hd_name h) (hd_addCaller h) (hd_addStackAt h) (int64 (hd_callerSkip h + skip)) (hd_groups h).
Definition AddStacktraceAt (lvl : Z) : HandlerOption := fun h =>
  mkHandler (hd_core h) (hd_name h) (hd_addCaller h) lvl (hd_callerSkip h) (hd_groups h).

Definition NewHandler (c : core E) (opts : list HandlerOption) : Handler :=
  fold_left (fun h (opt : HandlerOption) => opt h) opts (mkHandler c [] false slog_LevelError 0 []).

Definition Handler_Enabled (h : Handler) (level : Z) : M bool :=
  hp <- get_heap ;; ret (core_Enabled (h_cells hp) (hd_core h) (convertSlogLevel level)).

Definition appendGroups (h : Handler) (fields : list field) : list field :=
  fields ++ map Namespace (hd_groups h).

(** The loop of [Handle] and [WithAttrs]: the fields, and whether the groups
    were opened. *)
Definition add_attr (h : Handler) (acc : list field * bool) (attr : Attr) : list field * bool :=
  let '(fields, addedNamespace) := acc in
  let f := convertAttrToField attr in
  if negb addedNamespace && negb (Nat.eqb (length (hd_groups h)) 0) && negb (is_skip f)
  then (appendGroups h fields ++ [f], true)
  else (fields ++ [f], addedNamespace).

Definition add_attrs (h : Handler) (attrs : list Attr) : list field * bool :=
  fold_left (add_attr h) attrs ([], false).

Definition WithAttrs (h : Handler) (attrs : list Attr) : M Handler :=
  let '(fields, addedNamespace) := add_attrs h attrs in
  c <- Core.With (hd_core h) fields ;;
  ret (mkHandler c (hd_name h) (hd_addCaller h) (hd_addStackAt h) (hd_callerSkip h)
         (if addedNamespace then [] else hd_groups h)).

Definition WithGroup (h : Handler) (group : gostring) : Handler :=
  mkHandler (hd_core h) (hd_name h) (hd_addCaller h) (hd_addStackAt h) (hd_callerSkip h)
    (hd_groups h ++ [group]).

(** The caller of a record, when it has one and the runtime knows it. *)
Definition record_caller (h : Handler) (record : Record_) (ce : CheckedEntry E) : CheckedEntry E :=
  if hd_addCaller h && negb (r_PC record =? 0) then
    let frame := frame_at (r_PC record) in
    if negb (fr_PC frame =? 0) then
      set_Caller (mkCaller true (fr_PC frame) (fr_File frame) (fr_Line frame) (fr_Function frame)) ce
    else ce
  else ce.

(** The stack trace of a record; the stack pool hands out room for 64, and a
    skip below the frames of [Handle] counts as zero. *)
Definition record_stack (h : Handler) (record : Record_) (ce : CheckedEntry E) : M (CheckedEntry E) :=
  if hd_addStackAt h <=? r_Level record then
    hp <- get_heap ;;
    match Take (h_frames hp) (Z.to_nat (3 + hd_callerSkip h)) 64 with
    | Some s => ret (set_Stack s ce)
    | None => halt RHang
    end
  else ret ce.

Definition Handle (h : Handler) (record : Record_) : M error :=
  call (go "Handler.Handle")
    (let ent := mkEntry (convertSlogLevel (r_Level record)) (r_Time record) (hd_name h)
                  (r_Message record) noCaller [] in
     ce <- core_Check (hd_core h) ent None ;;
     match ce with
     | None => ret None
     | Some ce =>
         ce <- record_stack h record (record_caller h record ce) ;;
         ce_Write (Some ce) (add_attrs h (r_attrs record)).1 ;;
         ret None
     end).
End Handler.

Arguments Handler : clear implicits.

(** ** Properties *)

Section Resolving.
Context `{GoRuntime} `{SlogRuntime}.

Lemma convert_error key e : convert key (SAny (of_error e)) = Any key (of_error e).
Proof. cbn [convert]. unfold is_empty_attr. cbn [of_error]. by rewrite andb_false_r. Qed.

(** A [LogValuer] is logged as what it resolves to. *)
Lemma convert_resolve key x : convert key (SLogValuer x) = convert key (Resolve (SLogValuer x)).
Proof.
  unfold Resolve, maxLogValues.
  assert (forall n v,
    (fix loop (v : slog_value) (n : nat) : field :=
       match n with
       | O => Any key (of_error (newError too_many_text))
       | S n =>
           match v with
           | SLogValuer (Some v) => loop v n
           | SLogValuer None => Any key (of_error (newError panicked_text))
           | _ => convert key v
           end
       end) v n = convert key (resolve_loop n v)) as Hloop.
  { intros n. induction n as [|n IH]; intros v; cbn [resolve_loop].
    - rewrite convert_error. by destruct v.
    - destruct v as [| | | | | | | |[v|]|]; try reflexivity; [exact (IH v)|]. by rewrite convert_error. }
  destruct x as [v|]; cbn [resolve_loop].
  - cbn [convert]. unfold is_empty_attr at 1. rewrite andb_false_r. exact (Hloop 99%nat v).
  - rewrite convert_error. cbn [convert]. unfold is_empty_attr. by rewrite andb_false_r.
Qed.

(** The fields that say something. *)
Definition real (fs : list field) : list field := List.filter (fun f => negb (is_skip f)) fs.

Definition real_attrs (attrs : list Attr) : list field := real (map convertAttrToField attrs).
End Resolving.

(** The calls that made a handler. *)
Inductive hop : Type :=
| OpGroup (g : gostring)
| OpAttrs (attrs : list Attr).

Section Groups.
Context `{GoRuntime} `{SlogRuntime}.

(** Something is logged. *)
Definition uses (op : hop) : bool :=
  match op with OpGroup _ => false | OpAttrs attrs => negb (Nat.eqb (length (real_attrs attrs)) 0) end.

(** What is meant: every attribute, inside the groups opened before it, and a
    group only when something follows in it. *)
Fixpoint meant (ops : list hop) : list field :=
  match ops with
  | [] => []
  | OpGroup g :: ops => (if existsb uses ops then [Namespace g] else []) ++ meant ops
  | OpAttrs attrs :: ops => real_attrs attrs ++ meant ops
  end.

Lemma real_app fs gs : real (fs ++ gs) = real fs ++ real gs.
Proof. apply List.filter_app. Qed.

Lemma real_namespaces gs : real (map Namespace gs) = map Namespace gs.
Proof. induction gs as [|g gs IH]; [done|]. cbn [map]. rewrite <- IH at 2. by destruct g. Qed.

Lemma meant_groups gs ops :
  meant (map OpGroup gs ++ ops) = (if existsb uses ops then map Namespace gs else []) ++ meant ops.
Proof.
  assert (forall gs, existsb uses (map OpGroup gs ++ ops) = existsb uses ops) as Hu.
  { intros l. by induction l. }
  induction gs as [|g gs IH]; cbn [map app meant]; [by destruct (existsb _ _)|].
  rewrite Hu, IH. by destruct (existsb uses ops).
Qed.
End Groups.

Section Handling.
Context {E : Type} `{EntryEncoder E} `{MultiErr} `{Fmt} `{Frames} `{GoRuntime} `{SlogRuntime}.

(** Once the groups are open, or when there are none, the fields are appended. *)
Lemma add_attr_open (h : Handler E) attrs fs b :
  b = true \/ hd_groups h = [] -> fold_left (add_attr h) attrs (fs, b) = (fs ++ map convertAttrToField attrs, b).
Proof.
  intros Hb. revert fs. induction attrs as [|a attrs IH]; intros fs; cbn [fold_left map]; [by rewrite app_nil_r|].
  assert (add_attr h (fs, b) a = (fs ++ [convertAttrToField a], b)) as ->
    by (unfold add_attr; by destruct Hb as [->| ->]; [|rewrite andb_false_r]).
  rewrite IH. by app_norm.
Qed.

Lemma add_attr_closed (h : Handler E) attrs fs :
  hd_groups h <> [] ->
  let r := fold_left (add_attr h) attrs (fs, false) in
  let some := negb (Nat.eqb (length (real_attrs attrs)) 0) in
  real r.1 = real fs ++ (if some then map Namespace (hd_groups h) else []) ++ real_attrs attrs /\ r.2 = some.
Proof.
  intros Hg. revert fs. induction attrs as [|a attrs IH]; intros fs; cbn [fold_left]; [by rewrite !app_nil_r|].
  unfold real_attrs at 1 2 3, real at 3 4 5. cbn [map List.filter].
  unfold add_attr at 2 4. rewrite (proj2 (Nat.eqb_neq (length (hd_groups h)) 0)) by (by destruct (hd_groups h)).
  destruct (is_skip (convertAttrToField a)) eqn:Hs; cbn [negb andb].
  - destruct (IH (fs ++ [convertAttrToField a])) as [Hf Hb]. rewrite Hf, Hb, real_app.
    unfold real at 2. cbn [List.filter]. rewrite Hs. cbn [negb]. rewrite app_nil_r. by split.
  - rewrite add_attr_open by (by left). split; [|done]. unfold appendGroups. cbn [fst].
    rewrite !real_app, real_namespaces. unfold real at 2. cbn [List.filter]. rewrite Hs. cbn [negb]. by app_norm.
Qed.

(** What the attributes of one call add, and which groups remain. *)
Lemma add_attrs_meant (h : Handler E) attrs rest :
  let r := add_attrs h attrs in
  let groups := if r.2 then [] else hd_groups h in
  real r.1 ++ meant (map OpGroup groups ++ rest) = meant (map OpGroup (hd_groups h) ++ OpAttrs attrs :: rest).
Proof.
  intros r groups. rewrite !meant_groups. cbn [existsb uses meant].
  destruct (hd_groups h) as [|g gs] eqn:Hg.
  - subst r groups. unfold add_attrs. rewrite add_attr_open by (by right). cbn [fst snd map].
    change ([] ++ map convertAttrToField attrs) with (map convertAttrToField attrs). fold (real_attrs attrs).
    by destruct (existsb uses rest), (_ || _).
  - assert (hd_groups h <> []) as Hne by (by rewrite Hg).
    destruct (add_attr_closed h attrs [] Hne) as [Hf Hb]. fold (add_attrs h attrs) in Hf, Hb. fold r in Hf, Hb.
    subst groups. rewrite Hf, Hb, Hg.
    destruct (real_attrs attrs) as [|f fs] eqn:Hr; cbn [length Nat.eqb negb orb app];
      [by destruct (existsb uses rest)|]. cbn [map]. destruct (existsb uses rest); by app_norm.
Qed.

(** ** Whole histories of a handler *)

Definition apply_op (h : Handler E) (op : hop) : M (Handler E) :=
  match op with
  | OpGroup g => ret (WithGroup h g)
  | OpAttrs attrs => WithAttrs h attrs
  end.

(** Everything of a handler but its core and groups. *)
Definition same_settings (a b : Handler E) : Prop :=
  hd_name a = hd_name b /\ hd_addCaller a = hd_addCaller b /\ hd_addStackAt a = hd_addStackAt b /\
  hd_callerSkip a = hd_callerSkip b.

Lemma With_observer enab logs ctx fs h :
  Core.With (E := E) (CObserver enab logs ctx) fs h = (h, ROk (CObserver enab logs (ctx ++ fs))).
Proof. by rewrite With_eq. Qed.

Lemma ops_meant (h0 : Handler E) enab logs ctx ops h :
  hd_core h0 = CObserver enab logs ctx ->
  exists hd ctx', foldM apply_op ops h0 h = (h, ROk hd) /\ hd_core hd = CObserver enab logs ctx' /\
    same_settings hd h0 /\
    forall rest, real ctx' ++ meant (map OpGroup (hd_groups hd) ++ rest) =
                 real ctx ++ meant (map OpGroup (hd_groups h0) ++ ops ++ rest).
Proof.
  revert h0 ctx. induction ops as [|[g|attrs] ops IH]; intros h0 ctx Hc; cbn [foldM].
  - exists h0, ctx. by repeat split.
  - destruct (IH (WithGroup h0 g) ctx Hc) as (hd & ctx' & Hr & Hc' & Hs & Hm). exists hd, ctx'.
    split_and!; [exact Hr|done|exact Hs|]. intros rest. rewrite Hm. cbn [WithGroup hd_groups].
    rewrite map_app. by app_norm.
  - pose proof (add_attrs_meant h0 attrs) as Hadd. unfold apply_op at 1, WithAttrs.
    destruct (add_attrs h0 attrs) as [fs added]. cbn [fst snd] in Hadd. rewrite Hc.
    set (h1 := mkHandler (E := E) (CObserver enab logs (ctx ++ fs)) (hd_name h0) (hd_addCaller h0) (hd_addStackAt h0)
                 (hd_callerSkip h0) (if added then [] else hd_groups h0)).
    destruct (IH h1 (ctx ++ fs) eq_refl) as (hd & ctx' & Hr & Hc' & Hs & Hm). exists hd, ctx'.
    split_and!; [|done|exact Hs|].
    + rewrite (bind_ok _ _ h h h1); [exact Hr|]. by rewrite (bind_ok _ _ _ _ _ (With_observer _ _ _ _ _)).
    + intros rest. rewrite Hm, real_app. cbn [h1 hd_groups]. rewrite <- app_assoc, Hadd. done.
Qed.
(** The entry of a record. *)
Definition record_entry (h : Handler E) (record : Record_) (frames : list Frame) : Entry :=
  let frame := frame_at (r_PC record) in
  mkEntry (convertSlogLevel (r_Level record)) (r_Time record) (hd_name h) (r_Message record)
    (if hd_addCaller h && negb (r_PC record =? 0) && negb (fr_PC frame =? 0)
     then mkCaller true (fr_PC frame) (fr_File frame) (fr_Line frame) (fr_Function frame) else noCaller)
    (if hd_addStackAt h <=? r_Level record
     then frames_text (removelast (drop (Z.to_nat (3 + hd_callerSkip h)) (frame_of (go "Handler.Handle") :: frames)))
     else []).

Lemma record_stack_ok (hd : Handler E) record ce h :
  record_stack hd record ce h =
    (h, ROk (if hd_addStackAt hd <=? r_Level record
             then set_Stack (frames_text (removelast (drop (Z.to_nat (3 + hd_callerSkip hd)) (h_frames h)))) ce
             else ce)).
Proof.
  unfold record_stack. destruct (_ <=? _); [|done]. rewrite (bind_ok get_heap _ h h h) by done.
  by rewrite Take_text by lia.
Qed.

Lemma Handle_observer (hd : Handler E) enab logs ctx record h :
  hd_core hd = CObserver enab logs ctx ->
  Enabled (h_cells h) enab (convertSlogLevel (r_Level record)) = true ->
  exists h', Handle hd record h = (h', ROk None) /\ h_world h' = h_world h /\ h_frames h' = h_frames h /\
    h_observed h' = <[logs := default [] (h_observed h !! logs) ++
        [mkLogged (record_entry hd record (h_frames h)) (ctx ++ (add_attrs hd (r_attrs record)).1)]]> (h_observed h).
Proof.
  intros Hc Hen. unfold Handle.
  set (ent := mkEntry (convertSlogLevel (r_Level record)) (r_Time record) (hd_name hd) (r_Message record) noCaller []).
  set (h1 := set_frames (frame_of (go "Handler.Handle") :: h_frames h) h).
  set (ent' := record_entry hd record (h_frames h)).
  assert (core_Check (hd_core hd) ent None h1 = (h1, ROk (Some (mkCE ent None false None [hd_core hd])))) as Hcheck.
  { rewrite Hc, Check_eq. unfold Check_body. rewrite (bind_ok get_heap _ h1 h1 h1) by done.
    cbn [core_Enabled e_Level ent]. change (h_cells h1) with (h_cells h). by rewrite Hen. }
  assert (record_stack hd record (record_caller hd record (mkCE ent None false None [hd_core hd])) h1 =
          (h1, ROk (mkCE ent' None false None [hd_core hd]))) as Hstack.
  { rewrite record_stack_ok. unfold record_caller, ent', record_entry.
    destruct (hd_addCaller hd && negb (r_PC record =? 0)), (negb (fr_PC (frame_at (r_PC record)) =? 0)),
      (hd_addStackAt hd <=? r_Level record); reflexivity. }
  eexists. split.
  - erewrite call_ok; [reflexivity|]. rewrite (bind_ok _ _ _ _ _ Hcheck), (bind_ok _ _ _ _ _ Hstack).
    erewrite bind_ok; [reflexivity|]. apply ce_Write_one. rewrite Write_eq, Hc. reflexivity.
  - done.
Qed.

(** C20.  Whatever [WithGroup] and [WithAttrs] calls made a handler over an
    observer, a record of an enabled level that it handles is logged once, with every attribute of the calls and of the record
    in order, each inside the groups opened before it, and with a group only when
    an attribute follows in it; with the record's time, message and level, and
    the caller and stack trace the options ask for. *)
Theorem slog_logs_what_is_meant (h0 : Handler E) enab logs ops record h
    (Hcore : hd_core h0 = CObserver enab logs []) (Hgroups : hd_groups h0 = [])
    (Hen : Enabled (h_cells h) enab (convertSlogLevel (r_Level record)) = true) :
  exists hd h' context,
    foldM apply_op ops h0 h = (h, ROk hd) /\ Handle hd record h = (h', ROk None) /\
    h_world h' = h_world h /\
    h_observed h' = <[logs := default [] (h_observed h !! logs) ++
                       [mkLogged (record_entry h0 record (h_frames h)) context]]> (h_observed h) /\
    real context = meant (ops ++ [OpAttrs (r_attrs record)]).
Proof.
  destruct (ops_meant h0 enab logs [] ops h Hcore) as (hd & ctx & Hr & Hc & (Hn & Hca & Hst & Hsk) & Hm).
  destruct (Handle_observer hd enab logs ctx record h Hc Hen) as (h' & Hh & Hw & _ & Ho).
  exists hd, h', (ctx ++ (add_attrs hd (r_attrs record)).1). split_and!; [done|done|done| |].
  - rewrite Ho. unfold record_entry. by rewrite Hn, Hca, Hst, Hsk.
  - rewrite real_app. specialize (Hm [OpAttrs (r_attrs record)]). rewrite Hgroups in Hm. cbn [map app real List.filter] in Hm.
    rewrite <- Hm. f_equal. rewrite <- (add_attrs_meant hd (r_attrs record) []).
    rewrite app_nil_r, <- (app_nil_r (map OpGroup _)), meant_groups. by rewrite app_nil_r.
Qed.
End Handling.

(** ** Instances *)

#[local] Existing Instance firstError.
#[local] Existing Instance exampleFmt.
#[local] Existing Instance exampleJson.
#[local] Existing Instance exampleFrames.
#[local] Existing Instance exampleRuntime.

Definition exampleSlog : SlogRuntime :=
  {| panicked_text := go "LogValue panicked"; too_many_text := go "LogValue called too many times";
     frame_at pc := mkFrame pc (go "main.main") (go "/src/main.go") pc |}.
#[local] Existing Instance exampleSlog.

Definition exampleHandler : Handler jsonEncoder :=
  NewHandler (CObserver (ELevel DebugLevel) 5 []) [WithName (go "api"); WithCaller true].

Definition exampleOps : list hop :=
  [OpAttrs [(go "a", SInt64 1)]; OpGroup (go "g"); OpAttrs [([], SAny VNil)]; OpGroup (go "unused")].

Definition exampleRecord : Record_ := mkRecord zeroTime (go "hi") slog_LevelInfo 7 [].

(** The group that stays empty is not logged. *)
Lemma slog_logs_what_is_meant_witness :
  exists hd h' context,
    foldM apply_op exampleOps exampleHandler framedHeap = (framedHeap, ROk hd) /\
    Handle hd exampleRecord framedHeap = (h', ROk None) /\
    h_world h' = h_world framedHeap /\
    h_observed h' = <[5%nat := [mkLogged (mkEntry InfoLevel zeroTime (go "api") (go "hi")
        (mkCaller true 7 (go "/src/main.go") 7 (go "main.main")) []) context]]> ∅ /\
    real context = [Int64 (go "a") 1].
Proof.
  exact (slog_logs_what_is_meant exampleHandler (ELevel DebugLevel) 5 exampleOps exampleRecord framedHeap
           eq_refl eq_refl eq_refl).
Defined.

(** A group without a key and without attributes is taken for a field, and so
    the groups around it are opened around nothing. *)
Example empty_inline_group_opens_namespace :
  meant [OpGroup (go "g"); OpAttrs [([], SGroup [])]] =
    [Namespace (go "g"); Inline (of_objm (ORet None))].
Proof. reflexivity. Qed.

(** A group whose attributes are empty is an empty object. *)
Example empty_group_is_logged :
  meant [OpAttrs [(go "g", SGroup [])]] = [Object (go "g") (of_objm (ORet None))].
Proof. reflexivity. Qed.
