(* ===== verification/Readme.v ===== *)
(** * Readme

    [internal/readme/readme.go]: the tables of the README from the output of
    the benchmarks.  Running [go test] and the template engine are parameters;
    the arithmetic of the percentages is that of an architecture without fused
    operations. *)
From S2P Require Import Prelude Strconv Utf8 Strings Float GoTime.
From stdpp Require Import sorting.
Open Scope Z_scope.

(** ** The program *)

(** [libraryNameToMarkdownName], its pairs in no particular order *)
Definition libraryNameToMarkdownName : list (gostring * gostring) :=
  [(go "lad", go ":lad: lad");
   (go "lad.Sugar", go ":lad: lad (sugared)");
   (go "stdlib.Println", go "standard library");
   (go "sirupsen/logrus", go "logrus");
   (go "go-kit/kit/log", go "go-kit");
   (go "inconshreveable/log15", go "log15");
   (go "apex/log", go "apex/log");
   (go "rs/zerolog", go "zerolog");
   (go "slog", go "slog");
   (go "slog.LogAttrs", go "slog (LogAttrs)")].

Definition libraries : list gostring := map fst libraryNameToMarkdownName.

(** A lookup in the map, the empty string for a missing key. *)
Fixpoint lookup_name (m : list (gostring * gostring)) (k : gostring) : gostring :=
  match m with
  | [] => []
  | (k', v) :: m => if streq k k' then v else lookup_name m k
  end.

Definition markdownName : gostring -> gostring := lookup_name libraryNameToMarkdownName.

Inductive readme_error : Type :=
| BenchmarkFailed (name err output : gostring)
| DuplicateSubstring (substring : gostring)
| UnknownLine (line : gostring)
| BadDuration (err : duration_error)
| BadNumber (err : num_error)
| TemplateError (err : gostring).

Record benchmarkRow := mkRow {
  Name : gostring;
  Time : Z;
  AllocatedBytes : Z;
  AllocatedObjects : Z;
  ladTime : Z;
  ladAllocatedBytes : Z;
  ladAllocatedObjects : Z;
}.

(** The loop of [findUniqueSubstring], with the line found so far. *)
Fixpoint find_loop (substring : gostring) (input : list gostring) (output : gostring) : gostring + readme_error :=
  match input with
  | [] => inl output
  | line :: input =>
      if contains line substring
      then if nonempty output then inr (DuplicateSubstring substring) else find_loop substring input line
      else find_loop substring input output
  end.

Definition findUniqueSubstring (input : list gostring) (substring : gostring) : gostring + readme_error :=
  find_loop substring input [].

(** [fmt.Sprintf("%s/%s-", benchmarkName, libraryName)] *)
Definition marker (benchmarkName libraryName : gostring) : gostring :=
  benchmarkName ++ go "/" ++ libraryName ++ go "-".

Definition duration_column (s : gostring) : Z + duration_error :=
  ParseDuration (remove_byte Byte.x20 (TrimSuffix (TrimSpace s) (go "/op"))).

Definition getBenchmarkRow (input : list gostring) (benchmarkName libraryName : gostring)
    (baseline : option benchmarkRow) : option benchmarkRow + readme_error :=
  match findUniqueSubstring input (marker benchmarkName libraryName) with
  | inr err => inr err
  | inl line =>
      if streq line [] then inl None
      else
        match Split Byte.x09 line with
        | _ :: _ :: s2 :: s3 :: s4 :: _ =>
            match duration_column s2 with
            | inr err => inr (BadDuration err)
            | inl duration =>
                match Atoi (TrimSuffix (TrimSpace s3) (go " B/op")) with
                | inr err => inr (BadNumber err)
                | inl allocatedBytes =>
                    match Atoi (TrimSuffix (TrimSpace s4) (go " allocs/op")) with
                    | inr err => inr (BadNumber err)
                    | inl allocatedObjects =>
                        let '(lt, lb, lo) := match baseline with
                                             | Some b => (Time b, AllocatedBytes b, AllocatedObjects b)
                                             | None => (0, 0, 0)
                                             end in
                        inl (Some (mkRow (markdownName libraryName) duration allocatedBytes allocatedObjects lt lb lo))
                    end
                end
            end
        | _ => inr (UnknownLine line)
        end
  end.

(** [fmt.Sprintf("%+0.f", x)] *)
Definition plus_f0 (x : fval) : gostring :=
  match x with
  | FNaN => go "+NaN"
  | FInf neg => if neg then go "-Inf" else go "+Inf"
  | FFin neg m e => (if neg then go "-" else go "+") ++ FormatUint (round_half_even (m * up e) (up (- e)))
  end.

Definition pct (val baseline : Z) : gostring :=
  plus_f0 (fsub (fmul (fdiv (of_int val) (of_int baseline)) (of_int 100)) (of_int 100)) ++ go "%".

Definition row_String (b : benchmarkRow) : gostring :=
  go "| " ++ Name b ++ go " | " ++ FormatInt (Time b) ++ go " ns/op | " ++ pct (Time b) (ladTime b) ++ go " | " ++
  FormatInt (AllocatedObjects b) ++ go " allocs/op".

Definition isLad (b : benchmarkRow) : bool := contains (Name b) (go "lad").

Definition Less (left right : benchmarkRow) : bool :=
  let leftlad := isLad left in
  let rightlad := isLad right in
  if Bool.eqb leftlad rightlad then Time left <? Time right else leftlad.

(** [sort.Sort], which is insertion sort on the at most ten rows here (up to
    twelve elements): each row in turn goes down past the rows it is less than.
    The rows done are kept in reverse. *)
Fixpoint sift (x : benchmarkRow) (done : list benchmarkRow) : list benchmarkRow :=
  match done with
  | y :: rest => if Less x y then y :: sift x rest else x :: done
  | [] => [x]
  end.

Definition sort_Sort (rows : list benchmarkRow) : list benchmarkRow :=
  rev (fold_left (fun done x => sift x done) rows []).

Definition table_header : list gostring :=
  [go "| Package | Time | Time % to lad | Objects Allocated |";
   go "| :------ | :--: | :-----------: | :---------------: |"].

(** The loop over the libraries, in the order the map is iterated in. *)
Fixpoint collect_rows (order : list gostring) (input : list gostring) (benchmarkName : gostring)
    (baseline : option benchmarkRow) : list benchmarkRow + readme_error :=
  match order with
  | [] => inl []
  | libraryName :: order =>
      match getBenchmarkRow input benchmarkName libraryName baseline with
      | inr err => inr err
      | inl row =>
          match collect_rows order input benchmarkName baseline with
          | inr err => inr err
          | inl rows => inl (match row with Some r => r :: rows | None => rows end)
          end
      end
  end.

Section Program.
(** [go test -bench=name -benchmem] in the benchmarks: its output, and its error. *)
Variable go_test : gostring -> gostring * option gostring.
(** The order of a run over the map; Go leaves it open. *)
Variable order : list gostring.

Definition getBenchmarkOutput (benchmarkName : gostring) : list gostring + readme_error :=
  match go_test benchmarkName with
  | (output, Some err) => inr (BenchmarkFailed benchmarkName err output)
  | (output, None) => inl (Split Byte.x0a output)
  end.

Definition getBenchmarkRows (benchmarkName : gostring) : gostring + readme_error :=
  match getBenchmarkOutput benchmarkName with
  | inr err => inr err
  | inl benchmarkOutput =>
      match getBenchmarkRow benchmarkOutput benchmarkName (go "lad") None with
      | inr err => inr err
      | inl baseline =>
          match collect_rows order benchmarkOutput benchmarkName baseline with
          | inr err => inr err
          | inl benchmarkRows => inl (strings_Join (table_header ++ map row_String (sort_Sort benchmarkRows)) [Byte.x0a])
          end
      end
  end.

Record tmplData := mkTmplData {
  BenchmarkAddingFields : gostring;
  BenchmarkAccumulatedContext : gostring;
  BenchmarkWithoutFields : gostring;
}.

Definition getTmplData : tmplData + readme_error :=
  match getBenchmarkRows (go "BenchmarkAddingFields") with
  | inr err => inr err
  | inl adding =>
      match getBenchmarkRows (go "BenchmarkAccumulatedContext") with
      | inr err => inr err
      | inl accumulated =>
          match getBenchmarkRows (go "BenchmarkWithoutFields") with
          | inr err => inr err
          | inl without => inl (mkTmplData adding accumulated without)
          end
      end
  end.

(** [do], with what standard input holds or the error of reading it, and the
    template engine: a template, or the error of parsing it; what executing it
    writes, and its error.  The result is what goes to standard output. *)
Definition do_ {T} (stdin : gostring + gostring) (Parse : gostring -> T + gostring)
    (Execute : T -> tmplData -> gostring * option gostring) : gostring * option readme_error :=
  match getTmplData with
  | inr err => ([], Some err)
  | inl data =>
      match stdin with
      | inr err => ([], Some (TemplateError err))
      | inl text =>
          match Parse text with
          | inr err => ([], Some (TemplateError err))
          | inl t => let '(out, err) := Execute t data in (out, TemplateError <$> err)
          end
      end
  end.
End Program.

(** ** Reading the output of a benchmark *)

(** What [go test -benchmem] reports of a benchmark. *)
Record bench := mkBench { b_procs : gostring; b_runs : gostring; b_ns : Z; b_bytes : Z; b_allocs : Z }.

(** A number in a field of some width, as [%8d] prints it. *)
Definition pad (w : nat) (n : Z) : gostring := repeat Byte.x20 (w - length (FormatUint n)) ++ FormatUint n.

(** The line [go test] prints of it, for a time of 100 ns or more, which it
    prints without decimals. *)
Definition benchmark_line (name lib : gostring) (b : bench) : gostring :=
  strings_Join [marker name lib ++ b_procs b; b_runs b; pad 10 (b_ns b) ++ go " ns/op"; pad 8 (b_bytes b) ++ go " B/op";
        pad 8 (b_allocs b) ++ go " allocs/op"] [Byte.x09].

Definition inInt (n : Z) : Prop := 0 <= n < 2 ^ 63.

(** No tabs in the columns, numbers that fit. *)
Record bench_ok (name lib : gostring) (b : bench) : Prop := {
  ok_head : without Byte.x09 (marker name lib ++ b_procs b);
  ok_runs : without Byte.x09 (b_runs b);
  ok_ns : inInt (b_ns b);
  ok_bytes : inInt (b_bytes b);
  ok_allocs : inInt (b_allocs b);
}.

Lemma digit_visible d : is_digit d = true -> visible d = true.
Proof. by destruct d. Qed.

Lemma digits_without b ds : is_digit b = false -> forallb is_digit ds = true -> without b ds.
Proof.
  intros Hb Hds. apply Forall_forall. intros d Hd%list_elem_of_In ->.
  rewrite forallb_forall in Hds. by rewrite (Hds _ Hd) in Hb.
Qed.

Lemma column_without w n unit : 0 <= n -> without Byte.x09 unit -> without Byte.x09 (pad w n ++ unit).
Proof.
  intros Hn Hu. unfold pad, without. rewrite !Forall_app. split_and!; [|..|done].
  { apply Forall_forall. by intros c ->%list_elem_of_In%repeat_spec. }
  apply digits_without; [done|by apply FormatUint_digits].
Qed.

Lemma TrimSpace_column w n unit b : 0 <= n -> visible b = true ->
  TrimSpace (pad w n ++ unit ++ [b]) = FormatUint n ++ unit ++ [b].
Proof.
  intros Hn Hb. destruct (FormatUint_first n Hn) as (d & r & E & Hd). unfold pad. rewrite E, <- !app_assoc. cbn [app].
  rewrite (app_assoc r). apply TrimSpace_padded; [by apply digit_visible|done].
Qed.

Lemma remove_digits b ds : is_digit b = false -> forallb is_digit ds = true -> remove_byte b ds = ds.
Proof.
  intros Hb Hd. unfold remove_byte. induction ds as [|d ds IH]; [done|]. cbn in Hd. apply andb_prop in Hd as [Hd Hds].
  rewrite filter_cons_True by congruence. by rewrite IH.
Qed.

Lemma duration_column_pad w n : inInt n -> duration_column (pad w n ++ go " ns/op") = inl n.
Proof.
  intros Hn. unfold duration_column, inInt in *. change (go " ns/op") with (go " ns/o" ++ [Byte.x70]).
  rewrite TrimSpace_column by (done || lia).
  change (go " ns/o" ++ [Byte.x70]) with (go " ns" ++ go "/op"). rewrite app_assoc, TrimSuffix_app.
  unfold remove_byte. rewrite filter_app. fold (remove_byte Byte.x20 (FormatUint n)).
  rewrite remove_digits by (try apply FormatUint_digits; done || lia). by apply ParseDuration_ns.
Qed.

Lemma count_column w n unit b : inInt n -> visible b = true ->
  Atoi (TrimSuffix (TrimSpace (pad w n ++ unit ++ [b])) (unit ++ [b])) = inl n.
Proof.
  intros Hn Hb. unfold inInt in *. rewrite TrimSpace_column, TrimSuffix_app by (done || lia). by apply Atoi_FormatUint.
Qed.

Lemma Split_line name lib b : bench_ok name lib b ->
  Split Byte.x09 (benchmark_line name lib b) =
    [marker name lib ++ b_procs b; b_runs b; pad 10 (b_ns b) ++ go " ns/op"; pad 8 (b_bytes b) ++ go " B/op";
     pad 8 (b_allocs b) ++ go " allocs/op"].
Proof.
  intros [Hh Hr Hn Hb Ha]. unfold inInt in *. unfold benchmark_line. cbn [strings_Join app].
  rewrite !Split_piece; try done.
  - rewrite Split_last; [done|]. apply column_without; [lia|]. by repeat constructor.
  - apply column_without; [lia|]. by repeat constructor.
  - apply column_without; [lia|]. by repeat constructor.
Qed.

Abbreviation matching sub input := (List.filter (fun l => contains l sub) input).

Lemma contains_nonempty l sub : sub <> [] -> contains l sub = true -> nonempty l = true.
Proof. destruct l, sub; done. Qed.

Lemma find_loop_found sub input line : nonempty line = true ->
  find_loop sub input line = match matching sub input with [] => inl line | _ => inr (DuplicateSubstring sub) end.
Proof.
  intros Hl. induction input as [|l input IH]; [done|]. cbn [find_loop List.filter].
  destruct (contains l sub); [by rewrite Hl|done].
Qed.

Lemma findUniqueSubstring_spec input sub : sub <> [] ->
  findUniqueSubstring input sub =
    match matching sub input with [] => inl [] | [l] => inl l | _ => inr (DuplicateSubstring sub) end.
Proof.
  intros Hsub. unfold findUniqueSubstring. induction input as [|l input IH]; [done|]. cbn [find_loop List.filter].
  destruct (contains l sub) eqn:Hc; [|done]. change (nonempty []) with false. cbv iota.
  rewrite find_loop_found by (by eapply contains_nonempty). by destruct (matching sub input).
Qed.

Lemma marker_nonempty name lib : marker name lib <> [].
Proof. unfold marker. by destruct name. Qed.

(** The row of a benchmark, compared with that of lad. *)
Definition row_of (base : option bench) (lib : gostring) (b : bench) : benchmarkRow :=
  let '(lt, lb, lo) := match base with Some c => (b_ns c, b_bytes c, b_allocs c) | None => (0, 0, 0) end in
  mkRow (markdownName lib) (b_ns b) (b_bytes b) (b_allocs b) lt lb lo.

Lemma getBenchmarkRow_reads input name lib b base :
  bench_ok name lib b -> matching (marker name lib) input = [benchmark_line name lib b] ->
  getBenchmarkRow input name lib (row_of None (go "lad") <$> base) = inl (Some (row_of base lib b)).
Proof.
  intros Hok Hm. unfold getBenchmarkRow. rewrite findUniqueSubstring_spec, Hm by apply marker_nonempty.
  assert (streq (benchmark_line name lib b) [] = false) as ->.
  { apply bool_decide_eq_false. unfold benchmark_line, marker. by destruct name. }
  rewrite Split_line by done. destruct Hok as [_ _ Hn Hb Ha].
  rewrite duration_column_pad by done.
  change (go " B/op") with (go " B/o" ++ [Byte.x70]). rewrite count_column by done.
  change (go " allocs/op") with (go " allocs/o" ++ [Byte.x70]). rewrite count_column by done.
  by destruct base.
Qed.

Lemma getBenchmarkRow_missing input name lib base :
  matching (marker name lib) input = [] -> getBenchmarkRow input name lib base = inl None.
Proof.
  intros Hm. unfold getBenchmarkRow. by rewrite findUniqueSubstring_spec, Hm by apply marker_nonempty.
Qed.

(** ** Sorting *)

(** The order of the table: the rows of lad first, then by time. *)
Definition before (a b : benchmarkRow) : Prop :=
  (isLad a = true /\ isLad b = false) \/ (isLad a = isLad b /\ Time a <= Time b).

Lemma Less_false a b : Less b a = false -> before a b.
Proof.
  unfold before, Less. destruct (isLad a), (isLad b); cbn; auto; try done; intros E%Z.ltb_ge; right; split; (done || lia).
Qed.

Lemma Less_before a b : Less a b = true -> before a b.
Proof.
  unfold before, Less. destruct (isLad a), (isLad b); cbn; auto; try done; intros E%Z.ltb_lt; right; split; (done || lia).
Qed.

Lemma before_trans a b c : before a b -> before b c -> before a c.
Proof.
  unfold before. intros [[-> ->]|[-> ?]] [[? ->]|[<- ?]]; try done; auto. right. split; [done|lia].
Qed.

Lemma sift_Permutation x l : Permutation (sift x l) (x :: l).
Proof.
  induction l as [|y l IH]; cbn [sift]; [done|]. destruct (Less x y); [|done]. rewrite IH. apply perm_swap.
Qed.

Lemma sift_sorted x l : StronglySorted (flip before) l -> StronglySorted (flip before) (sift x l).
Proof.
  induction 1 as [|y l Hl IH Hy]; cbn [sift]; [by repeat constructor|].
  destruct (Less x y) eqn:E.
  - constructor; [done|]. rewrite sift_Permutation. constructor; [by apply Less_before|done].
  - apply Less_false in E. constructor; [by constructor|]. constructor; [done|]. eapply Forall_impl; [exact Hy|].
    intros z Hz. by eapply before_trans.
Qed.

Lemma sort_fold rows acc : StronglySorted (flip before) acc ->
  let r := fold_left (fun done x => sift x done) rows acc in
  StronglySorted (flip before) r /\ Permutation r (rows ++ acc).
Proof.
  revert acc. induction rows as [|x rows IH]; intros acc Hacc; cbn [fold_left app]; [done|].
  destruct (IH _ (sift_sorted x _ Hacc)) as [Hs Hp]. split; [done|].
  rewrite Hp, sift_Permutation. symmetry. apply Permutation_middle.
Qed.

Lemma StronglySorted_rev {A} (R : A -> A -> Prop) l : StronglySorted (flip R) l -> StronglySorted R (rev l).
Proof.
  induction 1 as [|x l Hl IH Hx]; cbn [rev]; [constructor|].
  apply StronglySorted_app. split_and!; [|done|by repeat constructor].
  intros a b Ha%list_elem_of_In%in_rev%list_elem_of_In Hb%list_elem_of_singleton. subst.
  rewrite Forall_forall in Hx. by apply Hx.
Qed.

Lemma sort_Sort_spec rows : StronglySorted before (sort_Sort rows) /\ Permutation (sort_Sort rows) rows.
Proof.
  destruct (sort_fold rows [] (SSorted_nil _)) as [Hs Hp]. unfold sort_Sort. split.
  - by apply StronglySorted_rev.
  - by rewrite <- Permutation_rev, Hp, app_nil_r.
Qed.

(** ** The table *)

(** Lad itself is at plus nothing. *)
Lemma pct_self n : 0 < n < 2 ^ 63 -> pct n n = go "+0%".
Proof.
  intros Hn. unfold pct. pose proof (of_int_exact 100 ltac:(lia)) as H100.
  pose proof (fmul_int _ _ 1 100 (fdiv_self n ltac:(lia)) H100 ltac:(lia)) as Hmul.
  by rewrite (fsub_int _ _ 100 Hmul H100) by lia.
Qed.

Section Table.
Variables (name : gostring) (results : gostring -> option bench) (input : list gostring).

(** The output has one line for each library that was measured. *)
Definition reported (lib : gostring) : Prop :=
  match results lib with
  | Some b => bench_ok name lib b /\ matching (marker name lib) input = [benchmark_line name lib b]
  | None => matching (marker name lib) input = []
  end.

Definition row_for (base : option bench) (lib : gostring) : option benchmarkRow := row_of base lib <$> results lib.

Lemma getBenchmarkRow_reported base lib : reported lib ->
  getBenchmarkRow input name lib (row_of None (go "lad") <$> base) = inl (row_for base lib).
Proof.
  unfold reported, row_for. destruct (results lib) as [b|]; intros Hr.
  - destruct Hr. by apply getBenchmarkRow_reads.
  - by apply getBenchmarkRow_missing.
Qed.

Lemma collect_rows_reported base order : Forall reported order ->
  collect_rows order input name (row_of None (go "lad") <$> base) = inl (omap (row_for base) order).
Proof.
  induction 1 as [|lib order Hl _ IH]; [done|]. cbn [collect_rows]. rewrite getBenchmarkRow_reported, IH by done.
  cbn. by destruct (row_for base lib).
Qed.

Lemma getBenchmarkRows_reported go_test order output :
  go_test name = (output, None) -> input = Split Byte.x0a output ->
  Permutation order libraries -> Forall reported libraries ->
  getBenchmarkRows go_test order name =
    inl (strings_Join (table_header ++ map row_String (sort_Sort (omap (row_for (results (go "lad"))) order))) [Byte.x0a]).
Proof.
  intros Hgo Hin Hord Hrep. unfold getBenchmarkRows, getBenchmarkOutput. rewrite Hgo, <- Hin.
  assert (reported (go "lad")) as Hlad by (rewrite Forall_forall in Hrep; apply Hrep; by left).
  assert (getBenchmarkRow input name (go "lad") None = inl (row_of None (go "lad") <$> results (go "lad"))) as ->
    by exact (getBenchmarkRow_reported None (go "lad") Hlad).
  rewrite collect_rows_reported; [done|]. by rewrite Hord.
Qed.
End Table.

(** C39.  The benchmark table of the README is right, whatever the order the map
    of the libraries is run through.  When [go test] printed one line for each
    library it measured, and lad is one of them, [getBenchmarkRows] succeeds; its
    rows are those of the measured libraries, each with the time and allocations
    [go test] printed; the rows of lad come first, each group is sorted by time,
    and lad itself stands at [+0%]. *)
Theorem readme_table go_test order name results output base
    (Hgo : go_test name = (output, None)) (Hord : Permutation order libraries)
    (Hrep : Forall (reported name results (Split Byte.x0a output)) libraries)
    (Hbase : results (go "lad") = Some base) (Hpos : 0 < b_ns base) :
  exists rows,
    getBenchmarkRows go_test order name = inl (strings_Join (table_header ++ map row_String rows) [Byte.x0a]) /\
    Permutation rows (omap (row_for results (Some base)) libraries) /\
    StronglySorted before rows /\
    In (go "| :lad: lad | " ++ FormatInt (b_ns base) ++ go " ns/op | +0% | " ++ FormatInt (b_allocs base) ++
        go " allocs/op") (map row_String rows).
Proof.
  exists (sort_Sort (omap (row_for results (Some base)) order)).
  rewrite (getBenchmarkRows_reported name results (Split Byte.x0a output) go_test order output Hgo eq_refl Hord Hrep).
  rewrite Hbase. destruct (sort_Sort_spec (omap (row_for results (Some base)) order)) as [Hs Hp].
  assert (Permutation (sort_Sort (omap (row_for results (Some base)) order)) (omap (row_for results (Some base)) libraries))
    as Hp' by (by rewrite Hp, Hord).
  split; [done|]. split; [done|]. split; [done|]. rewrite Hp'. unfold libraries.
  cbn [map fst libraryNameToMarkdownName omap list_omap].
  assert (row_for results (Some base) (go "lad") = Some (row_of (Some base) (go "lad") base)) as ->
    by (unfold row_for; by rewrite Hbase).
  left. unfold row_String, row_of. cbn [Time ladTime Name AllocatedObjects].
  assert (inInt (b_ns base)) as [_ Hlt].
  { rewrite Forall_forall in Hrep. specialize (Hrep (go "lad") ltac:(by left)). unfold reported in Hrep.
    rewrite Hbase in Hrep. by destruct Hrep as [[] _]. }
  by rewrite pct_self by done.
Qed.

(** *** Example: two libraries measured, between the other lines of the output *)

Definition exampleResults (lib : gostring) : option bench :=
  if streq lib (go "lad") then Some (mkBench (go "8   ") (go " 1000000") 1656 1024 5)
  else if streq lib (go "slog") then Some (mkBench (go "8  ") (go "  300000") 2479 1500 42)
  else None.

Definition exampleOutput : gostring :=
  strings_Join ([go "goos: linux"] ++
    omap (fun lib => benchmark_line (go "BenchmarkAddingFields") lib <$> exampleResults lib) (rev libraries) ++
    [go "PASS"; []]) [Byte.x0a].

Lemma exampleReported :
  Forall (reported (go "BenchmarkAddingFields") exampleResults (Split Byte.x0a exampleOutput)) libraries.
Proof.
  repeat apply Forall_cons_2; try apply Forall_nil_2.
  all: unfold reported; vm_compute exampleResults; cbv iota; try (vm_compute; reflexivity).
  all: split; [split|vm_compute; reflexivity].
  all: first [by repeat constructor | unfold inInt; cbn; lia].
Qed.

Lemma readme_table_witness :
  exists rows,
    getBenchmarkRows (fun _ => (exampleOutput, None)) (rev libraries) (go "BenchmarkAddingFields") =
      inl (strings_Join (table_header ++ map row_String rows) [Byte.x0a]) /\
    StronglySorted before rows.
Proof.
  destruct (readme_table (fun _ => (exampleOutput, None)) (rev libraries) (go "BenchmarkAddingFields") exampleResults
              exampleOutput (mkBench (go "8   ") (go " 1000000") 1656 1024 5) eq_refl
              (Permutation_sym (Permutation_rev libraries)) exampleReported eq_refl eq_refl)
    as (rows & Hr & _ & Hs & _). by exists rows.
Defined.

Example readme_table_text :
  getBenchmarkRows (fun _ => (exampleOutput, None)) (rev libraries) (go "BenchmarkAddingFields") =
    inl (strings_Join (table_header ++
      [go "| :lad: lad | 1656 ns/op | +0% | 5 allocs/op"; go "| slog | 2479 ns/op | +50% | 42 allocs/op"]) [Byte.x0a]).
Proof. vm_compute. reflexivity. Qed.

(** The order of the map shows only in rows of one group with equal times. *)
Theorem readme_order_independent go_test order order' name results output
    (Hgo : go_test name = (output, None))
    (Hord : Permutation order libraries) (Hord' : Permutation order' libraries)
    (Hrep : Forall (reported name results (Split Byte.x0a output)) libraries)
    (Hties : forall r r', In r (omap (row_for results (results (go "lad"))) libraries) ->
       In r' (omap (row_for results (results (go "lad"))) libraries) ->
       isLad r = isLad r' -> Time r = Time r' -> r = r') :
  getBenchmarkRows go_test order name = getBenchmarkRows go_test order' name.
Proof.
  rewrite (getBenchmarkRows_reported name results (Split Byte.x0a output) go_test order output Hgo eq_refl Hord Hrep).
  rewrite (getBenchmarkRows_reported name results (Split Byte.x0a output) go_test order' output Hgo eq_refl Hord' Hrep).
  do 4 f_equal. set (f := row_for results (results (go "lad"))) in *.
  destruct (sort_Sort_spec (omap f order)) as [Hs Hp]. destruct (sort_Sort_spec (omap f order')) as [Hs' Hp'].
  assert (forall r o, Permutation o libraries -> In r (sort_Sort (omap f o)) -> In r (omap f libraries)) as Hin.
  { intros r o Ho Hr. rewrite (proj2 (sort_Sort_spec _)), Ho in Hr. done. }
  eapply (StronglySorted_unique_strong before); [|done|done|by rewrite Hp, Hp', Hord, Hord'].
  intros r r' Hr%list_elem_of_In Hr'%list_elem_of_In [[Ha Hb]|[Ha Hle]] [[Hc Hd]|[Hc Hle']]; try congruence.
  apply Hties; eauto; lia.
Qed.

(** Without a line for lad there is nothing to compare with. *)
Example readme_without_lad :
  pct 1656 0 = go "+Inf%" /\ pct 0 0 = go "+NaN%".
Proof. vm_compute. done. Qed.
